(** * Double Ratchet (TypeScript): a shallow embedding and its properties

    The development follows the layout of the repository:
    - [utils/buffer.ts], [utils/convert.ts]        : modules [Buffer], [Convert]
    - [crypto/key_pair.ts], [crypto/curve.ts]      : [ECPublicKey], modules [PublicKey], [Curve]
    - [crypto/secret.ts] (not part of the sources) : module [Secret]
    - [const.ts], [data/identity.ts]               : the constants, module [Identity]
    - [ratchet/x3dh.ts]                            : module [X3DH]
    - [protocol/serialization.ts], [converter.ts]  : modules [Serialization], [Converter]
    - the protocol classes                         : one module for each class
    - [sym_ratchet.ts]                             : [SendingRatchet], [ReceivingRatchet]
    - [ratchet/dh-step.ts]                         : the steps and their ring
    - [ratchet/asymmetric-ratchet.ts]              : module [AsymmetricRatchet]

    Then come an engine that computes, the definitions the properties are
    stated with, and the properties.

    Byte strings ([ArrayBuffer], [Uint8Array]) are lists of bytes; JavaScript
    numbers that hold counters and lengths are integers of [Z]; a thrown
    [Error] is the [Err] case of [result]. *)

From Stdlib Require Import ZArith List Bool Lia DecimalString DecimalZ.
From Stdlib.Strings Require Import Byte Ascii String.
From stdpp Require Import gmap strings list fin_maps pretty sorting.
Import ListNotations.
Local Open Scope Z_scope.

(** ** Results of fallible code *)

Abbreviation bytes := (list byte).

(** Every [throw new Error(...)] of the modelled sources, by the place that
    raises it. *)
Inductive Error : Type :=
  | InvalidPrivateKeyX25519        (* deriveBytes: "Invalid private key for X25519" *)
  | InvalidPrivateKeyEd25519       (* sign: "Invalid private key for Ed25519" *)
  | InvalidPublicKeyX25519         (* deriveBytes: "Invalid public key for X25519" *)
  | InvalidPublicKeySizeEd25519    (* verify: "Invalid public key size for Ed25519" *)
  | InvalidSignatureSizeEd25519    (* verify: "Invalid signature size for Ed25519" *)
  | EngineError                    (* an exception raised inside @noble/curves *)
  | TypeError                      (* property read on [undefined] *)
  | BadIdentity                    (* create: "Remote client's identity key is invalid." *)
  | BadSignedPreKey                (* create: "Remote client's signed prekey is invalid." *)
  | SignedPreKeyNotFound           (* create: "PreKey with id ... not found" *)
  | MessageOutsideRatchetWindow    (* decrypt: "Message too old - outside ratchet window" *)
  | CounterTooOld                  (* getKey: "Message with counter ... is too old" *)
  | DecryptFailed                  (* Secret.decrypt: AES-GCM tag mismatch *)
  | MessageNotVerified             (* decrypt: "The Message did not successfully verify!" *)
  | EmptyRemoteRatchetKey          (* encrypt: "currentStep has empty remoteRatchetKey" *)
  | NoMetadata                     (* exportProto/importProto: "No metadata found" *)
  | RequiredUndefined (key : string)           (* exportProto: required property undefined *)
  | FailedToSerialize (key : string) (cause : Error)
  | NotEnoughBytesForHeader                    (* importProto *)
  | LengthExceedsData (fieldId len : Z)        (* importProto *)
  | FailedToDeserialize (key : string) (cause : Error)
  | RequiredNotFound (key : string)            (* importProto *)
  | ExpectedFourBytes (got : Z)                (* deserializeUint32 *)
  | InvalidKeyLength (got : Z)                 (* converters, createFromBytes *)
  | InvalidDate                                (* toISOString on an invalid Date *)
  | FailedToDeriveMessageKey                   (* getKey: "Failed to derive message key" *)
  | CannotSerializeKey                         (* ecKeyPairToJson: "missing raw bytes" *)
  | LoopBound.                                 (* the bound of a modelled loop; never returned *)

Inductive result (A : Type) : Type :=
  | Ok (a : A)
  | Err (e : Error).
Arguments Ok {A} a.
Arguments Err {A} e.

Definition bind {A B} (r : result A) (k : A -> result B) : result B :=
  match r with
  | Ok a => k a
  | Err e => Err e
  end.

Notation "'let*' x ':=' r 'in' k" := (bind r (fun x => k))
  (at level 10, x pattern, r at level 100, k at level 200).

(** [o ?? e]: the value read from a property that may be [undefined]. *)
Definition req {A} (o : option A) : result A :=
  match o with
  | Some a => Ok a
  | None => Err TypeError
  end.

Definition blen (b : bytes) : Z := Z.of_nat (length b).

(** ** The injected primitives

    [@noble/curves] (x25519, ed25519) and WebCrypto (SHA-256, HMAC, HKDF,
    AES-GCM) are libraries the repository calls; they are the fields of a
    class.  A primitive that may raise returns a [result]. *)
Class Engine : Type := {
  sha256 : bytes -> bytes;
  x25519_getPublicKey : bytes -> bytes;
  x25519_getSharedSecret : bytes -> bytes -> result bytes;
  (* ed25519.verify(signature, message, publicKey) *)
  ed25519_verify : bytes -> bytes -> bytes -> result bool;
  (* ed25519.sign(message, privateKey) *)
  ed25519_sign : bytes -> bytes -> bytes;
  (* HMAC-SHA-256: key, data *)
  hmac_sha256 : bytes -> bytes -> bytes;
  (* HKDF-SHA-256: input key material, number of 32-byte blocks, salt, info *)
  hkdf_sha256 : bytes -> nat -> bytes -> bytes -> list bytes;
  (* AES-256-GCM: key, iv, associated data, text *)
  aes_gcm_encrypt : bytes -> bytes -> bytes -> bytes -> bytes;
  aes_gcm_decrypt : bytes -> bytes -> bytes -> bytes -> option bytes;
  (* Date.prototype.toISOString on a valid time value; new Date(string) *)
  toISOString : Z -> string;
  Date_parse : string -> option Z;
  (* TextEncoder.encode, TextDecoder.decode *)
  utf8_encode : string -> bytes;
  utf8_decode : bytes -> string;
}.

(** What the callers rely on. *)
Class EngineLaws (E : Engine) : Prop := {
  sha256_length : forall data, length (sha256 data) = 32%nat;
  x25519_agree : forall a b,
    length a = 32%nat -> length b = 32%nat ->
    x25519_getSharedSecret a (x25519_getPublicKey b)
    = x25519_getSharedSecret b (x25519_getPublicKey a);
  x25519_public_length : forall a,
    length a = 32%nat -> length (x25519_getPublicKey a) = 32%nat;
  hkdf_blocks : forall ikm n salt info,
    length (hkdf_sha256 ikm n salt info) = n;
  hkdf_block_length : forall ikm n salt info blk,
    In blk (hkdf_sha256 ikm n salt info) -> length blk = 32%nat;
  aes_gcm_correct : forall key iv aad text,
    aes_gcm_decrypt key iv aad (aes_gcm_encrypt key iv aad text) = Some text;
  date_iso_roundtrip : forall ms,
    -8640000000000000 <= ms <= 8640000000000000 ->
    Date_parse (utf8_decode (utf8_encode (toISOString ms))) = Some ms;
}.

(** X25519 between two honest parties yields a shared secret:
    [x25519.getSharedSecret] of a 32-byte private key and the public key
    of a 32-byte private key returns, and returns 32 bytes. *)
Class X25519Laws (E : Engine) : Prop := {
  x25519_shared : forall a b,
    length a = 32%nat -> length b = 32%nat ->
    exists secret,
      x25519_getSharedSecret a (x25519_getPublicKey b) = Ok secret
      /\ length secret = 32%nat;
  (* where it does throw, the exception is its own *)
  x25519_error : forall a b e,
    x25519_getSharedSecret a b = Err e -> e = EngineError;
}.

(** ** The conversion and persistence code

    A public [CryptoKey] as an [ECPublicKey] stores it and as [toJSON]
    writes it: the name of its algorithm, its [type], and the raw bytes
    this library attaches to the keys it builds. *)
Record PublicCryptoKey : Type := {
  ck_name : string;
  ck_type : string;
  ck_rawBytes : option bytes;
}.

(** The rest of the platform: [ed25519.getPublicKey] of [@noble/curves];
    [crypto.subtle.exportKey("jwk", key)], of whose result the code reads
    the members [x] and [y]; [atob] and [btoa]. *)
Class Platform : Type := {
  ed25519_getPublicKey : bytes -> bytes;
  exportKey_jwk : PublicCryptoKey -> result (option string * option string);
  atob : string -> result string;
  btoa : string -> string;
}.

(** The errors this code raises, by the place that raises them; [Raised]
    is an error of the list above. *)
Inductive Failure : Type :=
  | InvalidHexLength          (* FromHex: "Invalid hex string length" *)
  | UnsupportedKeyAlgorithm   (* ECPublicKey.create: "Unsupported asymmetric key algorithm" *)
  | ExpectedPublicKey         (* ECPublicKey.create: "Expected key type to be public" *)
  | FailedToProcessPublicKey  (* ECPublicKey.create: "Failed to process public key" *)
  | LegacyKeyFormat           (* importKey: "Legacy key format not supported" *)
  | UnsupportedKeyLength (got : Z)  (* importKey: "Unsupported key length" *)
  | MissingKeyData            (* ecKeyPairFromJson: "missing privateKey or publicKey" *)
  | UnsupportedAlgorithm      (* ecKeyPairFromJson: "Unsupported algorithm" *)
  | WrongRemoteSignature      (* RemoteIdentity.fromJSON: "Wrong signature for RemoteIdentity" *)
  | Raised (e : Error).

Inductive outcome (A : Type) : Type :=
  | Done (a : A)
  | Failed (f : Failure).
Arguments Done {A} a.
Arguments Failed {A} f.

Definition bindO {A B} (r : outcome A) (k : A -> outcome B) : outcome B :=
  match r with
  | Done a => k a
  | Failed f => Failed f
  end.

Notation "'let^' x ':=' r 'in' k" := (bindO r (fun x => k))
  (at level 10, x pattern, r at level 100, k at level 200).

(** A call of the code above. *)
Definition raise {A} (r : result A) : outcome A :=
  match r with
  | Ok a => Done a
  | Err e => Failed (Raised e)
  end.

(** What the callers rely on: a signature made with a private key is 64
    bytes long and verifies under the public key of that private key,
    which is 32 bytes long. *)
Class PlatformLaws (E : Engine) (P : Platform) : Prop := {
  ed25519_public_length : forall sk,
    length sk = 32%nat -> length (ed25519_getPublicKey sk) = 32%nat;
  ed25519_signature_length : forall msg sk,
    length sk = 32%nat -> length (ed25519_sign msg sk) = 64%nat;
  ed25519_correct : forall msg sk,
    length sk = 32%nat ->
    ed25519_verify (ed25519_sign msg sk) msg (ed25519_getPublicKey sk) = Ok true;
}.

(** ** utils/buffer.ts *)
Module Buffer.

(** [combine(...buffers)] *)
Definition combine (buffers : list bytes) : bytes := concat buffers.

Definition byteZ (b : byte) : Z := Z.of_N (Byte.to_N b).

(** The accumulator of the loop of [isEqual]:
    [result |= viewA[i] ^ viewB[i]]. *)
Fixpoint isEqual_loop (a b : bytes) (acc : Z) : Z :=
  match a, b with
  | x :: a', y :: b' => isEqual_loop a' b' (Z.lor acc (Z.lxor (byteZ x) (byteZ y)))
  | _, _ => acc
  end.

Definition isEqual (a b : bytes) : bool :=
  if negb (blen a =? blen b) then false
  else isEqual_loop a b 0 =? 0.

End Buffer.

(** ** utils/convert.ts *)
Module Convert.

Definition hex_digit (n : N) : ascii :=
  match n with
  | 0%N => "0" | 1%N => "1" | 2%N => "2" | 3%N => "3" | 4%N => "4"
  | 5%N => "5" | 6%N => "6" | 7%N => "7" | 8%N => "8" | 9%N => "9"
  | 10%N => "a" | 11%N => "b" | 12%N => "c" | 13%N => "d" | 14%N => "e"
  | _ => "f"
  end%char.

(** [byte.toString(16).padStart(2, "0")], joined. *)
Fixpoint ToHex (data : bytes) : string :=
  match data with
  | [] => EmptyString
  | b :: rest =>
      String (hex_digit (Byte.to_N b / 16)) (String (hex_digit (Byte.to_N b mod 16)) (ToHex rest))
  end.

(** [FromBinary]: one byte per character code. *)
Definition FromBinary (data : string) : bytes := list_byte_of_string data.

(** [ToBinary]: one character per byte. *)
Definition ToBinary (data : bytes) : string := string_of_list_byte data.

(** [FromString], [ToString]: UTF-8. *)
Definition FromString {E : Engine} (data : string) : bytes := utf8_encode data.
Definition ToString {E : Engine} (data : bytes) : string := utf8_decode data.

(** The characters that [/\s/] matches, among those of code below 256. *)
Definition is_space (c : ascii) : bool :=
  let n := N_of_ascii c in
  ((9 <=? n) && (n <=? 13) || (n =? 32) || (n =? 160))%N.

(** [hex.replace(/\s/g, "")] *)
Fixpoint remove_spaces (s : string) : string :=
  match s with
  | EmptyString => EmptyString
  | String c rest => if is_space c then remove_spaces rest else String c (remove_spaces rest)
  end.

Definition digit16 (c : ascii) : option Z :=
  let n := Z.of_N (N_of_ascii c) in
  if (48 <=? n) && (n <=? 57) then Some (n - 48)
  else if (97 <=? n) && (n <=? 102) then Some (n - 87)
  else if (65 <=? n) && (n <=? 70) then Some (n - 55)
  else None.

(** The value of the longest prefix of hexadecimal digits; [None] when
    there is no digit. *)
Fixpoint digits16 (s : string) (acc : option Z) : option Z :=
  match s with
  | EmptyString => acc
  | String c rest =>
      match digit16 c with
      | Some d => digits16 rest (Some (16 * default 0 acc + d))
      | None => acc
      end
  end.

Fixpoint trim_start (s : string) : string :=
  match s with
  | EmptyString => EmptyString
  | String c rest => if is_space c then trim_start rest else s
  end.

(** [parseInt(s, 16)]: leading white space, a sign, the prefix [0x], then
    digits; [None] is [NaN]. *)
Definition parseInt16 (s : string) : option Z :=
  let s := trim_start s in
  let '(sign, s) :=
    match s with
    | String c rest =>
        if Ascii.eqb c "-" then (-1, rest)
        else if Ascii.eqb c "+" then (1, rest)
        else (1, s)
    | EmptyString => (1, s)
    end in
  let s :=
    match s with
    | String c (String d rest) =>
        if Ascii.eqb c "0" && (Ascii.eqb d "x" || Ascii.eqb d "X") then rest else s
    | _ => s
    end in
  Z.mul sign <$> digits16 s None.

(** The store of a number into a [Uint8Array]: [NaN] becomes 0, an integer
    is taken modulo 256. *)
Definition ToUint8 (v : option Z) : byte :=
  default x00 (Byte.of_N (Z.to_N (default 0 v mod 256))).

(** The loop of [FromHex]: [bytes[i / 2] = parseInt(hex.substr(i, 2), 16)]. *)
Fixpoint FromHex_loop (hex : string) : bytes :=
  match hex with
  | String a (String b rest) =>
      ToUint8 (parseInt16 (String a (String b EmptyString))) :: FromHex_loop rest
  | _ => []
  end.

(** [FromHex(hex)], on a string of characters of code below 256. *)
Definition FromHex (hex : string) : outcome bytes :=
  let hex := remove_spaces hex in
  if negb (Nat.even (String.length hex)) then Failed InvalidHexLength
  else Done (FromHex_loop hex).

(** [s.replace(/a/g, b)] for a character [a] and a string [b]. *)
Fixpoint replace_char (a : ascii) (b : string) (s : string) : string :=
  match s with
  | EmptyString => EmptyString
  | String c rest =>
      if Ascii.eqb c a then b +:+ replace_char a b rest
      else String c (replace_char a b rest)
  end.

(** [ToBase64], [FromBase64] *)
Definition ToBase64 {P : Platform} (data : bytes) : string := btoa (ToBinary data).

Definition FromBase64 {P : Platform} (base64 : string) : result bytes :=
  let* binary := atob base64 in
  Ok (FromBinary binary).

(** [ToBase64Url], [FromBase64Url] *)
Definition ToBase64Url {P : Platform} (data : bytes) : string :=
  replace_char "=" "" (replace_char "/" "_" (replace_char "+" "-" (ToBase64 data))).

Definition FromBase64Url {P : Platform} (base64url : string) : result bytes :=
  let base64 := replace_char "_" "/" (replace_char "-" "+" base64url) in
  let padding := (String.length base64 mod 4)%nat in
  let base64 :=
    if (padding =? 0)%nat then base64
    else base64 +:+ string_of_list_ascii (repeat "="%char (4 - padding)) in
  FromBase64 base64.

End Convert.

(** ** crypto/public_key.ts, crypto/key_pair.ts *)

Inductive CurveType : Type := Ed25519 | X25519.

(** A private [CryptoKey] as [Curve.createPrivateKey] builds it: the curve
    of [algorithm], the [extractable] flag and [_rawBytes], which is absent
    on keys that came from elsewhere; [type] is ["private"] and [usages]
    follows from the curve. *)
Record CryptoKey : Type := {
  algorithm : CurveType;
  extractable : bool;
  rawBytes : option bytes;
}.

(** [ECPublicKey]: [id] is the hex thumbprint stored at creation.  The
    member [key] is not a field of the record: what the code reads of it,
    the algorithm name, the type and [_rawBytes], is given by
    [PublicKey.key] from the curve and the raw bytes. *)
Record ECPublicKey : Type := {
  pk_id : string;
  pk_type : CurveType;
  serialized : bytes;
}.

Record IECKeyPair : Type := {
  privateKey : CryptoKey;
  publicKey : ECPublicKey;
}.

Module PublicKey.
Section WithEngine.
Context {E : Engine}.

(** [thumbprint()]: hex of the SHA-256 digest of the raw key. *)
Definition thumbprint (raw : bytes) : string := Convert.ToHex (sha256 raw).

(** [ECPublicKey.createFromBytes(bytes, type)] *)
Definition createFromBytes (keyBytes : bytes) (type : CurveType) : result ECPublicKey :=
  if negb (blen keyBytes =? 32) then Err (InvalidKeyLength (blen keyBytes))
  else Ok {| pk_id := thumbprint keyBytes; pk_type := type; serialized := keyBytes |}.

(** [isEqual(other)] *)
Definition isEqual (this other : ECPublicKey) : bool :=
  Buffer.isEqual (serialized this) (serialized other).

Context {P : Platform}.

Definition curveName (type : CurveType) : string :=
  match type with
  | Ed25519 => "Ed25519"
  | X25519 => "X25519"
  end.

(** The [key] of an [ECPublicKey], as [createFromBytes] builds it: the
    name of the curve, the type ["public"] and the raw bytes.  A key that
    [create(publicKey)] built holds the [publicKey] it was given, which can
    differ from this one in its algorithm name (["ECDH"], ["ECDSA"], or
    another case of the letters) and in having no [_rawBytes]; [create]
    gives for both the same curve and, where [_rawBytes] is there, the same
    bytes. *)
Definition key (this : ECPublicKey) : PublicCryptoKey :=
  {| ck_name := curveName (pk_type this); ck_type := "public";
     ck_rawBytes := Some (serialized this) |}.

(** [toUpperCase()] on the letters a to z; the upper case of another
    character occurs in none of the names it is compared with. *)
Definition upper (c : ascii) : ascii :=
  let n := N_of_ascii c in
  if ((97 <=? n) && (n <=? 122))%N then ascii_of_N (n - 32) else c.

Fixpoint toUpperCase (s : string) : string :=
  match s with
  | EmptyString => EmptyString
  | String c rest => String (upper c) (toUpperCase rest)
  end.

(** The algorithm names [create] accepts; [ECDSA] and [ECDH] are read as
    the curve of their role. *)
Definition curve_of_algName (algName : string) : option CurveType :=
  if String.eqb algName "ED25519" || String.eqb algName "ECDSA" then Some Ed25519
  else if String.eqb algName "X25519" || String.eqb algName "ECDH" then Some X25519
  else None.

(** The [try] block of [create]: the key as the concatenation of the
    members [x] and [y] of its JWK.  Whatever it raises is caught. *)
Definition create_from_jwk (publicKey : PublicCryptoKey) : result bytes :=
  let* jwk := exportKey_jwk publicKey in
  match jwk with
  | (Some x, Some y) =>
      if String.eqb x "" || String.eqb y "" then Err EngineError
      else
        let* x := Convert.FromBase64Url x in
        let* y := Convert.FromBase64Url y in
        let xy := Convert.ToBinary x +:+ Convert.ToBinary y in
        Ok (Convert.FromBinary xy)
  | _ => Err EngineError
  end.

(** [ECPublicKey.create(publicKey)]; the length of the raw bytes is not
    examined. *)
Definition create (publicKey : PublicCryptoKey) : outcome ECPublicKey :=
  let algName := toUpperCase (ck_name publicKey) in
  match curve_of_algName algName with
  | None => Failed UnsupportedKeyAlgorithm
  | Some type =>
      if negb (String.eqb (ck_type publicKey) "public") then Failed ExpectedPublicKey
      else
        match ck_rawBytes publicKey with
        | Some rawBytes =>
            Done {| pk_id := thumbprint rawBytes; pk_type := type; serialized := rawBytes |}
        | None =>
            match create_from_jwk publicKey with
            | Ok xy => Done {| pk_id := thumbprint xy; pk_type := type; serialized := xy |}
            | Err _ => Failed FailedToProcessPublicKey
            end
        end
  end.

(** [ECPublicKey.importKey(bytes, type)] *)
Definition importKey (keyBytes : bytes) (type : CurveType) : outcome ECPublicKey :=
  if blen keyBytes =? 32 then raise (createFromBytes keyBytes type)
  else if blen keyBytes =? 64 then Failed LegacyKeyFormat
  else Failed (UnsupportedKeyLength (blen keyBytes)).

End WithEngine.
End PublicKey.

(** ** crypto/curve.ts *)
Module Curve.
Section WithEngine.
Context {E : Engine}.

(** [try { body } catch (error) { handler }] *)
Definition try_catch {A} (body : result A) (handler : Error -> result A) : result A :=
  match body with
  | Ok a => Ok a
  | Err e => handler e
  end.

(** [Curve.deriveBytes(privateKey, publicKey)] *)
Definition deriveBytes (privateKey : CryptoKey) (publicKey : ECPublicKey) : result bytes :=
  match rawBytes privateKey with
  | None => Err InvalidPrivateKeyX25519
  | Some privateKeyBytes =>
      if negb (blen privateKeyBytes =? 32) then Err InvalidPrivateKeyX25519
      else if negb (blen (serialized publicKey) =? 32) then Err InvalidPublicKeyX25519
      else x25519_getSharedSecret privateKeyBytes (serialized publicKey)
  end.

(** The body of the [try] block of [Curve.verify]. *)
Definition verify_body (signingKey : ECPublicKey) (message signature : bytes) : result bool :=
  if negb (blen (serialized signingKey) =? 32) then Err InvalidPublicKeySizeEd25519
  else if negb (blen signature =? 64) then Err InvalidSignatureSizeEd25519
  else ed25519_verify signature message (serialized signingKey).

(** [Curve.verify(signingKey, message, signature)]: the [catch] clause logs
    and returns [false]. *)
Definition verify (signingKey : ECPublicKey) (message signature : bytes) : result bool :=
  try_catch (verify_body signingKey message signature) (fun _ => Ok false).

(** [Curve.sign(signingKey, message)] *)
Definition sign (signingKey : CryptoKey) (message : bytes) : result bytes :=
  match rawBytes signingKey with
  | None => Err InvalidPrivateKeyEd25519
  | Some privateKeyBytes =>
      if negb (blen privateKeyBytes =? 32) then Err InvalidPrivateKeyEd25519
      else Ok (ed25519_sign message privateKeyBytes)
  end.

(** [Curve.ecKeyPairToJson(key)]; the argument is an element of an array
    and may be a hole. *)
Record JsonKeyPair : Type := {
  json_privateKey : bytes;
  json_publicKey : bytes;
  json_algorithm : CurveType;
  json_thumbprint : string;
}.

Definition ecKeyPairToJson (key : option IECKeyPair) : result JsonKeyPair :=
  let* key := req key in
  match rawBytes (privateKey key) with
  | None => Err CannotSerializeKey
  | Some privateKeyBytes =>
      Ok {| json_privateKey := privateKeyBytes;
            json_publicKey := serialized (publicKey key);
            json_algorithm := algorithm (privateKey key);
            json_thumbprint := PublicKey.thumbprint (serialized (publicKey key)) |}
  end.

Context {P : Platform}.

(** [Curve.createPrivateKey(rawBytes, curveName, extractable)] *)
Definition createPrivateKey (raw : bytes) (curveName : CurveType) (extractable : bool)
    : CryptoKey :=
  {| algorithm := curveName; extractable := extractable; rawBytes := Some raw |}.

(** [Curve.generateKeyPair(type, extractable)]; [privateKeyBytes] is what
    [randomPrivateKey()] returns. *)
Definition generateKeyPair (type : CurveType) (extractable : bool) (privateKeyBytes : bytes)
    : result IECKeyPair :=
  match type with
  | X25519 =>
      let publicKeyBytes := x25519_getPublicKey privateKeyBytes in
      let privateKey := createPrivateKey privateKeyBytes X25519 extractable in
      let* publicKey := PublicKey.createFromBytes publicKeyBytes X25519 in
      Ok {| privateKey := privateKey; publicKey := publicKey |}
  | Ed25519 =>
      let publicKeyBytes := ed25519_getPublicKey privateKeyBytes in
      let privateKey := createPrivateKey privateKeyBytes Ed25519 extractable in
      let* publicKey := PublicKey.createFromBytes publicKeyBytes Ed25519 in
      Ok {| privateKey := privateKey; publicKey := publicKey |}
  end.

(** The argument of [ecKeyPairFromJson], declared [unknown]: what the code
    reads of it. *)
Record JsonAlgorithm : Type := {
  alg_name : option string;
  alg_namedCurve : option string;
}.

Record JsonKeyData : Type := {
  data_privateKey : option (list Z);
  data_publicKey : option (list Z);
  data_algorithm : option JsonAlgorithm;
}.

(** The object [ecKeyPairToJson] returns, read as such an argument:
    [Array.from] gives the bytes as numbers, and [algorithm] is the
    object [createPrivateKey] stored. *)
Definition keyData (json : JsonKeyPair) : JsonKeyData :=
  {| data_privateKey := Some (Buffer.byteZ <$> json_privateKey json);
     data_publicKey := Some (Buffer.byteZ <$> json_publicKey json);
     data_algorithm :=
       Some {| alg_name := Some (PublicKey.curveName (json_algorithm json));
               alg_namedCurve := Some (PublicKey.curveName (json_algorithm json)) |} |}.

(** [a || b] on strings: [undefined] and the empty string are falsy. *)
Definition or_string (a b : option string) : option string :=
  match a with
  | Some s => if String.eqb s "" then b else Some s
  | None => b
  end.

Definition curve_of_algorithmName (algorithmName : option string) : option CurveType :=
  match algorithmName with
  | Some name =>
      if String.eqb name "X25519" || String.eqb name "ECDH" then Some X25519
      else if String.eqb name "Ed25519" || String.eqb name "ECDSA" then Some Ed25519
      else None
  | None => None
  end.

(** [new Uint8Array(numbers)] *)
Definition Uint8Array_from (numbers : list Z) : bytes :=
  (fun n => Convert.ToUint8 (Some n)) <$> numbers.

(** [Curve.ecKeyPairFromJson(data)] *)
Definition ecKeyPairFromJson (keyData : JsonKeyData) : outcome IECKeyPair :=
  match data_privateKey keyData, data_publicKey keyData with
  | Some privateKey, Some publicKey =>
      let privateKeyBytes := Uint8Array_from privateKey in
      let publicKeyBytes := Uint8Array_from publicKey in
      let algorithmName :=
        or_string (data_algorithm keyData ≫= alg_name)
          (data_algorithm keyData ≫= alg_namedCurve) in
      match curve_of_algorithmName algorithmName with
      | None => Failed UnsupportedAlgorithm
      | Some curveType =>
          let privateKey := createPrivateKey privateKeyBytes curveType true in
          let^ publicKey :=
            raise (PublicKey.createFromBytes publicKeyBytes curveType) in
          Done {| privateKey := privateKey; publicKey := publicKey |}
      end
  | _, _ => Failed MissingKeyData
  end.

End WithEngine.
End Curve.

(** ** crypto/secret.ts *)
Module Secret.
Section WithEngine.
Context {E : Engine}.

(** Modelled from the spec: [Secret.HKDF(input, n, salt, info)] of
    crypto/secret.ts, which is not among the sources.  HKDF uses SHA-256;
    when invoked with no salt, the salt is a 32-byte zero vector; the
    function extracts then expands into [n] 32-byte output blocks. *)
Definition HKDF (input : bytes) (n : nat) (salt : option bytes) (info : bytes) : list bytes :=
  hkdf_sha256 input n (default (repeat x00 32) salt) info.

(** Modelled from the spec: [Secret.importHMAC] and [Secret.importAES] of
    crypto/secret.ts import raw bytes as an HMAC-SHA-256, respectively
    AES-256 key; a symmetric key is held as its bytes. *)
Definition importHMAC (raw : bytes) : bytes := raw.
Definition importAES (raw : bytes) : bytes := raw.

(** Modelled from the spec: [Secret.sign(key, data)] of crypto/secret.ts is
    HMAC-SHA-256 of [data] under [key]. *)
Definition sign (key data : bytes) : bytes := hmac_sha256 key data.

(** Modelled from the spec: [Secret.encrypt(key, data, iv, aad)] of
    crypto/secret.ts is AES-256-GCM, its output the ciphertext followed by
    the tag. *)
Definition encrypt (key data iv : bytes) (aad : option bytes) : bytes :=
  aes_gcm_encrypt key iv (default [] aad) data.

(** Modelled from the spec: [Secret.decrypt(key, data, iv, aad)] of
    crypto/secret.ts; decryption that fails GCM tag verification raises
    [DecryptFailed]. *)
Definition decrypt (key data iv : bytes) (aad : option bytes) : result bytes :=
  match aes_gcm_decrypt key iv (default [] aad) data with
  | Some text => Ok text
  | None => Err DecryptFailed
  end.

End WithEngine.
End Secret.

(** ** const.ts *)
Definition DEFAULT_MAX_RATCHET_STEPS : Z := 1000.
Definition DEFAULT_MAX_SKIPPED_KEYS : Z := 10000.
Definition DEFAULT_SKIPPED_KEY_TTL : Z := 7 * 24 * 60 * 60 * 1000.
Definition DEFAULT_MAX_MESSAGE_KEYS_PER_STEP : Z := 1000.

Definition INFO_TEXT : bytes := Convert.FromBinary "Signal_X3DH".
Definition INFO_RATCHET : bytes := Convert.FromBinary "WhisperRatchet".
Definition INFO_MESSAGE_KEYS : bytes := Convert.FromBinary "WhisperMessageKeys".

Definition X3DH_SALT_LENGTH : nat := 32.
Definition X3DH_FILL_BYTE : byte := xff.

Record IRatchetLimits : Type := {
  maxRatchetSteps : Z;
  maxSkippedKeys : Z;
  skippedKeyTTL : Z;
  maxMessageKeysPerStep : Z;
}.

Definition DEFAULT_RATCHET_LIMITS : IRatchetLimits := {|
  maxRatchetSteps := DEFAULT_MAX_RATCHET_STEPS;
  maxSkippedKeys := DEFAULT_MAX_SKIPPED_KEYS;
  skippedKeyTTL := DEFAULT_SKIPPED_KEY_TTL;
  maxMessageKeysPerStep := DEFAULT_MAX_MESSAGE_KEYS_PER_STEP;
|}.

(** ** JavaScript arrays with holes

    [identity.preKeys] is an array on which the code uses [delete]: a slot
    becomes a hole, the length stays. *)
Module JsArray.

Definition get {A} (arr : list (option A)) (i : Z) : option A :=
  if i <? 0 then None else mjoin (arr !! Z.to_nat i).

(** [delete arr[i]] *)
Definition delete {A} (arr : list (option A)) (i : Z) : list (option A) :=
  if i <? 0 then arr else <[Z.to_nat i := None]> arr.

(** [arr.length] *)
Definition length {A} (arr : list (option A)) : Z := Z.of_nat (List.length arr).

(** [Object.keys(arr)]: the indices the array has as own properties, that
    is, the slots that are not holes (the source gets them as strings);
    [keys_from i] numbers the slots from [i]. *)
Fixpoint keys_from {A} (i : Z) (arr : list (option A)) : list Z :=
  match arr with
  | [] => []
  | Some _ :: rest => i :: keys_from (i + 1) rest
  | None :: rest => keys_from (i + 1) rest
  end.

Definition keys {A} (arr : list (option A)) : list Z := keys_from 0 arr.

End JsArray.

(** A [Date]: its time value in milliseconds, or an invalid date. *)
Inductive JsDate : Type :=
  | DateAt (ms : Z)
  | InvalidDateValue.

(** ** data/identity.ts *)
Module Identity.
Record t : Type := {
  id : Z;
  signingKey : IECKeyPair;
  exchangeKey : IECKeyPair;
  createdAt : JsDate;
  preKeys : list (option IECKeyPair);
  signedPreKeys : list (option IECKeyPair);
}.

(** The two loops of [toJSON()]: [for (const key of this.preKeys)
    preKeys.push(await Curve.ecKeyPairToJson(key))], and the same for the
    signed pre-keys.  Iterating an array visits its holes as [undefined]. *)
Fixpoint keysToJson {E : Engine} (keys : list (option IECKeyPair))
    : result (list Curve.JsonKeyPair) :=
  match keys with
  | [] => Ok []
  | key :: rest =>
      let* j := Curve.ecKeyPairToJson key in
      let* js := keysToJson rest in
      Ok (j :: js)
  end.

Definition toJSON_preKeys {E : Engine} (this : t)
    : result (list Curve.JsonKeyPair * list Curve.JsonKeyPair) :=
  let* preKeys := keysToJson (preKeys this) in
  let* signedPreKeys := keysToJson (signedPreKeys this) in
  Ok (preKeys, signedPreKeys).

(** The two loops of [Identity.create]: [amount] key pairs for X25519,
    [random n] being the [n]-th result of [randomPrivateKey()]. *)
Fixpoint generateKeys {E : Engine} {P : Platform} (amount : nat) (extractable : bool)
    (random : nat -> bytes) (first : nat) : result (list (option IECKeyPair)) :=
  match amount with
  | O => Ok []
  | S amount' =>
      let* key := Curve.generateKeyPair X25519 extractable (random first) in
      let* keys := generateKeys amount' extractable random (S first) in
      Ok (Some key :: keys)
  end.

(** [Identity.create(id, signedPreKeyAmount, preKeyAmount, extractable)];
    [now] is the time [new Date()] reads.  The default of [extractable] is
    [false]. *)
Definition create {E : Engine} {P : Platform} (id : Z) (signedPreKeyAmount preKeyAmount : Z)
    (extractable : bool) (now : Z) (random : nat -> bytes) : result t :=
  let* signingKey := Curve.generateKeyPair Ed25519 extractable (random 0%nat) in
  let* exchangeKey := Curve.generateKeyPair X25519 extractable (random 1%nat) in
  let* preKeys := generateKeys (Z.to_nat preKeyAmount) extractable random 2 in
  let* signedPreKeys :=
    generateKeys (Z.to_nat signedPreKeyAmount) extractable random
      (2 + Z.to_nat preKeyAmount) in
  Ok {| id := id; signingKey := signingKey; exchangeKey := exchangeKey;
        createdAt := DateAt now; preKeys := preKeys; signedPreKeys := signedPreKeys |}.

Record IJsonIdentity : Type := {
  json_id : Z;
  json_signingKey : Curve.JsonKeyPair;
  json_exchangeKey : Curve.JsonKeyPair;
  json_preKeys : list Curve.JsonKeyPair;
  json_signedPreKeys : list Curve.JsonKeyPair;
  json_createdAt : string;
}.

(** [toJSON()]: the loops, then the members of the object in the order of
    the source. *)
Definition toJSON {E : Engine} (this : t) : result IJsonIdentity :=
  let* (preKeys, signedPreKeys) := toJSON_preKeys this in
  let* createdAt :=
    match createdAt this with
    | DateAt ms => Ok (toISOString ms)
    | InvalidDateValue => Err InvalidDate
    end in
  let* exchangeKey := Curve.ecKeyPairToJson (Some (exchangeKey this)) in
  let* signingKey := Curve.ecKeyPairToJson (Some (signingKey this)) in
  Ok {| json_id := id this; json_signingKey := signingKey; json_exchangeKey := exchangeKey;
        json_preKeys := preKeys; json_signedPreKeys := signedPreKeys;
        json_createdAt := createdAt |}.

(** The loops of [fromJSON(obj)]. *)
Fixpoint keysFromJson {E : Engine} (keys : list Curve.JsonKeyPair)
    : outcome (list (option IECKeyPair)) :=
  match keys with
  | [] => Done []
  | key :: rest =>
      let^ k := Curve.ecKeyPairFromJson (Curve.keyData key) in
      let^ ks := keysFromJson rest in
      Done (Some k :: ks)
  end.

(** [Identity.fromJSON(obj)]: the static method builds the instance from
    the two identity keys and the date, then the method reads the keys
    again and the pre-keys. *)
Definition fromJSON {E : Engine} (obj : IJsonIdentity) : outcome t :=
  let^ _ := Curve.ecKeyPairFromJson (Curve.keyData (json_signingKey obj)) in
  let^ _ := Curve.ecKeyPairFromJson (Curve.keyData (json_exchangeKey obj)) in
  let createdAt :=
    match Date_parse (json_createdAt obj) with
    | Some ms => DateAt ms
    | None => InvalidDateValue
    end in
  let^ signingKey := Curve.ecKeyPairFromJson (Curve.keyData (json_signingKey obj)) in
  let^ exchangeKey := Curve.ecKeyPairFromJson (Curve.keyData (json_exchangeKey obj)) in
  let^ preKeys := keysFromJson (json_preKeys obj) in
  let^ signedPreKeys := keysFromJson (json_signedPreKeys obj) in
  Done {| id := json_id obj; signingKey := signingKey; exchangeKey := exchangeKey;
          createdAt := createdAt; preKeys := preKeys; signedPreKeys := signedPreKeys |}.

End Identity.

(** ** ratchet/x3dh.ts *)
Module X3DH.
Section WithEngine.
Context {E : Engine}.

(** [new Uint8Array(X3DH_SALT_LENGTH).fill(X3DH_FILL_BYTE)] *)
Definition F : bytes := repeat X3DH_FILL_BYTE X3DH_SALT_LENGTH.

Definition authenticateA (IKa : Identity.t) (EKa : IECKeyPair)
    (IKb SPKb : ECPublicKey) (OPKb : option ECPublicKey) : result bytes :=
  let* DH1 := Curve.deriveBytes (privateKey (Identity.exchangeKey IKa)) SPKb in
  let* DH2 := Curve.deriveBytes (privateKey EKa) IKb in
  let* DH3 := Curve.deriveBytes (privateKey EKa) SPKb in
  let* DH4 := match OPKb with
              | Some opk => Curve.deriveBytes (privateKey EKa) opk
              | None => Ok []
              end in
  let KM := Buffer.combine [F; DH1; DH2; DH3; DH4] in
  let keys := Secret.HKDF KM 1 None INFO_TEXT in
  let* k0 := req (keys !! 0%nat) in
  Ok (Secret.importHMAC k0).

Definition authenticateB (IKb : Identity.t) (SPKb : IECKeyPair)
    (IKa EKa : ECPublicKey) (OPKb : option CryptoKey) : result bytes :=
  let* DH1 := Curve.deriveBytes (privateKey SPKb) IKa in
  let* DH2 := Curve.deriveBytes (privateKey (Identity.exchangeKey IKb)) EKa in
  let* DH3 := Curve.deriveBytes (privateKey SPKb) EKa in
  let* DH4 := match OPKb with
              | Some opk => Curve.deriveBytes opk EKa
              | None => Ok []
              end in
  let KM := Buffer.combine [F; DH1; DH2; DH3; DH4] in
  let keys := Secret.HKDF KM 1 None INFO_TEXT in
  let* k0 := req (keys !! 0%nat) in
  Ok (Secret.importHMAC k0).

End WithEngine.
End X3DH.

(** ** protocol/serialization.ts *)
Module Serialization.

(** [DataView.setUint32(0, value, true)]: the low 32 bits, little-endian. *)
Definition byte_of_Z (z : Z) : byte :=
  default x00 (Byte.of_N (Z.to_N (Z.land z 255))).

Definition setUint32_le (value : Z) : bytes :=
  [ byte_of_Z value;
    byte_of_Z (Z.shiftr value 8);
    byte_of_Z (Z.shiftr value 16);
    byte_of_Z (Z.shiftr value 24) ].

(** [DataView.getUint32(offset, true)] on the four bytes at the offset. *)
Definition getUint32_le (b : bytes) : Z :=
  match b with
  | b0 :: b1 :: b2 :: b3 :: _ =>
      Z.lor (Buffer.byteZ b0)
        (Z.lor (Z.shiftl (Buffer.byteZ b1) 8)
           (Z.lor (Z.shiftl (Buffer.byteZ b2) 16) (Z.shiftl (Buffer.byteZ b3) 24)))
  | _ => 0
  end.

Definition serializeUint32 (value : Z) : bytes := setUint32_le value.

Definition deserializeUint32 (buffer : bytes) : result Z :=
  if negb (blen buffer =? 4) then Err (ExpectedFourBytes (blen buffer))
  else Ok (getUint32_le buffer).

Definition serializeBytes (value : bytes) : bytes := value.

(** A property of a class whose instances have type [T], as the generic
    code sees it: [pd_serialize] reads the property ([None] when it is
    [undefined] or [null]) and serializes it by the converter, the parser
    or the declared type; [pd_deserialize] decodes a value and assigns it;
    [pd_defaultValue] assigns the declared default. *)
Record PropertyDescriptor (T : Type) : Type := {
  pd_id : Z;
  pd_required : bool;
  pd_defaultValue : option (T -> T);
  pd_serialize : T -> option (result bytes);
  pd_deserialize : bytes -> result (T -> T);
}.
Arguments pd_id {T} _.
Arguments pd_required {T} _.
Arguments pd_defaultValue {T} _.
Arguments pd_serialize {T} _ _.
Arguments pd_deserialize {T} _ _.

(** How one value is written and read: [descriptor.converter],
    [descriptor.parser], or the [switch] on [descriptor.type]. *)
Record ValueCodec (V : Type) : Type := {
  write : V -> result bytes;
  read : bytes -> result V;
}.
Arguments write {V} _ _.
Arguments read {V} _ _.

(** [@ProtobufProperty({ id, required, defaultValue, ... })] on a property
    with getter [get] and assignment [set]. *)
Definition ProtobufProperty {T V} (id : Z) (required : bool) (defaultValue : option V)
    (codec : ValueCodec V) (get : T -> option V) (set : V -> T -> T) : PropertyDescriptor T :=
  {| pd_id := id;
     pd_required := required;
     pd_defaultValue := set <$> defaultValue;
     pd_serialize := fun this => write codec <$> get this;
     pd_deserialize := fun valueBuffer =>
       let* v := read codec valueBuffer in Ok (set v) |}.

(** [converter.set] then [serializeBytes]; [converter.get]. *)
Definition via_converter {V} (set : V -> result bytes) (get : bytes -> result V) : ValueCodec V :=
  {| write := fun value => let* convertedValue := set value in Ok (serializeBytes convertedValue);
     read := get |}.

(** [value.exportProto()] then [serializeBytes];
    [new parser().importProto(valueBuffer)]. *)
Definition via_parser {V} (exportProto : V -> result bytes) (importProto : bytes -> result V)
    : ValueCodec V :=
  {| write := fun value => let* nestedData := exportProto value in Ok (serializeBytes nestedData);
     read := importProto |}.

(** [case "uint32"] *)
Definition type_uint32 : ValueCodec Z :=
  {| write := fun value => Ok (serializeUint32 value);
     read := deserializeUint32 |}.

(** [case "bytes"] and [default] *)
Definition type_bytes : ValueCodec bytes :=
  {| write := fun value => Ok (serializeBytes value);
     read := fun valueBuffer => Ok valueBuffer |}.

Definition Metadata (T : Type) : Type := list (string * PropertyDescriptor T).

Definition has_key {T} (key : string) (m : Metadata T) : bool :=
  existsb (fun e => String.eqb (fst e) key) m.

(** [getAllMetadata()]: the properties of the class, then those of each
    parent that are not yet present. *)
Definition getAllMetadata {T} (protoChain : list (Metadata T)) : Metadata T :=
  fold_left
    (fun allMetadata metadata =>
       fold_left
         (fun acc e => if has_key (fst e) acc then acc else acc ++ [e])
         metadata allMetadata)
    protoChain [].

(** [Array.prototype.sort((a, b) => a[1].id - b[1].id)]: stable. *)
Fixpoint insert_by_id {T} (e : string * PropertyDescriptor T) (sorted : Metadata T) : Metadata T :=
  match sorted with
  | [] => [e]
  | e' :: rest =>
      if pd_id (snd e) <? pd_id (snd e') then e :: e' :: rest
      else e' :: insert_by_id e rest
  end.

Definition sort_by_id {T} (entries : Metadata T) : Metadata T :=
  fold_left (fun sorted e => insert_by_id e sorted) entries [].

(** The body of the [for] loop of [exportProto]: the chunks pushed for the
    entries, in order. *)
Fixpoint export_entries {T} (sortedEntries : Metadata T) (this : T) : result (list bytes) :=
  match sortedEntries with
  | [] => Ok []
  | (propertyKey, descriptor) :: rest =>
      match pd_serialize descriptor this with
      | None =>
          if pd_required descriptor then Err (RequiredUndefined propertyKey)
          else export_entries rest this
      | Some (Err error) => Err (FailedToSerialize propertyKey error)
      | Some (Ok serializedValue) =>
          let fieldHeader := setUint32_le (pd_id descriptor) in
          let lengthPrefix := setUint32_le (blen serializedValue) in
          let* chunks := export_entries rest this in
          Ok (fieldHeader :: lengthPrefix :: serializedValue :: chunks)
      end
  end.

Definition exportProto {T} (metadata : Metadata T) (this : T) : result bytes :=
  if (length metadata =? 0)%nat then Err NoMetadata
  else
    let sortedEntries := sort_by_id metadata in
    let* chunks := export_entries sortedEntries this in
    Ok (Buffer.combine chunks).

(** The first entry of the metadata map whose id is [fieldId]. *)
Definition find_descriptor {T} (metadata : Metadata T) (fieldId : Z)
    : option (string * PropertyDescriptor T) :=
  List.find (fun e => pd_id (snd e) =? fieldId) metadata.

(** The [while (offset < data.byteLength)] loop of [importProto]; [rest]
    is [data] from [offset] on, [seenProperties] the set of property names
    met so far.  Every round consumes at least the eight header bytes;
    [fuel] bounds the number of rounds. *)
Fixpoint import_loop {T} (fuel : nat) (metadata : Metadata T) (rest : bytes)
    (seenProperties : list string) (this : T) : result (T * list string) :=
  match rest with
  | [] => Ok (this, seenProperties)
  | _ :: _ =>
      match fuel with
      | O => Err LoopBound
      | S fuel' =>
          if blen rest <? 8 then Err NotEnoughBytesForHeader
          else
            let fieldId := getUint32_le (take 4 rest) in
            let len := getUint32_le (take 4 (drop 4 rest)) in
            if blen rest - 8 <? len then Err (LengthExceedsData fieldId len)
            else
              let valueBuffer := take (Z.to_nat len) (drop 8 rest) in
              let rest' := drop (Z.to_nat len) (drop 8 rest) in
              match find_descriptor metadata fieldId with
              | None => import_loop fuel' metadata rest' seenProperties this
              | Some (targetPropertyKey, targetDescriptor) =>
                  match pd_deserialize targetDescriptor valueBuffer with
                  | Err error => Err (FailedToDeserialize targetPropertyKey error)
                  | Ok assign =>
                      import_loop fuel' metadata rest'
                        (targetPropertyKey :: seenProperties) (assign this)
                  end
              end
      end
  end.

(** The final loop of [importProto]: required properties that were not
    seen take their default value, or the import fails. *)
Fixpoint check_required {T} (entries : Metadata T) (seenProperties : list string) (this : T)
    : result T :=
  match entries with
  | [] => Ok this
  | (propertyKey, descriptor) :: rest =>
      if pd_required descriptor && negb (existsb (String.eqb propertyKey) seenProperties) then
        match pd_defaultValue descriptor with
        | Some assign => check_required rest seenProperties (assign this)
        | None => Err (RequiredNotFound propertyKey)
        end
      else check_required rest seenProperties this
  end.

(** [importProto(data)] on the object [this] (a fresh instance). *)
Definition importProto {T} (metadata : Metadata T) (this : T) (data : bytes) : result T :=
  if (length metadata =? 0)%nat then Err NoMetadata
  else
    let* (this', seenProperties) := import_loop (S (length data)) metadata data [] this in
    check_required metadata seenProperties this'.

End Serialization.

(** ** protocol/converter.ts *)
Module Converter.
Section WithEngine.
Context {E : Engine}.
Import Serialization.

Definition publicKey_get (type : CurveType) (value : bytes) : result ECPublicKey :=
  if negb (blen value =? 32) then Err (InvalidKeyLength (blen value))
  else PublicKey.createFromBytes value type.

Definition Ed25519PublicKeyConverter : ValueCodec ECPublicKey :=
  via_converter (fun value => Ok (serialized value)) (publicKey_get Ed25519).

Definition X25519PublicKeyConverter : ValueCodec ECPublicKey :=
  via_converter (fun value => Ok (serialized value)) (publicKey_get X25519).

Definition ECDSAPublicKeyConverter := Ed25519PublicKeyConverter.
Definition ECDHPublicKeyConverter := X25519PublicKeyConverter.

(** [set]: [Convert.FromString(value.toISOString())], which raises on an
    invalid date; [get]: [new Date(Convert.ToString(value))]. *)
Definition DateConverter : ValueCodec JsDate :=
  via_converter
    (fun value => match value with
                  | DateAt ms => Ok (utf8_encode (toISOString ms))
                  | InvalidDateValue => Err InvalidDate
                  end)
    (fun value => Ok (match Date_parse (utf8_decode value) with
                      | Some ms => DateAt ms
                      | None => InvalidDateValue
                      end)).

Definition ArrayBufferConverter : ValueCodec bytes :=
  via_converter (fun value => Ok value) (fun value => Ok value).

End WithEngine.
End Converter.

(** ** protocol/base.ts, and the protocol classes

    An instance is a JavaScript object: every property may be [undefined]. *)
Module BaseProtocol.
Import Serialization.
Record t : Type := { version : option Z }.
Definition empty : t := {| version := None |}.

(** The property [version] of [BaseProtocol.prototype], seen from a class
    whose instances have type [T]. *)
Definition own {T} (get : T -> option Z) (set : Z -> T -> T) : Metadata T :=
  [ ("version"%string, ProtobufProperty 0 false (Some 1) type_uint32 get set) ].

Definition metadata : Metadata t :=
  getAllMetadata [ own version (fun v _ => {| version := Some v |}) ].
Definition exportProto := exportProto metadata.
Definition importProto := importProto metadata empty.
End BaseProtocol.

Module MessageProtocol.
Section WithEngine.
Context {E : Engine}.
Import Serialization Converter.

Record t : Type := {
  version : option Z;
  senderRatchetKey : option ECPublicKey;
  counter : option Z;
  previousCounter : option Z;
  cipherText : option bytes;
}.
Definition empty : t :=
  {| version := None; senderRatchetKey := None; counter := None;
     previousCounter := None; cipherText := None |}.

Definition set_version v (o : t) : t :=
  {| version := Some v; senderRatchetKey := senderRatchetKey o; counter := counter o;
     previousCounter := previousCounter o; cipherText := cipherText o |}.
Definition set_senderRatchetKey v (o : t) : t :=
  {| version := version o; senderRatchetKey := Some v; counter := counter o;
     previousCounter := previousCounter o; cipherText := cipherText o |}.
Definition set_counter v (o : t) : t :=
  {| version := version o; senderRatchetKey := senderRatchetKey o; counter := Some v;
     previousCounter := previousCounter o; cipherText := cipherText o |}.
Definition set_previousCounter v (o : t) : t :=
  {| version := version o; senderRatchetKey := senderRatchetKey o; counter := counter o;
     previousCounter := Some v; cipherText := cipherText o |}.
Definition set_cipherText v (o : t) : t :=
  {| version := version o; senderRatchetKey := senderRatchetKey o; counter := counter o;
     previousCounter := previousCounter o; cipherText := Some v |}.

Definition own : Metadata t :=
  [ ("senderRatchetKey"%string,
      ProtobufProperty 1 true None ECDHPublicKeyConverter senderRatchetKey set_senderRatchetKey);
    ("counter"%string, ProtobufProperty 2 true None type_uint32 counter set_counter);
    ("previousCounter"%string,
      ProtobufProperty 3 true None type_uint32 previousCounter set_previousCounter);
    ("cipherText"%string,
      ProtobufProperty 4 true None ArrayBufferConverter cipherText set_cipherText) ].

Definition metadata : Metadata t :=
  getAllMetadata [ own; BaseProtocol.own version set_version ].
Definition exportProto := exportProto metadata.
Definition importProto := importProto metadata empty.
End WithEngine.
End MessageProtocol.

Module IdentityProtocol.
Section WithEngine.
Context {E : Engine}.
Import Serialization Converter.

Record t : Type := {
  version : option Z;
  signingKey : option ECPublicKey;
  exchangeKey : option ECPublicKey;
  signature : option bytes;
  createdAt : option JsDate;
}.
Definition empty : t :=
  {| version := None; signingKey := None; exchangeKey := None;
     signature := None; createdAt := None |}.

Definition set_version v (o : t) : t :=
  {| version := Some v; signingKey := signingKey o; exchangeKey := exchangeKey o;
     signature := signature o; createdAt := createdAt o |}.
Definition set_signingKey v (o : t) : t :=
  {| version := version o; signingKey := Some v; exchangeKey := exchangeKey o;
     signature := signature o; createdAt := createdAt o |}.
Definition set_exchangeKey v (o : t) : t :=
  {| version := version o; signingKey := signingKey o; exchangeKey := Some v;
     signature := signature o; createdAt := createdAt o |}.
Definition set_signature v (o : t) : t :=
  {| version := version o; signingKey := signingKey o; exchangeKey := exchangeKey o;
     signature := Some v; createdAt := createdAt o |}.
Definition set_createdAt v (o : t) : t :=
  {| version := version o; signingKey := signingKey o; exchangeKey := exchangeKey o;
     signature := signature o; createdAt := Some v |}.

Definition own : Metadata t :=
  [ ("signingKey"%string,
      ProtobufProperty 1 false None ECDSAPublicKeyConverter signingKey set_signingKey);
    ("exchangeKey"%string,
      ProtobufProperty 2 false None ECDHPublicKeyConverter exchangeKey set_exchangeKey);
    ("signature"%string, ProtobufProperty 3 false None type_bytes signature set_signature);
    ("createdAt"%string, ProtobufProperty 4 false None DateConverter createdAt set_createdAt) ].

Definition metadata : Metadata t :=
  getAllMetadata [ own; BaseProtocol.own version set_version ].
Definition exportProto := exportProto metadata.
Definition importProto := importProto metadata empty.

(** [verify()]: the arguments are evaluated before [Curve.verify] is
    entered, so an undefined [exchangeKey] raises; an undefined
    [signingKey] raises inside the [try] block, and an undefined
    [signature] gives an empty [Uint8Array]. *)
Definition verify (this : t) : result bool :=
  let* ek := req (exchangeKey this) in
  match signingKey this with
  | None => Ok false
  | Some sk => Curve.verify sk (serialized ek) (default [] (signature this))
  end.

(** [fill(identity)], with [sign]. *)
Definition fill (this : t) (identity : Identity.t) : result t :=
  let this := set_signingKey (publicKey (Identity.signingKey identity)) this in
  let this := set_exchangeKey (publicKey (Identity.exchangeKey identity)) this in
  let this := set_createdAt (Identity.createdAt identity) this in
  let* sig := Curve.sign (privateKey (Identity.signingKey identity))
                (serialized (publicKey (Identity.exchangeKey identity))) in
  Ok (set_signature sig this).
End WithEngine.
End IdentityProtocol.

Module PreKeyProtocol.
Section WithEngine.
Context {E : Engine}.
Import Serialization Converter.

Record t : Type := {
  version : option Z;
  id : option Z;
  key : option ECPublicKey;
}.
Definition empty : t := {| version := None; id := None; key := None |}.

Definition set_version v (o : t) : t := {| version := Some v; id := id o; key := key o |}.
Definition set_id v (o : t) : t := {| version := version o; id := Some v; key := key o |}.
Definition set_key v (o : t) : t := {| version := version o; id := id o; key := Some v |}.

(** The properties of [PreKeyProtocol.prototype], seen from a class whose
    instances have type [T]. *)
Definition own {T} (get_id : T -> option Z) (set_id : Z -> T -> T)
    (get_key : T -> option ECPublicKey) (set_key : ECPublicKey -> T -> T) : Metadata T :=
  [ ("id"%string, ProtobufProperty 1 true None type_uint32 get_id set_id);
    ("key"%string, ProtobufProperty 2 true None ECDHPublicKeyConverter get_key set_key) ].

Definition metadata : Metadata t :=
  getAllMetadata [ own id set_id key set_key; BaseProtocol.own version set_version ].
Definition exportProto := exportProto metadata.
Definition importProto := importProto metadata empty.
End WithEngine.
End PreKeyProtocol.

Module PreKeySignedProtocol.
Section WithEngine.
Context {E : Engine}.
Import Serialization Converter.

Record t : Type := {
  version : option Z;
  id : option Z;
  key : option ECPublicKey;
  signature : option bytes;
}.
Definition empty : t := {| version := None; id := None; key := None; signature := None |}.

Definition set_version v (o : t) : t :=
  {| version := Some v; id := id o; key := key o; signature := signature o |}.
Definition set_id v (o : t) : t :=
  {| version := version o; id := Some v; key := key o; signature := signature o |}.
Definition set_key v (o : t) : t :=
  {| version := version o; id := id o; key := Some v; signature := signature o |}.
Definition set_signature v (o : t) : t :=
  {| version := version o; id := id o; key := key o; signature := Some v |}.

Definition own : Metadata t :=
  [ ("signature"%string,
      ProtobufProperty 3 true None ArrayBufferConverter signature set_signature) ].

Definition metadata : Metadata t :=
  getAllMetadata [ own; PreKeyProtocol.own id set_id key set_key;
                   BaseProtocol.own version set_version ].
Definition exportProto := exportProto metadata.
Definition importProto := importProto metadata empty.

(** [verify(key)]: [this.key.serialize()] is evaluated by the caller. *)
Definition verify (this : t) (signingKey : option ECPublicKey) : result bool :=
  let* k := req (key this) in
  match signingKey with
  | None => Ok false
  | Some sk => Curve.verify sk (serialized k) (default [] (signature this))
  end.

(** [sign(key)]: [this.key.serialize()] is evaluated first. *)
Definition sign (this : t) (signingKey : CryptoKey) : result t :=
  let* k := req (key this) in
  let* sig := Curve.sign signingKey (serialized k) in
  Ok (set_signature sig this).

End WithEngine.
End PreKeySignedProtocol.

Module MessageSignedProtocol.
Section WithEngine.
Context {E : Engine}.
Import Serialization Converter.

(** [receiverKey] is a plain property: it carries no [@ProtobufProperty]
    and is not part of the encoding. *)
Record t : Type := {
  version : option Z;
  receiverKey : option ECPublicKey;
  senderKey : option ECPublicKey;
  message : option MessageProtocol.t;
  signature : option bytes;
}.
Definition empty : t :=
  {| version := None; receiverKey := None; senderKey := None;
     message := None; signature := None |}.

Definition set_version v (o : t) : t :=
  {| version := Some v; receiverKey := receiverKey o; senderKey := senderKey o;
     message := message o; signature := signature o |}.
Definition set_receiverKey v (o : t) : t :=
  {| version := version o; receiverKey := v; senderKey := senderKey o;
     message := message o; signature := signature o |}.
Definition set_senderKey v (o : t) : t :=
  {| version := version o; receiverKey := receiverKey o; senderKey := Some v;
     message := message o; signature := signature o |}.
Definition set_message v (o : t) : t :=
  {| version := version o; receiverKey := receiverKey o; senderKey := senderKey o;
     message := Some v; signature := signature o |}.
Definition set_signature v (o : t) : t :=
  {| version := version o; receiverKey := receiverKey o; senderKey := senderKey o;
     message := message o; signature := Some v |}.

Definition own : Metadata t :=
  [ ("senderKey"%string,
      ProtobufProperty 1 true None ECDSAPublicKeyConverter senderKey set_senderKey);
    ("message"%string,
      ProtobufProperty 2 true None
        (via_parser MessageProtocol.exportProto MessageProtocol.importProto)
        message set_message);
    ("signature"%string, ProtobufProperty 3 true None type_bytes signature set_signature) ].

Definition metadata : Metadata t :=
  getAllMetadata [ own; BaseProtocol.own version set_version ].
Definition exportProto := exportProto metadata.
Definition importProto := importProto metadata empty.

(** [getSignedRaw()] *)
Definition getSignedRaw (this : t) : result bytes :=
  let* receiverKey := req (receiverKey this) in
  let* senderKey := req (senderKey this) in
  let* m := req (message this) in
  let* message := MessageProtocol.exportProto m in
  Ok (Buffer.combine [serialized receiverKey; serialized senderKey; message]).

(** [signHMAC(macKey)] *)
Definition signHMAC (this : t) (macKey : bytes) : result bytes :=
  let* data := getSignedRaw this in
  Ok (Secret.sign macKey data).

(** [sign(hmacKey)] *)
Definition sign (this : t) (hmacKey : bytes) : result t :=
  let* sig := signHMAC this hmacKey in
  Ok (set_signature sig this).

(** [verify(hmacKey)]: [isEqual] reads [byteLength] of the stored
    signature. *)
Definition verify (this : t) (hmacKey : bytes) : result bool :=
  let* signature' := signHMAC this hmacKey in
  let* stored := req (signature this) in
  Ok (Buffer.isEqual signature' stored).
End WithEngine.
End MessageSignedProtocol.

Module PreKeyBundleProtocol.
Section WithEngine.
Context {E : Engine}.
Import Serialization Converter.

Record t : Type := {
  version : option Z;
  registrationId : option Z;
  identity : option IdentityProtocol.t;
  preKey : option PreKeyProtocol.t;
  preKeySigned : option PreKeySignedProtocol.t;
}.
Definition empty : t :=
  {| version := None; registrationId := None; identity := None;
     preKey := None; preKeySigned := None |}.

Definition set_version v (o : t) : t :=
  {| version := Some v; registrationId := registrationId o; identity := identity o;
     preKey := preKey o; preKeySigned := preKeySigned o |}.
Definition set_registrationId v (o : t) : t :=
  {| version := version o; registrationId := Some v; identity := identity o;
     preKey := preKey o; preKeySigned := preKeySigned o |}.
Definition set_identity v (o : t) : t :=
  {| version := version o; registrationId := registrationId o; identity := Some v;
     preKey := preKey o; preKeySigned := preKeySigned o |}.
Definition set_preKey v (o : t) : t :=
  {| version := version o; registrationId := registrationId o; identity := identity o;
     preKey := Some v; preKeySigned := preKeySigned o |}.
Definition set_preKeySigned v (o : t) : t :=
  {| version := version o; registrationId := registrationId o; identity := identity o;
     preKey := preKey o; preKeySigned := Some v |}.

Definition own : Metadata t :=
  [ ("registrationId"%string,
      ProtobufProperty 1 true None type_uint32 registrationId set_registrationId);
    ("identity"%string,
      ProtobufProperty 2 true None
        (via_parser IdentityProtocol.exportProto IdentityProtocol.importProto)
        identity set_identity);
    ("preKey"%string,
      ProtobufProperty 3 false None
        (via_parser PreKeyProtocol.exportProto PreKeyProtocol.importProto)
        preKey set_preKey);
    ("preKeySigned"%string,
      ProtobufProperty 4 true None
        (via_parser PreKeySignedProtocol.exportProto PreKeySignedProtocol.importProto)
        preKeySigned set_preKeySigned) ].

Definition metadata : Metadata t :=
  getAllMetadata [ own; BaseProtocol.own version set_version ].
Definition exportProto := exportProto metadata.
Definition importProto := importProto metadata empty.
End WithEngine.
End PreKeyBundleProtocol.

Module PreKeyMessageProtocol.
Section WithEngine.
Context {E : Engine}.
Import Serialization Converter.

Record t : Type := {
  version : option Z;
  registrationId : option Z;
  preKeyId : option Z;
  preKeySignedId : option Z;
  baseKey : option ECPublicKey;
  identity : option IdentityProtocol.t;
  signedMessage : option MessageSignedProtocol.t;
}.
Definition empty : t :=
  {| version := None; registrationId := None; preKeyId := None; preKeySignedId := None;
     baseKey := None; identity := None; signedMessage := None |}.

Definition set_version v (o : t) : t :=
  {| version := Some v; registrationId := registrationId o; preKeyId := preKeyId o;
     preKeySignedId := preKeySignedId o; baseKey := baseKey o; identity := identity o;
     signedMessage := signedMessage o |}.
Definition set_registrationId v (o : t) : t :=
  {| version := version o; registrationId := Some v; preKeyId := preKeyId o;
     preKeySignedId := preKeySignedId o; baseKey := baseKey o; identity := identity o;
     signedMessage := signedMessage o |}.
Definition set_preKeyId v (o : t) : t :=
  {| version := version o; registrationId := registrationId o; preKeyId := Some v;
     preKeySignedId := preKeySignedId o; baseKey := baseKey o; identity := identity o;
     signedMessage := signedMessage o |}.
Definition set_preKeySignedId v (o : t) : t :=
  {| version := version o; registrationId := registrationId o; preKeyId := preKeyId o;
     preKeySignedId := Some v; baseKey := baseKey o; identity := identity o;
     signedMessage := signedMessage o |}.
Definition set_baseKey v (o : t) : t :=
  {| version := version o; registrationId := registrationId o; preKeyId := preKeyId o;
     preKeySignedId := preKeySignedId o; baseKey := Some v; identity := identity o;
     signedMessage := signedMessage o |}.
Definition set_identity v (o : t) : t :=
  {| version := version o; registrationId := registrationId o; preKeyId := preKeyId o;
     preKeySignedId := preKeySignedId o; baseKey := baseKey o; identity := Some v;
     signedMessage := signedMessage o |}.
Definition set_signedMessage v (o : t) : t :=
  {| version := version o; registrationId := registrationId o; preKeyId := preKeyId o;
     preKeySignedId := preKeySignedId o; baseKey := baseKey o; identity := identity o;
     signedMessage := Some v |}.

Definition own : Metadata t :=
  [ ("registrationId"%string,
      ProtobufProperty 1 true None type_uint32 registrationId set_registrationId);
    ("preKeyId"%string, ProtobufProperty 2 false None type_uint32 preKeyId set_preKeyId);
    ("preKeySignedId"%string,
      ProtobufProperty 3 true None type_uint32 preKeySignedId set_preKeySignedId);
    ("baseKey"%string,
      ProtobufProperty 4 true None ECDHPublicKeyConverter baseKey set_baseKey);
    ("identity"%string,
      ProtobufProperty 5 true None
        (via_parser IdentityProtocol.exportProto IdentityProtocol.importProto)
        identity set_identity);
    ("signedMessage"%string,
      ProtobufProperty 6 true None
        (via_parser MessageSignedProtocol.exportProto MessageSignedProtocol.importProto)
        signedMessage set_signedMessage) ].

Definition metadata : Metadata t :=
  getAllMetadata [ own; BaseProtocol.own version set_version ].
Definition exportProto := exportProto metadata.
Definition importProto := importProto metadata empty.
End WithEngine.
End PreKeyMessageProtocol.

(** ** Stateful code that may throw

    A method that mutates [this] and may throw maps the state to an outcome
    and the state it leaves behind: what was written before a [throw] stays
    written. *)
Definition M (S A : Type) : Type := S -> result A * S.

Definition ret {S A} (a : A) : M S A := fun s => (Ok a, s).
Definition throw {S A} (e : Error) : M S A := fun s => (Err e, s).
Definition lift {S A} (r : result A) : M S A := fun s => (r, s).
Definition get {S} : M S S := fun s => (Ok s, s).
Definition put {S} (s' : S) : M S unit := fun _ => (Ok tt, s').
Definition bindM {S A B} (m : M S A) (k : A -> M S B) : M S B :=
  fun s => match m s with
           | (Ok a, s') => k a s'
           | (Err e, s') => (Err e, s')
           end.

Notation "'let!' x ':=' m 'in' k" := (bindM m (fun x => k))
  (at level 10, x pattern, m at level 100, k at level 200).

(** ** sym_ratchet.ts *)
Definition CIPHER_KEY_KDF_INPUT : bytes := [x01].
Definition ROOT_KEY_KDF_INPUT : bytes := [x02].

Record ICipherMessage : Type := {
  cm_cipherText : bytes;
  cm_hmacKey : bytes;
}.

(** The key material of a message: [Secret.HKDF(cipherKey, 3, void 0,
    INFO_MESSAGE_KEYS)], the AES key [keys[0].slice(0, 32)], the HMAC key
    [keys[1]] and the nonce [keys[2].slice(0, 12)]. *)
Module MessageKeys.
Section WithEngine.
Context {E : Engine}.

Record t : Type := { aesKey : bytes; hmacKey : bytes; iv : bytes }.

Definition derive (cipherKey : bytes) : result t :=
  let keys := Secret.HKDF cipherKey 3 None INFO_MESSAGE_KEYS in
  let* k0 := req (keys !! 0%nat) in
  let aesKey := Secret.importAES (take 32 k0) in
  let* k1 := req (keys !! 1%nat) in
  let hmacKey := Secret.importHMAC k1 in
  let* k2 := req (keys !! 2%nat) in
  Ok {| aesKey := aesKey; hmacKey := hmacKey; iv := take 12 k2 |}.
End WithEngine.
End MessageKeys.

Module SymmetricRatchet.
Section WithEngine.
Context {E : Engine}.

(** [calculateKey(rootKey)]: the cipher key and the next chain key. *)
Definition calculateKey (rootKey : bytes) : bytes * bytes :=
  let cipherKeyBytes := Secret.sign rootKey CIPHER_KEY_KDF_INPUT in
  let nextRootKeyBytes := Secret.sign rootKey ROOT_KEY_KDF_INPUT in
  (cipherKeyBytes, Secret.importHMAC nextRootKeyBytes).
End WithEngine.
End SymmetricRatchet.

Module SendingRatchet.
Section WithEngine.
Context {E : Engine}.

Record t : Type := {
  counter : Z;
  rootKey : bytes;
}.

(** [new SendingRatchet(rootKey)] *)
Definition new (rootKey : bytes) : t := {| counter := 0; rootKey := rootKey |}.

(** [click()] *)
Definition click : M t bytes := fun this =>
  let '(cipher, rootKey') := SymmetricRatchet.calculateKey (rootKey this) in
  (Ok cipher, {| counter := counter this + 1; rootKey := rootKey' |}).

(** [encrypt(message, associatedData)] *)
Definition encrypt (message : bytes) (associatedData : option bytes) : M t ICipherMessage :=
  let! cipherKey := click in
  let! keys := lift (MessageKeys.derive cipherKey) in
  let cipherText :=
    Secret.encrypt (MessageKeys.aesKey keys) message (MessageKeys.iv keys) associatedData in
  ret {| cm_cipherText := cipherText; cm_hmacKey := MessageKeys.hmacKey keys |}.

(** [toJSON()] and the static [fromJSON(obj)] of [SymmetricRatchet], on a
    sending chain. *)
Record IJsonSymmetricRatchet : Type := {
  json_counter : Z;
  json_rootKey : bytes;
}.

Definition toJSON (this : t) : IJsonSymmetricRatchet :=
  {| json_counter := counter this; json_rootKey := rootKey this |}.

Definition fromJSON (obj : IJsonSymmetricRatchet) : t :=
  let res := new (json_rootKey obj) in
  {| counter := json_counter obj; rootKey := json_rootKey obj |}.

End WithEngine.
End SendingRatchet.

Module ReceivingRatchet.
Section WithEngine.
Context {E : Engine}.

Record t : Type := {
  counter : Z;
  rootKey : bytes;
  messageKeys : gmap Z bytes;
  messageKeysCreationTime : gmap Z Z;
}.

Definition MAX_CACHED_KEY_AGE : Z := 60 * 60 * 1000.
Definition MAX_CACHED_KEYS : Z := 2000.

(** [new ReceivingRatchet(rootKey)] *)
Definition new (rootKey : bytes) : t :=
  {| counter := 0; rootKey := rootKey; messageKeys := ∅; messageKeysCreationTime := ∅ |}.

(** [click()] *)
Definition click : M t bytes := fun this =>
  let '(cipher, rootKey') := SymmetricRatchet.calculateKey (rootKey this) in
  (Ok cipher,
   {| counter := counter this + 1; rootKey := rootKey';
      messageKeys := messageKeys this;
      messageKeysCreationTime := messageKeysCreationTime this |}).

(** [delete this.messageKeys[counter]; delete
    this.messageKeysCreationTime[counter]] *)
Definition delete_key (c : Z) (this : t) : t :=
  {| counter := counter this; rootKey := rootKey this;
     messageKeys := delete c (messageKeys this);
     messageKeysCreationTime := delete c (messageKeysCreationTime this) |}.

(** [this.messageKeys[c] = key; this.messageKeysCreationTime[c] = time] *)
Definition store_key (c : Z) (key : bytes) (time : Z) (this : t) : t :=
  {| counter := counter this; rootKey := rootKey this;
     messageKeys := <[c := key]> (messageKeys this);
     messageKeysCreationTime := <[c := time]> (messageKeysCreationTime this) |}.

(** [cleanupExpiredKeys()], [now] being the value of [Date.now()]: every
    counter of [messageKeysCreationTime] whose age exceeds
    [MAX_CACHED_KEY_AGE] is deleted from both tables. *)
Definition expired (now : Z) (this : t) : list Z :=
  (map_to_list (filter (fun ct => MAX_CACHED_KEY_AGE <? now - snd ct)
                  (messageKeysCreationTime this))).*1.

Definition cleanupExpiredKeys (now : Z) (this : t) : t :=
  foldr delete_key this (expired now this).

(** [enforceMaxCacheSize()] *)
Definition enforceMaxCacheSize (this : t) : t :=
  let keyCounters := (map_to_list (messageKeys this)).*1 in
  if MAX_CACHED_KEYS <? Z.of_nat (length keyCounters) then
    let sorted := merge_sort Z.le keyCounters in
    let keysToRemove := Z.of_nat (length keyCounters) - MAX_CACHED_KEYS in
    foldr delete_key this (take (Z.to_nat keysToRemove) sorted)
  else this.

(** The [while (this.counter <= counter)] loop of [getKey], [target] being
    the requested counter; [stamp c] is the value [Date.now()] returns when
    the key of counter [c] is stored. *)
Fixpoint fastForward (fuel : nat) (target : Z) (stamp : Z -> Z) (this : t)
    : result bytes * t :=
  match fuel with
  | O => (Err LoopBound, this)
  | S fuel' =>
      if counter this <=? target then
        match click this with
        | (Ok cipherKey, this1) =>
            if counter this1 - 1 <? target then
              let c := counter this1 - 1 in
              fastForward fuel' target stamp (store_key c cipherKey (stamp c) this1)
            else (Ok cipherKey, enforceMaxCacheSize this1)
        | (Err e, this1) => (Err e, this1)
        end
      else (Err FailedToDeriveMessageKey, this)
  end.

(** [getKey(counter)], [target] being the requested counter. *)
Definition getKey (target : Z) (now : Z) (stamp : Z -> Z) : M t bytes := fun this =>
  let this := cleanupExpiredKeys now this in
  match messageKeys this !! target with
  | Some key => (Ok key, delete_key target this)
  | None =>
      if target <? counter this then (Err CounterTooOld, this)
      else fastForward (S (Z.to_nat (target - counter this))) target stamp this
  end.

(** [decrypt(message, counter, associatedData)]; an [undefined] message
    is refused by the primitive. *)
Definition decrypt (message : option bytes) (target : Z) (associatedData : option bytes)
    (now : Z) (stamp : Z -> Z) : M t ICipherMessage :=
  let! cipherKey := getKey target now stamp in
  let! keys := lift (MessageKeys.derive cipherKey) in
  let! message := lift (req message) in
  let! cipherText :=
    lift (Secret.decrypt (MessageKeys.aesKey keys) message (MessageKeys.iv keys)
            associatedData) in
  ret {| cm_cipherText := cipherText; cm_hmacKey := MessageKeys.hmacKey keys |}.

(** [obj.messageKeys]: an array of keys, an object keyed by counter, or
    nothing. *)
Inductive JsonMessageKeys : Type :=
  | KeysArray (keys : list bytes)
  | KeysObject (keys : gmap Z bytes)
  | KeysUndefined.

Record IJsonReceivingRatchet : Type := {
  json_counter : Z;
  json_rootKey : bytes;
  json_messageKeys : JsonMessageKeys;
}.

(** [toJSON()]: the times at which the keys were cached are not written. *)
Definition toJSON (this : t) : IJsonReceivingRatchet :=
  {| json_counter := counter this; json_rootKey := rootKey this;
     json_messageKeys := KeysObject (messageKeys this) |}.

(** [this.messageKeysCreationTime[c] = time] *)
Definition set_creationTime (c : Z) (time : Z) (this : t) : t :=
  {| counter := counter this; rootKey := rootKey this;
     messageKeys := messageKeys this;
     messageKeysCreationTime := <[c := time]> (messageKeysCreationTime this) |}.

(** [ReceivingRatchet.fromJSON(obj)]: a new chain takes the counter and
    the root key, then the keys; [stamp c] is the value [Date.now()]
    returns when the key of counter [c] is reached. *)
Definition fromJSON (obj : IJsonReceivingRatchet) (stamp : Z -> Z) : t :=
  let res := new (json_rootKey obj) in
  let this :=
    {| counter := json_counter obj; rootKey := json_rootKey obj;
       messageKeys := messageKeys res;
       messageKeysCreationTime := messageKeysCreationTime res |} in
  match json_messageKeys obj with
  | KeysArray keys =>
      foldl (fun this ik => store_key (Z.of_nat ik.1) ik.2 (stamp (Z.of_nat ik.1)) this)
        this (imap pair keys)
  | KeysObject keys =>
      let this :=
        {| counter := counter this; rootKey := rootKey this; messageKeys := keys;
           messageKeysCreationTime := messageKeysCreationTime this |} in
      foldr (fun c this => set_creationTime c (stamp c) this) this (map_to_list keys).*1
  | KeysUndefined => this
  end.

End WithEngine.
End ReceivingRatchet.

(** ** ratchet/types.ts *)
Record ISkippedMessageKey : Type := {
  sk_ratchetKeyId : string;
  sk_messageCounter : Z;
  sk_messageKey : bytes;
  sk_timestamp : Z;
}.

(** Options as the caller passes them: every limit may be left out. *)
Record IRatchetLimitsOpt : Type := {
  opt_maxRatchetSteps : option Z;
  opt_maxSkippedKeys : option Z;
  opt_skippedKeyTTL : option Z;
  opt_maxMessageKeysPerStep : option Z;
}.

Definition no_limits : IRatchetLimitsOpt :=
  {| opt_maxRatchetSteps := None; opt_maxSkippedKeys := None;
     opt_skippedKeyTTL := None; opt_maxMessageKeysPerStep := None |}.

(** An object with string keys, in insertion order. *)
Module JsObject.
Definition t (V : Type) : Type := list (string * V).

Definition get {V} (o : t V) (key : string) : option V :=
  snd <$> List.find (fun e => String.eqb (fst e) key) o.

Definition delete {V} (key : string) (o : t V) : t V :=
  List.filter (fun e => negb (String.eqb (fst e) key)) o.

(** [o[key] = v]: an existing property keeps its place. *)
Fixpoint set {V} (key : string) (v : V) (o : t V) : t V :=
  match o with
  | [] => [(key, v)]
  | (k, x) :: rest => if String.eqb k key then (k, v) :: rest else (k, x) :: set key v rest
  end.

Definition keys {V} (o : t V) : list string := o.*1.
End JsObject.

(** A JavaScript value used as a condition: a string is truthy unless it is
    [undefined] or empty. *)
Definition truthy (s : option string) : bool :=
  match s with
  | Some str => negb (String.eqb str "")
  | None => false
  end.

(** ** ratchet/dh-step.ts, stack.ts *)
Module DHRatchetStepEnhanced.
Record t : Type := {
  remoteRatchetKey : option ECPublicKey;
  sendingChain : option SendingRatchet.t;
  receivingChain : option ReceivingRatchet.t;
  ratchetKeyId : option string;
  lastDecryptedCounter : Z;
  skippedMessageKeys : gmap Z bytes;
}.

(** [new DHRatchetStepEnhanced()] *)
Definition new : t :=
  {| remoteRatchetKey := None; sendingChain := None; receivingChain := None;
     ratchetKeyId := None; lastDecryptedCounter := -1; skippedMessageKeys := ∅ |}.

Definition set_remoteRatchetKey v (o : t) : t :=
  {| remoteRatchetKey := v; sendingChain := sendingChain o;
     receivingChain := receivingChain o; ratchetKeyId := ratchetKeyId o;
     lastDecryptedCounter := lastDecryptedCounter o;
     skippedMessageKeys := skippedMessageKeys o |}.
Definition set_sendingChain v (o : t) : t :=
  {| remoteRatchetKey := remoteRatchetKey o; sendingChain := v;
     receivingChain := receivingChain o; ratchetKeyId := ratchetKeyId o;
     lastDecryptedCounter := lastDecryptedCounter o;
     skippedMessageKeys := skippedMessageKeys o |}.
Definition set_receivingChain v (o : t) : t :=
  {| remoteRatchetKey := remoteRatchetKey o; sendingChain := sendingChain o;
     receivingChain := v; ratchetKeyId := ratchetKeyId o;
     lastDecryptedCounter := lastDecryptedCounter o;
     skippedMessageKeys := skippedMessageKeys o |}.
Definition set_ratchetKeyId v (o : t) : t :=
  {| remoteRatchetKey := remoteRatchetKey o; sendingChain := sendingChain o;
     receivingChain := receivingChain o; ratchetKeyId := v;
     lastDecryptedCounter := lastDecryptedCounter o;
     skippedMessageKeys := skippedMessageKeys o |}.
Definition set_lastDecryptedCounter v (o : t) : t :=
  {| remoteRatchetKey := remoteRatchetKey o; sendingChain := sendingChain o;
     receivingChain := receivingChain o; ratchetKeyId := ratchetKeyId o;
     lastDecryptedCounter := v;
     skippedMessageKeys := skippedMessageKeys o |}.

Record IJsonDHRatchetStepEnhanced : Type := {
  json_remoteRatchetKey : option PublicCryptoKey;
  json_sendingChain : option SendingRatchet.IJsonSymmetricRatchet;
  json_receivingChain : option ReceivingRatchet.IJsonReceivingRatchet;
  json_ratchetKeyId : option string;
  json_lastDecryptedCounter : option Z;
  json_skippedMessageKeys : option (gmap Z bytes);
}.

(** [toJSON()]: the key id written is the id of the remote ratchet key. *)
Definition toJSON (this : t) : IJsonDHRatchetStepEnhanced :=
  {| json_remoteRatchetKey := PublicKey.key <$> remoteRatchetKey this;
     json_sendingChain := SendingRatchet.toJSON <$> sendingChain this;
     json_receivingChain := ReceivingRatchet.toJSON <$> receivingChain this;
     json_ratchetKeyId := pk_id <$> remoteRatchetKey this;
     json_lastDecryptedCounter := Some (lastDecryptedCounter this);
     json_skippedMessageKeys := Some (skippedMessageKeys this) |}.

(** [DHRatchetStepEnhanced.fromJSON(obj)]; [a || b] takes [b] when [a] is
    [undefined], the empty string or the number 0. *)
Definition fromJSON {E : Engine} {P : Platform} (obj : IJsonDHRatchetStepEnhanced)
    (stamp : Z -> Z) : outcome t :=
  let^ (remoteRatchetKey, ratchetKeyId) :=
    match json_remoteRatchetKey obj with
    | Some key =>
        let^ k := PublicKey.create key in
        Done (Some k,
              if truthy (json_ratchetKeyId obj) then json_ratchetKeyId obj
              else Some (pk_id k))
    | None => Done (None, None)
    end in
  Done {| remoteRatchetKey := remoteRatchetKey;
          sendingChain := SendingRatchet.fromJSON <$> json_sendingChain obj;
          receivingChain :=
            (fun chain => ReceivingRatchet.fromJSON chain stamp) <$> json_receivingChain obj;
          ratchetKeyId := ratchetKeyId;
          lastDecryptedCounter :=
            match json_lastDecryptedCounter obj with
            | Some c => if c =? 0 then -1 else c
            | None => -1
            end;
          skippedMessageKeys := default ∅ (json_skippedMessageKeys obj) |}.

End DHRatchetStepEnhanced.

(** The steps are objects that the stack, its lookup table and
    [currentStep] share: they live in a store, and a reference is an index
    into it. *)
Abbreviation ref := nat.
Abbreviation Heap := (list DHRatchetStepEnhanced.t).

Module DHRatchetStepStackEnhanced.
Import DHRatchetStepEnhanced.

Record t : Type := {
  items : list ref;
  maxSize : Z;
  ratchetKeyLookup : gmap string ref;
  globalSkippedKeys : JsObject.t ISkippedMessageKey;
  limits : IRatchetLimits;
}.

Definition set_items v (o : t) : t :=
  {| items := v; maxSize := maxSize o; ratchetKeyLookup := ratchetKeyLookup o;
     globalSkippedKeys := globalSkippedKeys o; limits := limits o |}.
Definition set_ratchetKeyLookup v (o : t) : t :=
  {| items := items o; maxSize := maxSize o; ratchetKeyLookup := v;
     globalSkippedKeys := globalSkippedKeys o; limits := limits o |}.
Definition set_globalSkippedKeys v (o : t) : t :=
  {| items := items o; maxSize := maxSize o; ratchetKeyLookup := ratchetKeyLookup o;
     globalSkippedKeys := v; limits := limits o |}.

(** [a || b] on numbers: [0] and [undefined] are falsy. *)
Definition or_default (a : option Z) (b : Z) : Z :=
  match a with
  | Some v => if v =? 0 then b else v
  | None => b
  end.

(** [new DHRatchetStepStackEnhanced(limits)]:
    [super(limits.maxRatchetSteps || DEFAULT_RATCHET_LIMITS.maxRatchetSteps)]
    and [this.limits = { ...DEFAULT_RATCHET_LIMITS, ...limits }]. *)
Definition new (l : IRatchetLimitsOpt) : t :=
  {| items := [];
     maxSize := or_default (opt_maxRatchetSteps l) DEFAULT_MAX_RATCHET_STEPS;
     ratchetKeyLookup := ∅;
     globalSkippedKeys := [];
     limits :=
       {| maxRatchetSteps := default DEFAULT_MAX_RATCHET_STEPS (opt_maxRatchetSteps l);
          maxSkippedKeys := default DEFAULT_MAX_SKIPPED_KEYS (opt_maxSkippedKeys l);
          skippedKeyTTL := default DEFAULT_SKIPPED_KEY_TTL (opt_skippedKeyTTL l);
          maxMessageKeysPerStep :=
            default DEFAULT_MAX_MESSAGE_KEYS_PER_STEP (opt_maxMessageKeysPerStep l) |} |}.

(** [get length()] *)
Definition length (this : t) : Z := Z.of_nat (List.length (items this)).

(** [Stack.push(item)] *)
Definition Stack_push (item : ref) (this : t) : t :=
  let this := if length this =? maxSize this then set_items (drop 1 (items this)) this
              else this in
  set_items (items this ++ [item]) this.

(** The composite key [`${ratchetKeyId}:${messageCounter}`]. *)
Definition compositeKey (ratchetKeyId : string) (messageCounter : Z) : string :=
  ratchetKeyId +:+ ":" +:+ pretty messageCounter.

(** [cleanupSkippedKeysForRatchet(ratchetKeyId)] *)
Definition cleanupSkippedKeysForRatchet (ratchetKeyId : string) (this : t) : t :=
  set_globalSkippedKeys
    (List.filter (fun e => negb (String.prefix (ratchetKeyId +:+ ":") (fst e)))
       (globalSkippedKeys this))
    this.

(** [cleanupExpiredSkippedKeys()], [now] being the value of [Date.now()]. *)
Definition cleanupExpiredSkippedKeys (now : Z) (this : t) : t :=
  set_globalSkippedKeys
    (List.filter (fun e => negb (skippedKeyTTL (limits this) <? now - sk_timestamp (snd e)))
       (globalSkippedKeys this))
    this.

(** [push(item)]: the item is a reference into [heap]; the second branch
    of the lookup update writes [item.ratchetKeyId]. *)
Definition push (item : ref) (heap : Heap) (this : t) : Heap * t :=
  let this := Stack_push item this in
  let '(heap, this) :=
    match heap !! item with
    | None => (heap, this)
    | Some it =>
        match ratchetKeyId it with
        | Some keyId =>
            if truthy (Some keyId) then
              (heap, set_ratchetKeyLookup (<[keyId := item]> (ratchetKeyLookup this)) this)
            else
              match remoteRatchetKey it with
              | Some k =>
                  (<[item := set_ratchetKeyId (Some (pk_id k)) it]> heap,
                   set_ratchetKeyLookup (<[pk_id k := item]> (ratchetKeyLookup this)) this)
              | None => (heap, this)
              end
        | None =>
            match remoteRatchetKey it with
            | Some k =>
                (<[item := set_ratchetKeyId (Some (pk_id k)) it]> heap,
                 set_ratchetKeyLookup (<[pk_id k := item]> (ratchetKeyLookup this)) this)
            | None => (heap, this)
            end
        end
    end in
  if maxSize this <? length this then
    match head (items this) with
    | Some removedRef =>
        match heap !! removedRef with
        | Some removedItem =>
            match ratchetKeyId removedItem with
            | Some keyId =>
                if truthy (Some keyId) then
                  (heap,
                   cleanupSkippedKeysForRatchet keyId
                     (set_ratchetKeyLookup (delete keyId (ratchetKeyLookup this)) this))
                else (heap, this)
            | None => (heap, this)
            end
        | None => (heap, this)
        end
    | None => (heap, this)
    end
  else (heap, this).

(** [getStep(remoteRatchetKey)] *)
Definition getStep (this : t) (remoteRatchetKey : ECPublicKey) : option ref :=
  ratchetKeyLookup this !! pk_id remoteRatchetKey.

(** The first key with the smallest timestamp: the head of the stable sort
    of [Object.keys(this.globalSkippedKeys)] by timestamp. *)
Fixpoint oldestKey (o : JsObject.t ISkippedMessageKey) : option (string * Z) :=
  match o with
  | [] => None
  | (k, v) :: rest =>
      match oldestKey rest with
      | Some (k', ts') => if ts' <? sk_timestamp v then Some (k', ts')
                          else Some (k, sk_timestamp v)
      | None => Some (k, sk_timestamp v)
      end
  end.

(** [storeSkippedMessageKey(ratchetKeyId, messageCounter, messageKey)];
    [now] is read by the clean-up, [now'] by the insertion. *)
Definition storeSkippedMessageKey (ratchetKeyId : string) (messageCounter : Z)
    (messageKey : bytes) (now now' : Z) (this : t) : t :=
  let size (o : t) := Z.of_nat (List.length (JsObject.keys (globalSkippedKeys o))) in
  let this :=
    if maxSkippedKeys (limits this) <=? size this then
      let this := cleanupExpiredSkippedKeys now this in
      if maxSkippedKeys (limits this) <=? size this then
        match oldestKey (globalSkippedKeys this) with
        | Some (k, _) => set_globalSkippedKeys (JsObject.delete k (globalSkippedKeys this)) this
        | None => this
        end
      else this
    else this in
  set_globalSkippedKeys
    (JsObject.set (compositeKey ratchetKeyId messageCounter)
       {| sk_ratchetKeyId := ratchetKeyId; sk_messageCounter := messageCounter;
          sk_messageKey := messageKey; sk_timestamp := now' |}
       (globalSkippedKeys this))
    this.

(** [consumeSkippedMessageKey(ratchetKeyId, messageCounter)] *)
Definition consumeSkippedMessageKey (ratchetKeyId : string) (messageCounter : Z) (this : t)
    : option bytes * t :=
  let key := compositeKey ratchetKeyId messageCounter in
  match JsObject.get (globalSkippedKeys this) key with
  | Some skippedKey =>
      (Some (sk_messageKey skippedKey),
       set_globalSkippedKeys (JsObject.delete key (globalSkippedKeys this)) this)
  | None => (None, this)
  end.

(** [consumeSkippedMessageKey(ratchetKeyId, undefined)]: the composite
    key is [`${ratchetKeyId}:undefined`]. *)
Definition consumeSkippedMessageKey_undefined (ratchetKeyId : string) (this : t)
    : option bytes * t :=
  let key := ratchetKeyId +:+ ":undefined" in
  match JsObject.get (globalSkippedKeys this) key with
  | Some skippedKey =>
      (Some (sk_messageKey skippedKey),
       set_globalSkippedKeys (JsObject.delete key (globalSkippedKeys this)) this)
  | None => (None, this)
  end.

(** [hasSkippedMessageKey(ratchetKeyId, messageCounter)] *)
Definition hasSkippedMessageKey (ratchetKeyId : string) (messageCounter : Z) (this : t) : bool :=
  bool_decide (is_Some (JsObject.get (globalSkippedKeys this)
                          (compositeKey ratchetKeyId messageCounter))).

(** [getSkippedKeyStats()] *)
Record SkippedKeyStats : Type := {
  totalSkippedKeys : Z;
  ratchetSteps : Z;
  ratchetKeyIds : Z;
  stats_limits : IRatchetLimits;
}.

Definition getSkippedKeyStats (this : t) : SkippedKeyStats :=
  {| totalSkippedKeys := Z.of_nat (List.length (JsObject.keys (globalSkippedKeys this)));
     ratchetSteps := Z.of_nat (List.length (items this));
     ratchetKeyIds := Z.of_nat (size (ratchetKeyLookup this));
     stats_limits := limits this |}.

(** [Stack.toJSON()]: the JSON of the items, in order. *)
Fixpoint items_toJSON (heap : Heap) (items : list ref)
    : result (list IJsonDHRatchetStepEnhanced) :=
  match items with
  | [] => Ok []
  | item :: rest =>
      let* it := req (heap !! item) in
      let* res := items_toJSON heap rest in
      Ok (DHRatchetStepEnhanced.toJSON it :: res)
  end.

Definition toJSON (heap : Heap) (this : t) : result (list IJsonDHRatchetStepEnhanced) :=
  items_toJSON heap (items this).

End DHRatchetStepStackEnhanced.

(** ** data/remote_identity.ts *)
Module RemoteIdentity.
Record t : Type := {
  id : option Z;
  signingKey : option ECPublicKey;
  exchangeKey : option ECPublicKey;
  signature : option bytes;
  createdAt : option JsDate;
}.

(** [RemoteIdentity.fill(protocol)] *)
Definition fill (protocol : IdentityProtocol.t) : t :=
  {| id := None;
     signingKey := IdentityProtocol.signingKey protocol;
     exchangeKey := IdentityProtocol.exchangeKey protocol;
     signature := IdentityProtocol.signature protocol;
     createdAt := IdentityProtocol.createdAt protocol |}.

Definition set_id v (o : t) : t :=
  {| id := v; signingKey := signingKey o; exchangeKey := exchangeKey o;
     signature := signature o; createdAt := createdAt o |}.

(** [verify()]: as [IdentityProtocol.verify]. *)
Definition verify {E : Engine} (this : t) : result bool :=
  let* ek := req (exchangeKey this) in
  match signingKey this with
  | None => Ok false
  | Some sk => Curve.verify sk (serialized ek) (default [] (signature this))
  end.

Record IJsonRemoteIdentity : Type := {
  json_id : option Z;
  json_thumbprint : string;
  json_signingKey : PublicCryptoKey;
  json_exchangeKey : PublicCryptoKey;
  json_signature : option bytes;
  json_createdAt : string;
}.

(** [toJSON()]: the members in the order of the source. *)
Definition toJSON {E : Engine} (this : t) : result IJsonRemoteIdentity :=
  let* date := req (createdAt this) in
  let* createdAt :=
    match date with
    | DateAt ms => Ok (toISOString ms)
    | InvalidDateValue => Err InvalidDate
    end in
  let* exchangeKey := req (exchangeKey this) in
  let* signingKey := req (signingKey this) in
  Ok {| json_id := id this;
        json_thumbprint := PublicKey.thumbprint (serialized signingKey);
        json_signingKey := PublicKey.key signingKey;
        json_exchangeKey := PublicKey.key exchangeKey;
        json_signature := signature this;
        json_createdAt := createdAt |}.

(** [RemoteIdentity.fromJSON(obj)]: an identity whose signature does not
    verify is refused. *)
Definition fromJSON {E : Engine} {P : Platform} (obj : IJsonRemoteIdentity) : outcome t :=
  let^ signingKey := PublicKey.create (json_signingKey obj) in
  let^ exchangeKey := PublicKey.create (json_exchangeKey obj) in
  let this :=
    {| id := json_id obj; signingKey := Some signingKey; exchangeKey := Some exchangeKey;
       signature := json_signature obj;
       createdAt := Some (match Date_parse (json_createdAt obj) with
                          | Some ms => DateAt ms
                          | None => InvalidDateValue
                          end) |} in
  let^ ok := raise (verify this) in
  if ok : bool then Done this else Failed WrongRemoteSignature.

End RemoteIdentity.

(** ** ratchet/asymmetric-ratchet.ts *)
Module AsymmetricRatchet.
Section WithEngine.
Context {E : Engine}.
Import DHRatchetStepEnhanced.

Record t : Type := {
  id : Z;
  rootKey : bytes;
  identity : Identity.t;
  remoteIdentity : RemoteIdentity.t;
  remotePreKeyId : option Z;
  remotePreKeySignedId : option Z;
  counter : Z;
  currentStep : ref;
  currentRatchetKey : IECKeyPair;
  steps : DHRatchetStepStackEnhanced.t;
  heap : Heap;
}.

Definition set_rootKey v (o : t) : t :=
  {| id := id o; rootKey := v; identity := identity o; remoteIdentity := remoteIdentity o;
     remotePreKeyId := remotePreKeyId o; remotePreKeySignedId := remotePreKeySignedId o;
     counter := counter o; currentStep := currentStep o;
     currentRatchetKey := currentRatchetKey o; steps := steps o; heap := heap o |}.
Definition set_counter v (o : t) : t :=
  {| id := id o; rootKey := rootKey o; identity := identity o;
     remoteIdentity := remoteIdentity o;
     remotePreKeyId := remotePreKeyId o; remotePreKeySignedId := remotePreKeySignedId o;
     counter := v; currentStep := currentStep o;
     currentRatchetKey := currentRatchetKey o; steps := steps o; heap := heap o |}.
Definition set_currentStep v (o : t) : t :=
  {| id := id o; rootKey := rootKey o; identity := identity o;
     remoteIdentity := remoteIdentity o;
     remotePreKeyId := remotePreKeyId o; remotePreKeySignedId := remotePreKeySignedId o;
     counter := counter o; currentStep := v;
     currentRatchetKey := currentRatchetKey o; steps := steps o; heap := heap o |}.
Definition set_currentRatchetKey v (o : t) : t :=
  {| id := id o; rootKey := rootKey o; identity := identity o;
     remoteIdentity := remoteIdentity o;
     remotePreKeyId := remotePreKeyId o; remotePreKeySignedId := remotePreKeySignedId o;
     counter := counter o; currentStep := currentStep o;
     currentRatchetKey := v; steps := steps o; heap := heap o |}.
Definition set_steps_heap s h (o : t) : t :=
  {| id := id o; rootKey := rootKey o; identity := identity o;
     remoteIdentity := remoteIdentity o;
     remotePreKeyId := remotePreKeyId o; remotePreKeySignedId := remotePreKeySignedId o;
     counter := counter o; currentStep := currentStep o;
     currentRatchetKey := currentRatchetKey o; steps := s; heap := h |}.
Definition set_heap h (o : t) : t := set_steps_heap (steps o) h o.

(** Reading and writing the step an object reference points to. *)
Definition read_step (r : ref) : M t DHRatchetStepEnhanced.t := fun this =>
  (req (heap this !! r), this).
Definition write_step (r : ref) (step : DHRatchetStepEnhanced.t) : M t unit := fun this =>
  (Ok tt, set_heap (<[r := step]> (heap this)) this).

(** [createMinimalAAD(counter, previousCounter)]: two big-endian
    [setUint32]. *)
Definition setUint32_be (value : Z) : bytes := rev (Serialization.setUint32_le value).
Definition createMinimalAAD (counter previousCounter : Z) : bytes :=
  setUint32_be counter ++ setUint32_be previousCounter.

(** [createChain(ourRatchetKey, theirRatchetKey, ratchetClass)]: the chain
    key of the new chain; [this.rootKey] is replaced. *)
Definition createChain (ourRatchetKey : CryptoKey) (theirRatchetKey : ECPublicKey)
    : M t bytes :=
  let! derivedBytes := lift (Curve.deriveBytes ourRatchetKey theirRatchetKey) in
  let! this := get in
  let keys := Secret.HKDF derivedBytes 2 (Some (rootKey this)) INFO_RATCHET in
  let! k0 := lift (req (keys !! 0%nat)) in
  let rootKey := Secret.importHMAC k0 in
  let! k1 := lift (req (keys !! 1%nat)) in
  let chainKey := Secret.importHMAC k1 in
  let! _ := put (set_rootKey rootKey this) in
  ret chainKey.

(** [generateSkippedMessageKeys(step, fromCounter, toCounter)]: the loop
    asks [hasSkippedMessageKey] for each counter and writes to the log;
    nothing is derived and nothing is stored. *)
Definition generateSkippedMessageKeys (step : ref) (fromCounter toCounter : Z) : M t unit :=
  ret tt.

(** The assignments [protocol.senderKey = this.remoteIdentity.signingKey;
    protocol.receiverKey = this.identity.signingKey.publicKey] followed by
    [protocol.verify(hmacKey)]. *)
Definition verify_message (this : t) (protocol : MessageSignedProtocol.t) (hmacKey : bytes)
    : result bool :=
  let protocol :=
    {| MessageSignedProtocol.version := MessageSignedProtocol.version protocol;
       MessageSignedProtocol.receiverKey :=
         Some (publicKey (Identity.signingKey (identity this)));
       MessageSignedProtocol.senderKey := RemoteIdentity.signingKey (remoteIdentity this);
       MessageSignedProtocol.message := MessageSignedProtocol.message protocol;
       MessageSignedProtocol.signature := MessageSignedProtocol.signature protocol |} in
  MessageSignedProtocol.verify protocol hmacKey.

(** The header that [createMinimalAAD] binds: [setUint32] writes [0] for
    [undefined]. *)
Definition header_aad (message : MessageProtocol.t) : bytes :=
  createMinimalAAD (default 0 (MessageProtocol.counter message))
    (default 0 (MessageProtocol.previousCounter message)).

(** [decryptWithKey(messageKey, cipherText, protocol)] *)
Definition decryptWithKey (messageKey : bytes) (cipherText : option bytes)
    (protocol : MessageSignedProtocol.t) : M t bytes :=
  let! keys := lift (MessageKeys.derive messageKey) in
  let! message := lift (req (MessageSignedProtocol.message protocol)) in
  let aad := header_aad message in
  let! cipherText := lift (req cipherText) in
  let! decryptedText :=
    lift (Secret.decrypt (MessageKeys.aesKey keys) cipherText (MessageKeys.iv keys)
            (Some aad)) in
  let! this := get in
  let! ok := lift (verify_message this protocol (MessageKeys.hmacKey keys)) in
  if ok : bool then ret decryptedText else throw MessageNotVerified.

(** [x < y] where [x] may be [undefined]: the comparison is then false. *)
Definition lt_number (x : option Z) (y : Z) : bool :=
  match x with
  | Some v => v <? y
  | None => false
  end.

(** The step of the sender's ratchet key: the one the lookup table knows,
    or a new step that is pushed and becomes the current one. *)
Definition find_or_push_step (remoteRatchetKey : ECPublicKey) : M t ref := fun this =>
  match DHRatchetStepStackEnhanced.getStep (steps this) remoteRatchetKey with
  | Some step => (Ok step, this)
  | None =>
      let ratchetStep :=
        set_ratchetKeyId (Some (pk_id remoteRatchetKey))
          (set_remoteRatchetKey (Some remoteRatchetKey) DHRatchetStepEnhanced.new) in
      let r := length (heap this) in
      let '(heap', steps') :=
        DHRatchetStepStackEnhanced.push r (heap this ++ [ratchetStep]) (steps this) in
      (Ok r, set_currentStep r (set_steps_heap steps' heap' this))
  end.

(** [this.steps.consumeSkippedMessageKey(...)] *)
Definition consumeSkippedMessageKey (ratchetKeyId : string) (messageCounter : Z)
    : M t (option bytes) := fun this =>
  let '(key, steps') :=
    DHRatchetStepStackEnhanced.consumeSkippedMessageKey ratchetKeyId messageCounter
      (steps this) in
  (Ok key, set_steps_heap steps' (heap this) this).

(** [step.receivingChain.decrypt(...)]: the chain is an object of the
    step; what the call wrote to it stays written when it throws. *)
Definition receivingChain_decrypt (step : ref) (cipherText : option bytes)
    (messageCounter : Z) (aad : bytes) (now : Z) (stamp : Z -> Z) : M t ICipherMessage :=
  let! s := read_step step in
  let! chain := lift (req (receivingChain s)) in
  let '(r, chain') :=
    ReceivingRatchet.decrypt cipherText messageCounter (Some aad) now stamp chain in
  let! _ := write_step step (set_receivingChain (Some chain') s) in
  lift r.

(** [this.steps.consumeSkippedMessageKey(step.ratchetKeyId, undefined)] *)
Definition consumeSkippedMessageKey_undefined (ratchetKeyId : string)
    : M t (option bytes) := fun this =>
  let '(key, steps') :=
    DHRatchetStepStackEnhanced.consumeSkippedMessageKey_undefined ratchetKeyId (steps this) in
  (Ok key, set_steps_heap steps' (heap this) this).

(** [decrypt(protocol)] from the lookup of a skipped key on, for a message
    whose [counter] is [undefined] (the declared type of [counter] is not
    optional).  The skipped key is looked up under
    [`${ratchetKeyId}:undefined`]; the receiving chain is created if the
    step has none; [messageCounter > step.lastDecryptedCounter + 1] is
    false; [getKey(undefined)] cleans up the expired keys, finds no key
    cached (the cache holds the keys of counters), passes both comparisons
    with [this.counter], which are false, and throws. *)
Definition decrypt_undefined_counter (step : ref) (message : MessageProtocol.t)
    (protocol : MessageSignedProtocol.t) (remoteRatchetKey : ECPublicKey) (now : Z)
    : M t bytes :=
  let! s := read_step step in
  let! skippedKey :=
    if truthy (ratchetKeyId s)
    then consumeSkippedMessageKey_undefined (default "" (ratchetKeyId s))
    else ret None in
  match skippedKey with
  | Some key => decryptWithKey key (MessageProtocol.cipherText message) protocol
  | None =>
      let! _ :=
        match receivingChain s with
        | Some _ => ret tt
        | None =>
            let! this := get in
            let! chainKey :=
              createChain (privateKey (currentRatchetKey this)) remoteRatchetKey in
            write_step step (set_receivingChain (Some (ReceivingRatchet.new chainKey)) s)
        end in
      let! s := read_step step in
      let! chain := lift (req (receivingChain s)) in
      let! _ :=
        write_step step
          (set_receivingChain (Some (ReceivingRatchet.cleanupExpiredKeys now chain)) s) in
      throw FailedToDeriveMessageKey
  end.

(** [decrypt(protocol)], the function queued under ["decrypt"]. *)
Definition decrypt (protocol : MessageSignedProtocol.t) (now : Z) (stamp : Z -> Z)
    : M t bytes :=
  let! message := lift (req (MessageSignedProtocol.message protocol)) in
  let remoteRatchetKey := MessageProtocol.senderRatchetKey message in
  let! this := get in
  let maxAllowedAge := counter this - DHRatchetStepStackEnhanced.maxSize (steps this) in
  if lt_number (MessageProtocol.previousCounter message) maxAllowedAge
  then throw MessageOutsideRatchetWindow
  else
    let! remoteRatchetKey := lift (req remoteRatchetKey) in
    let! step := find_or_push_step remoteRatchetKey in
    match MessageProtocol.counter message with
    | None => decrypt_undefined_counter step message protocol remoteRatchetKey now
    | Some messageCounter =>
    let! s := read_step step in
    let! skippedKey :=
      if truthy (ratchetKeyId s)
      then consumeSkippedMessageKey (default "" (ratchetKeyId s)) messageCounter
      else ret None in
    match skippedKey with
    | Some key => decryptWithKey key (MessageProtocol.cipherText message) protocol
    | None =>
        let! _ :=
          match receivingChain s with
          | Some _ => ret tt
          | None =>
              let! this := get in
              let! chainKey :=
                createChain (privateKey (currentRatchetKey this)) remoteRatchetKey in
              write_step step (set_receivingChain (Some (ReceivingRatchet.new chainKey)) s)
          end in
        let! s := read_step step in
        let! _ :=
          if lastDecryptedCounter s + 1 <? messageCounter
          then generateSkippedMessageKeys step (lastDecryptedCounter s + 1)
                 (messageCounter - 1)
          else ret tt in
        let aad := header_aad message in
        let! decryptedMessage :=
          receivingChain_decrypt step (MessageProtocol.cipherText message) messageCounter
            aad now stamp in
        let! s := read_step step in
        let! _ :=
          write_step step
            (set_lastDecryptedCounter (Z.max (lastDecryptedCounter s) messageCounter) s) in
        let! this := get in
        let! ok := lift (verify_message this protocol (cm_hmacKey decryptedMessage)) in
        if ok : bool then ret (cm_cipherText decryptedMessage)
        else throw MessageNotVerified
    end
    end.

(** [encrypt(message)], the function queued under ["encrypt"];
    [freshRatchetKey] is the pair [generateRatchetKey()] returns when the
    step is closed. *)
Definition encrypt (message : bytes) (freshRatchetKey : IECKeyPair)
    : M t (PreKeyMessageProtocol.t + MessageSignedProtocol.t) :=
  let! this := get in
  let! cur := read_step (currentStep this) in
  let! _ :=
    match receivingChain cur, sendingChain cur with
    | Some _, None =>
        put (set_currentRatchetKey freshRatchetKey (set_counter (counter this + 1) this))
    | _, _ => ret tt
    end in
  let! _ :=
    match sendingChain cur with
    | Some _ => ret tt
    | None =>
        match remoteRatchetKey cur with
        | None => throw EmptyRemoteRatchetKey
        | Some remote =>
            let! this := get in
            let! chainKey := createChain (privateKey (currentRatchetKey this)) remote in
            write_step (currentStep this)
              (set_sendingChain (Some (SendingRatchet.new chainKey)) cur)
        end
    end in
  let! this := get in
  let! cur := read_step (currentStep this) in
  let! chain := lift (req (sendingChain cur)) in
  let messageCounter := SendingRatchet.counter chain in
  let messagePreviousCounter := counter this in
  let aad := createMinimalAAD messageCounter messagePreviousCounter in
  let '(r, chain') := SendingRatchet.encrypt message (Some aad) chain in
  let! _ := write_step (currentStep this) (set_sendingChain (Some chain') cur) in
  let! encryptedMessage := lift r in
  let! preKeyMessage :=
    if (DHRatchetStepStackEnhanced.length (steps this) =? 0)
       && negb (bool_decide (is_Some (receivingChain cur)))
       && (SendingRatchet.counter chain' =? 1)
    then
      let! idp := lift (IdentityProtocol.fill IdentityProtocol.empty (identity this)) in
      ret (Some
             {| PreKeyMessageProtocol.version := None;
                PreKeyMessageProtocol.registrationId := Some (Identity.id (identity this));
                PreKeyMessageProtocol.preKeyId := remotePreKeyId this;
                PreKeyMessageProtocol.preKeySignedId := remotePreKeySignedId this;
                PreKeyMessageProtocol.baseKey := Some (publicKey (currentRatchetKey this));
                PreKeyMessageProtocol.identity := Some idp;
                PreKeyMessageProtocol.signedMessage := None |})
    else ret None in
  let signedMessage :=
    {| MessageSignedProtocol.version := None;
       MessageSignedProtocol.receiverKey := RemoteIdentity.signingKey (remoteIdentity this);
       MessageSignedProtocol.senderKey :=
         Some (publicKey (Identity.signingKey (identity this)));
       MessageSignedProtocol.message :=
         Some {| MessageProtocol.version := None;
                 MessageProtocol.senderRatchetKey :=
                   Some (publicKey (currentRatchetKey this));
                 MessageProtocol.counter := Some messageCounter;
                 MessageProtocol.previousCounter := Some messagePreviousCounter;
                 MessageProtocol.cipherText := Some (cm_cipherText encryptedMessage) |};
       MessageSignedProtocol.signature := None |} in
  let! signedMessage :=
    lift (MessageSignedProtocol.sign signedMessage (cm_hmacKey encryptedMessage)) in
  match preKeyMessage with
  | Some pkm => ret (inl (PreKeyMessageProtocol.set_signedMessage signedMessage pkm))
  | None => ret (inr signedMessage)
  end.

(** [create(identity, protocol, options)] for a [PreKeyBundleProtocol]:
    the initiator.  [freshRatchetKey] is the pair [generateRatchetKey()]
    returns. *)
Definition create_from_bundle (identity : Identity.t) (protocol : PreKeyBundleProtocol.t)
    (limits : IRatchetLimitsOpt) (freshRatchetKey : IECKeyPair) : result t :=
  let* idp := req (PreKeyBundleProtocol.identity protocol) in
  let* ok := IdentityProtocol.verify idp in
  if negb ok then Err BadIdentity
  else
    let* preKeySigned := req (PreKeyBundleProtocol.preKeySigned protocol) in
    let* ok := PreKeySignedProtocol.verify preKeySigned (IdentityProtocol.signingKey idp) in
    if negb ok then Err BadSignedPreKey
    else
      let* spk := req (PreKeySignedProtocol.key preKeySigned) in
      let currentStep :=
        set_ratchetKeyId (Some (pk_id spk))
          (set_remoteRatchetKey (Some spk) DHRatchetStepEnhanced.new) in
      let remoteIdentity :=
        RemoteIdentity.set_id (PreKeyBundleProtocol.registrationId protocol)
          (RemoteIdentity.fill idp) in
      let preKey := PreKeyBundleProtocol.preKey protocol in
      let* ikb := req (IdentityProtocol.exchangeKey idp) in
      let* rootKey :=
        X3DH.authenticateA identity freshRatchetKey ikb spk
          (preKey ≫= PreKeyProtocol.key) in
      Ok {| id := Identity.id identity; rootKey := rootKey; identity := identity;
            remoteIdentity := remoteIdentity;
            remotePreKeyId := preKey ≫= PreKeyProtocol.id;
            remotePreKeySignedId := PreKeySignedProtocol.id preKeySigned;
            counter := 0; currentStep := 0%nat; currentRatchetKey := freshRatchetKey;
            steps := DHRatchetStepStackEnhanced.new limits;
            heap := [currentStep] |}.

(** The one-time pre-key a [PreKeyMessageProtocol] cites, and the identity
    after [delete identity.preKeys[protocol.preKeyId]]. *)
Definition take_preKey (identity : Identity.t) (preKeyId : option Z)
    : option IECKeyPair * Identity.t :=
  match preKeyId with
  | None => (None, identity)
  | Some j =>
      match JsArray.get (Identity.preKeys identity) j with
      | Some preKey =>
          (Some preKey,
           {| Identity.id := Identity.id identity;
              Identity.signingKey := Identity.signingKey identity;
              Identity.exchangeKey := Identity.exchangeKey identity;
              Identity.createdAt := Identity.createdAt identity;
              Identity.preKeys := JsArray.delete (Identity.preKeys identity) j;
              Identity.signedPreKeys := Identity.signedPreKeys identity |})
      | None => (None, identity)
      end
  end.

(** [create(identity, protocol, options)] for a [PreKeyMessageProtocol]:
    the responder.  The identity is the caller's object: its [preKeys] are
    written, whatever happens afterwards. *)
Definition create_from_message (protocol : PreKeyMessageProtocol.t)
    (limits : IRatchetLimitsOpt) : M Identity.t t := fun identity =>
  match (let* idp := req (PreKeyMessageProtocol.identity protocol) in
         let* ok := IdentityProtocol.verify idp in
         if negb ok then Err BadIdentity else Ok idp) with
  | Err e => (Err e, identity)
  | Ok idp =>
      match PreKeyMessageProtocol.preKeySignedId protocol
            ≫= JsArray.get (Identity.signedPreKeys identity) with
      | None => (Err SignedPreKeyNotFound, identity)
      | Some signedPreKey =>
          let '(preKey, identity) :=
            take_preKey identity (PreKeyMessageProtocol.preKeyId protocol) in
          (let remoteIdentity := RemoteIdentity.fill idp in
           let* ika := req (IdentityProtocol.exchangeKey idp) in
           let* signedMessage := req (PreKeyMessageProtocol.signedMessage protocol) in
           let* message := req (MessageSignedProtocol.message signedMessage) in
           let* rootKey :=
             match MessageProtocol.senderRatchetKey message with
             | Some eka =>
                 X3DH.authenticateB identity signedPreKey ika eka (privateKey <$> preKey)
             | None =>
                 let* _ := Curve.deriveBytes (privateKey signedPreKey) ika in
                 Err TypeError
             end in
           Ok {| id := Identity.id identity; rootKey := rootKey; identity := identity;
                 remoteIdentity := remoteIdentity;
                 remotePreKeyId := None; remotePreKeySignedId := None;
                 counter := 0; currentStep := 0%nat; currentRatchetKey := signedPreKey;
                 steps := DHRatchetStepStackEnhanced.new limits;
                 heap := [DHRatchetStepEnhanced.new] |},
           identity)
      end
  end.

(** [AsymmetricRatchet.create(identity, protocol, options)] *)
Definition create (protocol : PreKeyBundleProtocol.t + PreKeyMessageProtocol.t)
    (limits : IRatchetLimitsOpt) (freshRatchetKey : IECKeyPair) : M Identity.t t :=
  match protocol with
  | inl bundle => fun identity =>
      (create_from_bundle identity bundle limits freshRatchetKey, identity)
  | inr message => create_from_message message limits
  end.

Context {P : Platform}.

(** [getSkippedMessageStats()] *)
Definition getSkippedMessageStats (this : t) : DHRatchetStepStackEnhanced.SkippedKeyStats :=
  DHRatchetStepStackEnhanced.getSkippedKeyStats (steps this).

(** The loop of [hasRatchetKey]: [item.remoteRatchetKey!.isEqual(ecKey)]
    for the items of the ring, in order. *)
Fixpoint hasRatchetKey_loop (heap : Heap) (items : list ref) (ecKey : ECPublicKey)
    : result bool :=
  match items with
  | [] => Ok false
  | item :: rest =>
      let* it := req (heap !! item) in
      let* k := req (remoteRatchetKey it) in
      if PublicKey.isEqual k ecKey then Ok true
      else hasRatchetKey_loop heap rest ecKey
  end.

(** [hasRatchetKey(key)] *)
Definition hasRatchetKey (key : PublicCryptoKey + ECPublicKey) (this : t) : outcome bool :=
  let^ ecKey :=
    match key with
    | inl cryptoKey => PublicKey.create cryptoKey
    | inr ecKey => Done ecKey
    end in
  raise (hasRatchetKey_loop (heap this) (DHRatchetStepStackEnhanced.items (steps this)) ecKey).

Record IJsonAsymmetricRatchet : Type := {
  json_counter : Z;
  json_ratchetKey : Curve.JsonKeyPair;
  json_remoteIdentity : string;
  json_rootKey : bytes;
  json_steps : list IJsonDHRatchetStepEnhanced;
}.

(** [toJSON()]: the members in the order of the source.  The current
    step is written only as far as it is an item of [steps]. *)
Definition toJSON (this : t) : result IJsonAsymmetricRatchet :=
  let* ratchetKey := Curve.ecKeyPairToJson (Some (currentRatchetKey this)) in
  let* signingKey := req (RemoteIdentity.signingKey (remoteIdentity this)) in
  let* steps := DHRatchetStepStackEnhanced.toJSON (heap this) (steps this) in
  Ok {| json_counter := counter this;
        json_ratchetKey := ratchetKey;
        json_remoteIdentity := PublicKey.thumbprint (serialized signingKey);
        json_rootKey := rootKey this;
        json_steps := steps |}.

(** The loop of [fromJSON(obj)]: every step read becomes the current step
    and is pushed; [stamp n] gives the times for the [n]-th step. *)
Fixpoint fromJSON_steps (objs : list IJsonDHRatchetStepEnhanced) (n : nat)
    (stamp : nat -> Z -> Z) (this : t) : outcome t :=
  match objs with
  | [] => Done this
  | obj :: rest =>
      let^ step := DHRatchetStepEnhanced.fromJSON obj (stamp n) in
      let r := length (heap this) in
      let '(heap', steps') :=
        DHRatchetStepStackEnhanced.push r (heap this ++ [step]) (steps this) in
      fromJSON_steps rest (S n) stamp (set_currentStep r (set_steps_heap steps' heap' this))
  end.

(** [AsymmetricRatchet.fromJSON(identity, remote, obj)]: the instance is
    built with no options.  [id], which is left unassigned and which no
    method reads, is the parameter [unassigned]. *)
Definition fromJSON (identity : Identity.t) (remote : RemoteIdentity.t)
    (obj : IJsonAsymmetricRatchet) (stamp : nat -> Z -> Z) (unassigned : Z) : outcome t :=
  let^ currentRatchetKey := Curve.ecKeyPairFromJson (Curve.keyData (json_ratchetKey obj)) in
  fromJSON_steps (json_steps obj) 0 stamp
    {| id := unassigned; rootKey := json_rootKey obj; identity := identity;
       remoteIdentity := remote;
       remotePreKeyId := None; remotePreKeySignedId := None;
       counter := json_counter obj; currentStep := 0%nat;
       currentRatchetKey := currentRatchetKey;
       steps := DHRatchetStepStackEnhanced.new no_limits;
       heap := [DHRatchetStepEnhanced.new] |}.

End WithEngine.
End AsymmetricRatchet.

(** ** A small engine

    An instance of the primitives that computes: every law of [EngineLaws]
    holds of it, so the assumptions of the theorems below can be met, and
    the model can be run on concrete sessions. *)
Module Toy.

Definition byte_xor (a b : byte) : byte :=
  default x00 (Byte.of_N (N.lxor (Byte.to_N a) (Byte.to_N b))).

(** A 32-byte checksum: byte [j] of the data is folded into lane
    [j mod 32]. *)
Definition absorb (acc : bytes) (b : byte) : bytes :=
  match acc with
  | [] => []
  | x :: rest => rest ++ [byte_xor x b]
  end.

Definition pad32 (data : bytes) : bytes := fold_left absorb data (repeat x00 32).

(** The tag of the toy AEAD covers the key, the nonce, the associated
    data and the text: the two halves of their checksum, folded together. *)
Definition tag (key iv aad text : bytes) : bytes :=
  let sum := pad32 (key ++ iv ++ aad ++ text) in
  zip_with byte_xor (take 16 sum) (drop 16 sum).

Definition engine : Engine := {|
  sha256 := pad32;
  x25519_getPublicKey := fun a => a;
  x25519_getSharedSecret := fun a b => Ok (zip_with byte_xor a b);
  ed25519_verify := fun sig msg pk =>
    Ok (Buffer.isEqual sig (pad32 (pk ++ msg) ++ pad32 (pk ++ msg)));
  ed25519_sign := fun msg sk => pad32 (sk ++ msg) ++ pad32 (sk ++ msg);
  hmac_sha256 := fun key data => pad32 (data ++ key);
  hkdf_sha256 := fun ikm n salt info =>
    map (fun i => pad32 (Serialization.byte_of_Z (Z.of_nat i) :: ikm ++ salt ++ info))
      (seq 0 n);
  aes_gcm_encrypt := fun key iv aad text => text ++ tag key iv aad text;
  aes_gcm_decrypt := fun key iv aad data =>
    let n := (length data - 16)%nat in
    if (16 <=? length data)%nat
       && Buffer.isEqual (drop n data) (tag key iv aad (take n data))
    then Some (take n data) else None;
  toISOString := fun ms => NilEmpty.string_of_int (Z.to_int ms);
  Date_parse := fun s => Z.of_int <$> NilEmpty.int_of_string s;
  utf8_encode := list_byte_of_string;
  utf8_decode := string_of_list_byte;
|}.

(** A key pair over the toy curve: the public key is the private one.  The
    private key is not extractable, as with the default of
    [Identity.create]. *)
Definition publicKeyOf (type : CurveType) (raw : bytes) : ECPublicKey :=
  {| pk_id := PublicKey.thumbprint (E := engine) raw; pk_type := type; serialized := raw |}.

Definition keyPair (type : CurveType) (raw : bytes) : IECKeyPair :=
  {| privateKey := {| algorithm := type; extractable := false; rawBytes := Some raw |};
     publicKey := publicKeyOf type raw |}.

(** An identity whose keys are filled with one byte each. *)
Definition identityOf (n : Z) (sign exch : byte) (preKeys signedPreKeys : list byte)
    : Identity.t :=
  {| Identity.id := n;
     Identity.signingKey := keyPair Ed25519 (repeat sign 32);
     Identity.exchangeKey := keyPair X25519 (repeat exch 32);
     Identity.createdAt := DateAt 0;
     Identity.preKeys := map (fun b => Some (keyPair X25519 (repeat b 32))) preKeys;
     Identity.signedPreKeys :=
       map (fun b => Some (keyPair X25519 (repeat b 32))) signedPreKeys |}.


(** The rest of the platform: the public key of a toy signing key is the
    key itself, as for the toy curve; no key is exported as a JWK. *)
Definition platform : Platform := {|
  ed25519_getPublicKey := fun a => a;
  exportKey_jwk := fun _ => Err EngineError;
  atob := fun s => Ok s;
  btoa := fun s => s;
|}.

End Toy.

(** * Definitions for the properties *)

(** A key pair as [Curve.generateKeyPair("X25519", _)] returns it. *)
Definition wf_x25519 {E : Engine} (kp : IECKeyPair) : Prop :=
  exists sk, rawBytes (privateKey kp) = Some sk
             /\ length sk = 32%nat
             /\ serialized (publicKey kp) = x25519_getPublicKey sk.

(** The X25519 pair of the private key [sk]. *)
Definition x25519_pair {E : Engine} (kp : IECKeyPair) (sk : bytes) : Prop :=
  rawBytes (privateKey kp) = Some sk
  /\ length sk = 32%nat
  /\ serialized (publicKey kp) = x25519_getPublicKey sk.

(** ** Sessions over the toy engine *)
Module Fixtures.

(** Alice publishes one signed pre-key and one one-time pre-key; Bob
    initiates. *)
Definition alice : Identity.t := Toy.identityOf 1 x0a x0b [x0c] [x0d].
Definition bob : Identity.t := Toy.identityOf 2 x14 x15 [] [].
Definition alice_signedPreKey : IECKeyPair := Toy.keyPair X25519 (repeat x0d 32).
Definition alice_preKey : IECKeyPair := Toy.keyPair X25519 (repeat x0c 32).
Definition bob_ephemeral : IECKeyPair := Toy.keyPair X25519 (repeat x1e 32).

(** A session whose DH counter is 5 and whose step ring holds one step. *)
Definition late_session : AsymmetricRatchet.t :=
  {| AsymmetricRatchet.id := 1;
     AsymmetricRatchet.rootKey := repeat x00 32;
     AsymmetricRatchet.identity := alice;
     AsymmetricRatchet.remoteIdentity :=
       {| RemoteIdentity.id := Some 2;
          RemoteIdentity.signingKey := Some (publicKey (Identity.signingKey bob));
          RemoteIdentity.exchangeKey := Some (publicKey (Identity.exchangeKey bob));
          RemoteIdentity.signature := None;
          RemoteIdentity.createdAt := None |};
     AsymmetricRatchet.remotePreKeyId := None;
     AsymmetricRatchet.remotePreKeySignedId := None;
     AsymmetricRatchet.counter := 5;
     AsymmetricRatchet.currentStep := 0%nat;
     AsymmetricRatchet.currentRatchetKey := alice_signedPreKey;
     AsymmetricRatchet.steps :=
       DHRatchetStepStackEnhanced.new
         {| opt_maxRatchetSteps := Some 1; opt_maxSkippedKeys := None;
            opt_skippedKeyTTL := None; opt_maxMessageKeysPerStep := None |};
     AsymmetricRatchet.heap := [DHRatchetStepEnhanced.new] |}.

(** A message that names DH counter 0 as its previous counter. *)
Definition old_message : MessageSignedProtocol.t :=
  {| MessageSignedProtocol.version := None;
     MessageSignedProtocol.receiverKey := None;
     MessageSignedProtocol.senderKey := Some (publicKey (Identity.signingKey bob));
     MessageSignedProtocol.message :=
       Some {| MessageProtocol.version := None;
               MessageProtocol.senderRatchetKey := Some (publicKey bob_ephemeral);
               MessageProtocol.counter := Some 0;
               MessageProtocol.previousCounter := Some 0;
               MessageProtocol.cipherText := Some [] |};
     MessageSignedProtocol.signature := Some [] |}.

(** Scenario: Bob starts a session from Alice's bundle and encrypts a
    first message, which is a [PreKeyMessage] citing Alice's one-time
    pre-key 0. *)
Definition alice_bundle : result PreKeyBundleProtocol.t :=
  let E := Toy.engine in
  let* idp := IdentityProtocol.fill IdentityProtocol.empty alice in
  let* sig := Curve.sign (privateKey (Identity.signingKey alice))
                (serialized (publicKey alice_signedPreKey)) in
  Ok {| PreKeyBundleProtocol.version := None;
        PreKeyBundleProtocol.registrationId := Some 1;
        PreKeyBundleProtocol.identity := Some idp;
        PreKeyBundleProtocol.preKey :=
          Some {| PreKeyProtocol.version := None; PreKeyProtocol.id := Some 0;
                  PreKeyProtocol.key := Some (publicKey alice_preKey) |};
        PreKeyBundleProtocol.preKeySigned :=
          Some {| PreKeySignedProtocol.version := None; PreKeySignedProtocol.id := Some 0;
                  PreKeySignedProtocol.key := Some (publicKey alice_signedPreKey);
                  PreKeySignedProtocol.signature := Some sig |} |}.

Definition hello_alice : bytes := Convert.FromBinary "hello alice".

Definition bob_session : result AsymmetricRatchet.t :=
  let* bundle := alice_bundle in
  AsymmetricRatchet.create_from_bundle (E := Toy.engine) bob bundle no_limits bob_ephemeral.

Definition first_message : option PreKeyMessageProtocol.t :=
  Eval vm_compute in
    match bob_session with
    | Ok s =>
        match AsymmetricRatchet.encrypt (E := Toy.engine) hello_alice bob_ephemeral s with
        | (Ok (inl m), _) => Some m
        | _ => None
        end
    | Err _ => None
    end.

End Fixtures.

(** Alice's side of the first exchange: Bob's first message, the session
    Alice creates from it with her identity afterwards, and the session
    once she has decrypted the message. *)
Module FirstExchange.

Definition message : PreKeyMessageProtocol.t :=
  Eval vm_compute in default PreKeyMessageProtocol.empty Fixtures.first_message.

Definition signedMessage : MessageSignedProtocol.t :=
  Eval vm_compute in
    default MessageSignedProtocol.empty (PreKeyMessageProtocol.signedMessage message).

Definition alice' : Identity.t :=
  Eval vm_compute in
    snd (AsymmetricRatchet.create_from_message (E := Toy.engine) message no_limits
           Fixtures.alice).

Definition session : AsymmetricRatchet.t :=
  Eval vm_compute in
    match fst (AsymmetricRatchet.create_from_message (E := Toy.engine) message no_limits
                 Fixtures.alice) with
    | Ok s => s
    | Err _ => Fixtures.late_session
    end.

Definition session' : AsymmetricRatchet.t :=
  Eval vm_compute in
    snd (AsymmetricRatchet.decrypt (E := Toy.engine) signedMessage 0 (fun _ => 0) session).

End FirstExchange.

Definition is_Ok {A} (r : result A) : bool :=
  match r with
  | Ok _ => true
  | Err _ => false
  end.

(** Two steps with distinct remote ratchet keys, and a ring of capacity 1. *)
Module RingFixtures.
Import DHRatchetStepEnhanced.

Definition keyA : ECPublicKey := Toy.publicKeyOf X25519 (repeat x0a 32).
Definition keyB : ECPublicKey := Toy.publicKeyOf X25519 (repeat x0b 32).

Definition stepOf (k : ECPublicKey) : DHRatchetStepEnhanced.t :=
  set_ratchetKeyId (Some (pk_id k)) (set_remoteRatchetKey (Some k) DHRatchetStepEnhanced.new).

Definition heap : Heap := [stepOf keyA; stepOf keyB].

Definition ring1 : DHRatchetStepStackEnhanced.t :=
  DHRatchetStepStackEnhanced.new
    {| opt_maxRatchetSteps := Some 1; opt_maxSkippedKeys := None;
       opt_skippedKeyTTL := None; opt_maxMessageKeysPerStep := None |}.

(** Push the step of [keyA], store a skipped key for its counter 0, push
    the step of [keyB]. *)
Definition after_overflow : Heap * DHRatchetStepStackEnhanced.t :=
  let '(h, s) := DHRatchetStepStackEnhanced.push 0%nat heap ring1 in
  let s := DHRatchetStepStackEnhanced.storeSkippedMessageKey (pk_id keyA) 0 [x01] 0 0 s in
  DHRatchetStepStackEnhanced.push 1%nat h s.

End RingFixtures.

(** ** The chain of a symmetric ratchet *)

(** The chain key after [n] clicks, and the cipher key of the [n]-th
    click, counted from 0. *)
Fixpoint chainKey {E : Engine} (ck : bytes) (n : nat) : bytes :=
  match n with
  | O => ck
  | S n' => chainKey (snd (SymmetricRatchet.calculateKey ck)) n'
  end.

Definition messageKey {E : Engine} (ck : bytes) (n : nat) : bytes :=
  fst (SymmetricRatchet.calculateKey (chainKey ck n)).

(** The number of message keys a receiving chain caches. *)
Definition cacheSize (this : ReceivingRatchet.t) : Z :=
  Z.of_nat (size (ReceivingRatchet.messageKeys this)).

(** ** Sequences of operations on sessions *)
Module Scenario.
Section WithEngine.
Context {E : Engine}.

(** The [MessageSigned] that travels: the message itself, or the one a
    [PreKeyMessage] wraps. *)
Definition signedMessageOf (m : PreKeyMessageProtocol.t + MessageSignedProtocol.t)
    : result MessageSignedProtocol.t :=
  match m with
  | inl pkm => req (PreKeyMessageProtocol.signedMessage pkm)
  | inr sm => Ok sm
  end.

(** The sender encrypts the plaintexts one after the other. *)
Fixpoint encrypt_all (plaintexts : list bytes) (freshRatchetKey : IECKeyPair)
    : M AsymmetricRatchet.t (list MessageSignedProtocol.t) :=
  match plaintexts with
  | [] => ret []
  | p :: rest =>
      let! m := AsymmetricRatchet.encrypt p freshRatchetKey in
      let! sm := lift (signedMessageOf m) in
      let! sms := encrypt_all rest freshRatchetKey in
      ret (sm :: sms)
  end.

(** A delivery: the message, the time at which the receiver starts to
    decrypt it, and the time stamps it gives to the keys it caches. *)
Record Delivery : Type := {
  d_message : MessageSignedProtocol.t;
  d_now : Z;
  d_stamp : Z -> Z;
}.

(** The receiver decrypts the deliveries one after the other; a failure
    does not stop the sequence. *)
Fixpoint decrypt_all (deliveries : list Delivery) (this : AsymmetricRatchet.t)
    : list (result bytes) * AsymmetricRatchet.t :=
  match deliveries with
  | [] => ([], this)
  | d :: rest =>
      let '(r, this1) := AsymmetricRatchet.decrypt (d_message d) (d_now d) (d_stamp d) this in
      let '(rs, this2) := decrypt_all rest this1 in
      (r :: rs, this2)
  end.

(** The receiving chain of the step that the lookup table has for a remote
    ratchet key. *)
Definition receivingChainOf (this : AsymmetricRatchet.t) (k : ECPublicKey)
    : option ReceivingRatchet.t :=
  r ← DHRatchetStepStackEnhanced.getStep (AsymmetricRatchet.steps this) k;
  s ← AsymmetricRatchet.heap this !! r;
  DHRatchetStepEnhanced.receivingChain s.

End WithEngine.
End Scenario.

(** Alice's session, created from Bob's first message, and the first [n]
    messages Bob encrypts in his first epoch, each with the one-byte
    plaintext [1]. *)
Module Epoch.

Definition alice_session : option AsymmetricRatchet.t :=
  match Fixtures.first_message with
  | Some m =>
      match AsymmetricRatchet.create_from_message (E := Toy.engine) m no_limits
              Fixtures.alice with
      | (Ok s, _) => Some s
      | _ => None
      end
  | None => None
  end.

Definition bob_messages (n : nat) : option (list MessageSignedProtocol.t) :=
  match Fixtures.bob_session with
  | Ok s =>
      match Scenario.encrypt_all (E := Toy.engine) (replicate n [x01])
              Fixtures.bob_ephemeral s with
      | (Ok l, _) => Some l
      | _ => None
      end
  | Err _ => None
  end.

(** Alice decrypts the messages of the given indices, in this order, each
    at the given time. *)
Definition deliver (n : nat) (order : list (nat * Z))
    : option (list (result bytes) * AsymmetricRatchet.t) :=
  match bob_messages n, alice_session with
  | Some l, Some a =>
      deliveries ← mapM (fun it => (fun m => {| Scenario.d_message := m;
                                                Scenario.d_now := snd it;
                                                Scenario.d_stamp := fun _ => snd it |})
                                   <$> l !! fst it) order;
      Some (Scenario.decrypt_all (E := Toy.engine) deliveries a)
  | _, _ => None
  end.

End Epoch.

(** ** What one decrypt does to a session *)

(** [b'] is [b] up to the step at reference [r]. *)
Definition same_except_step (b b' : AsymmetricRatchet.t) (r : ref) : Prop :=
  AsymmetricRatchet.steps b' = AsymmetricRatchet.steps b
  /\ AsymmetricRatchet.counter b' = AsymmetricRatchet.counter b
  /\ AsymmetricRatchet.identity b' = AsymmetricRatchet.identity b
  /\ AsymmetricRatchet.remoteIdentity b' = AsymmetricRatchet.remoteIdentity b
  /\ AsymmetricRatchet.rootKey b' = AsymmetricRatchet.rootKey b
  /\ AsymmetricRatchet.currentRatchetKey b' = AsymmetricRatchet.currentRatchetKey b
  /\ length (AsymmetricRatchet.heap b') = length (AsymmetricRatchet.heap b)
  /\ forall r', r' <> r -> AsymmetricRatchet.heap b' !! r' = AsymmetricRatchet.heap b !! r'.

(** The outcome of [decrypt] once the receiving chain has answered. *)
Definition decrypt_outcome {E : Engine} (b : AsymmetricRatchet.t)
    (protocol : MessageSignedProtocol.t) (res : result ICipherMessage) : result bytes :=
  match res with
  | Err e => Err e
  | Ok dm =>
      match AsymmetricRatchet.verify_message b protocol (cm_hmacKey dm) with
      | Ok true => Ok (cm_cipherText dm)
      | Ok false => Err MessageNotVerified
      | Err e => Err e
      end
  end.

(** The part of [decrypt] that follows the creation of the receiving
    chain, as it stands in [AsymmetricRatchet.decrypt]. *)
Definition decrypt_tail {E : Engine} (step : ref) (message : MessageProtocol.t)
    (protocol : MessageSignedProtocol.t) (messageCounter : Z) (now : Z) (stamp : Z -> Z)
    : M AsymmetricRatchet.t bytes :=
  let! s := AsymmetricRatchet.read_step step in
  let! _ :=
    if DHRatchetStepEnhanced.lastDecryptedCounter s + 1 <? messageCounter
    then AsymmetricRatchet.generateSkippedMessageKeys step
           (DHRatchetStepEnhanced.lastDecryptedCounter s + 1) (messageCounter - 1)
    else ret tt in
  let aad := AsymmetricRatchet.header_aad message in
  let! decryptedMessage :=
    AsymmetricRatchet.receivingChain_decrypt step (MessageProtocol.cipherText message)
      messageCounter aad now stamp in
  let! s := AsymmetricRatchet.read_step step in
  let! _ :=
    AsymmetricRatchet.write_step step
      (DHRatchetStepEnhanced.set_lastDecryptedCounter
         (Z.max (DHRatchetStepEnhanced.lastDecryptedCounter s) messageCounter) s) in
  let! this := get in
  let! ok := lift (AsymmetricRatchet.verify_message this protocol
                     (cm_hmacKey decryptedMessage)) in
  if ok : bool then ret (cm_cipherText decryptedMessage)
  else throw MessageNotVerified.

(** The cached keys of a receiving chain lie below its counter: so it is of
    every chain that starts as [new ReceivingRatchet(key)] and is driven by
    [getKey]. *)
Definition cache_below_counter (this : ReceivingRatchet.t) : Prop :=
  forall c, is_Some (ReceivingRatchet.messageKeys this !! c) ->
            c < ReceivingRatchet.counter this.




(** Flip the lowest bit of the first byte. *)
Definition flip_first_byte (data : bytes) : bytes :=
  match data with
  | [] => []
  | x :: rest => Toy.byte_xor x x01 :: rest
  end.

(** A [MessageSigned] with a byte of its ciphertext flipped. *)
Definition tamper (p : MessageSignedProtocol.t) : MessageSignedProtocol.t :=
  {| MessageSignedProtocol.version := MessageSignedProtocol.version p;
     MessageSignedProtocol.receiverKey := MessageSignedProtocol.receiverKey p;
     MessageSignedProtocol.senderKey := MessageSignedProtocol.senderKey p;
     MessageSignedProtocol.message :=
       (fun m => {| MessageProtocol.version := MessageProtocol.version m;
                    MessageProtocol.senderRatchetKey := MessageProtocol.senderRatchetKey m;
                    MessageProtocol.counter := MessageProtocol.counter m;
                    MessageProtocol.previousCounter := MessageProtocol.previousCounter m;
                    MessageProtocol.cipherText :=
                      flip_first_byte <$> MessageProtocol.cipherText m |})
       <$> MessageSignedProtocol.message p;
     MessageSignedProtocol.signature := MessageSignedProtocol.signature p |}.

(** Alice's session once she has decrypted Bob's message 0, and Bob's
    message 1 with a byte of its ciphertext flipped. *)
Module Tampered.

Definition session : AsymmetricRatchet.t :=
  Eval vm_compute in
    match Epoch.bob_messages 2, Epoch.alice_session with
    | Some (m0 :: _), Some a =>
        snd (AsymmetricRatchet.decrypt (E := Toy.engine) m0 0 (fun _ => 0) a)
    | _, _ => Fixtures.late_session
    end.

Definition message : MessageSignedProtocol.t :=
  Eval vm_compute in
    match Epoch.bob_messages 2 with
    | Some [_; m1] => tamper m1
    | _ => Fixtures.old_message
    end.

Definition inner : MessageProtocol.t :=
  Eval vm_compute in default MessageProtocol.empty (MessageSignedProtocol.message message).

Definition cipher : bytes :=
  Eval vm_compute in default [] (MessageProtocol.cipherText inner).

Definition stepRef : ref :=
  Eval vm_compute in
    default 0%nat
      (DHRatchetStepStackEnhanced.getStep (AsymmetricRatchet.steps session)
         (publicKey Fixtures.bob_ephemeral)).

Definition step : DHRatchetStepEnhanced.t :=
  Eval vm_compute in
    default DHRatchetStepEnhanced.new (AsymmetricRatchet.heap session !! stepRef).

Definition chain : ReceivingRatchet.t :=
  Eval vm_compute in
    default (ReceivingRatchet.new []) (DHRatchetStepEnhanced.receivingChain step).


End Tampered.

(** ** A receiving chain within one epoch *)

(** The counter a receiving chain stands at once it has served the
    counters of [delivered]. *)
Definition nextCounter (delivered : list Z) : Z :=
  foldr (fun c acc => Z.max (c + 1) acc) 0 delivered.

(** A receiving chain that was created with the chain key [ck] and has
    served exactly the counters of [delivered]: it caches the key of every
    counter it has passed and not served, and no cached key was stored
    before [t0]. *)
Definition chain_serves {E : Engine} (ck : bytes) (t0 : Z) (delivered : list Z)
    (chain : ReceivingRatchet.t) : Prop :=
  ReceivingRatchet.counter chain = nextCounter delivered
  /\ ReceivingRatchet.rootKey chain
     = chainKey ck (Z.to_nat (ReceivingRatchet.counter chain))
  /\ (forall c, ReceivingRatchet.messageKeys chain !! c
                = if decide (0 <= c < ReceivingRatchet.counter chain /\ c ∉ delivered)
                  then Some (messageKey ck (Z.to_nat c)) else None)
  /\ (forall c t, ReceivingRatchet.messageKeysCreationTime chain !! c = Some t -> t0 <= t).

(** ** What one encrypt does to a session *)

(** The part of [encrypt] that follows the creation of the sending chain,
    as it stands in [AsymmetricRatchet.encrypt]. *)
Definition encrypt_tail {E : Engine} (message : bytes)
    : M AsymmetricRatchet.t (PreKeyMessageProtocol.t + MessageSignedProtocol.t) :=
  let! this := get in
  let! cur := AsymmetricRatchet.read_step (AsymmetricRatchet.currentStep this) in
  let! chain := lift (req (DHRatchetStepEnhanced.sendingChain cur)) in
  let messageCounter := SendingRatchet.counter chain in
  let messagePreviousCounter := AsymmetricRatchet.counter this in
  let aad := AsymmetricRatchet.createMinimalAAD messageCounter messagePreviousCounter in
  let '(r, chain') := SendingRatchet.encrypt message (Some aad) chain in
  let! _ := AsymmetricRatchet.write_step (AsymmetricRatchet.currentStep this)
              (DHRatchetStepEnhanced.set_sendingChain (Some chain') cur) in
  let! encryptedMessage := lift r in
  let! preKeyMessage :=
    if (DHRatchetStepStackEnhanced.length (AsymmetricRatchet.steps this) =? 0)
       && negb (bool_decide (is_Some (DHRatchetStepEnhanced.receivingChain cur)))
       && (SendingRatchet.counter chain' =? 1)
    then
      let! idp := lift (IdentityProtocol.fill IdentityProtocol.empty
                          (AsymmetricRatchet.identity this)) in
      ret (Some
             {| PreKeyMessageProtocol.version := None;
                PreKeyMessageProtocol.registrationId :=
                  Some (Identity.id (AsymmetricRatchet.identity this));
                PreKeyMessageProtocol.preKeyId := AsymmetricRatchet.remotePreKeyId this;
                PreKeyMessageProtocol.preKeySignedId :=
                  AsymmetricRatchet.remotePreKeySignedId this;
                PreKeyMessageProtocol.baseKey :=
                  Some (publicKey (AsymmetricRatchet.currentRatchetKey this));
                PreKeyMessageProtocol.identity := Some idp;
                PreKeyMessageProtocol.signedMessage := None |})
    else ret None in
  let signedMessage :=
    {| MessageSignedProtocol.version := None;
       MessageSignedProtocol.receiverKey :=
         RemoteIdentity.signingKey (AsymmetricRatchet.remoteIdentity this);
       MessageSignedProtocol.senderKey :=
         Some (publicKey (Identity.signingKey (AsymmetricRatchet.identity this)));
       MessageSignedProtocol.message :=
         Some {| MessageProtocol.version := None;
                 MessageProtocol.senderRatchetKey :=
                   Some (publicKey (AsymmetricRatchet.currentRatchetKey this));
                 MessageProtocol.counter := Some messageCounter;
                 MessageProtocol.previousCounter := Some messagePreviousCounter;
                 MessageProtocol.cipherText := Some (cm_cipherText encryptedMessage) |};
       MessageSignedProtocol.signature := None |} in
  let! signedMessage :=
    lift (MessageSignedProtocol.sign signedMessage (cm_hmacKey encryptedMessage)) in
  match preKeyMessage with
  | Some pkm => ret (inl (PreKeyMessageProtocol.set_signedMessage signedMessage pkm))
  | None => ret (inr signedMessage)
  end.

(** A [MessageSigned] as the sender of an epoch builds it: the epoch has
    the chain key [ck], the sender's ratchet key [rk] and the DH counter
    [pc]; the message has the counter [c] and seals the plaintext [p]
    under the keys of that counter; its MAC covers the two identity keys
    and the encoded message. *)
Definition sealed_message {E : Engine} (ck : bytes) (rk : ECPublicKey) (pc : Z)
    (receiverKey senderKey : bytes) (c : nat) (p : bytes) (sm : MessageSignedProtocol.t)
    : Prop :=
  exists keys m raw,
    MessageKeys.derive (messageKey ck c) = Ok keys
    /\ MessageSignedProtocol.message sm = Some m
    /\ MessageProtocol.senderRatchetKey m = Some rk
    /\ MessageProtocol.counter m = Some (Z.of_nat c)
    /\ MessageProtocol.previousCounter m = Some pc
    /\ MessageProtocol.cipherText m
       = Some (Secret.encrypt (MessageKeys.aesKey keys) p (MessageKeys.iv keys)
                 (Some (AsymmetricRatchet.createMinimalAAD (Z.of_nat c) pc)))
    /\ MessageProtocol.exportProto m = Ok raw
    /\ MessageSignedProtocol.signature sm
       = Some (Secret.sign (MessageKeys.hmacKey keys)
                 (Buffer.combine [receiverKey; senderKey; raw])).

(** A sender in the middle of an epoch: its current step holds the sending
    chain of the epoch, which has sealed [k] messages. *)
Definition sender_at {E : Engine} (ck : bytes) (ks : IECKeyPair) (pc : Z)
    (identity : Identity.t) (remoteIdentity : RemoteIdentity.t) (k : nat)
    (a : AsymmetricRatchet.t) : Prop :=
  exists cur,
    AsymmetricRatchet.heap a !! AsymmetricRatchet.currentStep a = Some cur
    /\ DHRatchetStepEnhanced.sendingChain cur
       = Some {| SendingRatchet.counter := Z.of_nat k;
                 SendingRatchet.rootKey := chainKey ck k |}
    /\ AsymmetricRatchet.currentRatchetKey a = ks
    /\ AsymmetricRatchet.counter a = pc
    /\ AsymmetricRatchet.identity a = identity
    /\ AsymmetricRatchet.remoteIdentity a = remoteIdentity.

(** The ratchet key and the DH counter of the epoch that the next encrypt
    opens: a sender that holds a receiving chain closes its step first. *)
Definition epoch_ratchetKey (a : AsymmetricRatchet.t) (cur : DHRatchetStepEnhanced.t)
    (fresh : IECKeyPair) : IECKeyPair :=
  match DHRatchetStepEnhanced.receivingChain cur with
  | Some _ => fresh
  | None => AsymmetricRatchet.currentRatchetKey a
  end.

Definition epoch_counter (a : AsymmetricRatchet.t) (cur : DHRatchetStepEnhanced.t) : Z :=
  match DHRatchetStepEnhanced.receivingChain cur with
  | Some _ => AsymmetricRatchet.counter a + 1
  | None => AsymmetricRatchet.counter a
  end.

(** ** The receiver within one epoch *)

(** A receiver that has not yet seen the ratchet key [rk] of the epoch:
    its ring is in order, and its current ratchet key and root key yield
    the chain key [ck] of the epoch. *)
Definition receiver_opens {E : Engine} (ck : bytes) (rk : ECPublicKey) (pc : Z)
    (identity : Identity.t) (remoteIdentity : RemoteIdentity.t)
    (b : AsymmetricRatchet.t) : Prop :=
  exists d k0,
    DHRatchetStepStackEnhanced.getStep (AsymmetricRatchet.steps b) rk = None
    /\ 1 <= DHRatchetStepStackEnhanced.maxSize (AsymmetricRatchet.steps b)
    /\ DHRatchetStepStackEnhanced.length (AsymmetricRatchet.steps b)
       <= DHRatchetStepStackEnhanced.maxSize (AsymmetricRatchet.steps b)
    /\ (forall c,
          JsObject.get
            (DHRatchetStepStackEnhanced.globalSkippedKeys (AsymmetricRatchet.steps b))
            (DHRatchetStepStackEnhanced.compositeKey (pk_id rk) c) = None)
    /\ Curve.deriveBytes (privateKey (AsymmetricRatchet.currentRatchetKey b)) rk = Ok d
    /\ Secret.HKDF d 2 (Some (AsymmetricRatchet.rootKey b)) INFO_RATCHET !! 0%nat = Some k0
    /\ Secret.HKDF d 2 (Some (AsymmetricRatchet.rootKey b)) INFO_RATCHET !! 1%nat = Some ck
    /\ AsymmetricRatchet.counter b
       - DHRatchetStepStackEnhanced.maxSize (AsymmetricRatchet.steps b) <= pc
    /\ AsymmetricRatchet.identity b = identity
    /\ AsymmetricRatchet.remoteIdentity b = remoteIdentity.

(** A receiver whose step for [rk] holds the receiving chain of the epoch,
    which has served the counters of [delivered]. *)
Definition receiver_at {E : Engine} (ck : bytes) (t0 : Z) (rk : ECPublicKey) (pc : Z)
    (identity : Identity.t) (remoteIdentity : RemoteIdentity.t) (delivered : list Z)
    (b : AsymmetricRatchet.t) : Prop :=
  exists r st chain,
    DHRatchetStepStackEnhanced.getStep (AsymmetricRatchet.steps b) rk = Some r
    /\ AsymmetricRatchet.heap b !! r = Some st
    /\ DHRatchetStepEnhanced.receivingChain st = Some chain
    /\ chain_serves ck t0 delivered chain
    /\ DHRatchetStepEnhanced.ratchetKeyId st = Some (pk_id rk)
    /\ (forall c,
          JsObject.get
            (DHRatchetStepStackEnhanced.globalSkippedKeys (AsymmetricRatchet.steps b))
            (DHRatchetStepStackEnhanced.compositeKey (pk_id rk) c) = None)
    /\ AsymmetricRatchet.counter b
       - DHRatchetStepStackEnhanced.maxSize (AsymmetricRatchet.steps b) <= pc
    /\ AsymmetricRatchet.identity b = identity
    /\ AsymmetricRatchet.remoteIdentity b = remoteIdentity.

Definition receiver_in_epoch {E : Engine} (ck : bytes) (t0 : Z) (rk : ECPublicKey) (pc : Z)
    (identity : Identity.t) (remoteIdentity : RemoteIdentity.t) (delivered : list Z)
    (b : AsymmetricRatchet.t) : Prop :=
  (delivered = [] /\ receiver_opens ck rk pc identity remoteIdentity b)
  \/ receiver_at ck t0 rk pc identity remoteIdentity delivered b.

(** Bob's session at the start of his first epoch, Alice's session created
    from his first message, three plaintexts, and their messages delivered
    in the order 2, 0, 1. *)
Module Shuffled.

Definition bob : AsymmetricRatchet.t :=
  Eval vm_compute in
    match Fixtures.bob_session with
    | Ok s => s
    | Err _ => Fixtures.late_session
    end.

Definition alice : AsymmetricRatchet.t :=
  Eval vm_compute in default Fixtures.late_session Epoch.alice_session.

Definition cur : DHRatchetStepEnhanced.t :=
  Eval vm_compute in
    default DHRatchetStepEnhanced.new
      (AsymmetricRatchet.heap bob !! AsymmetricRatchet.currentStep bob).

Definition remote : ECPublicKey :=
  Eval vm_compute in
    default (publicKey Fixtures.bob_ephemeral) (DHRatchetStepEnhanced.remoteRatchetKey cur).

Definition plaintexts : list bytes := [[x01]; [x02]; [x03]].

Definition sent : list MessageSignedProtocol.t * AsymmetricRatchet.t :=
  Eval vm_compute in
    match Scenario.encrypt_all (E := Toy.engine) plaintexts Fixtures.bob_ephemeral bob with
    | (Ok l, s) => (l, s)
    | (Err _, s) => ([], s)
    end.

Definition order : list nat := [2; 0; 1]%nat.

Definition deliveries : list Scenario.Delivery :=
  Eval vm_compute in
    omap (fun i => (fun m => {| Scenario.d_message := m; Scenario.d_now := 0;
                                Scenario.d_stamp := fun _ => 0 |}) <$> sent.1 !! i)
      order.

End Shuffled.

(** ** The wire format

    The format as the specification words it: a record is the sequence of
    its fields, each the field id as 4 bytes little-endian, the length of
    the value as 4 bytes little-endian, and the value. *)
Definition wire_field (id : Z) (value : bytes) : bytes :=
  Serialization.setUint32_le id ++ Serialization.setUint32_le (blen value) ++ value.

Definition wire_record (fields : list (Z * bytes)) : bytes :=
  concat (map (fun f => wire_field (fst f) (snd f)) fields).

(** The fields [exportProto] emits for the entries in the given order:
    the id and the serialized value of every property that is set. *)
Fixpoint emitted_fields {T} (entries : Serialization.Metadata T) (this : T)
    : result (list (Z * bytes)) :=
  match entries with
  | [] => Ok []
  | (propertyKey, descriptor) :: rest =>
      match Serialization.pd_serialize descriptor this with
      | None =>
          if Serialization.pd_required descriptor then Err (RequiredUndefined propertyKey)
          else emitted_fields rest this
      | Some (Err error) => Err (FailedToSerialize propertyKey error)
      | Some (Ok serializedValue) =>
          let* fields := emitted_fields rest this in
          Ok ((Serialization.pd_id descriptor, serializedValue) :: fields)
      end
  end.

(** What the loop of [importProto] does with a sequence of fields. *)
Fixpoint assign_fields {T} (metadata : Serialization.Metadata T) (fields : list (Z * bytes))
    (seenProperties : list string) (this : T) : result (T * list string) :=
  match fields with
  | [] => Ok (this, seenProperties)
  | (fieldId, valueBuffer) :: rest =>
      match Serialization.find_descriptor metadata fieldId with
      | None => assign_fields metadata rest seenProperties this
      | Some (targetPropertyKey, targetDescriptor) =>
          match Serialization.pd_deserialize targetDescriptor valueBuffer with
          | Err error => Err (FailedToDeserialize targetPropertyKey error)
          | Ok assign =>
              assign_fields metadata rest (targetPropertyKey :: seenProperties) (assign this)
          end
      end
  end.

Definition uint32 (v : Z) : Prop := 0 <= v < 2 ^ 32.

(** ** Valid records

    What a property must hold for the codec to carry it: a [uint32] is an
    integer of 32 bits; a public key is a key of the curve of its property,
    as [ECPublicKey.createFromBytes] builds it; a date is a valid [Date];
    a byte string, an encoded date or an encoded nested record is shorter
    than 2^32 bytes, so that its length fits the length prefix. *)
Definition optional {A} (P : A -> Prop) (o : option A) : Prop :=
  match o with
  | Some v => P v
  | None => True
  end.

Definition required {A} (P : A -> Prop) (o : option A) : Prop :=
  match o with
  | Some v => P v
  | None => False
  end.

Definition valid_key {E : Engine} (type : CurveType) (k : ECPublicKey) : Prop :=
  pk_type k = type
  /\ pk_id k = PublicKey.thumbprint (serialized k)
  /\ length (serialized k) = 32%nat.

Definition valid_bytes (b : bytes) : Prop := uint32 (blen b).

Definition valid_date {E : Engine} (d : JsDate) : Prop :=
  match d with
  | DateAt ms =>
      -8640000000000000 <= ms <= 8640000000000000
      /\ uint32 (blen (utf8_encode (toISOString ms)))
  | InvalidDateValue => False
  end.

(** A nested record is valid and its encoding fits a length prefix. *)
Definition nested {T} (valid : T -> Prop) (exportProto : T -> result bytes) (x : T) : Prop :=
  valid x /\ forall raw, exportProto x = Ok raw -> uint32 (blen raw).

Definition valid_Base (x : BaseProtocol.t) : Prop :=
  optional uint32 (BaseProtocol.version x).

Definition valid_Identity {E : Engine} (x : IdentityProtocol.t) : Prop :=
  optional uint32 (IdentityProtocol.version x)
  /\ optional (valid_key Ed25519) (IdentityProtocol.signingKey x)
  /\ optional (valid_key X25519) (IdentityProtocol.exchangeKey x)
  /\ optional valid_bytes (IdentityProtocol.signature x)
  /\ optional valid_date (IdentityProtocol.createdAt x).

Definition valid_PreKey {E : Engine} (x : PreKeyProtocol.t) : Prop :=
  optional uint32 (PreKeyProtocol.version x)
  /\ required uint32 (PreKeyProtocol.id x)
  /\ required (valid_key X25519) (PreKeyProtocol.key x).

Definition valid_PreKeySigned {E : Engine} (x : PreKeySignedProtocol.t) : Prop :=
  optional uint32 (PreKeySignedProtocol.version x)
  /\ required uint32 (PreKeySignedProtocol.id x)
  /\ required (valid_key X25519) (PreKeySignedProtocol.key x)
  /\ required valid_bytes (PreKeySignedProtocol.signature x).

Definition valid_PreKeyBundle {E : Engine} (x : PreKeyBundleProtocol.t) : Prop :=
  optional uint32 (PreKeyBundleProtocol.version x)
  /\ required uint32 (PreKeyBundleProtocol.registrationId x)
  /\ required (nested valid_Identity IdentityProtocol.exportProto)
       (PreKeyBundleProtocol.identity x)
  /\ optional (nested valid_PreKey PreKeyProtocol.exportProto)
       (PreKeyBundleProtocol.preKey x)
  /\ required (nested valid_PreKeySigned PreKeySignedProtocol.exportProto)
       (PreKeyBundleProtocol.preKeySigned x).

Definition valid_Message {E : Engine} (x : MessageProtocol.t) : Prop :=
  optional uint32 (MessageProtocol.version x)
  /\ required (valid_key X25519) (MessageProtocol.senderRatchetKey x)
  /\ required uint32 (MessageProtocol.counter x)
  /\ required uint32 (MessageProtocol.previousCounter x)
  /\ required valid_bytes (MessageProtocol.cipherText x).

Definition valid_MessageSigned {E : Engine} (x : MessageSignedProtocol.t) : Prop :=
  optional uint32 (MessageSignedProtocol.version x)
  /\ required (valid_key Ed25519) (MessageSignedProtocol.senderKey x)
  /\ required (nested valid_Message MessageProtocol.exportProto)
       (MessageSignedProtocol.message x)
  /\ required valid_bytes (MessageSignedProtocol.signature x).

Definition valid_PreKeyMessage {E : Engine} (x : PreKeyMessageProtocol.t) : Prop :=
  optional uint32 (PreKeyMessageProtocol.version x)
  /\ required uint32 (PreKeyMessageProtocol.registrationId x)
  /\ optional uint32 (PreKeyMessageProtocol.preKeyId x)
  /\ required uint32 (PreKeyMessageProtocol.preKeySignedId x)
  /\ required (valid_key X25519) (PreKeyMessageProtocol.baseKey x)
  /\ required (nested valid_Identity IdentityProtocol.exportProto)
       (PreKeyMessageProtocol.identity x)
  /\ required (nested valid_MessageSigned MessageSignedProtocol.exportProto)
       (PreKeyMessageProtocol.signedMessage x).

(** [receiverKey] of a [MessageSigned] is a property of the object, not a
    field of the record: the record as it travels leaves it unset. *)
Definition wire_MessageSigned (x : MessageSignedProtocol.t) : MessageSignedProtocol.t :=
  MessageSignedProtocol.set_receiverKey None x.

Definition wire_PreKeyMessage (x : PreKeyMessageProtocol.t) : PreKeyMessageProtocol.t :=
  {| PreKeyMessageProtocol.version := PreKeyMessageProtocol.version x;
     PreKeyMessageProtocol.registrationId := PreKeyMessageProtocol.registrationId x;
     PreKeyMessageProtocol.preKeyId := PreKeyMessageProtocol.preKeyId x;
     PreKeyMessageProtocol.preKeySignedId := PreKeyMessageProtocol.preKeySignedId x;
     PreKeyMessageProtocol.baseKey := PreKeyMessageProtocol.baseKey x;
     PreKeyMessageProtocol.identity := PreKeyMessageProtocol.identity x;
     PreKeyMessageProtocol.signedMessage :=
       wire_MessageSigned <$> PreKeyMessageProtocol.signedMessage x |}.

(** [exportProto] writes [x] as a record in the wire format, its field ids
    strictly increasing, and [importProto] reads that record as [y]. *)
Definition round_trips {T} (exportProto : T -> result bytes)
    (importProto : bytes -> result T) (x y : T) : Prop :=
  exists fields,
    exportProto x = Ok (wire_record fields)
    /\ StronglySorted Z.lt fields.*1
    /\ importProto (wire_record fields) = Ok y.

(** The codec writes [v] in less than 2^32 bytes and reads them as [v']. *)
Definition carries {V} (codec : Serialization.ValueCodec V) (v v' : V) : Prop :=
  exists raw,
    Serialization.write codec v = Ok raw
    /\ Serialization.read codec raw = Ok v'
    /\ uint32 (blen raw).

(** Alice's bundle and Bob's first message, as records. *)
Module Wire.

Definition bundle : PreKeyBundleProtocol.t :=
  Eval vm_compute in
    match Fixtures.alice_bundle with
    | Ok b => b
    | Err _ => PreKeyBundleProtocol.empty
    end.

Definition message : PreKeyMessageProtocol.t :=
  Eval vm_compute in default PreKeyMessageProtocol.empty Fixtures.first_message.

End Wire.

(** ** Keys and identities that can be written to JSON *)

(** A key pair whose private key carries its raw bytes and whose public
    key is a key of the same curve, as [ECPublicKey.createFromBytes]
    builds it: so is every pair of [Curve.generateKeyPair]. *)
Definition storable_pair {E : Engine} (kp : IECKeyPair) : Prop :=
  is_Some (rawBytes (privateKey kp))
  /\ valid_key (algorithm (privateKey kp)) (publicKey kp).

(** A key pair as it comes back from JSON: [ecKeyPairFromJson] builds the
    private key with [extractable] set. *)
Definition extractable_pair (kp : IECKeyPair) : IECKeyPair :=
  {| privateKey := {| algorithm := algorithm (privateKey kp); extractable := true;
                      rawBytes := rawBytes (privateKey kp) |};
     publicKey := publicKey kp |}.

(** An identity as it comes back from JSON. *)
Definition extractable_identity (identity : Identity.t) : Identity.t :=
  {| Identity.id := Identity.id identity;
     Identity.signingKey := extractable_pair (Identity.signingKey identity);
     Identity.exchangeKey := extractable_pair (Identity.exchangeKey identity);
     Identity.createdAt := Identity.createdAt identity;
     Identity.preKeys := option_map extractable_pair <$> Identity.preKeys identity;
     Identity.signedPreKeys :=
       option_map extractable_pair <$> Identity.signedPreKeys identity |}.

(** A date that [new Date(date.toISOString())] reads back. *)
Definition storable_date {E : Engine} (d : JsDate) : Prop :=
  exists ms, d = DateAt ms /\ Date_parse (toISOString ms) = Some ms.

(** An identity whose key pairs are storable and whose arrays of pre-keys
    have no hole. *)
Definition storable_identity {E : Engine} (identity : Identity.t) : Prop :=
  storable_pair (Identity.signingKey identity)
  /\ storable_pair (Identity.exchangeKey identity)
  /\ Forall (fun k => exists kp, k = Some kp /\ storable_pair kp) (Identity.preKeys identity)
  /\ Forall (fun k => exists kp, k = Some kp /\ storable_pair kp)
       (Identity.signedPreKeys identity)
  /\ storable_date (Identity.createdAt identity).

(** A signing key pair as [Curve.generateKeyPair("Ed25519", _)] returns
    it. *)
Definition wf_ed25519 {E : Engine} {P : Platform} (kp : IECKeyPair) : Prop :=
  exists sk, rawBytes (privateKey kp) = Some sk
             /\ length sk = 32%nat
             /\ serialized (publicKey kp) = ed25519_getPublicKey sk.

(** ** Publishing a bundle

    The pre-key bundle an identity publishes, as the README builds it: the
    registration id, the identity filled and signed, the signed pre-key of
    the given index with its signature, and, if any, the one-time pre-key
    of the given index. *)
Definition publish_bundle {E : Engine} (identity : Identity.t)
    (signedPreKeyId : Z) (signedPreKey : IECKeyPair) (preKey : option (Z * IECKeyPair))
    : result PreKeyBundleProtocol.t :=
  let* idp := IdentityProtocol.fill IdentityProtocol.empty identity in
  let* preKeySigned :=
    PreKeySignedProtocol.sign
      {| PreKeySignedProtocol.version := None;
         PreKeySignedProtocol.id := Some signedPreKeyId;
         PreKeySignedProtocol.key := Some (publicKey signedPreKey);
         PreKeySignedProtocol.signature := None |}
      (privateKey (Identity.signingKey identity)) in
  Ok {| PreKeyBundleProtocol.version := None;
        PreKeyBundleProtocol.registrationId := Some (Identity.id identity);
        PreKeyBundleProtocol.identity := Some idp;
        PreKeyBundleProtocol.preKey :=
          (fun jk => {| PreKeyProtocol.version := None;
                        PreKeyProtocol.id := Some (fst jk);
                        PreKeyProtocol.key := Some (publicKey (snd jk)) |}) <$> preKey;
        PreKeyBundleProtocol.preKeySigned := Some preKeySigned |}.

(** * Properties *)

(** ** Byte strings *)

Lemma byteZ_inj (x y : byte) : Buffer.byteZ x = Buffer.byteZ y -> x = y.
Proof.
  unfold Buffer.byteZ. intros H. apply N2Z.inj in H.
  assert (Hx := Byte.of_to_N x). rewrite H, Byte.of_to_N in Hx. congruence.
Qed.

Lemma isEqual_loop_zero (a b : bytes) (acc : Z) :
  length a = length b ->
  Buffer.isEqual_loop a b acc = 0 <-> acc = 0 /\ a = b.
Proof.
  revert b acc. induction a as [|x a IH]; intros [|y b] acc Hlen; simpl in *; try discriminate.
  - intuition.
  - injection Hlen as Hlen. rewrite (IH b _ Hlen), Z.lor_eq_0_iff, Z.lxor_eq_0_iff.
    split.
    + intros [[-> Hxy] ->]. apply byteZ_inj in Hxy. subst. auto.
    + intros [-> Heq]. injection Heq as -> ->. auto.
Qed.

Lemma isEqual_spec (a b : bytes) : Buffer.isEqual a b = true <-> a = b.
Proof.
  unfold Buffer.isEqual, blen.
  destruct (Z.eqb_spec (Z.of_nat (length a)) (Z.of_nat (length b))) as [Hlen|Hlen]; simpl.
  - apply Nat2Z.inj in Hlen. rewrite Z.eqb_eq, (isEqual_loop_zero _ _ _ Hlen). intuition.
  - split; [discriminate|]. intros ->. contradiction.
Qed.

Lemma isEqual_refl (a : bytes) : Buffer.isEqual a a = true.
Proof. by apply isEqual_spec. Qed.

(** ** The toy engine satisfies the laws *)

Lemma toy_byte_xor_comm (a b : byte) : Toy.byte_xor a b = Toy.byte_xor b a.
Proof. unfold Toy.byte_xor. by rewrite N.lxor_comm. Qed.

Lemma toy_zip_xor_comm (a b : bytes) :
  zip_with Toy.byte_xor a b = zip_with Toy.byte_xor b a.
Proof.
  revert b. induction a as [|x a IH]; intros [|y b]; simpl; try done.
  by rewrite toy_byte_xor_comm, IH.
Qed.

Lemma toy_absorb_length (acc : bytes) (b : byte) :
  length (Toy.absorb acc b) = length acc.
Proof. destruct acc; simpl; [done|]. rewrite length_app. simpl. lia. Qed.

Lemma toy_pad32_length (b : bytes) : length (Toy.pad32 b) = 32%nat.
Proof.
  unfold Toy.pad32. generalize (repeat_length x00 32). generalize (repeat x00 32).
  induction b as [|x b IH]; intros acc Hacc; simpl; [done|].
  apply IH. by rewrite toy_absorb_length.
Qed.

Lemma toy_tag_length (key iv aad text : bytes) :
  length (Toy.tag key iv aad text) = 16%nat.
Proof.
  unfold Toy.tag. cbv zeta.
  rewrite length_zip_with, length_take, length_drop, toy_pad32_length. lia.
Qed.

Lemma toy_laws : EngineLaws Toy.engine.
Proof.
  split; cbn -[Nat.leb Nat.sub Toy.pad32 Toy.tag list_byte_of_string string_of_list_byte
                NilEmpty.int_of_string NilEmpty.string_of_int Z.of_int Z.to_int].
  - apply toy_pad32_length.
  - intros a b _ _. by rewrite toy_zip_xor_comm.
  - done.
  - intros. by rewrite length_map, length_seq.
  - intros ikm n salt info blk Hin. apply in_map_iff in Hin as (i & <- & _).
    apply toy_pad32_length.
  - intros key iv aad text.
    rewrite length_app, toy_tag_length.
    replace (length text + 16 - 16)%nat with (length text) by lia.
    rewrite drop_app_length, take_app_length, isEqual_refl.
    by destruct (Nat.leb_spec 16 (length text + 16)); [|lia].
  - intros ms _. rewrite string_of_list_byte_of_string, NilEmpty.isi.
    simpl. by rewrite DecimalZ.of_to.
Qed.

(** ** Curve.verify *)

(** C10. [Curve.verify] is total: for every signing key, message and
    signature it returns a boolean and never throws; it returns [false]
    whenever the public key is not 32 bytes long, the signature is not 64
    bytes long, or the Ed25519 verification raises. *)
Theorem Curve_verify_total {E : Engine}
    (signingKey : ECPublicKey) (message signature : bytes) :
  (exists b, Curve.verify signingKey message signature = Ok b)
  /\ (length (serialized signingKey) <> 32%nat ->
      Curve.verify signingKey message signature = Ok false)
  /\ (length signature <> 64%nat ->
      Curve.verify signingKey message signature = Ok false)
  /\ (forall e, ed25519_verify signature message (serialized signingKey) = Err e ->
      Curve.verify signingKey message signature = Ok false).
Proof.
  unfold Curve.verify, Curve.try_catch, Curve.verify_body, blen.
  repeat split.
  - repeat case_match; eauto.
  - intros Hlen. destruct (Z.eqb_spec (Z.of_nat (length (serialized signingKey))) 32); [lia|done].
  - intros Hlen. destruct (Z.eqb_spec (Z.of_nat (length signature)) 64); [lia|].
    simpl. by repeat case_match.
  - intros e He. rewrite He. by repeat case_match.
Qed.

(** ** X3DH *)

Lemma deriveBytes_agree {E : Engine} {L : EngineLaws E} (kp1 kp2 : IECKeyPair) :
  wf_x25519 kp1 -> wf_x25519 kp2 ->
  Curve.deriveBytes (privateKey kp1) (publicKey kp2)
  = Curve.deriveBytes (privateKey kp2) (publicKey kp1).
Proof.
  intros (sk1 & Hr1 & Hl1 & Hp1) (sk2 & Hr2 & Hl2 & Hp2).
  unfold Curve.deriveBytes, blen. rewrite Hr1, Hr2, Hp1, Hp2, Hl1, Hl2.
  rewrite !x25519_public_length by done. simpl. by apply x25519_agree.
Qed.

Lemma hkdf_single {E : Engine} {L : EngineLaws E} (ikm salt info : bytes) :
  exists blk, hkdf_sha256 ikm 1 salt info = [blk] /\ length blk = 32%nat.
Proof.
  pose proof (hkdf_blocks ikm 1 salt info) as Hlen.
  pose proof (hkdf_block_length ikm 1 salt info) as Hblk.
  destruct (hkdf_sha256 ikm 1 salt info) as [|blk [|? ?]]; try discriminate.
  exists blk. split; [done|]. apply Hblk. by left.
Qed.

(** C1. For every pair of identities and every valid pre-key selection
    (signed pre-key required, one-time pre-key optional), the initiator's
    [authenticateA] and the responder's [authenticateB] both return a root
    key, and the same one.  With [DH1 = X25519(IKa.priv, SPKb)],
    [DH2 = X25519(EKa.priv, IKb)], [DH3 = X25519(EKa.priv, SPKb)] and
    [DH4 = X25519(EKa.priv, OPKb)], or the empty string without a one-time
    pre-key, each of which the responder obtains from its own private keys
    as well, the root key is the single 32-byte block of HKDF over
    [F || DH1 || DH2 || DH3 || DH4], with [F] 32 bytes [0xFF], a salt of 32
    zero bytes and the info string [Signal_X3DH]. *)
Theorem x3dh_agreement {E : Engine} {L : EngineLaws E} {X : X25519Laws E}
    (IKa IKb : Identity.t) (EKa SPKb : IECKeyPair) (OPKb : option IECKeyPair)
    (ika ikb eka spkb : bytes) :
  x25519_pair (Identity.exchangeKey IKa) ika ->
  x25519_pair (Identity.exchangeKey IKb) ikb ->
  x25519_pair EKa eka ->
  x25519_pair SPKb spkb ->
  (forall k, OPKb = Some k -> wf_x25519 k) ->
  exists DH1 DH2 DH3 DH4 rk,
    x25519_getSharedSecret ika (x25519_getPublicKey spkb) = Ok DH1
    /\ x25519_getSharedSecret spkb (x25519_getPublicKey ika) = Ok DH1
    /\ x25519_getSharedSecret eka (x25519_getPublicKey ikb) = Ok DH2
    /\ x25519_getSharedSecret ikb (x25519_getPublicKey eka) = Ok DH2
    /\ x25519_getSharedSecret eka (x25519_getPublicKey spkb) = Ok DH3
    /\ x25519_getSharedSecret spkb (x25519_getPublicKey eka) = Ok DH3
    /\ match OPKb with
       | Some k =>
           exists opkb,
             x25519_pair k opkb
             /\ x25519_getSharedSecret eka (x25519_getPublicKey opkb) = Ok DH4
             /\ x25519_getSharedSecret opkb (x25519_getPublicKey eka) = Ok DH4
       | None => DH4 = []
       end
    /\ X3DH.authenticateA IKa EKa (publicKey (Identity.exchangeKey IKb))
         (publicKey SPKb) (publicKey <$> OPKb) = Ok rk
    /\ X3DH.authenticateB IKb SPKb (publicKey (Identity.exchangeKey IKa))
         (publicKey EKa) (privateKey <$> OPKb) = Ok rk
    /\ length rk = 32%nat
    /\ hkdf_sha256 (repeat xff 32 ++ DH1 ++ DH2 ++ DH3 ++ DH4) 1
         (repeat x00 32) (Convert.FromBinary "Signal_X3DH") = [rk].
Proof.
  intros (Hika & Hlika & Hpika) (Hikb & Hlikb & Hpikb) (Heka & Hleka & Hpeka)
    (Hspkb & Hlspkb & Hpspkb) HOPKb.
  destruct (x25519_shared ika spkb Hlika Hlspkb) as (DH1 & H1 & _).
  destruct (x25519_shared eka ikb Hleka Hlikb) as (DH2 & H2 & _).
  destruct (x25519_shared eka spkb Hleka Hlspkb) as (DH3 & H3 & _).
  assert (H4 : exists DH4,
             match OPKb with
             | Some k =>
                 exists opkb,
                   x25519_pair k opkb
                   /\ x25519_getSharedSecret eka (x25519_getPublicKey opkb) = Ok DH4
                   /\ x25519_getSharedSecret opkb (x25519_getPublicKey eka) = Ok DH4
             | None => DH4 = []
             end).
  { destruct OPKb as [k|]; [|by exists []].
    destruct (HOPKb k eq_refl) as (opkb & Hk).
    destruct (x25519_shared eka opkb Hleka (proj1 (proj2 Hk))) as (DH4 & H4 & _).
    exists DH4, opkb. split; [done|]. split; [done|].
    by rewrite <- (x25519_agree eka opkb Hleka (proj1 (proj2 Hk))). }
  destruct H4 as (DH4 & H4).
  destruct (hkdf_single (repeat xff 32 ++ DH1 ++ DH2 ++ DH3 ++ DH4) (repeat x00 32)
              (Convert.FromBinary "Signal_X3DH")) as (rk & Hrk & Hlen).
  exists DH1, DH2, DH3, DH4, rk.
  pose proof (x25519_agree ika spkb Hlika Hlspkb) as A1.
  pose proof (x25519_agree eka ikb Hleka Hlikb) as A2.
  pose proof (x25519_agree eka spkb Hleka Hlspkb) as A3.
  split; [done|]. split; [by rewrite <- A1|].
  split; [done|]. split; [by rewrite <- A2|].
  split; [done|]. split; [by rewrite <- A3|].
  split; [exact H4|].
  assert (Hkm : Secret.HKDF (Buffer.combine [X3DH.F; DH1; DH2; DH3; DH4]) 1 None INFO_TEXT
                = [rk]).
  { unfold Secret.HKDF, Buffer.combine, X3DH.F, INFO_TEXT, X3DH_FILL_BYTE, X3DH_SALT_LENGTH.
    change (default (repeat x00 32) None) with (repeat x00 32).
    replace (concat [repeat xff 32; DH1; DH2; DH3; DH4])
      with (repeat xff 32 ++ DH1 ++ DH2 ++ DH3 ++ DH4)
      by (cbn [concat]; by rewrite app_nil_r).
    exact Hrk. }
  assert (Hlen32 : forall sk : bytes, length sk = 32%nat -> (blen sk =? 32) = true).
  { intros sk Hsk. unfold blen. rewrite Hsk. reflexivity. }
  split; [|split; [|split; [exact Hlen|exact Hrk]]].
  - unfold X3DH.authenticateA, Curve.deriveBytes.
    rewrite Hika, Heka, Hpikb, Hpspkb.
    rewrite !Hlen32 by (done || by apply x25519_public_length).
    cbn [negb]. rewrite H1, H2, H3. cbn [bind].
    destruct OPKb as [k|]; cbn [fmap option_fmap option_map].
    + destruct H4 as (opkb & (Hopkb & Hlopkb & Hpopkb) & H4 & _).
      rewrite Hpopkb, (Hlen32 _ (x25519_public_length _ Hlopkb)). cbn [negb].
      rewrite H4. cbn [bind]. rewrite Hkm. reflexivity.
    + subst DH4. cbn [bind]. rewrite Hkm. reflexivity.
  - unfold X3DH.authenticateB, Curve.deriveBytes.
    rewrite Hspkb, Hikb, Hpika, Hpeka.
    rewrite !Hlen32 by (done || by apply x25519_public_length).
    cbn [negb]. rewrite <- A1, <- A2, <- A3, H1, H2, H3. cbn [bind].
    destruct OPKb as [k|]; cbn [fmap option_fmap option_map].
    + destruct H4 as (opkb & (Hopkb & Hlopkb & Hpopkb) & _ & H4).
      rewrite Hopkb, (Hlen32 _ Hlopkb). cbn [negb].
      rewrite H4. cbn [bind]. rewrite Hkm. reflexivity.
    + subst DH4. cbn [bind]. rewrite Hkm. reflexivity.
Qed.

(** ** The ratchet window *)

(** C9. For every session and every incoming [MessageSigned] whose
    [previousCounter] is strictly less than the session's DH counter minus
    [maxRatchetSteps] (the size of the step ring), [decrypt] fails with
    [MessageOutsideRatchetWindow]; no state is consulted past the counter
    and the ring size, and the session is left as it was. *)
Theorem decrypt_outside_window {E : Engine}
    (this : AsymmetricRatchet.t) (protocol : MessageSignedProtocol.t)
    (message : MessageProtocol.t) (pc now : Z) (stamp : Z -> Z) :
  MessageSignedProtocol.message protocol = Some message ->
  MessageProtocol.previousCounter message = Some pc ->
  pc < AsymmetricRatchet.counter this
       - DHRatchetStepStackEnhanced.maxSize (AsymmetricRatchet.steps this) ->
  AsymmetricRatchet.decrypt protocol now stamp this = (Err MessageOutsideRatchetWindow, this).
Proof.
  intros Hm Hpc Hlt.
  unfold AsymmetricRatchet.decrypt, bindM, lift, get, throw, AsymmetricRatchet.lt_number.
  rewrite Hm. simpl. rewrite Hpc.
  by destruct (Z.ltb_spec pc (AsymmetricRatchet.counter this
     - DHRatchetStepStackEnhanced.maxSize (AsymmetricRatchet.steps this))); [|lia].
Qed.

Lemma toy_keyPair_wf (raw : bytes) :
  length raw = 32%nat -> wf_x25519 (E := Toy.engine) (Toy.keyPair X25519 raw).
Proof. intros Hlen. exists raw. by repeat split. Defined.

Lemma toy_x25519_laws : X25519Laws Toy.engine.
Proof.
  split.
  - intros a b Ha Hb. eexists. split; [reflexivity|].
    cbn. rewrite length_zip_with. lia.
  - intros a b e. discriminate.
Qed.

Lemma toy_x25519_pair (raw : bytes) :
  length raw = 32%nat -> x25519_pair (E := Toy.engine) (Toy.keyPair X25519 raw) raw.
Proof. intros Hlen. by repeat split. Defined.

Lemma x3dh_agreement_witness :
  let E := Toy.engine in
  exists DH1 DH2 DH3 DH4 rk,
    x25519_getSharedSecret (repeat x15 32) (x25519_getPublicKey (repeat x0d 32)) = Ok DH1
    /\ x25519_getSharedSecret (repeat x0d 32) (x25519_getPublicKey (repeat x15 32)) = Ok DH1
    /\ x25519_getSharedSecret (repeat x1e 32) (x25519_getPublicKey (repeat x0b 32)) = Ok DH2
    /\ x25519_getSharedSecret (repeat x0b 32) (x25519_getPublicKey (repeat x1e 32)) = Ok DH2
    /\ x25519_getSharedSecret (repeat x1e 32) (x25519_getPublicKey (repeat x0d 32)) = Ok DH3
    /\ x25519_getSharedSecret (repeat x0d 32) (x25519_getPublicKey (repeat x1e 32)) = Ok DH3
    /\ (exists opkb,
          x25519_pair Fixtures.alice_preKey opkb
          /\ x25519_getSharedSecret (repeat x1e 32) (x25519_getPublicKey opkb) = Ok DH4
          /\ x25519_getSharedSecret opkb (x25519_getPublicKey (repeat x1e 32)) = Ok DH4)
    /\ X3DH.authenticateA Fixtures.bob Fixtures.bob_ephemeral
         (publicKey (Identity.exchangeKey Fixtures.alice))
         (publicKey Fixtures.alice_signedPreKey) (Some (publicKey Fixtures.alice_preKey))
       = Ok rk
    /\ X3DH.authenticateB Fixtures.alice Fixtures.alice_signedPreKey
         (publicKey (Identity.exchangeKey Fixtures.bob))
         (publicKey Fixtures.bob_ephemeral) (Some (privateKey Fixtures.alice_preKey))
       = Ok rk
    /\ length rk = 32%nat
    /\ hkdf_sha256 (repeat xff 32 ++ DH1 ++ DH2 ++ DH3 ++ DH4) 1
         (repeat x00 32) (Convert.FromBinary "Signal_X3DH") = [rk].
Proof.
  apply (x3dh_agreement (E := Toy.engine) (L := toy_laws) (X := toy_x25519_laws)
           Fixtures.bob Fixtures.alice Fixtures.bob_ephemeral
           Fixtures.alice_signedPreKey (Some Fixtures.alice_preKey)
           (repeat x15 32) (repeat x0b 32) (repeat x1e 32) (repeat x0d 32)).
  - by apply toy_x25519_pair.
  - by apply toy_x25519_pair.
  - by apply toy_x25519_pair.
  - by apply toy_x25519_pair.
  - intros k [= <-]. by apply toy_keyPair_wf.
Defined.

Lemma decrypt_outside_window_witness :
  AsymmetricRatchet.decrypt (E := Toy.engine) Fixtures.old_message 0 (fun _ => 0)
    Fixtures.late_session
  = (Err MessageOutsideRatchetWindow, Fixtures.late_session).
Proof.
  eapply (decrypt_outside_window (E := Toy.engine)); [reflexivity|reflexivity|].
  vm_compute. reflexivity.
Defined.

(** ** The step ring *)

(** [Stack.push] keeps the ring within its capacity. *)
Lemma Stack_push_length (item : ref) (this : DHRatchetStepStackEnhanced.t) :
  1 <= DHRatchetStepStackEnhanced.maxSize this ->
  DHRatchetStepStackEnhanced.length this <= DHRatchetStepStackEnhanced.maxSize this ->
  DHRatchetStepStackEnhanced.length (DHRatchetStepStackEnhanced.Stack_push item this)
  <= DHRatchetStepStackEnhanced.maxSize this.
Proof.
  unfold DHRatchetStepStackEnhanced.Stack_push, DHRatchetStepStackEnhanced.length.
  intros Hmax Hlen.
  destruct (Z.eqb_spec (Z.of_nat (length (DHRatchetStepStackEnhanced.items this)))
              (DHRatchetStepStackEnhanced.maxSize this)) as [Heq|Hne]; simpl;
    rewrite length_app; simpl.
  - rewrite length_drop. lia.
  - lia.
Qed.

(** After [super.push(item)] the ring is never over its capacity, so the
    clean-up of [push], guarded by [this.items.length > this.maxSize], does
    not run: no entry of the lookup table is deleted and the skipped keys
    are left as they are. *)
Lemma push_never_cleans (item : ref) (heap : Heap) (this : DHRatchetStepStackEnhanced.t) :
  1 <= DHRatchetStepStackEnhanced.maxSize this ->
  DHRatchetStepStackEnhanced.length this <= DHRatchetStepStackEnhanced.maxSize this ->
  let this' := snd (DHRatchetStepStackEnhanced.push item heap this) in
  DHRatchetStepStackEnhanced.length this' <= DHRatchetStepStackEnhanced.maxSize this
  /\ DHRatchetStepStackEnhanced.globalSkippedKeys this'
     = DHRatchetStepStackEnhanced.globalSkippedKeys this
  /\ forall keyId, is_Some (DHRatchetStepStackEnhanced.ratchetKeyLookup this !! keyId) ->
                   is_Some (DHRatchetStepStackEnhanced.ratchetKeyLookup this' !! keyId).
Proof.
  intros Hmax Hlen.
  pose proof (Stack_push_length item this Hmax Hlen) as Hpush.
  unfold DHRatchetStepStackEnhanced.push.
  set (pushed := DHRatchetStepStackEnhanced.Stack_push item this) in *.
  assert (Hg : DHRatchetStepStackEnhanced.globalSkippedKeys pushed
               = DHRatchetStepStackEnhanced.globalSkippedKeys this).
  { subst pushed. unfold DHRatchetStepStackEnhanced.Stack_push. by case_match. }
  assert (Hl : DHRatchetStepStackEnhanced.ratchetKeyLookup pushed
               = DHRatchetStepStackEnhanced.ratchetKeyLookup this).
  { subst pushed. unfold DHRatchetStepStackEnhanced.Stack_push. by case_match. }
  assert (Hm : DHRatchetStepStackEnhanced.maxSize pushed
               = DHRatchetStepStackEnhanced.maxSize this).
  { subst pushed. unfold DHRatchetStepStackEnhanced.Stack_push. by case_match. }
  assert (Hins : forall keyId r k,
             is_Some (DHRatchetStepStackEnhanced.ratchetKeyLookup this !! keyId) ->
             is_Some (<[k := r]> (DHRatchetStepStackEnhanced.ratchetKeyLookup pushed) !! keyId)).
  { intros keyId r k Hsome. rewrite Hl. destruct (decide (k = keyId)) as [->|Hne].
    - rewrite lookup_insert_eq. eauto.
    - by rewrite lookup_insert_ne. }
  repeat case_match; simplify_eq; simpl in *;
    unfold DHRatchetStepStackEnhanced.length in *; simpl in *;
    try (exfalso; lia);
    repeat split; try lia; try done; try (intros; by apply Hins); try (by rewrite Hl).
Qed.

(** C5 (the code departs from the claim). With a ring of capacity 1,
    pushing a second step evicts the first from [items], yet the first
    step's entry in the lookup table and its skipped key both remain:
    [getStep] still finds the evicted step. *)
Theorem push_overflow_keeps_evicted_step :
  let '(h, s) := RingFixtures.after_overflow in
  DHRatchetStepStackEnhanced.items s = [1%nat]
  /\ DHRatchetStepStackEnhanced.maxSize s = 1
  /\ DHRatchetStepStackEnhanced.getStep s RingFixtures.keyA = Some 0%nat
  /\ DHRatchetStepStackEnhanced.hasSkippedMessageKey (pk_id RingFixtures.keyA) 0 s = true.
Proof. vm_compute. repeat split. Qed.

(** ** Stateful code *)

(** What every part of a computation keeps, the whole keeps. *)
Lemma bind_keeps {S A B} (R : S -> S -> Prop) `{!Transitive R}
    (m : M S A) (k : A -> M S B) (s : S) :
  R s (snd (m s)) ->
  (forall a s', m s = (Ok a, s') -> R s' (snd (k a s'))) ->
  R s (snd (bindM m k s)).
Proof.
  intros Hm Hk. unfold bindM. destruct (m s) as [[a|e] s'] eqn:Heq; [|done].
  etrans; [exact Hm|]. by apply Hk.
Qed.

(** ** One-time pre-keys *)

(** [delete arr[i]] leaves the length of the array as it is. *)
Lemma JsArray_delete_length {A} (arr : list (option A)) (i : Z) :
  JsArray.length (JsArray.delete arr i) = JsArray.length arr.
Proof.
  unfold JsArray.delete, JsArray.length. case_match; [done|]. by rewrite length_insert.
Qed.

Lemma JsArray_get_delete {A} (arr : list (option A)) (i : Z) :
  JsArray.get (JsArray.delete arr i) i = None.
Proof.
  unfold JsArray.delete, JsArray.get. case_match; [done|].
  destruct (decide (Z.to_nat i < length arr)%nat) as [Hlt|Hge].
  - by rewrite list_lookup_insert_eq.
  - rewrite list_insert_ge by lia. by rewrite lookup_ge_None_2 by lia.
Qed.

(** Once the slot of pre-key [j] is empty, a message citing [j] is handled
    exactly as a message citing no one-time pre-key: no error is raised for
    it. *)
Lemma take_preKey_consumed {E : Engine} (identity : Identity.t) (j : Z) :
  JsArray.get (Identity.preKeys identity) j = None ->
  AsymmetricRatchet.take_preKey identity (Some j)
  = AsymmetricRatchet.take_preKey identity None.
Proof. intros Hget. unfold AsymmetricRatchet.take_preKey. by rewrite Hget. Qed.

Lemma create_from_message_consumed {E : Engine} (protocol : PreKeyMessageProtocol.t)
    (limits : IRatchetLimitsOpt) (identity : Identity.t) (j : Z) :
  PreKeyMessageProtocol.preKeyId protocol = Some j ->
  JsArray.get (Identity.preKeys identity) j = None ->
  AsymmetricRatchet.create_from_message protocol limits identity
  = AsymmetricRatchet.create_from_message
      {| PreKeyMessageProtocol.version := PreKeyMessageProtocol.version protocol;
         PreKeyMessageProtocol.registrationId := PreKeyMessageProtocol.registrationId protocol;
         PreKeyMessageProtocol.preKeyId := None;
         PreKeyMessageProtocol.preKeySignedId := PreKeyMessageProtocol.preKeySignedId protocol;
         PreKeyMessageProtocol.baseKey := PreKeyMessageProtocol.baseKey protocol;
         PreKeyMessageProtocol.identity := PreKeyMessageProtocol.identity protocol;
         PreKeyMessageProtocol.signedMessage := PreKeyMessageProtocol.signedMessage protocol |}
      limits identity.
Proof.
  intros Hid Hget. unfold AsymmetricRatchet.create_from_message. simpl.
  by rewrite Hid, (take_preKey_consumed identity j Hget).
Qed.

(** The creation of a responder session never changes the length of the
    list of one-time pre-keys. *)
Lemma create_from_message_preKeys_length {E : Engine} (protocol : PreKeyMessageProtocol.t)
    (limits : IRatchetLimitsOpt) (identity : Identity.t) :
  JsArray.length
    (Identity.preKeys (snd (AsymmetricRatchet.create_from_message protocol limits identity)))
  = JsArray.length (Identity.preKeys identity).
Proof.
  unfold AsymmetricRatchet.create_from_message, AsymmetricRatchet.take_preKey.
  repeat case_match; simplify_eq; simpl; try done; by rewrite JsArray_delete_length.
Qed.

(** C7 (the code departs from the claim). Alice holds one one-time
    pre-key; Bob's first message cites it.  The first responder-side
    creation consumes the pre-key; a second creation from the same message
    does not fail: it returns a session, whose root key is computed without
    the one-time pre-key and so differs from the first. *)
Theorem second_citation_creates_session :
  match Fixtures.first_message with
  | Some m =>
      let '(r1, alice1) :=
        AsymmetricRatchet.create_from_message (E := Toy.engine) m no_limits Fixtures.alice in
      let '(r2, alice2) :=
        AsymmetricRatchet.create_from_message (E := Toy.engine) m no_limits alice1 in
      PreKeyMessageProtocol.preKeyId m = Some 0
      /\ is_Ok r1 = true
      /\ JsArray.get (Identity.preKeys alice1) 0 = None
      /\ is_Ok r2 = true
      /\ (AsymmetricRatchet.rootKey <$> (match r1 with Ok s => Some s | Err _ => None end))
         <> (AsymmetricRatchet.rootKey <$> (match r2 with Ok s => Some s | Err _ => None end))
  | None => False
  end.
Proof. vm_compute. repeat split. discriminate. Qed.

(** The slot of a consumed pre-key.  Alice is created with exactly one
    one-time pre-key; she creates the responder session from Bob's first
    message and decrypts it.  The consumed slot is a hole: the [length]
    property of the array is still 1, and [toJSON] of the identity then
    stops on the hole. *)
Lemma consumed_preKey_keeps_length :
  match Fixtures.first_message with
  | Some m =>
      let '(r, alice1) :=
        AsymmetricRatchet.create_from_message (E := Toy.engine) m no_limits Fixtures.alice in
      JsArray.length (Identity.preKeys Fixtures.alice) = 1
      /\ (fst <$> (match r, PreKeyMessageProtocol.signedMessage m with
                   | Ok s, Some sm =>
                       Some (AsymmetricRatchet.decrypt (E := Toy.engine) sm 0 (fun _ => 0) s)
                   | _, _ => None
                   end)) = Some (Ok Fixtures.hello_alice)
      /\ JsArray.length (Identity.preKeys alice1) = 1
      /\ JsArray.get (Identity.preKeys alice1) 0 = None
      /\ Identity.toJSON_preKeys (E := Toy.engine) alice1 = Err TypeError
  | None => False
  end.
Proof. vm_compute. repeat split. Qed.

(** [decrypt] reads the identity of the session and never writes it. *)
Lemma decrypt_keeps_identity {E : Engine} (protocol : MessageSignedProtocol.t) (now : Z)
    (stamp : Z -> Z) (this : AsymmetricRatchet.t) :
  AsymmetricRatchet.identity (snd (AsymmetricRatchet.decrypt protocol now stamp this))
  = AsymmetricRatchet.identity this.
Proof.
  set (R := fun s s' : AsymmetricRatchet.t =>
              AsymmetricRatchet.identity s' = AsymmetricRatchet.identity s).
  assert (HT : Transitive R).
  { intros x y z Hxy Hyz. unfold R in *. congruence. }
  assert (Hrefl : forall s, R s s) by done.
  assert (Hwith : forall key cipherText s,
             R s (snd (AsymmetricRatchet.decryptWithKey key cipherText protocol s))).
  { intros key cipherText s.
    unfold R, AsymmetricRatchet.decryptWithKey, bindM, lift, get, ret, throw, req.
    repeat case_match; simplify_eq; done. }
  assert (Hchain : forall (st : DHRatchetStepEnhanced.t) rk step s,
             R s (snd ((match DHRatchetStepEnhanced.receivingChain st with
                        | Some _ => ret tt
                        | None =>
                            let! this := get in
                            let! chainKey :=
                              AsymmetricRatchet.createChain
                                (privateKey (AsymmetricRatchet.currentRatchetKey this)) rk in
                            AsymmetricRatchet.write_step step
                              (DHRatchetStepEnhanced.set_receivingChain
                                 (Some (ReceivingRatchet.new chainKey)) st)
                        end) s))).
  { intros st rk step s. destruct (DHRatchetStepEnhanced.receivingChain st); [done|].
    apply bind_keeps; [done|done|]. intros this2 s8 _.
    apply bind_keeps; [done| |done].
    unfold R, AsymmetricRatchet.createChain, bindM, lift, get, put, ret, req.
    repeat case_match; simplify_eq; done. }
  change (R this (snd (AsymmetricRatchet.decrypt protocol now stamp this))).
  unfold AsymmetricRatchet.decrypt.
  apply bind_keeps; [done|done|]. intros message s1 _.
  apply bind_keeps; [done|done|]. intros this1 s2 _.
  case_match; [done|].
  apply bind_keeps; [done|done|]. intros remoteRatchetKey s3 _.
  apply bind_keeps; [done| |].
  { unfold AsymmetricRatchet.find_or_push_step.
    destruct (DHRatchetStepStackEnhanced.getStep _ _); [done|].
    by destruct (DHRatchetStepStackEnhanced.push _ _ _) as [heap' steps']. }
  intros step s4 _.
  destruct (MessageProtocol.counter message) as [messageCounter|]; cycle 1.
  { unfold AsymmetricRatchet.decrypt_undefined_counter.
    apply bind_keeps; [done|done|]. intros st s6 _.
    apply bind_keeps; [done| |].
    { case_match; [|done].
      unfold AsymmetricRatchet.consumeSkippedMessageKey_undefined.
      by destruct (DHRatchetStepStackEnhanced.consumeSkippedMessageKey_undefined _ _)
        as [key steps']. }
    intros skippedKey s7 _.
    destruct skippedKey as [key|]; [apply Hwith|].
    apply bind_keeps; [done|apply Hchain|]. intros _ s8 _.
    apply bind_keeps; [done|done|]. intros st' s9 _.
    apply bind_keeps; [done|done|]. intros chain s10 _.
    apply bind_keeps; [done|done|]. intros _ s11 _. done. }
  apply bind_keeps; [done|done|]. intros st s6 _.
  apply bind_keeps; [done| |].
  { case_match; [|done].
    unfold AsymmetricRatchet.consumeSkippedMessageKey.
    by destruct (DHRatchetStepStackEnhanced.consumeSkippedMessageKey _ _ _)
      as [key steps']. }
  intros skippedKey s7 _.
  destruct skippedKey as [key|]; [apply Hwith|].
  apply bind_keeps; [done|apply Hchain|]. intros _ s8 _.
  apply bind_keeps; [done|done|]. intros st' s9 _.
  apply bind_keeps; [done| |].
  { case_match; done. }
  intros _ s10 _.
  apply bind_keeps; [done| |].
  { unfold R, AsymmetricRatchet.receivingChain_decrypt, AsymmetricRatchet.read_step,
      AsymmetricRatchet.write_step, bindM, lift, req.
    repeat case_match; simplify_eq; done. }
  intros decryptedMessage s11 _.
  apply bind_keeps; [done|done|]. intros st'' s12 _.
  apply bind_keeps; [done|done|]. intros _ s13 _.
  apply bind_keeps; [done|done|]. intros this3 s14 _.
  apply bind_keeps; [done|done|]. intros ok s15 _.
  destruct ok; done.
Qed.

(** C8. An identity holds exactly one one-time pre-key; the responder
    session is created from a [PreKeyMessage] that cites it, and the first
    decrypt succeeds.  Then the identity holds no one-time pre-key: the
    consumed pre-key has been deleted from the list, the list has no key
    left ([Object.keys(identity.preKeys).length], by which the demo of the
    repository counts the pre-keys, is 0, where it was 1), and no index
    gives a pre-key.  The decrypt has not touched the identity, which the
    session holds.  (Pre-keys are cited by their index, so the slot of the
    deleted pre-key stays in the array as a hole.) *)
Theorem consumed_preKey_is_removed {E : Engine} (identity identity' : Identity.t)
    (preKey : IECKeyPair) (protocol : PreKeyMessageProtocol.t) (limits : IRatchetLimitsOpt)
    (session session' : AsymmetricRatchet.t) (signedMessage : MessageSignedProtocol.t)
    (now : Z) (stamp : Z -> Z) (plaintext : bytes) :
  Identity.preKeys identity = [Some preKey] ->
  PreKeyMessageProtocol.preKeyId protocol = Some 0 ->
  AsymmetricRatchet.create_from_message protocol limits identity = (Ok session, identity') ->
  PreKeyMessageProtocol.signedMessage protocol = Some signedMessage ->
  AsymmetricRatchet.decrypt signedMessage now stamp session = (Ok plaintext, session') ->
  length (JsArray.keys (Identity.preKeys identity)) = 1%nat
  /\ Identity.preKeys identity' = JsArray.delete (Identity.preKeys identity) 0
  /\ length (JsArray.keys (Identity.preKeys identity')) = 0%nat
  /\ (forall j, JsArray.get (Identity.preKeys identity') j = None)
  /\ AsymmetricRatchet.identity session = identity'
  /\ AsymmetricRatchet.identity session' = identity'.
Proof.
  intros Hkeys Hid Hcreate Hsm Hdec.
  assert (Hsession : Identity.preKeys identity' = [None]
                     /\ AsymmetricRatchet.identity session = identity').
  { unfold AsymmetricRatchet.create_from_message in Hcreate.
    rewrite Hid in Hcreate. unfold AsymmetricRatchet.take_preKey in Hcreate.
    rewrite Hkeys in Hcreate.
    change (JsArray.get [Some preKey] 0) with (Some preKey) in Hcreate.
    change (JsArray.delete [Some preKey] 0) with [None (A := IECKeyPair)] in Hcreate.
    cbv beta iota zeta in Hcreate. unfold bind in Hcreate.
    repeat case_match; simplify_eq; done. }
  destruct Hsession as [Hkeys' Hsession].
  split; [by rewrite Hkeys|]. split; [by rewrite Hkeys', Hkeys|].
  split; [by rewrite Hkeys'|]. split.
  { intros j. rewrite Hkeys'. unfold JsArray.get. case_match; [done|].
    by destruct (Z.to_nat j) as [|[|n]]. }
  split; [done|].
  pose proof (decrypt_keeps_identity signedMessage now stamp session) as Hframe.
  rewrite Hdec in Hframe. cbn [snd] in Hframe. congruence.
Qed.

Lemma consumed_preKey_is_removed_witness :
  let E := Toy.engine in
  length (JsArray.keys (Identity.preKeys Fixtures.alice)) = 1%nat
  /\ Identity.preKeys FirstExchange.alice'
     = JsArray.delete (Identity.preKeys Fixtures.alice) 0
  /\ length (JsArray.keys (Identity.preKeys FirstExchange.alice')) = 0%nat
  /\ (forall j, JsArray.get (Identity.preKeys FirstExchange.alice') j = None)
  /\ AsymmetricRatchet.identity FirstExchange.session = FirstExchange.alice'
  /\ AsymmetricRatchet.identity FirstExchange.session' = FirstExchange.alice'.
Proof.
  cbv zeta.
  apply (consumed_preKey_is_removed (E := Toy.engine) Fixtures.alice FirstExchange.alice'
           Fixtures.alice_preKey FirstExchange.message no_limits FirstExchange.session
           FirstExchange.session' FirstExchange.signedMessage 0 (fun _ => 0)
           Fixtures.hello_alice).
  - vm_compute. reflexivity.
  - reflexivity.
  - vm_compute. reflexivity.
  - reflexivity.
  - vm_compute. reflexivity.
Defined.

(** ** Deleting a list of counters from the two tables *)

Lemma lookup_foldr_delete {A} (m : gmap Z A) (l : list Z) (c : Z) :
  foldr delete m l !! c = if decide (c ∈ l) then None else m !! c.
Proof.
  induction l as [|x l IH]; cbn [foldr].
  - by rewrite decide_False by set_solver.
  - destruct (decide (x = c)) as [->|Hne].
    + rewrite lookup_delete_eq. by rewrite decide_True by set_solver.
    + rewrite lookup_delete_ne, IH by done.
      destruct (decide (c ∈ l)).
      * by rewrite decide_True by set_solver.
      * by rewrite decide_False by set_solver.
Qed.

Lemma size_foldr_delete {A} (m : gmap Z A) (l : list Z) :
  NoDup l -> (forall c, c ∈ l -> is_Some (m !! c)) ->
  size (foldr delete m l) = (size m - length l)%nat.
Proof.
  induction 1 as [|x l Hx Hnd IH]; intros Hin; cbn [foldr length]; [lia|].
  rewrite map_size_delete_Some.
  - rewrite IH by (intros; apply Hin; set_solver). lia.
  - rewrite lookup_foldr_delete. case_decide; [done|]. apply Hin. set_solver.
Qed.

Lemma foldr_delete_subseteq {A} (m : gmap Z A) (l : list Z) : foldr delete m l ⊆ m.
Proof.
  induction l as [|x l IH]; simpl; [done|].
  etrans; [apply delete_subseteq|done].
Qed.

Lemma foldr_delete_key_fields (l : list Z) (this : ReceivingRatchet.t) :
  ReceivingRatchet.counter (foldr ReceivingRatchet.delete_key this l)
  = ReceivingRatchet.counter this
  /\ ReceivingRatchet.rootKey (foldr ReceivingRatchet.delete_key this l)
     = ReceivingRatchet.rootKey this
  /\ ReceivingRatchet.messageKeys (foldr ReceivingRatchet.delete_key this l)
     = foldr delete (ReceivingRatchet.messageKeys this) l
  /\ ReceivingRatchet.messageKeysCreationTime (foldr ReceivingRatchet.delete_key this l)
     = foldr delete (ReceivingRatchet.messageKeysCreationTime this) l.
Proof.
  induction l as [|x l (IH1 & IH2 & IH3 & IH4)]; simpl; [done|].
  by rewrite IH1, IH2, IH3, IH4.
Qed.

(** ** cleanupExpiredKeys *)

Lemma elem_of_expired (now : Z) (this : ReceivingRatchet.t) (c : Z) :
  c ∈ ReceivingRatchet.expired now this
  <-> exists t, ReceivingRatchet.messageKeysCreationTime this !! c = Some t
                /\ ReceivingRatchet.MAX_CACHED_KEY_AGE < now - t.
Proof.
  unfold ReceivingRatchet.expired. rewrite list_elem_of_fmap. split.
  - intros ([c' t] & -> & Hin). apply elem_of_map_to_list in Hin.
    apply map_lookup_filter_Some in Hin as [Hl Hage]. simpl in *.
    exists t. split; [done|]. by apply Z.ltb_lt, Is_true_true.
  - intros (t & Hl & Hage). exists (c, t). split; [done|].
    apply elem_of_map_to_list, map_lookup_filter_Some. split; [done|].
    simpl. by apply Is_true_true, Z.ltb_lt.
Qed.

Lemma cleanup_counter (now : Z) (this : ReceivingRatchet.t) :
  ReceivingRatchet.counter (ReceivingRatchet.cleanupExpiredKeys now this)
  = ReceivingRatchet.counter this
  /\ ReceivingRatchet.rootKey (ReceivingRatchet.cleanupExpiredKeys now this)
     = ReceivingRatchet.rootKey this.
Proof.
  unfold ReceivingRatchet.cleanupExpiredKeys.
  by destruct (foldr_delete_key_fields (ReceivingRatchet.expired now this) this) as (? & ? & _).
Qed.

Lemma cleanup_messageKeys (now : Z) (this : ReceivingRatchet.t) (c : Z) :
  ReceivingRatchet.messageKeys (ReceivingRatchet.cleanupExpiredKeys now this) !! c
  = if decide (c ∈ ReceivingRatchet.expired now this) then None
    else ReceivingRatchet.messageKeys this !! c.
Proof.
  unfold ReceivingRatchet.cleanupExpiredKeys.
  destruct (foldr_delete_key_fields (ReceivingRatchet.expired now this) this)
    as (_ & _ & -> & _).
  apply lookup_foldr_delete.
Qed.

Lemma cleanup_creationTime (now : Z) (this : ReceivingRatchet.t) (c : Z) :
  ReceivingRatchet.messageKeysCreationTime (ReceivingRatchet.cleanupExpiredKeys now this) !! c
  = if decide (c ∈ ReceivingRatchet.expired now this) then None
    else ReceivingRatchet.messageKeysCreationTime this !! c.
Proof.
  unfold ReceivingRatchet.cleanupExpiredKeys.
  destruct (foldr_delete_key_fields (ReceivingRatchet.expired now this) this)
    as (_ & _ & _ & ->).
  apply lookup_foldr_delete.
Qed.

Lemma cleanup_cacheSize (now : Z) (this : ReceivingRatchet.t) :
  cacheSize (ReceivingRatchet.cleanupExpiredKeys now this) <= cacheSize this.
Proof.
  unfold cacheSize, ReceivingRatchet.cleanupExpiredKeys.
  destruct (foldr_delete_key_fields (ReceivingRatchet.expired now this) this)
    as (_ & _ & -> & _).
  apply Nat2Z.inj_le, map_subseteq_size, foldr_delete_subseteq.
Qed.

(** When no creation time is older than the maximal age, the clean-up
    leaves the chain as it is. *)
Lemma cleanup_nothing_expired (now : Z) (this : ReceivingRatchet.t) :
  (forall c t, ReceivingRatchet.messageKeysCreationTime this !! c = Some t ->
               now - t <= ReceivingRatchet.MAX_CACHED_KEY_AGE) ->
  ReceivingRatchet.cleanupExpiredKeys now this = this.
Proof.
  intros Hfresh. unfold ReceivingRatchet.cleanupExpiredKeys.
  assert (Hnil : ReceivingRatchet.expired now this = []).
  { destruct (ReceivingRatchet.expired now this) as [|c l] eqn:Hexp; [done|].
    assert (Hc : c ∈ ReceivingRatchet.expired now this) by (rewrite Hexp; set_solver).
    apply elem_of_expired in Hc as (t & Hl & Hage). specialize (Hfresh c t Hl). lia. }
  by rewrite Hnil.
Qed.

(** ** enforceMaxCacheSize *)

Lemma keyCounters_spec {A} (m : gmap Z A) :
  NoDup (map_to_list m).*1
  /\ length (map_to_list m).*1 = size m
  /\ forall c, c ∈ (map_to_list m).*1 <-> is_Some (m !! c).
Proof.
  split; [apply NoDup_fst_map_to_list|]. split.
  - by rewrite length_fmap, length_map_to_list.
  - intros c. rewrite list_elem_of_fmap. split.
    + intros ([c' v] & -> & Hin). apply elem_of_map_to_list in Hin. eauto.
    + intros [v Hv]. exists (c, v). split; [done|]. by apply elem_of_map_to_list.
Qed.

(** The counters [enforceMaxCacheSize] deletes: none when the cache is
    within [MAX_CACHED_KEYS], otherwise the smallest ones in excess. *)
Lemma enforce_evicted (this : ReceivingRatchet.t) :
  exists evicted kept : list Z,
    merge_sort Z.le (map_to_list (ReceivingRatchet.messageKeys this)).*1 = evicted ++ kept
    /\ ReceivingRatchet.enforceMaxCacheSize this = foldr ReceivingRatchet.delete_key this evicted
    /\ Z.of_nat (length evicted) = Z.max 0 (cacheSize this - ReceivingRatchet.MAX_CACHED_KEYS).
Proof.
  unfold ReceivingRatchet.enforceMaxCacheSize, cacheSize.
  set (keys := (map_to_list (ReceivingRatchet.messageKeys this)).*1).
  destruct (keyCounters_spec (ReceivingRatchet.messageKeys this)) as (_ & Hlen & _).
  fold keys in Hlen.
  assert (Hsorted : length (merge_sort Z.le keys) = length keys)
    by (by rewrite merge_sort_Permutation).
  destruct (Z.ltb_spec ReceivingRatchet.MAX_CACHED_KEYS (Z.of_nat (length keys))) as [Hgt|Hle].
  - exists (take (Z.to_nat (Z.of_nat (length keys) - ReceivingRatchet.MAX_CACHED_KEYS))
              (merge_sort Z.le keys)),
           (drop (Z.to_nat (Z.of_nat (length keys) - ReceivingRatchet.MAX_CACHED_KEYS))
              (merge_sort Z.le keys)).
    split; [by rewrite take_drop|]. split; [done|].
    rewrite length_take, Hsorted, <- Hlen.
    unfold ReceivingRatchet.MAX_CACHED_KEYS in *. lia.
  - exists [], (merge_sort Z.le keys). split; [done|]. split; [done|].
    rewrite <- Hlen. unfold ReceivingRatchet.MAX_CACHED_KEYS in *. simpl. lia.
Qed.

Lemma enforce_cacheSize (this : ReceivingRatchet.t) :
  cacheSize (ReceivingRatchet.enforceMaxCacheSize this)
  = Z.min (cacheSize this) ReceivingRatchet.MAX_CACHED_KEYS.
Proof.
  destruct (enforce_evicted this) as (evicted & kept & Hsplit & -> & Hlen).
  destruct (keyCounters_spec (ReceivingRatchet.messageKeys this)) as (Hnd & Hklen & Hin).
  assert (Hperm : evicted ++ kept ≡ₚ (map_to_list (ReceivingRatchet.messageKeys this)).*1)
    by (rewrite <- Hsplit; apply merge_sort_Permutation).
  unfold cacheSize in *.
  destruct (foldr_delete_key_fields evicted this) as (_ & _ & -> & _).
  rewrite size_foldr_delete.
  - unfold ReceivingRatchet.MAX_CACHED_KEYS in *. lia.
  - rewrite <- Hperm in Hnd. by apply NoDup_app in Hnd as (? & _).
  - intros c Hc. apply Hin. rewrite <- Hperm. set_solver.
Qed.

(** On overflow the entries with the smallest counters go: every evicted
    counter is below every counter that is kept. *)
Lemma enforce_evicts_smallest (this : ReceivingRatchet.t) (c c' : Z) :
  is_Some (ReceivingRatchet.messageKeys this !! c) ->
  ReceivingRatchet.messageKeys (ReceivingRatchet.enforceMaxCacheSize this) !! c = None ->
  is_Some (ReceivingRatchet.messageKeys (ReceivingRatchet.enforceMaxCacheSize this) !! c') ->
  c < c'.
Proof.
  destruct (enforce_evicted this) as (evicted & kept & Hsplit & -> & _).
  destruct (keyCounters_spec (ReceivingRatchet.messageKeys this)) as (Hnd & _ & Hin).
  assert (Hperm : evicted ++ kept ≡ₚ (map_to_list (ReceivingRatchet.messageKeys this)).*1)
    by (rewrite <- Hsplit; apply merge_sort_Permutation).
  assert (Hsorted : StronglySorted Z.le (evicted ++ kept)).
  { rewrite <- Hsplit. apply StronglySorted_merge_sort; [apply _|].
    intros x y. lia. }
  destruct (foldr_delete_key_fields evicted this) as (_ & _ & -> & _).
  rewrite !lookup_foldr_delete. intros Hc Hgone Hkept.
  assert (Hnd' : NoDup (evicted ++ kept)) by (by rewrite Hperm).
  destruct (decide (c ∈ evicted)) as [Hce|Hce]; [|destruct Hc; congruence].
  destruct (decide (c' ∈ evicted)) as [Hc'e|Hc'e]; [by destruct Hkept|].
  assert (Hc'k : c' ∈ kept).
  { apply Hin in Hkept. rewrite <- Hperm in Hkept.
    apply elem_of_app in Hkept as [?|?]; [contradiction|done]. }
  pose proof (StronglySorted_app_1_elem_of _ _ _ _ _ Hsorted Hce Hc'k) as Hle.
  assert (c <> c').
  { intros ->. apply NoDup_app in Hnd' as (_ & Hdisj & _). by eapply Hdisj. }
  lia.
Qed.

Lemma enforce_within_bound (this : ReceivingRatchet.t) :
  cacheSize this <= ReceivingRatchet.MAX_CACHED_KEYS ->
  ReceivingRatchet.enforceMaxCacheSize this = this.
Proof.
  intros Hle. unfold ReceivingRatchet.enforceMaxCacheSize.
  destruct (keyCounters_spec (ReceivingRatchet.messageKeys this)) as (_ & Hlen & _).
  rewrite Hlen. unfold cacheSize in Hle.
  by destruct (Z.ltb_spec ReceivingRatchet.MAX_CACHED_KEYS
                 (Z.of_nat (size (ReceivingRatchet.messageKeys this)))); [lia|].
Qed.

Lemma enforce_fields (this : ReceivingRatchet.t) :
  ReceivingRatchet.counter (ReceivingRatchet.enforceMaxCacheSize this)
  = ReceivingRatchet.counter this
  /\ ReceivingRatchet.rootKey (ReceivingRatchet.enforceMaxCacheSize this)
     = ReceivingRatchet.rootKey this
  /\ ReceivingRatchet.messageKeys (ReceivingRatchet.enforceMaxCacheSize this)
     ⊆ ReceivingRatchet.messageKeys this
  /\ ReceivingRatchet.messageKeysCreationTime (ReceivingRatchet.enforceMaxCacheSize this)
     ⊆ ReceivingRatchet.messageKeysCreationTime this.
Proof.
  destruct (enforce_evicted this) as (evicted & kept & _ & -> & _).
  destruct (foldr_delete_key_fields evicted this) as (-> & -> & -> & ->).
  repeat split; apply foldr_delete_subseteq.
Qed.

(** ** The fast-forward loop of getKey *)

Lemma click_spec {E : Engine} (this : ReceivingRatchet.t) :
  ReceivingRatchet.click this
  = (Ok (messageKey (ReceivingRatchet.rootKey this) 0),
     {| ReceivingRatchet.counter := ReceivingRatchet.counter this + 1;
        ReceivingRatchet.rootKey := chainKey (ReceivingRatchet.rootKey this) 1;
        ReceivingRatchet.messageKeys := ReceivingRatchet.messageKeys this;
        ReceivingRatchet.messageKeysCreationTime :=
          ReceivingRatchet.messageKeysCreationTime this |}).
Proof. reflexivity. Qed.

Lemma fastForward_S {E : Engine} (fuel : nat) (target : Z) (stamp : Z -> Z)
    (this : ReceivingRatchet.t) :
  ReceivingRatchet.fastForward (S fuel) target stamp this
  = if ReceivingRatchet.counter this <=? target then
      if ReceivingRatchet.counter this + 1 - 1 <? target then
        ReceivingRatchet.fastForward fuel target stamp
          (ReceivingRatchet.store_key (ReceivingRatchet.counter this + 1 - 1)
             (messageKey (ReceivingRatchet.rootKey this) 0)
             (stamp (ReceivingRatchet.counter this + 1 - 1))
             {| ReceivingRatchet.counter := ReceivingRatchet.counter this + 1;
                ReceivingRatchet.rootKey := chainKey (ReceivingRatchet.rootKey this) 1;
                ReceivingRatchet.messageKeys := ReceivingRatchet.messageKeys this;
                ReceivingRatchet.messageKeysCreationTime :=
                  ReceivingRatchet.messageKeysCreationTime this |})
      else
        (Ok (messageKey (ReceivingRatchet.rootKey this) 0),
         ReceivingRatchet.enforceMaxCacheSize
           {| ReceivingRatchet.counter := ReceivingRatchet.counter this + 1;
              ReceivingRatchet.rootKey := chainKey (ReceivingRatchet.rootKey this) 1;
              ReceivingRatchet.messageKeys := ReceivingRatchet.messageKeys this;
              ReceivingRatchet.messageKeysCreationTime :=
                ReceivingRatchet.messageKeysCreationTime this |})
    else (Err FailedToDeriveMessageKey, this).
Proof. reflexivity. Qed.

(** With a bound of one more than the distance to the requested counter,
    the loop runs to its [return]: it stores the keys of the counters it
    skips, each with its time stamp, returns the key of the requested
    counter and enforces the size of the cache. *)
Lemma fastForward_spec {E : Engine} (target : Z) (stamp : Z -> Z) (n : nat) :
  forall this : ReceivingRatchet.t,
    ReceivingRatchet.counter this + Z.of_nat n = target ->
    exists this1,
      ReceivingRatchet.fastForward (S n) target stamp this
      = (Ok (messageKey (ReceivingRatchet.rootKey this) n),
         ReceivingRatchet.enforceMaxCacheSize this1)
      /\ ReceivingRatchet.counter this1 = target + 1
      /\ ReceivingRatchet.rootKey this1 = chainKey (ReceivingRatchet.rootKey this) (S n)
      /\ (forall c, ReceivingRatchet.messageKeys this1 !! c
                    = if decide (ReceivingRatchet.counter this <= c < target)
                      then Some (messageKey (ReceivingRatchet.rootKey this)
                                   (Z.to_nat (c - ReceivingRatchet.counter this)))
                      else ReceivingRatchet.messageKeys this !! c)
      /\ (forall c, ReceivingRatchet.messageKeysCreationTime this1 !! c
                    = if decide (ReceivingRatchet.counter this <= c < target)
                      then Some (stamp c)
                      else ReceivingRatchet.messageKeysCreationTime this !! c).
Proof.
  induction n as [|n IH]; intros this Hn; rewrite fastForward_S.
  - destruct (Z.leb_spec (ReceivingRatchet.counter this) target); [|lia].
    destruct (Z.ltb_spec (ReceivingRatchet.counter this + 1 - 1) target); [lia|].
    eexists. split; [reflexivity|]. cbn.
    repeat split; try lia; intros c; by rewrite decide_False by lia.
  - destruct (Z.leb_spec (ReceivingRatchet.counter this) target); [|lia].
    destruct (Z.ltb_spec (ReceivingRatchet.counter this + 1 - 1) target); [|lia].
    match goal with |- context [ReceivingRatchet.fastForward (S n) target stamp ?s] =>
      destruct (IH s) as (this1 & Hff & Hc & Hr & Hk & Ht) end.
    { cbn. lia. }
    exists this1. cbn in Hff, Hr, Hk, Ht. cbn [fst snd] in *.
    split; [exact Hff|]. split; [done|]. split; [done|].
    replace (ReceivingRatchet.counter this + 1 - 1) with (ReceivingRatchet.counter this)
      in * by lia.
    split; intros c.
    + rewrite Hk. destruct (decide (c = ReceivingRatchet.counter this)) as [->|Hne].
      * rewrite decide_False, decide_True by lia. rewrite lookup_insert_eq.
        by rewrite Z.sub_diag.
      * rewrite lookup_insert_ne by done.
        destruct (decide (ReceivingRatchet.counter this + 1 <= c < target)).
        -- rewrite decide_True by lia.
           replace (Z.to_nat (c - ReceivingRatchet.counter this))
             with (S (Z.to_nat (c - (ReceivingRatchet.counter this + 1)))) by lia.
           done.
        -- by rewrite decide_False by lia.
    + rewrite Ht. destruct (decide (c = ReceivingRatchet.counter this)) as [->|Hne].
      * rewrite decide_False, decide_True by lia. by rewrite lookup_insert_eq.
      * rewrite lookup_insert_ne by done.
        destruct (decide (ReceivingRatchet.counter this + 1 <= c < target)).
        -- by rewrite decide_True by lia.
        -- by rewrite decide_False by lia.
Qed.

(** ** getKey and the cache of a receiving chain *)

Lemma getKey_cases {E : Engine} (target now : Z) (stamp : Z -> Z) (this : ReceivingRatchet.t) :
  let cleaned := ReceivingRatchet.cleanupExpiredKeys now this in
  (exists key, ReceivingRatchet.messageKeys cleaned !! target = Some key
               /\ ReceivingRatchet.getKey target now stamp this
                  = (Ok key, ReceivingRatchet.delete_key target cleaned))
  \/ (ReceivingRatchet.messageKeys cleaned !! target = None
      /\ target < ReceivingRatchet.counter this
      /\ ReceivingRatchet.getKey target now stamp this = (Err CounterTooOld, cleaned))
  \/ (ReceivingRatchet.messageKeys cleaned !! target = None
      /\ ReceivingRatchet.counter this <= target
      /\ exists this1,
           ReceivingRatchet.getKey target now stamp this
           = (Ok (messageKey (ReceivingRatchet.rootKey this)
                    (Z.to_nat (target - ReceivingRatchet.counter this))),
              ReceivingRatchet.enforceMaxCacheSize this1)
           /\ ReceivingRatchet.counter this1 = target + 1
           /\ ReceivingRatchet.rootKey this1
              = chainKey (ReceivingRatchet.rootKey this)
                  (S (Z.to_nat (target - ReceivingRatchet.counter this)))
           /\ (forall c, ReceivingRatchet.messageKeys this1 !! c
                         = if decide (ReceivingRatchet.counter this <= c < target)
                           then Some (messageKey (ReceivingRatchet.rootKey this)
                                        (Z.to_nat (c - ReceivingRatchet.counter this)))
                           else ReceivingRatchet.messageKeys cleaned !! c)
           /\ (forall c, ReceivingRatchet.messageKeysCreationTime this1 !! c
                         = if decide (ReceivingRatchet.counter this <= c < target)
                           then Some (stamp c)
                           else ReceivingRatchet.messageKeysCreationTime cleaned !! c)).
Proof.
  intros cleaned. unfold ReceivingRatchet.getKey. fold cleaned.
  destruct (cleanup_counter now this) as [Hcnt Hroot]. fold cleaned in Hcnt, Hroot.
  destruct (ReceivingRatchet.messageKeys cleaned !! target) as [key|] eqn:Hcached.
  - left. eauto.
  - right. rewrite Hcnt.
    destruct (Z.ltb_spec target (ReceivingRatchet.counter this)) as [Hold|Hnew].
    + left. eauto.
    + right. split; [done|]. split; [done|].
      destruct (fastForward_spec target stamp
                  (Z.to_nat (target - ReceivingRatchet.counter this)) cleaned)
        as (this1 & Hff & Hc & Hr & Hk & Ht); [lia|].
      rewrite Hcnt, Hroot in *. eauto 10.
Qed.

(** The bounds the receiving chain does keep, with its own constants.
    After every [getKey], hence after every decrypt, the cache of a
    receiving chain holds at most [MAX_CACHED_KEYS] = 2000 entries, or no
    more than before; an entry whose age at the start of the call exceeds
    [MAX_CACHED_KEY_AGE] = 1 hour is removed from both tables (unless the
    call derives the key of that counter anew); and on overflow
    [enforceMaxCacheSize] cuts the cache down to [MAX_CACHED_KEYS] by
    evicting the entries with the smallest counters. *)
Lemma receiving_cache_bounds {E : Engine}
    (this : ReceivingRatchet.t) (target now : Z) (stamp : Z -> Z) :
  let this' := snd (ReceivingRatchet.getKey target now stamp this) in
  cacheSize this' <= Z.max (cacheSize this) ReceivingRatchet.MAX_CACHED_KEYS
  /\ (forall c t,
        ReceivingRatchet.messageKeysCreationTime this !! c = Some t ->
        ReceivingRatchet.MAX_CACHED_KEY_AGE < now - t ->
        ~ (ReceivingRatchet.counter this <= c < target) ->
        ReceivingRatchet.messageKeys this' !! c = None
        /\ ReceivingRatchet.messageKeysCreationTime this' !! c = None)
  /\ (forall this0 : ReceivingRatchet.t,
        cacheSize (ReceivingRatchet.enforceMaxCacheSize this0)
        = Z.min (cacheSize this0) ReceivingRatchet.MAX_CACHED_KEYS
        /\ forall c c',
             is_Some (ReceivingRatchet.messageKeys this0 !! c) ->
             ReceivingRatchet.messageKeys (ReceivingRatchet.enforceMaxCacheSize this0) !! c
             = None ->
             is_Some (ReceivingRatchet.messageKeys
                        (ReceivingRatchet.enforceMaxCacheSize this0) !! c') ->
             c < c').
Proof.
  intros this'. subst this'.
  pose proof (cleanup_cacheSize now this) as Hclean.
  assert (Hexp : forall c t,
             ReceivingRatchet.messageKeysCreationTime this !! c = Some t ->
             ReceivingRatchet.MAX_CACHED_KEY_AGE < now - t ->
             ReceivingRatchet.messageKeys (ReceivingRatchet.cleanupExpiredKeys now this) !! c
             = None
             /\ ReceivingRatchet.messageKeysCreationTime
                  (ReceivingRatchet.cleanupExpiredKeys now this) !! c = None).
  { intros c t Hl Hage. rewrite cleanup_messageKeys, cleanup_creationTime.
    rewrite !decide_True by (apply elem_of_expired; eauto). done. }
  split; [|split].
  - destruct (getKey_cases target now stamp this)
      as [(key & Hk & ->)|[(Hk & Hold & ->)|(Hk & Hnew & this1 & -> & _)]]; cbn [snd].
    + unfold cacheSize in *. cbn.
      pose proof (map_subseteq_size _ _
        (delete_subseteq (ReceivingRatchet.messageKeys
                            (ReceivingRatchet.cleanupExpiredKeys now this)) target)).
      lia.
    + lia.
    + rewrite enforce_cacheSize. lia.
  - intros c t Hl Hage Hrange. destruct (Hexp c t Hl Hage) as [Hk0 Ht0].
    destruct (getKey_cases target now stamp this)
      as [(key & Hk & ->)|[(Hk & Hold & ->)|(Hk & Hnew & this1 & -> & _ & _ & Hk1 & Ht1)]];
      cbn [snd].
    + cbn. split; (destruct (decide (target = c)) as [->|Hne];
        [by rewrite lookup_delete_eq|by rewrite lookup_delete_ne]).
    + done.
    + destruct (enforce_fields this1) as (_ & _ & Hsk & Hst).
      split.
      * eapply lookup_weaken_None; [|exact Hsk]. rewrite Hk1. by rewrite decide_False.
      * eapply lookup_weaken_None; [|exact Hst]. rewrite Ht1. by rewrite decide_False.
  - intros this0. split; [apply enforce_cacheSize|]. intros c c'. apply enforce_evicts_smallest.
Qed.

(** C6 (the code departs from the claim). A session with the default
    limits, where [maxMessageKeysPerStep] is 1000: Alice decrypts, as the
    first message of Bob's epoch that reaches her, the one with counter
    1500.  The decrypt succeeds and the receiving chain then caches 1500
    keys: the cache of the chain is not held to the configured limit, which
    no code of the session or of the chain reads. *)
Theorem cache_exceeds_maxMessageKeysPerStep :
  match Epoch.deliver 1501 [(1500%nat, 0)] with
  | Some (results, alice') =>
      is_Ok <$> results = [true]
      /\ maxMessageKeysPerStep
           (DHRatchetStepStackEnhanced.limits (AsymmetricRatchet.steps alice')) = 1000
      /\ cacheSize <$> Scenario.receivingChainOf alice' (publicKey Fixtures.bob_ephemeral)
         = Some 1500
  | None => False
  end.
Proof. vm_compute. repeat split. Qed.

(** ** What one decrypt does to a session *)

Lemma decrypt_tail_spec {E : Engine} (s0 : AsymmetricRatchet.t)
    (protocol : MessageSignedProtocol.t) (m : MessageProtocol.t)
    (c : Z) (r : ref) (st : DHRatchetStepEnhanced.t) (chain : ReceivingRatchet.t)
    (now : Z) (stamp : Z -> Z) :
  AsymmetricRatchet.heap s0 !! r = Some st ->
  DHRatchetStepEnhanced.receivingChain st = Some chain ->
  exists b' st',
    decrypt_tail r m protocol c now stamp s0
    = (decrypt_outcome s0 protocol
         (fst (ReceivingRatchet.decrypt (MessageProtocol.cipherText m) c
                 (Some (AsymmetricRatchet.header_aad m)) now stamp chain)), b')
    /\ same_except_step s0 b' r
    /\ AsymmetricRatchet.heap b' !! r = Some st'
    /\ DHRatchetStepEnhanced.receivingChain st'
       = Some (snd (ReceivingRatchet.decrypt (MessageProtocol.cipherText m) c
                      (Some (AsymmetricRatchet.header_aad m)) now stamp chain))
    /\ DHRatchetStepEnhanced.ratchetKeyId st' = DHRatchetStepEnhanced.ratchetKeyId st
    /\ DHRatchetStepEnhanced.remoteRatchetKey st'
       = DHRatchetStepEnhanced.remoteRatchetKey st.
Proof.
  intros Hheap Hchain.
  assert (Hlt : (r < length (AsymmetricRatchet.heap s0))%nat) by (by eapply lookup_lt_Some).
  unfold decrypt_tail.
  unfold bindM at 1. unfold AsymmetricRatchet.read_step at 1. rewrite Hheap. cbn [req].
  unfold bindM at 1.
  assert (Hgen : (if DHRatchetStepEnhanced.lastDecryptedCounter st + 1 <? c
                  then AsymmetricRatchet.generateSkippedMessageKeys r
                         (DHRatchetStepEnhanced.lastDecryptedCounter st + 1) (c - 1)
                  else ret ()) s0 = (Ok tt, s0)) by (by case_match).
  rewrite Hgen. clear Hgen.
  unfold bindM at 1. unfold AsymmetricRatchet.receivingChain_decrypt.
  unfold bindM at 1. unfold AsymmetricRatchet.read_step at 1. rewrite Hheap. cbn [req].
  unfold bindM at 1. unfold lift at 1. rewrite Hchain. cbn [req].
  destruct (ReceivingRatchet.decrypt (MessageProtocol.cipherText m) c
              (Some (AsymmetricRatchet.header_aad m)) now stamp chain) as [res chain'].
  unfold bindM at 1. unfold AsymmetricRatchet.write_step at 1. unfold lift at 1.
  cbn [fst snd].
  destruct res as [dm|e].
  - unfold bindM at 1. unfold AsymmetricRatchet.read_step at 1.
    cbn [AsymmetricRatchet.heap AsymmetricRatchet.set_heap AsymmetricRatchet.set_steps_heap].
    rewrite list_lookup_insert_eq by done. cbn [req].
    unfold bindM at 1. unfold AsymmetricRatchet.write_step at 1.
    unfold bindM at 1. unfold get at 1.
    unfold bindM at 1. unfold lift at 1.
    cbn [AsymmetricRatchet.heap AsymmetricRatchet.set_heap AsymmetricRatchet.set_steps_heap].
    eexists _, _. split.
    { unfold decrypt_outcome, AsymmetricRatchet.verify_message.
      cbn [AsymmetricRatchet.identity AsymmetricRatchet.remoteIdentity
           AsymmetricRatchet.set_heap AsymmetricRatchet.set_steps_heap].
      repeat case_match; reflexivity. }
    unfold same_except_step. cbn. split.
    { repeat split; try done; try (by rewrite !length_insert);
        intros r' Hne; by rewrite !list_lookup_insert_ne by done. }
    split; [by rewrite list_lookup_insert_eq by (by rewrite length_insert)|].
    done.
  - eexists _, _. split; [reflexivity|]. unfold same_except_step. cbn. split.
    { repeat split; try done; try (by rewrite !length_insert);
        intros r' Hne; by rewrite !list_lookup_insert_ne by done. }
    split; [by rewrite list_lookup_insert_eq|]. done.
Qed.

(** A message whose sender ratchet key the lookup table knows, whose step
    holds a receiving chain, and for which no session-wide skipped key is
    stored: [decrypt] hands it to the receiving chain of that step. *)
Lemma decrypt_known_step {E : Engine} (b : AsymmetricRatchet.t)
    (protocol : MessageSignedProtocol.t) (m : MessageProtocol.t) (rk : ECPublicKey)
    (c : Z) (r : ref) (st : DHRatchetStepEnhanced.t) (chain : ReceivingRatchet.t)
    (now : Z) (stamp : Z -> Z) :
  MessageSignedProtocol.message protocol = Some m ->
  MessageProtocol.senderRatchetKey m = Some rk ->
  MessageProtocol.counter m = Some c ->
  AsymmetricRatchet.lt_number (MessageProtocol.previousCounter m)
    (AsymmetricRatchet.counter b
     - DHRatchetStepStackEnhanced.maxSize (AsymmetricRatchet.steps b)) = false ->
  DHRatchetStepStackEnhanced.getStep (AsymmetricRatchet.steps b) rk = Some r ->
  AsymmetricRatchet.heap b !! r = Some st ->
  DHRatchetStepEnhanced.receivingChain st = Some chain ->
  (truthy (DHRatchetStepEnhanced.ratchetKeyId st) = true ->
   JsObject.get (DHRatchetStepStackEnhanced.globalSkippedKeys (AsymmetricRatchet.steps b))
     (DHRatchetStepStackEnhanced.compositeKey
        (default "" (DHRatchetStepEnhanced.ratchetKeyId st)) c) = None) ->
  exists b' st',
    AsymmetricRatchet.decrypt protocol now stamp b
    = (decrypt_outcome b protocol
         (fst (ReceivingRatchet.decrypt (MessageProtocol.cipherText m) c
                 (Some (AsymmetricRatchet.header_aad m)) now stamp chain)), b')
    /\ same_except_step b b' r
    /\ AsymmetricRatchet.heap b' !! r = Some st'
    /\ DHRatchetStepEnhanced.receivingChain st'
       = Some (snd (ReceivingRatchet.decrypt (MessageProtocol.cipherText m) c
                      (Some (AsymmetricRatchet.header_aad m)) now stamp chain))
    /\ DHRatchetStepEnhanced.ratchetKeyId st' = DHRatchetStepEnhanced.ratchetKeyId st
    /\ DHRatchetStepEnhanced.remoteRatchetKey st'
       = DHRatchetStepEnhanced.remoteRatchetKey st.
Proof.
  intros Hm Hrk Hc Hwin Hstep Hheap Hchain Hskip.
  unfold AsymmetricRatchet.decrypt.
  unfold bindM at 1. unfold lift at 1. rewrite Hm. cbn [req].
  unfold bindM at 1. unfold get at 1. rewrite Hwin.
  unfold bindM at 1. unfold lift at 1. rewrite Hrk. cbn [req].
  unfold bindM at 1. unfold AsymmetricRatchet.find_or_push_step at 1. rewrite Hstep.
  unfold bindM at 1. unfold lift at 1. rewrite Hc. cbn [req].
  unfold bindM at 1. unfold AsymmetricRatchet.read_step at 1. rewrite Hheap. cbn [req].
  destruct (truthy (DHRatchetStepEnhanced.ratchetKeyId st)) eqn:Htruthy.
  - unfold bindM at 1. unfold AsymmetricRatchet.consumeSkippedMessageKey at 1.
    unfold DHRatchetStepStackEnhanced.consumeSkippedMessageKey. rewrite (Hskip eq_refl).
    rewrite Hchain.
    unfold bindM at 1. unfold ret at 1.
    destruct (decrypt_tail_spec
                (AsymmetricRatchet.set_steps_heap (AsymmetricRatchet.steps b)
                   (AsymmetricRatchet.heap b) b)
                protocol m c r st chain now stamp Hheap Hchain)
      as (b' & st' & Heq & Hsame & Hrest).
    exists b', st'. split; [exact Heq|]. split; [exact Hsame|exact Hrest].
  - unfold bindM at 1. unfold ret at 1. rewrite Hchain.
    unfold bindM at 1. unfold ret at 1.
    destruct (decrypt_tail_spec b protocol m c r st chain now stamp Hheap Hchain)
      as (b' & st' & Heq & Hsame & Hrest).
    exists b', st'. split; [exact Heq|]. split; [exact Hsame|exact Hrest].
Qed.

(** ** A decrypt that fails *)

Lemma derive_total {E : Engine} {L : EngineLaws E} (cipherKey : bytes) :
  exists keys, MessageKeys.derive cipherKey = Ok keys.
Proof.
  unfold MessageKeys.derive, Secret.HKDF.
  pose proof (hkdf_blocks cipherKey 3 (default (repeat x00 32) None) INFO_MESSAGE_KEYS) as Hlen.
  destruct (hkdf_sha256 cipherKey 3 (default (repeat x00 32) None) INFO_MESSAGE_KEYS)
    as [|k0 [|k1 [|k2 rest]]]; try discriminate.
  cbn. eauto.
Qed.

(** When [getKey] returns a key, the chain stands just past the requested
    counter, or where it stood if it was already further; the key of the
    requested counter is not cached afterwards. *)
Lemma getKey_ok_state {E : Engine} (this : ReceivingRatchet.t) (target now : Z)
    (stamp : Z -> Z) (key : bytes) (this' : ReceivingRatchet.t) :
  cache_below_counter this ->
  ReceivingRatchet.getKey target now stamp this = (Ok key, this') ->
  ReceivingRatchet.counter this' = Z.max (ReceivingRatchet.counter this) (target + 1)
  /\ ReceivingRatchet.rootKey this'
     = chainKey (ReceivingRatchet.rootKey this)
         (Z.to_nat (ReceivingRatchet.counter this' - ReceivingRatchet.counter this))
  /\ ReceivingRatchet.messageKeys this' !! target = None
  /\ cache_below_counter this'
  /\ this' <> this.
Proof.
  intros Hwf Hget.
  assert (Hclean : forall c,
             is_Some (ReceivingRatchet.messageKeys
                        (ReceivingRatchet.cleanupExpiredKeys now this) !! c) ->
             c < ReceivingRatchet.counter this).
  { intros c Hc. apply Hwf. rewrite cleanup_messageKeys in Hc. by case_decide; [destruct Hc|]. }
  destruct (cleanup_counter now this) as [Hcnt Hroot].
  destruct (getKey_cases target now stamp this)
    as [(k & Hk & Heq)|[(Hk & Hold & Heq)|(Hk & Hnew & this1 & Heq & Hc1 & Hr1 & Hk1 & Ht1)]];
    rewrite Heq in Hget; simplify_eq.
  - assert (Hlt : target < ReceivingRatchet.counter this) by (apply Hclean; eauto).
    cbn. rewrite Hcnt, Hroot. split; [lia|]. split; [by rewrite Z.sub_diag|].
    split; [by rewrite lookup_delete_eq|]. split.
    + intros c Hc. cbn in Hc |- *. rewrite Hcnt. apply Hclean.
      destruct (decide (target = c)) as [->|Hne];
        [by rewrite lookup_delete_eq in Hc; destruct Hc|by rewrite lookup_delete_ne in Hc].
    + intros Heq'.
      assert (Hsome : is_Some (ReceivingRatchet.messageKeys this !! target)).
      { rewrite cleanup_messageKeys in Hk. case_decide; [done|eauto]. }
      rewrite <- Heq' in Hsome. cbn in Hsome. rewrite lookup_delete_eq in Hsome.
      by destruct Hsome.
  - destruct (enforce_fields this1) as (Hec & Her & Hek & _).
    rewrite Hec, Her, Hc1, Hr1. split; [lia|]. split; [f_equal; lia|].
    split.
    { eapply lookup_weaken_None; [|exact Hek]. rewrite Hk1. by rewrite decide_False by lia. }
    split.
    + intros c [v Hv]. rewrite Hec, Hc1.
      eapply lookup_weaken in Hv; [|exact Hek]. rewrite Hk1 in Hv.
      case_decide; [lia|]. assert (c < ReceivingRatchet.counter this); [|lia].
      apply Hclean. eauto.
    + intros Heq'. rewrite Heq' in Hec. lia.
Qed.

Lemma getKey_replay {E : Engine} (this : ReceivingRatchet.t) (target now : Z)
    (stamp : Z -> Z) :
  ReceivingRatchet.messageKeys this !! target = None ->
  target < ReceivingRatchet.counter this ->
  fst (ReceivingRatchet.getKey target now stamp this) = Err CounterTooOld.
Proof.
  intros Hnone Hlt.
  assert (Hc : ReceivingRatchet.messageKeys
                 (ReceivingRatchet.cleanupExpiredKeys now this) !! target = None).
  { rewrite cleanup_messageKeys. by case_decide. }
  destruct (getKey_cases target now stamp this)
    as [(k & Hk & Heq)|[(Hk & Hold & Heq)|(Hk & Hnew & _)]]; [congruence| |lia].
  by rewrite Heq.
Qed.

(** A session holds a receiving chain for the sender's ratchet key and no
    skipped key for the message; a [MessageSigned] arrives for a counter the
    chain can still serve, with a ciphertext that fails the AEAD tag
    verification.  Then [decrypt] raises [DecryptFailed], and the receiving
    chain has been advanced up to the failure point and not past it. *)
Lemma tag_failure_on_known_chain {E : Engine} {L : EngineLaws E}
    (b : AsymmetricRatchet.t) (protocol : MessageSignedProtocol.t) (m : MessageProtocol.t)
    (rk : ECPublicKey) (c : Z) (ct : bytes) (r : ref) (st : DHRatchetStepEnhanced.t)
    (chain : ReceivingRatchet.t) (now : Z) (stamp : Z -> Z) :
  MessageSignedProtocol.message protocol = Some m ->
  MessageProtocol.senderRatchetKey m = Some rk ->
  MessageProtocol.counter m = Some c ->
  MessageProtocol.cipherText m = Some ct ->
  AsymmetricRatchet.lt_number (MessageProtocol.previousCounter m)
    (AsymmetricRatchet.counter b
     - DHRatchetStepStackEnhanced.maxSize (AsymmetricRatchet.steps b)) = false ->
  DHRatchetStepStackEnhanced.getStep (AsymmetricRatchet.steps b) rk = Some r ->
  AsymmetricRatchet.heap b !! r = Some st ->
  DHRatchetStepEnhanced.receivingChain st = Some chain ->
  truthy (DHRatchetStepEnhanced.ratchetKeyId st) = true ->
  JsObject.get (DHRatchetStepStackEnhanced.globalSkippedKeys (AsymmetricRatchet.steps b))
    (DHRatchetStepStackEnhanced.compositeKey
       (default "" (DHRatchetStepEnhanced.ratchetKeyId st)) c) = None ->
  cache_below_counter chain ->
  (is_Some (ReceivingRatchet.messageKeys (ReceivingRatchet.cleanupExpiredKeys now chain) !! c)
   \/ ReceivingRatchet.counter chain <= c) ->
  (forall cipherKey keys,
     fst (ReceivingRatchet.getKey c now stamp chain) = Ok cipherKey ->
     MessageKeys.derive cipherKey = Ok keys ->
     aes_gcm_decrypt (MessageKeys.aesKey keys) (MessageKeys.iv keys)
       (AsymmetricRatchet.header_aad m) ct = None) ->
  exists b' chain',
    AsymmetricRatchet.decrypt protocol now stamp b = (Err DecryptFailed, b')
    /\ Scenario.receivingChainOf b' rk = Some chain'
    /\ chain' <> chain
    /\ ReceivingRatchet.counter chain' = Z.max (ReceivingRatchet.counter chain) (c + 1)
    /\ ReceivingRatchet.rootKey chain'
       = chainKey (ReceivingRatchet.rootKey chain)
           (Z.to_nat (ReceivingRatchet.counter chain' - ReceivingRatchet.counter chain))
    /\ ReceivingRatchet.messageKeys chain' !! c = None
    /\ forall now' stamp',
         fst (ReceivingRatchet.getKey c now' stamp' chain') = Err CounterTooOld.
Proof.
  intros Hm Hrk Hc Hct Hwin Hstep Hheap Hchain Htruthy Hskip Hwf Hserve Haead.
  destruct (decrypt_known_step b protocol m rk c r st chain now stamp
              Hm Hrk Hc Hwin Hstep Hheap Hchain (fun _ => Hskip))
    as (b' & st' & Heq & Hsame & Hheap' & Hchain' & _).
  assert (Hget : exists key chain1,
             ReceivingRatchet.getKey c now stamp chain = (Ok key, chain1)).
  { destruct (getKey_cases c now stamp chain)
      as [(k & Hk & Hg)|[(Hk & Hold & Hg)|(Hk & Hnew & this1 & Hg & _)]]; eauto.
    destruct Hserve as [[? Hs]|Hs]; [congruence|lia]. }
  destruct Hget as (key & chain1 & Hget).
  destruct (derive_total key) as (keys & Hkeys).
  assert (Hdec : ReceivingRatchet.decrypt (MessageProtocol.cipherText m) c
                   (Some (AsymmetricRatchet.header_aad m)) now stamp chain
                 = (Err DecryptFailed, chain1)).
  { unfold ReceivingRatchet.decrypt, bindM, lift, Secret.decrypt.
    rewrite Hget, Hkeys, Hct. cbn [req default from_option id].
    rewrite (Haead key keys); [done| |done]. by rewrite Hget. }
  rewrite Hdec in Heq, Hchain'. cbn [fst snd decrypt_outcome] in Heq, Hchain'.
  destruct (getKey_ok_state chain c now stamp key chain1 Hwf Hget)
    as (Hcnt & Hroot & Hnone & Hwf1 & Hne).
  exists b', chain1. split; [done|]. split.
  { unfold Scenario.receivingChainOf. destruct Hsame as (-> & _).
    rewrite Hstep. cbn. rewrite Hheap'. cbn. done. }
  repeat split; try done.
  intros now' stamp'. apply getKey_replay; [done|lia].
Qed.

(** ** Objects with string keys *)

Lemma JsObject_get_set_eq {V} (o : JsObject.t V) (key : string) (v : V) :
  JsObject.get (JsObject.set key v o) key = Some v.
Proof.
  unfold JsObject.get. induction o as [|[k x] o IH]; simpl.
  - by rewrite String.eqb_refl.
  - destruct (String.eqb_spec k key) as [->|Hne]; simpl.
    + by rewrite String.eqb_refl.
    + destruct (String.eqb_spec k key); [done|]. apply IH.
Qed.

Lemma JsObject_get_set_ne {V} (o : JsObject.t V) (key key' : string) (v : V) :
  key' <> key -> JsObject.get (JsObject.set key v o) key' = JsObject.get o key'.
Proof.
  intros Hne. unfold JsObject.get. induction o as [|[k x] o IH]; simpl.
  - destruct (String.eqb_spec key key'); [congruence|done].
  - destruct (String.eqb_spec k key) as [->|Hk]; simpl.
    + destruct (String.eqb_spec key key'); [congruence|done].
    + destruct (String.eqb_spec k key'); [done|]. apply IH.
Qed.

Lemma JsObject_get_delete_eq {V} (o : JsObject.t V) (key : string) :
  JsObject.get (JsObject.delete key o) key = None.
Proof.
  unfold JsObject.get, JsObject.delete. induction o as [|[k x] o IH]; simpl; [done|].
  destruct (String.eqb_spec k key) as [->|Hk]; simpl; [done|].
  destruct (String.eqb_spec k key); [done|]. apply IH.
Qed.

Lemma JsObject_get_delete_ne {V} (o : JsObject.t V) (key key' : string) :
  key' <> key -> JsObject.get (JsObject.delete key o) key' = JsObject.get o key'.
Proof.
  intros Hne. unfold JsObject.get, JsObject.delete. induction o as [|[k x] o IH]; simpl; [done|].
  destruct (String.eqb_spec k key) as [->|Hk]; simpl.
  - destruct (String.eqb_spec key key'); [congruence|]. apply IH.
  - destruct (String.eqb_spec k key'); [done|]. apply IH.
Qed.

Lemma JsObject_set_length {V} (o : JsObject.t V) (key : string) (v : V) :
  (length (JsObject.set key v o) <= S (length o))%nat.
Proof.
  induction o as [|[k x] o IH]; simpl; [lia|].
  destruct (String.eqb k key); simpl; lia.
Qed.

Lemma JsObject_delete_length {V} (o : JsObject.t V) (key : string) :
  key ∈ JsObject.keys o -> (length (JsObject.delete key o) < length o)%nat.
Proof.
  unfold JsObject.keys, JsObject.delete. induction o as [|[k x] o IH]; simpl.
  - intros H. by apply elem_of_nil in H.
  - intros H. apply elem_of_cons in H. destruct (String.eqb_spec k key) as [->|Hk]; simpl.
    + pose proof (List.filter_length_le (fun e : string * V => negb (fst e =? key)%string) o).
      lia.
    + destruct H as [->|H]; [done|]. specialize (IH H). lia.
Qed.

Lemma oldestKey_elem (o : JsObject.t ISkippedMessageKey) (k : string) (ts : Z) :
  DHRatchetStepStackEnhanced.oldestKey o = Some (k, ts) -> k ∈ JsObject.keys o.
Proof.
  unfold JsObject.keys. revert k ts. induction o as [|[k' v] o IH]; intros k ts; simpl; [done|].
  destruct (DHRatchetStepStackEnhanced.oldestKey o) as [[k2 ts2]|] eqn:Ho.
  - destruct (ts2 <? sk_timestamp v); intros [= <- <-].
    + apply elem_of_cons. right. by eapply IH.
    + apply elem_of_cons. by left.
  - intros [= <- <-]. apply elem_of_cons. by left.
Qed.

Lemma oldestKey_nonempty (o : JsObject.t ISkippedMessageKey) :
  o <> [] -> is_Some (DHRatchetStepStackEnhanced.oldestKey o).
Proof.
  destruct o as [|[k v] o]; [done|]. intros _. simpl.
  destruct (DHRatchetStepStackEnhanced.oldestKey o) as [[k2 ts2]|]; [|by eexists].
  destruct (ts2 <? sk_timestamp v); by eexists.
Qed.

(** ** A decrypt that raises [DecryptFailed] *)




















(** A session that held no chain for the sender's ratchet key: Alice at the
    start of Bob's epoch.  Bob's message 0 arrives with a byte of its
    ciphertext flipped: [decrypt] raises [DecryptFailed]; the step of
    Bob's ratchet key has been pushed, the root key has been replaced, the
    new receiving chain stands at counter 1, and the genuine message 0 is
    then refused as too old. *)
Example failed_decrypt_new_ratchet_key :
  match Epoch.bob_messages 2, Epoch.alice_session with
  | Some [m0; m1], Some a =>
      let E := Toy.engine in
      let '(r1, a1) := AsymmetricRatchet.decrypt (tamper m0) 0 (fun _ => 0) a in
      let '(r2, a2) := AsymmetricRatchet.decrypt m0 0 (fun _ => 0) a1 in
      Scenario.receivingChainOf a (publicKey Fixtures.bob_ephemeral) = None
      /\ r1 = Err DecryptFailed
      /\ length (AsymmetricRatchet.heap a1) = S (length (AsymmetricRatchet.heap a))
      /\ AsymmetricRatchet.rootKey a1 <> AsymmetricRatchet.rootKey a
      /\ ReceivingRatchet.counter
           <$> Scenario.receivingChainOf a1 (publicKey Fixtures.bob_ephemeral) = Some 1
      /\ r2 = Err CounterTooOld
  | _, _ => False
  end.
Proof. vm_compute. repeat split. discriminate. Qed.


Example tag_failure_on_known_chain_example :
  exists b' chain',
    AsymmetricRatchet.decrypt (E := Toy.engine) Tampered.message 0 (fun _ => 0)
      Tampered.session = (Err DecryptFailed, b')
    /\ Scenario.receivingChainOf b' (publicKey Fixtures.bob_ephemeral) = Some chain'
    /\ chain' <> Tampered.chain
    /\ ReceivingRatchet.counter chain'
       = Z.max (ReceivingRatchet.counter Tampered.chain) (1 + 1)
    /\ ReceivingRatchet.rootKey chain'
       = chainKey (E := Toy.engine) (ReceivingRatchet.rootKey Tampered.chain)
           (Z.to_nat (ReceivingRatchet.counter chain'
                      - ReceivingRatchet.counter Tampered.chain))
    /\ ReceivingRatchet.messageKeys chain' !! 1 = None
    /\ forall now' stamp',
         fst (ReceivingRatchet.getKey (E := Toy.engine) 1 now' stamp' chain')
         = Err CounterTooOld.
Proof.
  apply (tag_failure_on_known_chain (E := Toy.engine) (L := toy_laws)
           Tampered.session Tampered.message Tampered.inner
           (publicKey Fixtures.bob_ephemeral) 1 Tampered.cipher Tampered.stepRef
           Tampered.step Tampered.chain 0 (fun _ => 0)).
  - reflexivity.
  - vm_compute. reflexivity.
  - reflexivity.
  - reflexivity.
  - vm_compute. reflexivity.
  - vm_compute. reflexivity.
  - reflexivity.
  - reflexivity.
  - reflexivity.
  - vm_compute. reflexivity.
  - intros c [v Hv].
    change (ReceivingRatchet.messageKeys Tampered.chain) with (∅ : gmap Z bytes) in Hv.
    rewrite lookup_empty in Hv. discriminate Hv.
  - right. vm_compute. discriminate.
  - intros cipherKey keys Hkey Hkeys.
    vm_compute in Hkey. injection Hkey as <-.
    vm_compute in Hkeys. injection Hkeys as <-.
    vm_compute. reflexivity.
Qed.

(** ** A receiving chain within one epoch *)

Lemma nextCounter_cons (c : Z) (delivered : list Z) :
  nextCounter (c :: delivered) = Z.max (c + 1) (nextCounter delivered).
Proof. reflexivity. Qed.

Lemma nextCounter_nonneg (delivered : list Z) : 0 <= nextCounter delivered.
Proof. induction delivered as [|c l IH]; simpl; lia. Qed.

Lemma nextCounter_elem (delivered : list Z) (c : Z) :
  c ∈ delivered -> c < nextCounter delivered.
Proof.
  induction delivered as [|d l IH]; simpl; [by intros ?%elem_of_nil|].
  intros [->|Hin]%elem_of_cons; [lia|]. specialize (IH Hin). lia.
Qed.

Lemma nextCounter_bound (delivered : list Z) (n : Z) :
  0 <= n -> (forall c, c ∈ delivered -> c < n) -> nextCounter delivered <= n.
Proof.
  intros Hn. induction delivered as [|d l IH]; simpl; intros Hall; [lia|].
  assert (d < n) by (apply Hall; set_solver).
  assert (nextCounter l <= n) by (apply IH; intros; apply Hall; set_solver). lia.
Qed.

Lemma chainKey_add {E : Engine} (ck : bytes) (a b : nat) :
  chainKey (chainKey ck a) b = chainKey ck (a + b).
Proof. revert ck. induction a as [|a IH]; intros ck; simpl; [done|apply IH]. Qed.

Lemma messageKey_add {E : Engine} (ck : bytes) (a b : nat) :
  messageKey (chainKey ck a) b = messageKey ck (a + b).
Proof. unfold messageKey. by rewrite chainKey_add. Qed.

(** A table whose keys lie in [0, n) has at most [n] entries. *)
Lemma size_keys_below {A} (m : gmap Z A) (n : Z) :
  0 <= n -> (forall c, is_Some (m !! c) -> 0 <= c < n) -> Z.of_nat (size m) <= n.
Proof.
  intros Hn Hkeys.
  assert (Hsub : dom m ⊆ (list_to_set (seqZ 0 n) : gset Z)).
  { intros c Hc. apply elem_of_dom in Hc. apply elem_of_list_to_set, elem_of_seqZ.
    specialize (Hkeys c Hc). lia. }
  apply subseteq_size in Hsub. rewrite size_dom in Hsub.
  rewrite size_list_to_set in Hsub by apply NoDup_seqZ.
  rewrite length_seqZ in Hsub. lia.
Qed.

Lemma chain_serves_new {E : Engine} (ck : bytes) (t0 : Z) :
  chain_serves ck t0 [] (ReceivingRatchet.new ck).
Proof.
  unfold chain_serves. cbn. repeat split; try done.
  intros c. rewrite lookup_empty. by rewrite decide_False by lia.
Qed.

(** Within the limits of the cache (counters up to 2000, all times within
    one hour), a chain serves every counter it has not served yet, with
    the key of that counter. *)
Lemma chain_serves_step {E : Engine} (ck : bytes) (t0 : Z) (delivered : list Z)
    (chain : ReceivingRatchet.t) (c now : Z) (stamp : Z -> Z) :
  chain_serves ck t0 delivered chain ->
  0 <= c <= ReceivingRatchet.MAX_CACHED_KEYS ->
  (forall d, d ∈ delivered -> d <= ReceivingRatchet.MAX_CACHED_KEYS) ->
  c ∉ delivered ->
  now <= t0 + ReceivingRatchet.MAX_CACHED_KEY_AGE ->
  (forall x, t0 <= stamp x) ->
  exists chain',
    ReceivingRatchet.getKey c now stamp chain = (Ok (messageKey ck (Z.to_nat c)), chain')
    /\ chain_serves ck t0 (c :: delivered) chain'.
Proof.
  intros (Hcnt & Hroot & Hkeys & Htimes) Hc Hdel Hnew Hnow Hstamp.
  assert (Hclean : ReceivingRatchet.cleanupExpiredKeys now chain = chain).
  { apply cleanup_nothing_expired. intros x t Hx. specialize (Htimes x t Hx). lia. }
  pose proof (nextCounter_nonneg delivered) as Hpos.
  destruct (getKey_cases c now stamp chain)
    as [(k & Hk & Heq)|[(Hk & Hold & Heq)|(Hk & Hnext & this1 & Heq & Hc1 & Hr1 & Hk1 & Ht1)]];
    rewrite Hclean in *.
  - rewrite Hkeys in Hk. case_decide as Hin; [|done]. simplify_eq.
    eexists. split; [exact Heq|]. unfold chain_serves. rewrite nextCounter_cons.
    cbn -[nextCounter].
    assert (Hmax : Z.max (c + 1) (nextCounter delivered) = ReceivingRatchet.counter chain)
      by lia.
    rewrite Hmax. split; [done|]. split; [done|]. split.
    + intros x. destruct (decide (c = x)) as [->|Hne].
      * rewrite lookup_delete_eq. rewrite decide_False; [done|]. set_solver.
      * rewrite lookup_delete_ne by done. rewrite Hkeys.
        destruct (decide (0 <= x < ReceivingRatchet.counter chain /\ x ∉ delivered)) as [Hx|Hx].
        -- rewrite decide_True; [done|]. set_solver.
        -- rewrite decide_False; [done|]. set_solver.
    + intros x t Hx. apply (Htimes x t).
      destruct (decide (c = x)) as [->|Hne];
        [by rewrite lookup_delete_eq in Hx|by rewrite lookup_delete_ne in Hx].
  - rewrite Hkeys in Hk. rewrite decide_True in Hk; [done|]. split; [lia|done].
  - assert (Hsize : cacheSize this1 <= ReceivingRatchet.MAX_CACHED_KEYS).
    { unfold cacheSize. etrans; [|exact (proj2 Hc)]. apply size_keys_below; [lia|].
      intros x [v Hx]. rewrite Hk1 in Hx. case_decide; [lia|].
      rewrite Hkeys in Hx. case_decide; [lia|done]. }
    rewrite (enforce_within_bound this1 Hsize) in Heq.
    exists this1. split.
    { rewrite Heq. f_equal. f_equal. rewrite Hroot, messageKey_add. f_equal. lia. }
    unfold chain_serves. rewrite nextCounter_cons, Hc1. split; [lia|]. split.
    { rewrite Hr1, Hroot, chainKey_add. f_equal. lia. }
    split.
    + intros x. rewrite Hk1.
      destruct (decide (ReceivingRatchet.counter chain <= x < c)) as [Hx|Hx].
      * rewrite decide_True.
        -- rewrite Hroot, messageKey_add. do 2 f_equal. lia.
        -- split; [lia|]. intros [->|Hin]%elem_of_cons; [lia|].
           apply nextCounter_elem in Hin. lia.
      * rewrite Hkeys.
        destruct (decide (0 <= x < ReceivingRatchet.counter chain /\ x ∉ delivered)) as [Hy|Hy].
        -- rewrite decide_True; [done|]. split; [lia|].
           intros [->|Hin]%elem_of_cons; [lia|]. by destruct Hy.
        -- rewrite decide_False; [done|]. intros [Hr Hn]. apply Hy. split.
           ++ destruct (decide (x = c)) as [->|?]; [exfalso; apply Hn; set_solver|lia].
           ++ set_solver.
    + intros x t. rewrite Ht1. case_decide; [intros [= <-]; apply Hstamp|apply Htimes].
Qed.

(** A counter that was served is refused from then on. *)
Lemma chain_serves_replay {E : Engine} (ck : bytes) (t0 : Z) (delivered : list Z)
    (chain : ReceivingRatchet.t) (c now : Z) (stamp : Z -> Z) :
  chain_serves ck t0 delivered chain ->
  c ∈ delivered ->
  ReceivingRatchet.getKey c now stamp chain
  = (Err CounterTooOld, ReceivingRatchet.cleanupExpiredKeys now chain).
Proof.
  intros (Hcnt & Hroot & Hkeys & Htimes) Hin.
  assert (Hnone : ReceivingRatchet.messageKeys
                    (ReceivingRatchet.cleanupExpiredKeys now chain) !! c = None).
  { rewrite cleanup_messageKeys. case_decide; [done|]. rewrite Hkeys.
    rewrite decide_False; [done|]. by intros [_ ?]. }
  apply nextCounter_elem in Hin.
  destruct (getKey_cases c now stamp chain)
    as [(k & Hk & Heq)|[(Hk & Hold & Heq)|(Hk & Hnext & _)]]; [congruence|done|lia].
Qed.

(** ** What one encrypt does to a session *)

Lemma encrypt_with_chain {E : Engine} (message : bytes) (fresh : IECKeyPair)
    (a : AsymmetricRatchet.t) (cur : DHRatchetStepEnhanced.t) (chain : SendingRatchet.t) :
  AsymmetricRatchet.heap a !! AsymmetricRatchet.currentStep a = Some cur ->
  DHRatchetStepEnhanced.sendingChain cur = Some chain ->
  AsymmetricRatchet.encrypt message fresh a = encrypt_tail message a.
Proof.
  intros Hcur Hchain. unfold AsymmetricRatchet.encrypt.
  unfold bindM at 1. unfold get at 1.
  unfold bindM at 1. unfold AsymmetricRatchet.read_step at 1. rewrite Hcur. cbn [req].
  rewrite Hchain.
  assert (Hnop : (match DHRatchetStepEnhanced.receivingChain cur with
                  | Some _ => ret ()
                  | None => ret ()
                  end : M AsymmetricRatchet.t unit) = ret ()) by (by case_match).
  rewrite Hnop. reflexivity.
Qed.

Lemma chainKey_S {E : Engine} (ck : bytes) (k : nat) :
  chainKey ck (S k) = snd (SymmetricRatchet.calculateKey (chainKey ck k)).
Proof.
  replace (S k) with (k + 1)%nat by lia. by rewrite <- chainKey_add.
Qed.

Lemma sending_encrypt_spec {E : Engine} (ck : bytes) (k : nat) (p : bytes)
    (aad : option bytes) :
  SendingRatchet.encrypt p aad
    {| SendingRatchet.counter := Z.of_nat k; SendingRatchet.rootKey := chainKey ck k |}
  = (match MessageKeys.derive (messageKey ck k) with
     | Ok keys =>
         Ok {| cm_cipherText :=
                 Secret.encrypt (MessageKeys.aesKey keys) p (MessageKeys.iv keys) aad;
               cm_hmacKey := MessageKeys.hmacKey keys |}
     | Err e => Err e
     end,
     {| SendingRatchet.counter := Z.of_nat (S k);
        SendingRatchet.rootKey := chainKey ck (S k) |}).
Proof.
  unfold SendingRatchet.encrypt, SendingRatchet.click, bindM, lift, ret.
  cbn [SendingRatchet.rootKey SendingRatchet.counter].
  rewrite chainKey_S. unfold messageKey.
  destruct (SymmetricRatchet.calculateKey (chainKey ck k)) as [cipher root'].
  cbn [fst snd]. replace (Z.of_nat k + 1) with (Z.of_nat (S k)) by lia.
  by destruct (MessageKeys.derive cipher).
Qed.

(** An encrypt in the middle of an epoch seals the plaintext under the
    keys of the next counter and moves the sending chain by one. *)
Lemma encrypt_tail_spec {E : Engine} (ck : bytes) (ks : IECKeyPair) (pc : Z)
    (identity : Identity.t) (remoteIdentity : RemoteIdentity.t) (k : nat)
    (a a' : AsymmetricRatchet.t) (p : bytes)
    (m : PreKeyMessageProtocol.t + MessageSignedProtocol.t) :
  sender_at ck ks pc identity remoteIdentity k a ->
  encrypt_tail p a = (Ok m, a') ->
  exists sm rkey,
    Scenario.signedMessageOf m = Ok sm
    /\ RemoteIdentity.signingKey remoteIdentity = Some rkey
    /\ sealed_message ck (publicKey ks) pc (serialized rkey)
         (serialized (publicKey (Identity.signingKey identity))) k p sm
    /\ sender_at ck ks pc identity remoteIdentity (S k) a'.
Proof.
  intros (cur & Hcur & Hchain & Hks & Hpc & Hid & Hrid) Henc.
  assert (Hlt : (AsymmetricRatchet.currentStep a < length (AsymmetricRatchet.heap a))%nat)
    by (by eapply lookup_lt_Some).
  unfold encrypt_tail in Henc.
  unfold bindM at 1 in Henc. unfold get at 1 in Henc.
  unfold bindM at 1 in Henc. unfold AsymmetricRatchet.read_step at 1 in Henc.
  rewrite Hcur in Henc. cbn [req] in Henc.
  unfold bindM at 1 in Henc. unfold lift at 1 in Henc. rewrite Hchain in Henc.
  cbn [req SendingRatchet.counter] in Henc.
  rewrite sending_encrypt_spec in Henc.
  unfold bindM at 1 in Henc. unfold AsymmetricRatchet.write_step at 1 in Henc.
  unfold bindM at 1 in Henc. unfold lift at 1 in Henc.
  destruct (MessageKeys.derive (messageKey ck k)) as [keys|e] eqn:Hkeys; [|discriminate].
  cbn [cm_cipherText cm_hmacKey SendingRatchet.counter] in Henc.
  unfold bindM at 1 in Henc.
  match type of Henc with
  | context [(if ?c then ?x else ?y) ?s] =>
      destruct ((if c then x else y) s) as [[pkm|e] s1] eqn:Hpkm; [|discriminate]
  end.
  assert (Hs1 : s1 = AsymmetricRatchet.set_heap
                       (<[AsymmetricRatchet.currentStep a :=
                            DHRatchetStepEnhanced.set_sendingChain
                              (Some {| SendingRatchet.counter := Z.of_nat (S k);
                                       SendingRatchet.rootKey := chainKey ck (S k) |}) cur]>
                          (AsymmetricRatchet.heap a)) a).
  { match type of Hpkm with (if ?c then _ else _) _ = _ => destruct c end.
    - unfold bindM, lift, ret in Hpkm.
      destruct (IdentityProtocol.fill IdentityProtocol.empty (AsymmetricRatchet.identity a));
        by inversion Hpkm.
    - unfold ret in Hpkm. by inversion Hpkm. }
  clear Hpkm. subst s1.
  unfold bindM at 1 in Henc. unfold lift at 1 in Henc.
  unfold MessageSignedProtocol.sign, MessageSignedProtocol.signHMAC,
    MessageSignedProtocol.getSignedRaw in Henc.
  cbn [MessageSignedProtocol.receiverKey MessageSignedProtocol.senderKey
       MessageSignedProtocol.message req bind] in Henc.
  rewrite Hrid in Henc.
  destruct (RemoteIdentity.signingKey remoteIdentity) as [rkey|] eqn:Hrkey;
    [|discriminate].
  cbn [req bind] in Henc.
  match type of Henc with
  | context [MessageProtocol.exportProto ?msg] =>
      destruct (MessageProtocol.exportProto msg) as [raw|e] eqn:Hraw; [|discriminate]
  end.
  cbn [bind] in Henc.
  match type of Henc with
  | context [MessageSignedProtocol.set_signature ?sig ?body] =>
      exists (MessageSignedProtocol.set_signature sig body), rkey
  end.
  split.
  { destruct pkm; injection Henc as <- _; reflexivity. }
  split; [done|]. split.
  - eexists keys, _, raw. rewrite Hks, Hpc, Hid in *.
    cbn [MessageSignedProtocol.set_signature MessageSignedProtocol.message
         MessageSignedProtocol.signature MessageProtocol.senderRatchetKey
         MessageProtocol.counter MessageProtocol.previousCounter MessageProtocol.cipherText].
    repeat split; done.
  - assert (a' = AsymmetricRatchet.set_heap
                   (<[AsymmetricRatchet.currentStep a :=
                        DHRatchetStepEnhanced.set_sendingChain
                          (Some {| SendingRatchet.counter := Z.of_nat (S k);
                                   SendingRatchet.rootKey := chainKey ck (S k) |}) cur]>
                      (AsymmetricRatchet.heap a)) a) as ->
      by (destruct pkm; by injection Henc as _ <-).
    eexists. cbn. split; [by apply list_lookup_insert_eq|]. done.
Qed.

(** The encrypt that opens an epoch derives the chain key of the epoch
    from the root key and the Diffie-Hellman output, and goes on as an
    encrypt in the middle of the epoch. *)
Lemma encrypt_opens_epoch {E : Engine} (a a' : AsymmetricRatchet.t)
    (cur : DHRatchetStepEnhanced.t) (remote : ECPublicKey) (fresh : IECKeyPair)
    (p : bytes) (m : PreKeyMessageProtocol.t + MessageSignedProtocol.t) :
  AsymmetricRatchet.heap a !! AsymmetricRatchet.currentStep a = Some cur ->
  DHRatchetStepEnhanced.sendingChain cur = None ->
  DHRatchetStepEnhanced.remoteRatchetKey cur = Some remote ->
  AsymmetricRatchet.encrypt p fresh a = (Ok m, a') ->
  exists d k0 ck a1,
    Curve.deriveBytes (privateKey (epoch_ratchetKey a cur fresh)) remote = Ok d
    /\ Secret.HKDF d 2 (Some (AsymmetricRatchet.rootKey a)) INFO_RATCHET !! 0%nat = Some k0
    /\ Secret.HKDF d 2 (Some (AsymmetricRatchet.rootKey a)) INFO_RATCHET !! 1%nat = Some ck
    /\ sender_at ck (epoch_ratchetKey a cur fresh) (epoch_counter a cur)
         (AsymmetricRatchet.identity a) (AsymmetricRatchet.remoteIdentity a) 0 a1
    /\ encrypt_tail p a1 = (Ok m, a').
Proof.
  intros Hcur Hchain Hremote Henc.
  assert (Hlt : (AsymmetricRatchet.currentStep a < length (AsymmetricRatchet.heap a))%nat)
    by (by eapply lookup_lt_Some).
  unfold AsymmetricRatchet.encrypt in Henc.
  unfold bindM at 1 in Henc. unfold get at 1 in Henc.
  unfold bindM at 1 in Henc. unfold AsymmetricRatchet.read_step at 1 in Henc.
  rewrite Hcur in Henc. cbn [req] in Henc.
  rewrite Hchain, Hremote in Henc.
  unfold epoch_ratchetKey, epoch_counter.
  destruct (DHRatchetStepEnhanced.receivingChain cur) as [rc|] eqn:Hrc.
  - unfold bindM at 1 in Henc. unfold put at 1 in Henc.
    unfold bindM at 1 in Henc. unfold bindM at 1 in Henc. unfold get at 1 in Henc.
    unfold bindM at 1 in Henc. unfold AsymmetricRatchet.createChain at 1 in Henc.
    unfold bindM at 1 in Henc. unfold lift at 1 in Henc.
    cbn [AsymmetricRatchet.currentRatchetKey AsymmetricRatchet.set_currentRatchetKey]
      in Henc.
    destruct (Curve.deriveBytes (privateKey fresh) remote) as [d|e] eqn:Hd; [|discriminate].
    unfold bindM at 1 in Henc. unfold get at 1 in Henc.
    unfold bindM at 1 in Henc. unfold lift at 1 in Henc.
    cbn [AsymmetricRatchet.rootKey AsymmetricRatchet.set_currentRatchetKey
         AsymmetricRatchet.set_counter] in Henc.
    destruct (Secret.HKDF d 2 (Some (AsymmetricRatchet.rootKey a)) INFO_RATCHET !! 0%nat)
      as [k0|] eqn:Hk0; [|discriminate].
    cbn [req] in Henc.
    unfold bindM at 1 in Henc. unfold lift at 1 in Henc.
    destruct (Secret.HKDF d 2 (Some (AsymmetricRatchet.rootKey a)) INFO_RATCHET !! 1%nat)
      as [ck|] eqn:Hk1; [|discriminate].
    cbn [req] in Henc.
    unfold bindM at 1 in Henc. unfold put at 1 in Henc. unfold ret at 1 in Henc.
    unfold AsymmetricRatchet.write_step at 1 in Henc.
    eexists d, k0, ck, _. split; [done|]. split; [done|]. split; [done|].
    split; [|exact Henc].
    exists (DHRatchetStepEnhanced.set_sendingChain (Some (SendingRatchet.new ck)) cur).
    cbn. split; [by apply list_lookup_insert_eq|]. done.
  - unfold bindM at 1 in Henc. unfold ret at 1 in Henc.
    unfold bindM at 1 in Henc. unfold bindM at 1 in Henc. unfold get at 1 in Henc.
    unfold bindM at 1 in Henc. unfold AsymmetricRatchet.createChain at 1 in Henc.
    unfold bindM at 1 in Henc. unfold lift at 1 in Henc.
    destruct (Curve.deriveBytes (privateKey (AsymmetricRatchet.currentRatchetKey a)) remote)
      as [d|e] eqn:Hd; [|discriminate].
    unfold bindM at 1 in Henc. unfold get at 1 in Henc.
    unfold bindM at 1 in Henc. unfold lift at 1 in Henc.
    destruct (Secret.HKDF d 2 (Some (AsymmetricRatchet.rootKey a)) INFO_RATCHET !! 0%nat)
      as [k0|] eqn:Hk0; [|discriminate].
    cbn [req] in Henc.
    unfold bindM at 1 in Henc. unfold lift at 1 in Henc.
    destruct (Secret.HKDF d 2 (Some (AsymmetricRatchet.rootKey a)) INFO_RATCHET !! 1%nat)
      as [ck|] eqn:Hk1; [|discriminate].
    cbn [req] in Henc.
    unfold bindM at 1 in Henc. unfold put at 1 in Henc. unfold ret at 1 in Henc.
    unfold AsymmetricRatchet.write_step at 1 in Henc.
    eexists d, k0, ck, _. split; [done|]. split; [done|]. split; [done|].
    split; [|exact Henc].
    exists (DHRatchetStepEnhanced.set_sendingChain (Some (SendingRatchet.new ck)) cur).
    cbn. split; [by apply list_lookup_insert_eq|]. done.
Qed.

(** ** The receiver within one epoch *)

Lemma decrypt_outcome_ext {E : Engine} (b b' : AsymmetricRatchet.t)
    (protocol : MessageSignedProtocol.t) (res : result ICipherMessage) :
  AsymmetricRatchet.identity b' = AsymmetricRatchet.identity b ->
  AsymmetricRatchet.remoteIdentity b' = AsymmetricRatchet.remoteIdentity b ->
  decrypt_outcome b' protocol res = decrypt_outcome b protocol res.
Proof.
  intros Hid Hrid. unfold decrypt_outcome, AsymmetricRatchet.verify_message.
  by rewrite Hid, Hrid.
Qed.

(** The step that [decrypt] pushes for a ratchet key it has not seen. *)
Lemma find_or_push_new {E : Engine} (b : AsymmetricRatchet.t) (rk : ECPublicKey) :
  DHRatchetStepStackEnhanced.getStep (AsymmetricRatchet.steps b) rk = None ->
  1 <= DHRatchetStepStackEnhanced.maxSize (AsymmetricRatchet.steps b) ->
  DHRatchetStepStackEnhanced.length (AsymmetricRatchet.steps b)
  <= DHRatchetStepStackEnhanced.maxSize (AsymmetricRatchet.steps b) ->
  exists b1,
    AsymmetricRatchet.find_or_push_step rk b = (Ok (length (AsymmetricRatchet.heap b)), b1)
    /\ DHRatchetStepStackEnhanced.getStep (AsymmetricRatchet.steps b1) rk
       = Some (length (AsymmetricRatchet.heap b))
    /\ AsymmetricRatchet.heap b1 !! length (AsymmetricRatchet.heap b)
       = Some (DHRatchetStepEnhanced.set_ratchetKeyId (Some (pk_id rk))
                 (DHRatchetStepEnhanced.set_remoteRatchetKey (Some rk)
                    DHRatchetStepEnhanced.new))
    /\ DHRatchetStepStackEnhanced.globalSkippedKeys (AsymmetricRatchet.steps b1)
       = DHRatchetStepStackEnhanced.globalSkippedKeys (AsymmetricRatchet.steps b)
    /\ DHRatchetStepStackEnhanced.maxSize (AsymmetricRatchet.steps b1)
       = DHRatchetStepStackEnhanced.maxSize (AsymmetricRatchet.steps b)
    /\ AsymmetricRatchet.counter b1 = AsymmetricRatchet.counter b
    /\ AsymmetricRatchet.identity b1 = AsymmetricRatchet.identity b
    /\ AsymmetricRatchet.remoteIdentity b1 = AsymmetricRatchet.remoteIdentity b
    /\ AsymmetricRatchet.rootKey b1 = AsymmetricRatchet.rootKey b
    /\ AsymmetricRatchet.currentRatchetKey b1 = AsymmetricRatchet.currentRatchetKey b.
Proof.
  intros Hnone Hmax Hlen.
  unfold AsymmetricRatchet.find_or_push_step. rewrite Hnone.
  set (it := DHRatchetStepEnhanced.set_ratchetKeyId (Some (pk_id rk))
               (DHRatchetStepEnhanced.set_remoteRatchetKey (Some rk)
                  DHRatchetStepEnhanced.new)).
  set (r := length (AsymmetricRatchet.heap b)).
  pose proof (Stack_push_length r (AsymmetricRatchet.steps b) Hmax Hlen) as Hpush.
  unfold DHRatchetStepStackEnhanced.push.
  set (pushed := DHRatchetStepStackEnhanced.Stack_push r (AsymmetricRatchet.steps b)) in *.
  assert (Hg : DHRatchetStepStackEnhanced.globalSkippedKeys pushed
               = DHRatchetStepStackEnhanced.globalSkippedKeys (AsymmetricRatchet.steps b)).
  { subst pushed. unfold DHRatchetStepStackEnhanced.Stack_push. by case_match. }
  assert (Hm : DHRatchetStepStackEnhanced.maxSize pushed
               = DHRatchetStepStackEnhanced.maxSize (AsymmetricRatchet.steps b)).
  { subst pushed. unfold DHRatchetStepStackEnhanced.Stack_push. by case_match. }
  assert (Hit : (AsymmetricRatchet.heap b ++ [it]) !! r = Some it).
  { subst r. by rewrite list_lookup_middle. }
  rewrite Hit. cbn [DHRatchetStepEnhanced.ratchetKeyId it DHRatchetStepEnhanced.set_ratchetKeyId
                    DHRatchetStepEnhanced.remoteRatchetKey
                    DHRatchetStepEnhanced.set_remoteRatchetKey DHRatchetStepEnhanced.new].
  assert (Hins : <[r := it]> (AsymmetricRatchet.heap b ++ [it]) !! r = Some it).
  { apply list_lookup_insert_eq. subst r. rewrite length_app. simpl. lia. }
  assert (Hnot : forall x,
             (DHRatchetStepStackEnhanced.maxSize pushed
              <? DHRatchetStepStackEnhanced.length
                   (DHRatchetStepStackEnhanced.set_ratchetKeyLookup x pushed)) = false).
  { intros x. apply Z.ltb_ge.
    change (DHRatchetStepStackEnhanced.length
              (DHRatchetStepStackEnhanced.set_ratchetKeyLookup x pushed))
      with (DHRatchetStepStackEnhanced.length pushed). lia. }
  destruct (truthy (Some (pk_id rk)));
    cbn [DHRatchetStepStackEnhanced.maxSize DHRatchetStepStackEnhanced.set_ratchetKeyLookup];
    rewrite Hnot; eexists; (split; [reflexivity|]);
    unfold DHRatchetStepStackEnhanced.getStep; cbn;
    rewrite lookup_insert_eq; repeat split; done.
Qed.

(** The first message of an epoch that reaches the receiver: [decrypt]
    pushes a step for the sender's ratchet key, derives the receiving chain
    from the root key and the Diffie-Hellman output, and hands the message
    to that chain. *)
Lemma decrypt_new_step {E : Engine} (b : AsymmetricRatchet.t)
    (protocol : MessageSignedProtocol.t) (m : MessageProtocol.t) (rk : ECPublicKey)
    (c : Z) (d k0 ck : bytes) (now : Z) (stamp : Z -> Z) :
  MessageSignedProtocol.message protocol = Some m ->
  MessageProtocol.senderRatchetKey m = Some rk ->
  MessageProtocol.counter m = Some c ->
  AsymmetricRatchet.lt_number (MessageProtocol.previousCounter m)
    (AsymmetricRatchet.counter b
     - DHRatchetStepStackEnhanced.maxSize (AsymmetricRatchet.steps b)) = false ->
  DHRatchetStepStackEnhanced.getStep (AsymmetricRatchet.steps b) rk = None ->
  1 <= DHRatchetStepStackEnhanced.maxSize (AsymmetricRatchet.steps b) ->
  DHRatchetStepStackEnhanced.length (AsymmetricRatchet.steps b)
  <= DHRatchetStepStackEnhanced.maxSize (AsymmetricRatchet.steps b) ->
  JsObject.get (DHRatchetStepStackEnhanced.globalSkippedKeys (AsymmetricRatchet.steps b))
    (DHRatchetStepStackEnhanced.compositeKey (pk_id rk) c) = None ->
  Curve.deriveBytes (privateKey (AsymmetricRatchet.currentRatchetKey b)) rk = Ok d ->
  Secret.HKDF d 2 (Some (AsymmetricRatchet.rootKey b)) INFO_RATCHET !! 0%nat = Some k0 ->
  Secret.HKDF d 2 (Some (AsymmetricRatchet.rootKey b)) INFO_RATCHET !! 1%nat = Some ck ->
  let outcome :=
    ReceivingRatchet.decrypt (MessageProtocol.cipherText m) c
      (Some (AsymmetricRatchet.header_aad m)) now stamp (ReceivingRatchet.new ck) in
  exists b' r st',
    AsymmetricRatchet.decrypt protocol now stamp b
    = (decrypt_outcome b protocol (fst outcome), b')
    /\ DHRatchetStepStackEnhanced.getStep (AsymmetricRatchet.steps b') rk = Some r
    /\ AsymmetricRatchet.heap b' !! r = Some st'
    /\ DHRatchetStepEnhanced.receivingChain st' = Some (snd outcome)
    /\ DHRatchetStepEnhanced.ratchetKeyId st' = Some (pk_id rk)
    /\ DHRatchetStepStackEnhanced.globalSkippedKeys (AsymmetricRatchet.steps b')
       = DHRatchetStepStackEnhanced.globalSkippedKeys (AsymmetricRatchet.steps b)
    /\ DHRatchetStepStackEnhanced.maxSize (AsymmetricRatchet.steps b')
       = DHRatchetStepStackEnhanced.maxSize (AsymmetricRatchet.steps b)
    /\ AsymmetricRatchet.counter b' = AsymmetricRatchet.counter b
    /\ AsymmetricRatchet.identity b' = AsymmetricRatchet.identity b
    /\ AsymmetricRatchet.remoteIdentity b' = AsymmetricRatchet.remoteIdentity b.
Proof.
  intros Hm Hrk Hc Hwin Hnone Hmax Hlen Hskip Hd Hk0 Hk1 outcome.
  destruct (find_or_push_new b rk Hnone Hmax Hlen)
    as (b1 & Hpush & Hstep1 & Hheap1 & Hg1 & Hm1 & Hc1 & Hid1 & Hrid1 & Hroot1 & Hcur1).
  set (r := length (AsymmetricRatchet.heap b)) in *.
  assert (Hlt : (r < length (AsymmetricRatchet.heap b1))%nat) by (by eapply lookup_lt_Some).
  unfold AsymmetricRatchet.decrypt.
  unfold bindM at 1. unfold lift at 1. rewrite Hm. cbn [req].
  unfold bindM at 1. unfold get at 1. rewrite Hwin.
  unfold bindM at 1. unfold lift at 1. rewrite Hrk. cbn [req].
  unfold bindM at 1. rewrite Hpush.
  unfold bindM at 1. unfold lift at 1. rewrite Hc. cbn [req].
  unfold bindM at 1. unfold AsymmetricRatchet.read_step at 1. rewrite Hheap1. cbn [req].
  cbn [DHRatchetStepEnhanced.ratchetKeyId DHRatchetStepEnhanced.set_ratchetKeyId
       DHRatchetStepEnhanced.receivingChain DHRatchetStepEnhanced.set_remoteRatchetKey
       DHRatchetStepEnhanced.new default from_option id].
  set (it := DHRatchetStepEnhanced.set_ratchetKeyId (Some (pk_id rk))
               (DHRatchetStepEnhanced.set_remoteRatchetKey (Some rk)
                  DHRatchetStepEnhanced.new)) in *.
  set (st := DHRatchetStepEnhanced.set_receivingChain (Some (ReceivingRatchet.new ck)) it).
  set (b2 := AsymmetricRatchet.set_heap (<[r := st]> (AsymmetricRatchet.heap b1))
               (AsymmetricRatchet.set_rootKey (Secret.importHMAC k0) b1)).
  assert (Hheap2 : AsymmetricRatchet.heap b2 !! r = Some st)
    by (by apply list_lookup_insert_eq).
  destruct (decrypt_tail_spec b2 protocol m c r st (ReceivingRatchet.new ck) now stamp
              Hheap2 eq_refl)
    as (b' & st' & Heq & Hsame & Hheap' & Hchain' & Hkid' & _).
  assert (Htail : forall s : AsymmetricRatchet.t,
             AsymmetricRatchet.steps s = AsymmetricRatchet.steps b1 ->
             AsymmetricRatchet.heap s = AsymmetricRatchet.heap b1 ->
             AsymmetricRatchet.rootKey s = AsymmetricRatchet.rootKey b1 ->
             AsymmetricRatchet.currentRatchetKey s = AsymmetricRatchet.currentRatchetKey b1 ->
             AsymmetricRatchet.set_heap (<[r := st]> (AsymmetricRatchet.heap s))
               (AsymmetricRatchet.set_rootKey (Secret.importHMAC k0) s) = b2 ->
             (let! _ :=
                (let! this := get in
                 let! chainKey :=
                   AsymmetricRatchet.createChain
                     (privateKey (AsymmetricRatchet.currentRatchetKey this)) rk in
                 AsymmetricRatchet.write_step r
                   (DHRatchetStepEnhanced.set_receivingChain
                      (Some (ReceivingRatchet.new chainKey)) it)) in
              decrypt_tail r m protocol c now stamp) s
             = (decrypt_outcome b protocol (fst outcome), b')).
  { intros s Hs1 Hs2 Hs3 Hs4 Hs5.
    unfold bindM at 1. unfold bindM at 1. unfold get at 1.
    unfold bindM at 1. unfold AsymmetricRatchet.createChain.
    unfold bindM at 1. unfold lift at 1. rewrite Hs4, Hcur1, Hd.
    unfold bindM at 1. unfold get at 1.
    unfold bindM at 1. unfold lift at 1. rewrite Hs3, Hroot1, Hk0. cbn [req].
    unfold bindM at 1. unfold lift at 1. rewrite Hk1. cbn [req].
    unfold bindM at 1. unfold put at 1. unfold ret at 1.
    unfold AsymmetricRatchet.write_step at 1.
    cbn [AsymmetricRatchet.heap AsymmetricRatchet.set_rootKey].
    change (Secret.importHMAC ck) with ck. fold st. rewrite Hs5, Heq. f_equal.
    apply decrypt_outcome_ext; subst b2; cbn; congruence. }
  exists b', r, st'.
  destruct Hsame as (Hsteps & Hcnt & Hid & Hrid & _).
  split.
  { destruct (truthy (Some (pk_id rk))).
    - unfold bindM at 1. unfold AsymmetricRatchet.consumeSkippedMessageKey at 1.
      unfold DHRatchetStepStackEnhanced.consumeSkippedMessageKey.
      rewrite Hg1, Hskip.
      by apply Htail.
    - unfold bindM at 1. unfold ret at 1. by apply Htail. }
  rewrite Hsteps, Hcnt, Hid, Hrid. subst b2. cbn.
  repeat split; done.
Qed.

(** The receiving chain opens a sealed message of a counter it has not
    served. *)
Lemma receiving_decrypt_sealed {E : Engine} {L : EngineLaws E} (ck : bytes) (t0 : Z)
    (delivered : list Z) (chain : ReceivingRatchet.t) (c : nat) (pc : Z) (p : bytes)
    (keys : MessageKeys.t) (now : Z) (stamp : Z -> Z) :
  chain_serves ck t0 delivered chain ->
  MessageKeys.derive (messageKey ck c) = Ok keys ->
  Z.of_nat c <= ReceivingRatchet.MAX_CACHED_KEYS ->
  (forall d, d ∈ delivered -> d <= ReceivingRatchet.MAX_CACHED_KEYS) ->
  Z.of_nat c ∉ delivered ->
  now <= t0 + ReceivingRatchet.MAX_CACHED_KEY_AGE ->
  (forall x, t0 <= stamp x) ->
  exists chain',
    ReceivingRatchet.decrypt
      (Some (Secret.encrypt (MessageKeys.aesKey keys) p (MessageKeys.iv keys)
               (Some (AsymmetricRatchet.createMinimalAAD (Z.of_nat c) pc))))
      (Z.of_nat c) (Some (AsymmetricRatchet.createMinimalAAD (Z.of_nat c) pc))
      now stamp chain
    = (Ok {| cm_cipherText := p; cm_hmacKey := MessageKeys.hmacKey keys |}, chain')
    /\ chain_serves ck t0 (Z.of_nat c :: delivered) chain'.
Proof.
  intros Hchain Hkeys Hc Hdel Hnew Hnow Hstamp.
  destruct (chain_serves_step ck t0 delivered chain (Z.of_nat c) now stamp Hchain)
    as (chain' & Hget & Hchain'); try done; [lia|].
  exists chain'. split; [|done].
  unfold ReceivingRatchet.decrypt, bindM, lift, ret. rewrite Hget, Nat2Z.id, Hkeys.
  cbn [req]. unfold Secret.decrypt, Secret.encrypt. cbn [default from_option id].
  by rewrite aes_gcm_correct.
Qed.

(** The MAC of a sealed message verifies at the receiver. *)
Lemma verify_sealed {E : Engine} (b : AsymmetricRatchet.t) (sm : MessageSignedProtocol.t)
    (m : MessageProtocol.t) (raw hmacKey : bytes) (sk : ECPublicKey) :
  MessageSignedProtocol.message sm = Some m ->
  MessageProtocol.exportProto m = Ok raw ->
  RemoteIdentity.signingKey (AsymmetricRatchet.remoteIdentity b) = Some sk ->
  MessageSignedProtocol.signature sm
  = Some (Secret.sign hmacKey
            (Buffer.combine
               [serialized (publicKey (Identity.signingKey (AsymmetricRatchet.identity b)));
                serialized sk; raw])) ->
  AsymmetricRatchet.verify_message b sm hmacKey = Ok true.
Proof.
  intros Hm Hraw Hsk Hsig.
  unfold AsymmetricRatchet.verify_message, MessageSignedProtocol.verify,
    MessageSignedProtocol.signHMAC, MessageSignedProtocol.getSignedRaw.
  cbn [MessageSignedProtocol.receiverKey MessageSignedProtocol.senderKey
       MessageSignedProtocol.message MessageSignedProtocol.signature req bind].
  rewrite Hsk, Hm. cbn [req bind]. rewrite Hraw. cbn [bind]. rewrite Hsig. cbn [req bind].
  by rewrite isEqual_refl.
Qed.

Lemma sealed_header {E : Engine} (m : MessageProtocol.t) (c pc : Z) :
  MessageProtocol.counter m = Some c ->
  MessageProtocol.previousCounter m = Some pc ->
  AsymmetricRatchet.header_aad m = AsymmetricRatchet.createMinimalAAD c pc.
Proof. intros Hc Hpc. unfold AsymmetricRatchet.header_aad. by rewrite Hc, Hpc. Qed.

(** Within the limits of the cache, a receiver in the epoch decrypts a
    sealed message whose counter it has not served, whatever came before,
    and returns the plaintext. *)
Lemma receiver_step {E : Engine} {L : EngineLaws E} (ck : bytes) (t0 : Z)
    (rk : ECPublicKey) (pc : Z) (identity : Identity.t)
    (remoteIdentity : RemoteIdentity.t) (delivered : list Z) (b : AsymmetricRatchet.t)
    (sk : ECPublicKey) (c : nat) (p : bytes) (sm : MessageSignedProtocol.t)
    (now : Z) (stamp : Z -> Z) :
  receiver_in_epoch ck t0 rk pc identity remoteIdentity delivered b ->
  RemoteIdentity.signingKey remoteIdentity = Some sk ->
  sealed_message ck rk pc (serialized (publicKey (Identity.signingKey identity)))
    (serialized sk) c p sm ->
  Z.of_nat c <= ReceivingRatchet.MAX_CACHED_KEYS ->
  (forall d, d ∈ delivered -> d <= ReceivingRatchet.MAX_CACHED_KEYS) ->
  Z.of_nat c ∉ delivered ->
  now <= t0 + ReceivingRatchet.MAX_CACHED_KEY_AGE ->
  (forall x, t0 <= stamp x) ->
  exists b',
    AsymmetricRatchet.decrypt sm now stamp b = (Ok p, b')
    /\ receiver_at ck t0 rk pc identity remoteIdentity (Z.of_nat c :: delivered) b'.
Proof.
  intros Hb Hsk (keys & m & raw & Hkeys & Hm & Hrk & Hc & Hpc & Hct & Hraw & Hsig)
    Hcmax Hdel Hnew Hnow Hstamp.
  pose proof (sealed_header m _ _ Hc Hpc) as Haad.
  assert (Hwin : forall b0 : AsymmetricRatchet.t,
             AsymmetricRatchet.counter b0
             - DHRatchetStepStackEnhanced.maxSize (AsymmetricRatchet.steps b0) <= pc ->
             AsymmetricRatchet.lt_number (MessageProtocol.previousCounter m)
               (AsymmetricRatchet.counter b0
                - DHRatchetStepStackEnhanced.maxSize (AsymmetricRatchet.steps b0)) = false).
  { intros b0 Hle. rewrite Hpc. cbn. by apply Z.ltb_ge. }
  assert (Hout : forall b0 chain chain',
             AsymmetricRatchet.identity b0 = identity ->
             AsymmetricRatchet.remoteIdentity b0 = remoteIdentity ->
             ReceivingRatchet.decrypt (MessageProtocol.cipherText m) (Z.of_nat c)
               (Some (AsymmetricRatchet.header_aad m)) now stamp chain
             = (Ok {| cm_cipherText := p; cm_hmacKey := MessageKeys.hmacKey keys |}, chain') ->
             decrypt_outcome b0 sm
               (fst (ReceivingRatchet.decrypt (MessageProtocol.cipherText m) (Z.of_nat c)
                       (Some (AsymmetricRatchet.header_aad m)) now stamp chain)) = Ok p).
  { intros b0 chain chain' Hid Hrid ->. cbn [fst decrypt_outcome cm_hmacKey cm_cipherText].
    rewrite (verify_sealed b0 sm m raw (MessageKeys.hmacKey keys) sk); try done.
    - by rewrite Hrid.
    - by rewrite Hid. }
  destruct Hb as [[-> (d & k0 & Hnone & Hmax & Hlen & Hskip & Hd & Hk0 & Hk1 & Hw & Hid & Hrid)]
                 |(r & st & chain & Hstep & Hheap & Hchain & Hserves & Hkid & Hskip & Hw
                   & Hid & Hrid)].
  - destruct (receiving_decrypt_sealed ck t0 [] (ReceivingRatchet.new ck) c pc p keys
                now stamp (chain_serves_new ck t0) Hkeys Hcmax Hdel Hnew Hnow Hstamp)
      as (chain' & Hdec & Hserves').
    rewrite <- Hct, <- Haad in Hdec.
    destruct (decrypt_new_step b sm m rk (Z.of_nat c) d k0 ck now stamp
                Hm Hrk Hc (Hwin b Hw) Hnone Hmax Hlen (Hskip _) Hd Hk0 Hk1)
      as (b' & r & st' & Heq & Hstep' & Hheap' & Hchain' & Hkid' & Hg' & Hm' & Hc' & Hid'
          & Hrid').
    cbv zeta in Heq, Hchain'.
    rewrite (Hout b _ chain' Hid Hrid Hdec) in Heq. rewrite Hdec in Hchain'.
    exists b'. split; [done|].
    exists r, st', chain'. rewrite Hg', Hm', Hc', Hid', Hrid'.
    repeat (split; [done|]). done.
  - destruct (receiving_decrypt_sealed ck t0 delivered chain c pc p keys
                now stamp Hserves Hkeys Hcmax Hdel Hnew Hnow Hstamp)
      as (chain' & Hdec & Hserves').
    rewrite <- Hct, <- Haad in Hdec.
    destruct (decrypt_known_step b sm m rk (Z.of_nat c) r st chain now stamp
                Hm Hrk Hc (Hwin b Hw) Hstep Hheap Hchain)
      as (b' & st' & Heq & Hsame & Hheap' & Hchain' & Hkid' & _).
    { intros _. rewrite Hkid. apply Hskip. }
    rewrite (Hout b _ chain' Hid Hrid Hdec) in Heq. rewrite Hdec in Hchain'.
    destruct Hsame as (Hsteps & Hcnt & Hid' & Hrid' & _).
    exists b'. split; [done|].
    exists r, st', chain'. rewrite Hsteps, Hcnt, Hid', Hrid', Hkid'.
    repeat (split; [done|]). done.
Qed.

(** A message whose counter the receiver has served is refused. *)
Lemma receiver_replay {E : Engine} (ck : bytes) (t0 : Z)
    (rk : ECPublicKey) (pc : Z) (identity : Identity.t)
    (remoteIdentity : RemoteIdentity.t) (delivered : list Z) (b : AsymmetricRatchet.t)
    (receiverKey senderKey : bytes) (c : nat) (p : bytes) (sm : MessageSignedProtocol.t)
    (now : Z) (stamp : Z -> Z) :
  receiver_at ck t0 rk pc identity remoteIdentity delivered b ->
  sealed_message ck rk pc receiverKey senderKey c p sm ->
  Z.of_nat c ∈ delivered ->
  fst (AsymmetricRatchet.decrypt sm now stamp b) = Err CounterTooOld.
Proof.
  intros (r & st & chain & Hstep & Hheap & Hchain & Hserves & Hkid & Hskip & Hw & Hid & Hrid)
    (keys & m & raw & Hkeys & Hm & Hrk & Hc & Hpc & Hct & Hraw & Hsig) Hin.
  destruct (decrypt_known_step b sm m rk (Z.of_nat c) r st chain now stamp
              Hm Hrk Hc) as (b' & st' & Heq & _); try done.
  { rewrite Hpc. cbn. by apply Z.ltb_ge. }
  { intros _. rewrite Hkid. apply Hskip. }
  rewrite Heq. cbn [fst].
  unfold ReceivingRatchet.decrypt, bindM.
  by rewrite (chain_serves_replay ck t0 delivered chain (Z.of_nat c) now stamp Hserves Hin).
Qed.

(** ** The messages of an epoch, delivered in any order *)

(** The messages a sender seals in the middle of an epoch. *)
Lemma encrypt_all_in_epoch {E : Engine} (ck : bytes) (ks : IECKeyPair) (pc : Z)
    (identity : Identity.t) (remoteIdentity : RemoteIdentity.t) (rkey : ECPublicKey)
    (fresh : IECKeyPair) (plaintexts : list bytes) :
  RemoteIdentity.signingKey remoteIdentity = Some rkey ->
  forall (k : nat) (a a' : AsymmetricRatchet.t) (messages : list MessageSignedProtocol.t),
    sender_at ck ks pc identity remoteIdentity k a ->
    Scenario.encrypt_all plaintexts fresh a = (Ok messages, a') ->
    forall i sm, messages !! i = Some sm ->
      exists p, plaintexts !! i = Some p
                /\ sealed_message ck (publicKey ks) pc (serialized rkey)
                     (serialized (publicKey (Identity.signingKey identity)))
                     (k + i) p sm.
Proof.
  intros Hrkey. induction plaintexts as [|p rest IH]; intros k a a' messages Ha Hall.
  - cbn in Hall. injection Hall as <- _. intros i sm Hi. by rewrite lookup_nil in Hi.
  - cbn [Scenario.encrypt_all] in Hall.
    destruct Ha as (cur & Hcur & Hchain & Hrest).
    unfold bindM at 1 in Hall.
    rewrite (encrypt_with_chain p fresh a cur _ Hcur Hchain) in Hall.
    destruct (encrypt_tail p a) as [[m|e] a1] eqn:Htail; [|discriminate].
    destruct (encrypt_tail_spec ck ks pc identity remoteIdentity k a a1 p m)
      as (sm0 & rkey' & Hsm0 & Hrkey' & Hsealed & Ha1); [by exists cur|done|].
    unfold bindM at 1 in Hall. unfold lift at 1 in Hall. rewrite Hsm0 in Hall.
    unfold bindM at 1 in Hall.
    destruct (Scenario.encrypt_all rest fresh a1) as [[sms|e] a2] eqn:Hrest'; [|discriminate].
    unfold ret in Hall. injection Hall as <- _.
    assert (rkey' = rkey) as -> by congruence.
    intros [|i] sm Hi; cbn in Hi.
    + injection Hi as <-. exists p. split; [done|]. by rewrite Nat.add_0_r.
    + destruct (IH (S k) a1 a2 sms Ha1 Hrest' i sm Hi) as (q & Hq & Hs).
      exists q. split; [done|]. by replace (k + S i)%nat with (S k + i)%nat by lia.
Qed.

(** The messages of an epoch, from the encrypt that opens it. *)
Lemma encrypt_all_epoch {E : Engine} (a a' : AsymmetricRatchet.t)
    (cur : DHRatchetStepEnhanced.t) (remote rkey : ECPublicKey) (fresh : IECKeyPair)
    (plaintexts : list bytes) (messages : list MessageSignedProtocol.t) :
  AsymmetricRatchet.heap a !! AsymmetricRatchet.currentStep a = Some cur ->
  DHRatchetStepEnhanced.sendingChain cur = None ->
  DHRatchetStepEnhanced.remoteRatchetKey cur = Some remote ->
  RemoteIdentity.signingKey (AsymmetricRatchet.remoteIdentity a) = Some rkey ->
  Scenario.encrypt_all plaintexts fresh a = (Ok messages, a') ->
  plaintexts <> [] ->
  exists d k0 ck,
    Curve.deriveBytes (privateKey (epoch_ratchetKey a cur fresh)) remote = Ok d
    /\ Secret.HKDF d 2 (Some (AsymmetricRatchet.rootKey a)) INFO_RATCHET !! 0%nat = Some k0
    /\ Secret.HKDF d 2 (Some (AsymmetricRatchet.rootKey a)) INFO_RATCHET !! 1%nat = Some ck
    /\ forall i sm, messages !! i = Some sm ->
         exists p, plaintexts !! i = Some p
                   /\ sealed_message ck (publicKey (epoch_ratchetKey a cur fresh))
                        (epoch_counter a cur) (serialized rkey)
                        (serialized (publicKey (Identity.signingKey
                                                  (AsymmetricRatchet.identity a))))
                        i p sm.
Proof.
  intros Hcur Hchain Hremote Hrkey Hall Hne.
  destruct plaintexts as [|p rest]; [done|]. cbn [Scenario.encrypt_all] in Hall.
  unfold bindM at 1 in Hall.
  destruct (AsymmetricRatchet.encrypt p fresh a) as [[m|e] a1] eqn:Henc; [|discriminate].
  destruct (encrypt_opens_epoch a a1 cur remote fresh p m Hcur Hchain Hremote Henc)
    as (d & k0 & ck & a0 & Hd & Hk0 & Hk1 & Ha0 & Htail).
  exists d, k0, ck. split; [done|]. split; [done|]. split; [done|].
  destruct (encrypt_tail_spec _ _ _ _ _ _ _ _ _ _ Ha0 Htail)
    as (sm0 & rkey' & Hsm0 & Hrkey' & Hsealed & Ha1).
  unfold bindM at 1 in Hall. unfold lift at 1 in Hall. rewrite Hsm0 in Hall.
  unfold bindM at 1 in Hall.
  destruct (Scenario.encrypt_all rest fresh a1) as [[sms|e] a2] eqn:Hrest; [|discriminate].
  unfold ret in Hall. injection Hall as <- _.
  assert (rkey' = rkey) as -> by congruence.
  intros [|i] sm Hi; cbn in Hi.
  - injection Hi as <-. by exists p.
  - destruct (encrypt_all_in_epoch _ _ _ _ _ rkey fresh rest Hrkey 1%nat a1 a2 sms Ha1 Hrest
                i sm Hi) as (q & Hq & Hs).
    by exists q.
Qed.

(** The receiver decrypts the deliveries one after the other. *)
Lemma deliver_in_epoch {E : Engine} {L : EngineLaws E} (ck : bytes) (t0 : Z)
    (rk : ECPublicKey) (pc : Z) (identity : Identity.t)
    (remoteIdentity : RemoteIdentity.t) (sk : ECPublicKey)
    (plaintexts : list bytes) (messages : list MessageSignedProtocol.t) :
  RemoteIdentity.signingKey remoteIdentity = Some sk ->
  Z.of_nat (length plaintexts) <= ReceivingRatchet.MAX_CACHED_KEYS + 1 ->
  (forall i sm, messages !! i = Some sm ->
     exists p, plaintexts !! i = Some p
               /\ sealed_message ck rk pc
                    (serialized (publicKey (Identity.signingKey identity)))
                    (serialized sk) i p sm) ->
  forall (deliveries : list Scenario.Delivery) (order : list nat),
    Forall2 (fun d i => messages !! i = Some (Scenario.d_message d)) deliveries order ->
    Forall (fun d => Scenario.d_now d <= t0 + ReceivingRatchet.MAX_CACHED_KEY_AGE
                     /\ forall c, t0 <= Scenario.d_stamp d c) deliveries ->
    NoDup order ->
    forall (delivered : list Z) (b : AsymmetricRatchet.t),
      receiver_in_epoch ck t0 rk pc identity remoteIdentity delivered b ->
      (forall c, c ∈ delivered -> c <= ReceivingRatchet.MAX_CACHED_KEYS) ->
      (forall i, i ∈ order -> Z.of_nat i ∉ delivered) ->
      exists results b',
        Scenario.decrypt_all deliveries b = (results, b')
        /\ Forall2 (fun r i => exists p, plaintexts !! i = Some p /\ r = Ok p) results order
        /\ receiver_in_epoch ck t0 rk pc identity remoteIdentity
             (rev (Z.of_nat <$> order) ++ delivered) b'.
Proof.
  intros Hsk Hlen Hsealed deliveries order Hmsgs.
  induction Hmsgs as [|d i deliveries order Hd Hmsgs IH];
    intros Htimes Hnd delivered b Hb Hmax Hnew.
  - exists [], b. cbn. by repeat split.
  - apply Forall_cons in Htimes as [[Hnow Hstamp] Htimes].
    apply NoDup_cons in Hnd as [Hi Hnd].
    destruct (Hsealed i _ Hd) as (p & Hp & Hs).
    assert (Hilt : (i < length plaintexts)%nat) by (by eapply lookup_lt_Some).
    destruct (receiver_step ck t0 rk pc identity remoteIdentity delivered b sk i p
                (Scenario.d_message d) (Scenario.d_now d) (Scenario.d_stamp d)
                Hb Hsk Hs) as (b1 & Hdec & Hb1); try done.
    { lia. }
    { apply Hnew. set_solver. }
    destruct (IH Htimes Hnd (Z.of_nat i :: delivered) b1) as (results & b' & Hall & Hres & Hb').
    { by right. }
    { intros c [->|Hc]%elem_of_cons; [lia|by apply Hmax]. }
    { intros j Hj [Heq|Hin]%elem_of_cons.
      - apply Nat2Z.inj in Heq. by subst.
      - eapply Hnew; [|done]. set_solver. }
    exists (Ok p :: results), b'. cbn [Scenario.decrypt_all]. rewrite Hdec, Hall.
    split; [done|]. split.
    + constructor; [by exists p|done].
    + rewrite fmap_cons. cbn [rev]. by rewrite <- app_assoc.
Qed.

Lemma deriveBytes_serialized {E : Engine} (priv : CryptoKey) (p1 p2 : ECPublicKey) :
  serialized p1 = serialized p2 -> Curve.deriveBytes priv p1 = Curve.deriveBytes priv p2.
Proof. intros Heq. unfold Curve.deriveBytes. by rewrite Heq. Qed.

(** C4 (as amended). A sender stands at the start of an epoch, in step
    with the receiver: the same root key, each holding the other's ratchet
    and identity keys; the receiver has not yet seen the ratchet key of the
    epoch, its step ring is in order and the epoch lies within its ratchet
    window.  The sender encrypts at most [MAX_CACHED_KEYS + 1] = 2001
    plaintexts.  The messages are delivered in any order, each at most
    once, any number of them, all within [MAX_CACHED_KEY_AGE] = 1 hour of
    the time [t0] from which the receiver caches keys.  Then every decrypt
    succeeds and returns the plaintext of its message, and afterwards a
    second decrypt of any message that was delivered fails, at any time,
    with [CounterTooOld]. *)
Theorem epoch_delivery_any_order {E : Engine} {L : EngineLaws E}
    (a a' b : AsymmetricRatchet.t) (cur : DHRatchetStepEnhanced.t)
    (remote : ECPublicKey) (fresh : IECKeyPair)
    (plaintexts : list bytes) (messages : list MessageSignedProtocol.t)
    (deliveries : list Scenario.Delivery) (order : list nat) (t0 : Z) :
  AsymmetricRatchet.heap a !! AsymmetricRatchet.currentStep a = Some cur ->
  DHRatchetStepEnhanced.sendingChain cur = None ->
  DHRatchetStepEnhanced.remoteRatchetKey cur = Some remote ->
  serialized remote = serialized (publicKey (AsymmetricRatchet.currentRatchetKey b)) ->
  AsymmetricRatchet.rootKey a = AsymmetricRatchet.rootKey b ->
  wf_x25519 (epoch_ratchetKey a cur fresh) ->
  wf_x25519 (AsymmetricRatchet.currentRatchetKey b) ->
  serialized <$> RemoteIdentity.signingKey (AsymmetricRatchet.remoteIdentity a)
  = Some (serialized (publicKey (Identity.signingKey (AsymmetricRatchet.identity b)))) ->
  serialized <$> RemoteIdentity.signingKey (AsymmetricRatchet.remoteIdentity b)
  = Some (serialized (publicKey (Identity.signingKey (AsymmetricRatchet.identity a)))) ->
  DHRatchetStepStackEnhanced.getStep (AsymmetricRatchet.steps b)
    (publicKey (epoch_ratchetKey a cur fresh)) = None ->
  1 <= DHRatchetStepStackEnhanced.maxSize (AsymmetricRatchet.steps b) ->
  DHRatchetStepStackEnhanced.length (AsymmetricRatchet.steps b)
  <= DHRatchetStepStackEnhanced.maxSize (AsymmetricRatchet.steps b) ->
  (forall c,
     JsObject.get (DHRatchetStepStackEnhanced.globalSkippedKeys (AsymmetricRatchet.steps b))
       (DHRatchetStepStackEnhanced.compositeKey
          (pk_id (publicKey (epoch_ratchetKey a cur fresh))) c) = None) ->
  AsymmetricRatchet.counter b
  - DHRatchetStepStackEnhanced.maxSize (AsymmetricRatchet.steps b) <= epoch_counter a cur ->
  Scenario.encrypt_all plaintexts fresh a = (Ok messages, a') ->
  Z.of_nat (length plaintexts) <= ReceivingRatchet.MAX_CACHED_KEYS + 1 ->
  NoDup order ->
  Forall2 (fun d i => messages !! i = Some (Scenario.d_message d)) deliveries order ->
  Forall (fun d => Scenario.d_now d <= t0 + ReceivingRatchet.MAX_CACHED_KEY_AGE
                   /\ forall c, t0 <= Scenario.d_stamp d c) deliveries ->
  exists results b',
    Scenario.decrypt_all deliveries b = (results, b')
    /\ Forall2 (fun r i => exists p, plaintexts !! i = Some p /\ r = Ok p) results order
    /\ forall d now stamp,
         d ∈ deliveries ->
         fst (AsymmetricRatchet.decrypt (Scenario.d_message d) now stamp b')
         = Err CounterTooOld.
Proof.
  intros Hcur Hchain Hremote Hser Hroot Hwfa Hwfb Hrida Hridb Hnone Hmax Hlen Hskip Hwin
    Hall Hn Hnd Hmsgs Htimes.
  destruct deliveries as [|d0 deliveries'] eqn:Hdel.
  { exists [], b. apply Forall2_nil_inv_l in Hmsgs as ->. cbn.
    split; [done|]. split; [done|]. intros d now stamp Hd. by apply elem_of_nil in Hd. }
  rewrite <- Hdel in *.
  assert (Hne : plaintexts <> []).
  { intros ->. cbn in Hall. injection Hall as <- _.
    rewrite Hdel in Hmsgs. inversion Hmsgs as [|? ? ? ? Hd0]; subst.
    by rewrite lookup_nil in Hd0. }
  destruct (RemoteIdentity.signingKey (AsymmetricRatchet.remoteIdentity a)) as [rkey|]
    eqn:Hrkey; [|discriminate].
  destruct (RemoteIdentity.signingKey (AsymmetricRatchet.remoteIdentity b)) as [sk|]
    eqn:Hsk; [|discriminate].
  cbn in Hrida, Hridb. injection Hrida as Hrida. injection Hridb as Hridb.
  destruct (encrypt_all_epoch a a' cur remote rkey fresh plaintexts messages
              Hcur Hchain Hremote Hrkey Hall Hne)
    as (dh & k0 & ck & Hd & Hk0 & Hk1 & Hsealed).
  set (ks := epoch_ratchetKey a cur fresh) in *.
  set (pc := epoch_counter a cur) in *.
  assert (Hopens : receiver_opens ck (publicKey ks) pc (AsymmetricRatchet.identity b)
                     (AsymmetricRatchet.remoteIdentity b) b).
  { exists dh, k0. rewrite <- Hroot.
    rewrite <- (deriveBytes_agree ks (AsymmetricRatchet.currentRatchetKey b) Hwfa Hwfb).
    rewrite <- (deriveBytes_serialized (privateKey ks) remote _ Hser).
    by repeat (split; [done|]). }
  destruct (deliver_in_epoch ck t0 (publicKey ks) pc (AsymmetricRatchet.identity b)
              (AsymmetricRatchet.remoteIdentity b) sk plaintexts messages Hsk Hn)
    with (deliveries := deliveries) (order := order) (delivered := @nil Z) (b := b)
    as (results & b' & Hrun & Hres & Hb'); try done.
  { intros i sm Hi. destruct (Hsealed i sm Hi) as (p & Hp & Hs).
    exists p. split; [done|]. by rewrite <- Hrida, Hridb. }
  { by left. }
  { intros c Hc. by apply elem_of_nil in Hc. }
  { intros i _ Hi. by apply elem_of_nil in Hi. }
  exists results, b'. split; [done|]. split; [done|].
  intros d now stamp Hin.
  rewrite app_nil_r in Hb'.
  apply list_elem_of_lookup in Hin as [j Hj].
  destruct (Forall2_lookup_l _ _ _ _ _ Hmsgs Hj) as (i & Hi & Hmsg).
  destruct (Hsealed i _ Hmsg) as (p & Hp & Hs).
  assert (Hdelivered : Z.of_nat i ∈ rev (Z.of_nat <$> order)).
  { apply list_elem_of_In, in_rev. rewrite rev_involutive. apply list_elem_of_In.
    apply list_elem_of_fmap. exists i. split; [done|]. by eapply list_elem_of_lookup_2. }
  destruct Hb' as [[Hnil _]|Hb'].
  { rewrite Hnil in Hdelivered. by apply elem_of_nil in Hdelivered. }
  by eapply receiver_replay.
Qed.

Lemma epoch_delivery_any_order_witness :
  exists results b',
    Scenario.decrypt_all (E := Toy.engine) Shuffled.deliveries Shuffled.alice
    = (results, b')
    /\ Forall2 (fun r i => exists p, Shuffled.plaintexts !! i = Some p /\ r = Ok p)
         results Shuffled.order
    /\ forall d now stamp,
         d ∈ Shuffled.deliveries ->
         fst (AsymmetricRatchet.decrypt (E := Toy.engine) (Scenario.d_message d) now stamp b')
         = Err CounterTooOld.
Proof.
  apply (epoch_delivery_any_order (E := Toy.engine) (L := toy_laws)
           Shuffled.bob (snd Shuffled.sent) Shuffled.alice Shuffled.cur Shuffled.remote
           Fixtures.bob_ephemeral Shuffled.plaintexts (fst Shuffled.sent)
           Shuffled.deliveries Shuffled.order 0).
  - reflexivity.
  - reflexivity.
  - reflexivity.
  - reflexivity.
  - reflexivity.
  - eexists. split; [reflexivity|]. split; reflexivity.
  - eexists. split; [reflexivity|]. split; reflexivity.
  - reflexivity.
  - reflexivity.
  - vm_compute. reflexivity.
  - vm_compute. discriminate.
  - vm_compute. discriminate.
  - intros c. reflexivity.
  - vm_compute. discriminate.
  - vm_compute. reflexivity.
  - vm_compute. discriminate.
  - apply (bool_decide_unpack (NoDup Shuffled.order)). vm_compute. exact I.
  - repeat constructor.
  - repeat constructor; vm_compute; discriminate.
Defined.

(** C4 (the claim as stated fails). Bob encrypts 2002 messages in one
    epoch; Alice receives the last one first, then the first one.  The first
    decrypt stores the keys of the 2001 counters it passes, one more than
    the receiving chain keeps, and the key of counter 0 is evicted: message
    0, a ciphertext that was never decrypted, is refused with
    [CounterTooOld], in whatever order the other messages follow. *)
Lemma delivery_order_can_fail :
  match Epoch.deliver 2002 [(2001%nat, 0); (0%nat, 0)] with
  | Some (results, _) => results = [Ok [x01]; Err CounterTooOld]
  | None => False
  end.
Proof. vm_compute. reflexivity. Qed.

(** The age of a cached key has the same effect: message 1 is delivered
    first, message 0 more than an hour later; its key has expired. *)
Lemma late_delivery_is_refused :
  match Epoch.deliver 2 [(1%nat, 0); (0%nat, 3600001)] with
  | Some (results, _) => results = [Ok [x01]; Err CounterTooOld]
  | None => False
  end.
Proof. vm_compute. reflexivity. Qed.

(** ** Little-endian 32-bit integers *)

Lemma byteZ_byte_of_Z (z : Z) : Buffer.byteZ (Serialization.byte_of_Z z) = Z.land z 255.
Proof.
  unfold Buffer.byteZ, Serialization.byte_of_Z.
  assert (Hr : 0 <= Z.land z 255 < 256).
  { change 255 with (Z.ones 8). rewrite Z.land_ones by lia. apply Z.mod_pos_bound. lia. }
  destruct (Byte.of_N (Z.to_N (Z.land z 255))) as [b|] eqn:Hb.
  - apply Byte.to_of_N in Hb. cbn. rewrite Hb. lia.
  - apply Byte.of_N_None_iff in Hb. lia.
Qed.

Lemma getUint32_setUint32 (v : Z) (rest : bytes) :
  uint32 v ->
  Serialization.getUint32_le (Serialization.setUint32_le v ++ rest) = v.
Proof.
  intros [Hlo Hhi]. unfold Serialization.setUint32_le, Serialization.getUint32_le.
  cbn [app]. rewrite !byteZ_byte_of_Z.
  change 255 with (Z.ones 8). rewrite !Z.land_ones by lia.
  rewrite !Z.shiftr_div_pow2, !Z.shiftl_mul_pow2 by lia.
  apply Z.bits_inj'. intros n Hn.
  rewrite !Z.lor_spec.
  rewrite !Z.mul_pow2_bits by lia.
  destruct (Z.lt_ge_cases n 8) as [H8|H8].
  { rewrite Z.mod_pow2_bits_low by lia.
    rewrite !(Z.testbit_neg_r _ (n - _)) by lia. by rewrite !orb_false_r. }
  rewrite Z.mod_pow2_bits_high by lia. cbn [orb].
  destruct (Z.lt_ge_cases n 16) as [H16|H16].
  { rewrite Z.mod_pow2_bits_low by lia. rewrite Z.div_pow2_bits by lia.
    rewrite !(Z.testbit_neg_r _ (n - _)) by lia. rewrite !orb_false_r. f_equal. lia. }
  rewrite (Z.mod_pow2_bits_high _ 8 (n - 8)) by lia. cbn [orb].
  destruct (Z.lt_ge_cases n 24) as [H24|H24].
  { rewrite Z.mod_pow2_bits_low by lia. rewrite Z.div_pow2_bits by lia.
    rewrite !(Z.testbit_neg_r _ (n - _)) by lia. rewrite !orb_false_r. f_equal. lia. }
  rewrite (Z.mod_pow2_bits_high _ 8 (n - 16)) by lia. cbn [orb].
  destruct (Z.lt_ge_cases n 32) as [H32|H32].
  { rewrite Z.mod_pow2_bits_low by lia. rewrite Z.div_pow2_bits by lia. f_equal. lia. }
  rewrite (Z.mod_pow2_bits_high _ 8 (n - 24)) by lia.
  symmetry. destruct (Z.eq_dec v 0) as [->|Hv]; [apply Z.bits_0|].
  apply Z.bits_above_log2; [lia|].
  assert (Z.log2 v < 32) by (apply Z.log2_lt_pow2; lia). lia.
Qed.

Lemma setUint32_length (v : Z) : length (Serialization.setUint32_le v) = 4%nat.
Proof. reflexivity. Qed.

(** ** exportProto and importProto in terms of fields *)

Lemma wire_record_cons (id : Z) (value : bytes) (fields : list (Z * bytes)) :
  wire_record ((id, value) :: fields) = wire_field id value ++ wire_record fields.
Proof. reflexivity. Qed.

(** [exportProto] writes the emitted fields in the wire format. *)
Lemma export_entries_emitted {T} (entries : Serialization.Metadata T) (this : T) :
  (let* chunks := Serialization.export_entries entries this in Ok (Buffer.combine chunks))
  = let* fields := emitted_fields entries this in Ok (wire_record fields).
Proof.
  induction entries as [|[key d] rest IH]; [done|].
  cbn [Serialization.export_entries emitted_fields].
  destruct (Serialization.pd_serialize d this) as [[v|e]|]; [|done|by case_match].
  destruct (Serialization.export_entries rest this) as [chunks|e];
    destruct (emitted_fields rest this) as [fields|e']; cbn [bind] in *; try congruence.
  injection IH as IH. f_equal. rewrite wire_record_cons. unfold wire_field, Buffer.combine in *.
  cbn [concat]. rewrite IH. by rewrite <- !app_assoc.
Qed.

Lemma exportProto_emitted {T} (metadata : Serialization.Metadata T) (this : T) :
  metadata <> [] ->
  Serialization.exportProto metadata this
  = let* fields := emitted_fields (Serialization.sort_by_id metadata) this in
    Ok (wire_record fields).
Proof.
  intros Hne. unfold Serialization.exportProto.
  destruct metadata; [done|]. cbn [length Nat.eqb]. apply export_entries_emitted.
Qed.

Lemma wire_record_length (fields : list (Z * bytes)) :
  (length fields <= length (wire_record fields))%nat.
Proof.
  induction fields as [|[id v] rest IH]; [done|].
  rewrite wire_record_cons, length_app. unfold wire_field.
  rewrite length_app, setUint32_length. cbn [length]. lia.
Qed.

(** The loop of [importProto] reads the fields of a record in the wire
    format one after the other; the bound of the loop is not reached. *)
Lemma import_loop_wire {T} (metadata : Serialization.Metadata T)
    (fields : list (Z * bytes)) :
  Forall (fun f => uint32 (fst f) /\ uint32 (blen (snd f))) fields ->
  forall (fuel : nat) (seenProperties : list string) (this : T),
    (length fields <= fuel)%nat ->
    Serialization.import_loop fuel metadata (wire_record fields) seenProperties this
    = assign_fields metadata fields seenProperties this.
Proof.
  induction 1 as [|[id v] rest [Hid Hv] Hrest IH]; intros fuel seen this Hfuel.
  - by destruct fuel.
  - destruct fuel as [|fuel]; [cbn in Hfuel; lia|].
    rewrite wire_record_cons. unfold wire_field. cbn [fst snd] in *.
    set (data := Serialization.setUint32_le id
                 ++ Serialization.setUint32_le (blen v) ++ v) in *.
    assert (Hdata : data ++ wire_record rest
                    = Serialization.setUint32_le id
                      ++ Serialization.setUint32_le (blen v) ++ v ++ wire_record rest).
    { subst data. by rewrite <- !app_assoc. }
    rewrite Hdata.
    assert (Hlen : blen (Serialization.setUint32_le id
                         ++ Serialization.setUint32_le (blen v) ++ v ++ wire_record rest)
                   = 8 + blen v + blen (wire_record rest)).
    { unfold blen. rewrite !length_app, !setUint32_length. lia. }
    assert (Hpos : 0 <= blen (wire_record rest)) by (unfold blen; lia).
    destruct Hv as [Hv0 Hv1].
    cbn [Serialization.import_loop].
    change (match Serialization.setUint32_le id
                  ++ Serialization.setUint32_le (blen v) ++ v ++ wire_record rest with
            | [] => Ok (this, seen)
            | _ :: _ => ?k
            end) with k.
    rewrite Hlen.
    destruct (Z.ltb_spec (8 + blen v + blen (wire_record rest)) 8) as [?|_]; [lia|].
    assert (Hid' : Serialization.getUint32_le
                     (take 4 (Serialization.setUint32_le id
                              ++ Serialization.setUint32_le (blen v) ++ v ++ wire_record rest))
                   = id).
    { rewrite take_app_length' by done.
      rewrite <- (app_nil_r (Serialization.setUint32_le id)).
      by apply getUint32_setUint32. }
    assert (Hlen' : Serialization.getUint32_le
                      (take 4 (drop 4 (Serialization.setUint32_le id
                                       ++ Serialization.setUint32_le (blen v)
                                       ++ v ++ wire_record rest)))
                    = blen v).
    { rewrite drop_app_length' by done. rewrite take_app_length' by done.
      rewrite <- (app_nil_r (Serialization.setUint32_le (blen v))).
      by apply getUint32_setUint32. }
    rewrite Hid', Hlen'.
    destruct (Z.ltb_spec (8 + blen v + blen (wire_record rest) - 8) (blen v)) as [?|_]; [lia|].
    assert (Hdrop : drop 8 (Serialization.setUint32_le id
                            ++ Serialization.setUint32_le (blen v) ++ v ++ wire_record rest)
                    = v ++ wire_record rest).
    { rewrite app_assoc. rewrite drop_app_length'; [done|].
      by rewrite length_app, !setUint32_length. }
    rewrite Hdrop.
    rewrite take_app_length' by (unfold blen; lia).
    rewrite drop_app_length' by (unfold blen; lia).
    cbn [assign_fields].
    destruct (Serialization.find_descriptor metadata id) as [[key d]|].
    + destruct (Serialization.pd_deserialize d v) as [assign|e]; [|done].
      apply IH. cbn in Hfuel. lia.
    + apply IH. cbn in Hfuel. lia.
Qed.

Lemma importProto_wire {T} (metadata : Serialization.Metadata T) (empty : T)
    (fields : list (Z * bytes)) :
  metadata <> [] ->
  Forall (fun f => uint32 (fst f) /\ uint32 (blen (snd f))) fields ->
  Serialization.importProto metadata empty (wire_record fields)
  = let* (this', seenProperties) := assign_fields metadata fields [] empty in
    Serialization.check_required metadata seenProperties this'.
Proof.
  intros Hne Hfields. unfold Serialization.importProto.
  destruct metadata; [done|]. cbn [length Nat.eqb].
  rewrite import_loop_wire; [done|done|].
  pose proof (wire_record_length fields). lia.
Qed.

(** ** The value codecs *)

Lemma uint32_codec (v : Z) :
  uint32 v ->
  Serialization.write Serialization.type_uint32 v = Ok (Serialization.setUint32_le v)
  /\ Serialization.read Serialization.type_uint32 (Serialization.setUint32_le v) = Ok v
  /\ uint32 (blen (Serialization.setUint32_le v)).
Proof.
  intros Hv. split; [done|]. split; [|by compute].
  cbn [Serialization.read Serialization.type_uint32]. unfold Serialization.deserializeUint32.
  change (blen (Serialization.setUint32_le v)) with 4. cbn [Z.eqb negb Pos.eqb].
  rewrite <- (app_nil_r (Serialization.setUint32_le v)). by rewrite getUint32_setUint32.
Qed.

Lemma key_codec {E : Engine} (type : CurveType) (k : ECPublicKey) :
  valid_key type k ->
  Converter.publicKey_get type (serialized k) = Ok k /\ uint32 (blen (serialized k)).
Proof.
  intros (Htype & Hid & Hlen).
  unfold Converter.publicKey_get, PublicKey.createFromBytes, blen. rewrite Hlen.
  cbn [Z.of_nat Z.eqb negb Pos.eqb Pos.of_succ_nat Pos.succ]. split; [|by compute].
  destruct k. cbn in *. by subst.
Qed.

Lemma date_codec {E : Engine} {L : EngineLaws E} (d : JsDate) :
  valid_date d ->
  exists raw,
    Serialization.write Converter.DateConverter d = Ok raw
    /\ Serialization.read Converter.DateConverter raw = Ok d
    /\ uint32 (blen raw).
Proof.
  destruct d as [ms|]; [|done]. intros [Hms Hlen].
  exists (utf8_encode (toISOString ms)). split; [done|]. split; [|done].
  cbn. by rewrite date_iso_roundtrip.
Qed.

Lemma carries_uint32 (v : Z) : uint32 v -> carries Serialization.type_uint32 v v.
Proof. intros Hv. exists (Serialization.setUint32_le v). by apply uint32_codec. Qed.

Lemma carries_bytes (b : bytes) : valid_bytes b -> carries Serialization.type_bytes b b.
Proof. intros Hb. by exists b. Qed.

Lemma carries_ArrayBuffer {E : Engine} (b : bytes) :
  valid_bytes b -> carries Converter.ArrayBufferConverter b b.
Proof. intros Hb. by exists b. Qed.

Lemma carries_X25519 {E : Engine} (k : ECPublicKey) :
  valid_key X25519 k -> carries Converter.ECDHPublicKeyConverter k k.
Proof.
  intros Hk. exists (serialized k). destruct (key_codec X25519 k Hk) as [Hget Hlen].
  split; [reflexivity|]. split; [exact Hget|exact Hlen].
Qed.

Lemma carries_Ed25519 {E : Engine} (k : ECPublicKey) :
  valid_key Ed25519 k -> carries Converter.ECDSAPublicKeyConverter k k.
Proof.
  intros Hk. exists (serialized k). destruct (key_codec Ed25519 k Hk) as [Hget Hlen].
  split; [reflexivity|]. split; [exact Hget|exact Hlen].
Qed.

Lemma carries_Date {E : Engine} {L : EngineLaws E} (d : JsDate) :
  valid_date d -> carries Converter.DateConverter d d.
Proof. apply date_codec. Qed.

Lemma carries_nested {T} (exportProto : T -> result bytes) (importProto : bytes -> result T)
    (x y : T) :
  round_trips exportProto importProto x y ->
  (forall raw, exportProto x = Ok raw -> uint32 (blen raw)) ->
  carries (Serialization.via_parser exportProto importProto) x y.
Proof.
  intros (fields & Hexp & _ & Himp) Hfits. exists (wire_record fields).
  cbn. rewrite Hexp. cbn. repeat split; try done; by apply Hfits.
Qed.

(** ** The records of the protocol *)

Ltac open_carries :=
  repeat match goal with
         | H : carries _ _ _ |- _ =>
             let raw := fresh "raw" in
             let Hw := fresh "Hw" in
             let Hr := fresh "Hr" in
             let Hl := fresh "Hl" in
             destruct H as (raw & Hw & Hr & Hl)
         end.

Ltac codec_eval :=
  repeat (cbn -[Serialization.write Serialization.read wire_record];
          repeat match goal with
                 | H : Serialization.write _ _ = _ |- _ => rewrite H
                 | H : Serialization.read _ _ = _ |- _ => rewrite H
                 end).

Ltac fields_in_range :=
  repeat (apply Forall_cons_2; [split; [by compute|done]|]); apply Forall_nil_2.

Ltac ids_sorted :=
  cbn [fmap list_fmap fst];
  repeat (apply SSorted_cons; [|repeat (apply Forall_cons_2; [lia|]); apply Forall_nil_2]);
  apply SSorted_nil.

Ltac to_carries :=
  repeat match goal with
         | H : nested _ _ _ |- _ =>
             let Hv := fresh "Hv" in
             let Hfits := fresh "Hfits" in
             destruct H as [Hv Hfits]
         | H : uint32 _ |- _ => apply carries_uint32 in H
         | H : valid_key X25519 _ |- _ => apply carries_X25519 in H
         | H : valid_key Ed25519 _ |- _ => apply carries_Ed25519 in H
         | H : valid_date _ |- _ => apply carries_Date in H
         | H : valid_bytes ?b |- _ =>
             pose proof (carries_bytes b H); apply carries_ArrayBuffer in H
         end.

Ltac solve_round_trip Hsorted Hmeta :=
  open_carries; eexists; (split; [|split]);
  [ rewrite exportProto_emitted by done; rewrite Hsorted; codec_eval; reflexivity
  | ids_sorted
  | (rewrite importProto_wire; [|done|fields_in_range]); rewrite Hmeta; codec_eval;
    reflexivity ].

Section Records.
Context {E : Engine} {L : EngineLaws E}.

Lemma Base_metadata :
  BaseProtocol.metadata
  = BaseProtocol.own BaseProtocol.version (fun v _ => {| BaseProtocol.version := Some v |}).
Proof. reflexivity. Qed.

Lemma Base_sorted :
  Serialization.sort_by_id BaseProtocol.metadata
  = BaseProtocol.own BaseProtocol.version (fun v _ => {| BaseProtocol.version := Some v |}).
Proof. reflexivity. Qed.

Lemma Base_round_trip (x : BaseProtocol.t) :
  valid_Base x -> round_trips BaseProtocol.exportProto BaseProtocol.importProto x x.
Proof.
  destruct x as [ver]. intros Hvalid.
  unfold valid_Base in Hvalid. cbn in Hvalid.
  rename Hvalid into Hver.
  unfold BaseProtocol.exportProto, BaseProtocol.importProto.
  destruct ver as [ver|]; cbn [optional required] in *; to_carries;
    solve_round_trip Base_sorted Base_metadata.
Qed.

Lemma Identity_metadata :
  IdentityProtocol.metadata
  = IdentityProtocol.own
    ++ BaseProtocol.own IdentityProtocol.version IdentityProtocol.set_version.
Proof. reflexivity. Qed.

Lemma Identity_sorted :
  Serialization.sort_by_id IdentityProtocol.metadata
  = BaseProtocol.own IdentityProtocol.version IdentityProtocol.set_version
    ++ IdentityProtocol.own.
Proof. reflexivity. Qed.

Lemma Identity_round_trip (x : IdentityProtocol.t) :
  valid_Identity x ->
  round_trips IdentityProtocol.exportProto IdentityProtocol.importProto x x.
Proof.
  destruct x as [ver sk ek sig at_]. intros Hvalid.
  unfold valid_Identity in Hvalid. cbn in Hvalid.
  destruct Hvalid as (Hver & Hsk & Hek & Hsig & Hat).
  unfold IdentityProtocol.exportProto, IdentityProtocol.importProto.
  destruct ver as [ver|], sk as [sk|], ek as [ek|], sig as [sig|], at_ as [at_|];
    cbn [optional required] in *; to_carries; solve_round_trip Identity_sorted Identity_metadata.
Qed.

Lemma PreKey_metadata :
  PreKeyProtocol.metadata
  = PreKeyProtocol.own PreKeyProtocol.id PreKeyProtocol.set_id
      PreKeyProtocol.key PreKeyProtocol.set_key
    ++ BaseProtocol.own PreKeyProtocol.version PreKeyProtocol.set_version.
Proof. reflexivity. Qed.

Lemma PreKey_sorted :
  Serialization.sort_by_id PreKeyProtocol.metadata
  = BaseProtocol.own PreKeyProtocol.version PreKeyProtocol.set_version
    ++ PreKeyProtocol.own PreKeyProtocol.id PreKeyProtocol.set_id
         PreKeyProtocol.key PreKeyProtocol.set_key.
Proof. reflexivity. Qed.

Lemma PreKey_round_trip (x : PreKeyProtocol.t) :
  valid_PreKey x -> round_trips PreKeyProtocol.exportProto PreKeyProtocol.importProto x x.
Proof.
  destruct x as [ver id k]. intros Hvalid.
  unfold valid_PreKey in Hvalid. cbn in Hvalid.
  destruct Hvalid as (Hver & Hid & Hk).
  unfold PreKeyProtocol.exportProto, PreKeyProtocol.importProto.
  destruct ver as [ver|], id as [id|], k as [k|];
    cbn [optional required] in *; try done; to_carries;
    solve_round_trip PreKey_sorted PreKey_metadata.
Qed.

Lemma PreKeySigned_metadata :
  PreKeySignedProtocol.metadata
  = PreKeySignedProtocol.own
    ++ PreKeyProtocol.own PreKeySignedProtocol.id PreKeySignedProtocol.set_id
         PreKeySignedProtocol.key PreKeySignedProtocol.set_key
    ++ BaseProtocol.own PreKeySignedProtocol.version PreKeySignedProtocol.set_version.
Proof. reflexivity. Qed.

Lemma PreKeySigned_sorted :
  Serialization.sort_by_id PreKeySignedProtocol.metadata
  = BaseProtocol.own PreKeySignedProtocol.version PreKeySignedProtocol.set_version
    ++ PreKeyProtocol.own PreKeySignedProtocol.id PreKeySignedProtocol.set_id
         PreKeySignedProtocol.key PreKeySignedProtocol.set_key
    ++ PreKeySignedProtocol.own.
Proof. reflexivity. Qed.

Lemma PreKeySigned_round_trip (x : PreKeySignedProtocol.t) :
  valid_PreKeySigned x ->
  round_trips PreKeySignedProtocol.exportProto PreKeySignedProtocol.importProto x x.
Proof.
  destruct x as [ver id k sig]. intros Hvalid.
  unfold valid_PreKeySigned in Hvalid. cbn in Hvalid.
  destruct Hvalid as (Hver & Hid & Hk & Hsig).
  unfold PreKeySignedProtocol.exportProto, PreKeySignedProtocol.importProto.
  destruct ver as [ver|], id as [id|], k as [k|], sig as [sig|];
    cbn [optional required] in *; try done; to_carries;
    solve_round_trip PreKeySigned_sorted PreKeySigned_metadata.
Qed.

Lemma PreKeyBundle_metadata :
  PreKeyBundleProtocol.metadata
  = PreKeyBundleProtocol.own
    ++ BaseProtocol.own PreKeyBundleProtocol.version PreKeyBundleProtocol.set_version.
Proof. reflexivity. Qed.

Lemma PreKeyBundle_sorted :
  Serialization.sort_by_id PreKeyBundleProtocol.metadata
  = BaseProtocol.own PreKeyBundleProtocol.version PreKeyBundleProtocol.set_version
    ++ PreKeyBundleProtocol.own.
Proof. reflexivity. Qed.

Lemma PreKeyBundle_round_trip (x : PreKeyBundleProtocol.t) :
  valid_PreKeyBundle x ->
  round_trips PreKeyBundleProtocol.exportProto PreKeyBundleProtocol.importProto x x.
Proof.
  destruct x as [ver rid idp pk spk]. intros Hvalid.
  unfold valid_PreKeyBundle in Hvalid. cbn in Hvalid.
  destruct Hvalid as (Hver & Hrid & Hidp & Hpk & Hspk).
  unfold PreKeyBundleProtocol.exportProto, PreKeyBundleProtocol.importProto.
  destruct ver as [ver|], rid as [rid|], idp as [idp|], pk as [pk|], spk as [spk|];
    cbn [optional required] in *; try done; to_carries;
    repeat match goal with
           | H : valid_Identity _ |- _ =>
               apply Identity_round_trip in H; eapply carries_nested in H; [|done]
           | H : valid_PreKey _ |- _ =>
               apply PreKey_round_trip in H; eapply carries_nested in H; [|done]
           | H : valid_PreKeySigned _ |- _ =>
               apply PreKeySigned_round_trip in H; eapply carries_nested in H; [|done]
           end;
    solve_round_trip PreKeyBundle_sorted PreKeyBundle_metadata.
Qed.

Lemma Message_metadata :
  MessageProtocol.metadata
  = MessageProtocol.own
    ++ BaseProtocol.own MessageProtocol.version MessageProtocol.set_version.
Proof. reflexivity. Qed.

Lemma Message_sorted :
  Serialization.sort_by_id MessageProtocol.metadata
  = BaseProtocol.own MessageProtocol.version MessageProtocol.set_version
    ++ MessageProtocol.own.
Proof. reflexivity. Qed.

Lemma Message_round_trip (x : MessageProtocol.t) :
  valid_Message x ->
  round_trips MessageProtocol.exportProto MessageProtocol.importProto x x.
Proof.
  destruct x as [ver rk c pc ct]. intros Hvalid.
  unfold valid_Message in Hvalid. cbn in Hvalid.
  destruct Hvalid as (Hver & Hrk & Hc & Hpc & Hct).
  unfold MessageProtocol.exportProto, MessageProtocol.importProto.
  destruct ver as [ver|], rk as [rk|], c as [c|], pc as [pc|], ct as [ct|];
    cbn [optional required] in *; try done; to_carries;
    solve_round_trip Message_sorted Message_metadata.
Qed.

Lemma MessageSigned_metadata :
  MessageSignedProtocol.metadata
  = MessageSignedProtocol.own
    ++ BaseProtocol.own MessageSignedProtocol.version MessageSignedProtocol.set_version.
Proof. reflexivity. Qed.

Lemma MessageSigned_sorted :
  Serialization.sort_by_id MessageSignedProtocol.metadata
  = BaseProtocol.own MessageSignedProtocol.version MessageSignedProtocol.set_version
    ++ MessageSignedProtocol.own.
Proof. reflexivity. Qed.

Lemma MessageSigned_round_trip (x : MessageSignedProtocol.t) :
  valid_MessageSigned x ->
  round_trips MessageSignedProtocol.exportProto MessageSignedProtocol.importProto
    x (wire_MessageSigned x).
Proof.
  destruct x as [ver rk sk m sig]. intros Hvalid.
  unfold valid_MessageSigned in Hvalid. cbn in Hvalid.
  destruct Hvalid as (Hver & Hsk & Hm & Hsig).
  unfold MessageSignedProtocol.exportProto, MessageSignedProtocol.importProto.
  destruct ver as [ver|], sk as [sk|], m as [m|], sig as [sig|];
    cbn [optional required] in *; try done; to_carries;
    repeat match goal with
           | H : valid_Message _ |- _ =>
               apply Message_round_trip in H; eapply carries_nested in H; [|done]
           end;
    solve_round_trip MessageSigned_sorted MessageSigned_metadata.
Qed.

Lemma PreKeyMessage_metadata :
  PreKeyMessageProtocol.metadata
  = PreKeyMessageProtocol.own
    ++ BaseProtocol.own PreKeyMessageProtocol.version PreKeyMessageProtocol.set_version.
Proof. reflexivity. Qed.

Lemma PreKeyMessage_sorted :
  Serialization.sort_by_id PreKeyMessageProtocol.metadata
  = BaseProtocol.own PreKeyMessageProtocol.version PreKeyMessageProtocol.set_version
    ++ PreKeyMessageProtocol.own.
Proof. reflexivity. Qed.

Lemma PreKeyMessage_round_trip (x : PreKeyMessageProtocol.t) :
  valid_PreKeyMessage x ->
  round_trips PreKeyMessageProtocol.exportProto PreKeyMessageProtocol.importProto
    x (wire_PreKeyMessage x).
Proof.
  destruct x as [ver rid pkid spkid bk idp sm]. intros Hvalid.
  unfold valid_PreKeyMessage in Hvalid. cbn in Hvalid.
  destruct Hvalid as (Hver & Hrid & Hpkid & Hspkid & Hbk & Hidp & Hsm).
  unfold PreKeyMessageProtocol.exportProto, PreKeyMessageProtocol.importProto.
  destruct ver as [ver|], rid as [rid|], pkid as [pkid|], spkid as [spkid|], bk as [bk|],
    idp as [idp|], sm as [sm|];
    cbn [optional required] in *; try done; to_carries;
    repeat match goal with
           | H : valid_Identity _ |- _ =>
               apply Identity_round_trip in H; eapply carries_nested in H; [|done]
           | H : valid_MessageSigned _ |- _ =>
               apply MessageSigned_round_trip in H; eapply carries_nested in H; [|done]
           end;
    solve_round_trip PreKeyMessage_sorted PreKeyMessage_metadata.
Qed.

End Records.

(** C2. For every valid record of each of the eight classes, [exportProto]
    succeeds and writes the record in the wire format, every field as its
    id (4 bytes little-endian), the length of its value (4 bytes
    little-endian) and the value, the field ids strictly increasing; and
    [importProto] of these bytes succeeds and yields the record again.  For
    a [MessageSigned], alone or inside a [PreKeyMessage], the record is the
    one that travels: [receiverKey], which is no field of the record, is
    unset after the round trip. *)
Theorem codec_round_trip {E : Engine} {L : EngineLaws E} :
  (forall x, valid_Base x ->
     round_trips BaseProtocol.exportProto BaseProtocol.importProto x x)
  /\ (forall x, valid_Identity x ->
        round_trips IdentityProtocol.exportProto IdentityProtocol.importProto x x)
  /\ (forall x, valid_PreKey x ->
        round_trips PreKeyProtocol.exportProto PreKeyProtocol.importProto x x)
  /\ (forall x, valid_PreKeySigned x ->
        round_trips PreKeySignedProtocol.exportProto PreKeySignedProtocol.importProto x x)
  /\ (forall x, valid_PreKeyBundle x ->
        round_trips PreKeyBundleProtocol.exportProto PreKeyBundleProtocol.importProto x x)
  /\ (forall x, valid_Message x ->
        round_trips MessageProtocol.exportProto MessageProtocol.importProto x x)
  /\ (forall x, valid_MessageSigned x ->
        round_trips MessageSignedProtocol.exportProto MessageSignedProtocol.importProto
          x (wire_MessageSigned x))
  /\ (forall x, valid_PreKeyMessage x ->
        round_trips PreKeyMessageProtocol.exportProto PreKeyMessageProtocol.importProto
          x (wire_PreKeyMessage x)).
Proof.
  split; [exact Base_round_trip|]. split; [exact Identity_round_trip|].
  split; [exact PreKey_round_trip|]. split; [exact PreKeySigned_round_trip|].
  split; [exact PreKeyBundle_round_trip|]. split; [exact Message_round_trip|].
  split; [exact MessageSigned_round_trip|exact PreKeyMessage_round_trip].
Qed.

Ltac fits_by_compute :=
  let raw := fresh "raw" in
  let H := fresh "H" in
  intros raw H; vm_compute in H; injection H as <-; vm_compute;
  split; [discriminate|reflexivity].

Ltac valid_by_compute :=
  repeat match goal with
         | |- True => exact I
         | |- forall raw, _ -> _ => fits_by_compute
         | |- _ /\ _ => split
         | |- _ <= _ => vm_compute; discriminate
         | |- _ < _ => vm_compute; reflexivity
         | |- _ = _ => vm_compute; reflexivity
         | |- _ => progress hnf
         end.

Lemma codec_round_trip_witness :
  round_trips (PreKeyBundleProtocol.exportProto (E := Toy.engine))
    (PreKeyBundleProtocol.importProto (E := Toy.engine)) Wire.bundle Wire.bundle
  /\ round_trips (PreKeyMessageProtocol.exportProto (E := Toy.engine))
       (PreKeyMessageProtocol.importProto (E := Toy.engine))
       Wire.message (wire_PreKeyMessage Wire.message).
Proof.
  destruct (codec_round_trip (E := Toy.engine) (L := toy_laws))
    as (_ & _ & _ & _ & Hbundle & _ & _ & Hmessage).
  split.
  - apply Hbundle. valid_by_compute.
  - apply Hmessage. valid_by_compute.
Defined.

Lemma wire_MessageSigned_unset (x : MessageSignedProtocol.t) :
  MessageSignedProtocol.receiverKey x = None -> wire_MessageSigned x = x.
Proof. destruct x. cbn. by intros ->. Qed.

(** The round trip, evaluated over the toy engine: the bytes of Bob's first
    message begin with the id and the length of [registrationId], and decode
    to the message. *)
Lemma first_message_decodes :
  match PreKeyMessageProtocol.exportProto (E := Toy.engine) Wire.message with
  | Ok data =>
      take 8 data = [x01; x00; x00; x00; x04; x00; x00; x00]
      /\ PreKeyMessageProtocol.importProto (E := Toy.engine) data
         = Ok (wire_PreKeyMessage Wire.message)
  | Err _ => False
  end.
Proof. vm_compute. split; reflexivity. Qed.

(** * Further properties of the code *)

(** ** Byte strings and integers *)

(** X1. [isEqual(a, b)] of utils/buffer.ts answers [true] exactly when the
    two buffers have the same length and the same bytes: the accumulated
    XOR of the constant-time loop misses no difference. *)
Theorem Buffer_isEqual_iff (a b : bytes) :
  (Buffer.isEqual a b = true <-> a = b)
  /\ (length a <> length b -> Buffer.isEqual a b = false).
Proof.
  split; [apply isEqual_spec|].
  intros Hlen. destruct (Buffer.isEqual a b) eqn:H; [|done].
  apply isEqual_spec in H. by subst.
Qed.

Lemma byte_of_Z_mod (v k : Z) :
  0 <= k -> k + 8 <= 32 ->
  Serialization.byte_of_Z (Z.shiftr (v mod 2 ^ 32) k) = Serialization.byte_of_Z (Z.shiftr v k).
Proof.
  intros Hk Hk'. unfold Serialization.byte_of_Z. do 3 f_equal.
  apply Z.bits_inj'. intros n Hn. rewrite !Z.land_spec, !Z.shiftr_spec by lia.
  change 255 with (Z.ones 8).
  destruct (Z.lt_ge_cases n 8) as [H8|H8].
  - rewrite Z.mod_pow2_bits_low by lia. done.
  - rewrite Z.ones_spec_high by lia. by rewrite !andb_false_r.
Qed.

Lemma setUint32_mod (v : Z) :
  Serialization.setUint32_le v = Serialization.setUint32_le (v mod 2 ^ 32).
Proof.
  unfold Serialization.setUint32_le.
  rewrite <- (Z.shiftr_0_r v), <- (Z.shiftr_0_r (v mod 2 ^ 32)) at 1.
  rewrite !byte_of_Z_mod by lia. by rewrite !Z.shiftr_0_r.
Qed.

(** X2. A [uint32] of protocol/serialization.ts keeps the low 32 bits:
    [deserializeUint32(serializeUint32(v))] is [v] modulo 2^32 for every
    integer [v], so a counter of 2^32 is read back as 0 and [-1] as
    2^32 - 1; a buffer that is not 4 bytes long is refused. *)
Theorem uint32_wraps (v : Z) :
  Serialization.deserializeUint32 (Serialization.serializeUint32 v) = Ok (v mod 2 ^ 32)
  /\ forall buffer, length buffer <> 4%nat ->
       Serialization.deserializeUint32 buffer = Err (ExpectedFourBytes (blen buffer)).
Proof.
  split.
  - unfold Serialization.deserializeUint32, Serialization.serializeUint32.
    rewrite setUint32_mod.
    change (blen _ =? 4) with true. cbn [negb]. f_equal.
    rewrite <- (app_nil_r (Serialization.setUint32_le _)).
    apply getUint32_setUint32. apply Z.mod_pos_bound. lia.
  - intros buffer Hlen. unfold Serialization.deserializeUint32, blen.
    destruct (Z.eqb_spec (Z.of_nat (length buffer)) 4) as [H|H]; [lia|done].
Qed.

Lemma setUint32_le_inj (v w : Z) :
  uint32 v -> uint32 w -> Serialization.setUint32_le v = Serialization.setUint32_le w -> v = w.
Proof.
  intros Hv Hw Heq.
  rewrite <- (getUint32_setUint32 v [] Hv), <- (getUint32_setUint32 w [] Hw). by rewrite Heq.
Qed.

(** X3. [createMinimalAAD(counter, previousCounter)] of
    ratchet/asymmetric-ratchet.ts is always 8 bytes long, and two headers
    of 32-bit counters have the same associated data only if they are the
    same header. *)
Theorem createMinimalAAD_binds_header (c pc c' pc' : Z) :
  length (AsymmetricRatchet.createMinimalAAD c pc) = 8%nat
  /\ (uint32 c -> uint32 pc -> uint32 c' -> uint32 pc' ->
      AsymmetricRatchet.createMinimalAAD c pc = AsymmetricRatchet.createMinimalAAD c' pc' ->
      c = c' /\ pc = pc').
Proof.
  split; [reflexivity|].
  intros Hc Hpc Hc' Hpc'. unfold AsymmetricRatchet.createMinimalAAD,
    AsymmetricRatchet.setUint32_be.
  intros Heq. apply app_inj_1 in Heq as [H1 H2]; [|by rewrite !length_rev].
  apply (f_equal (@rev byte)) in H1, H2. rewrite !rev_involutive in H1, H2.
  split; by apply setUint32_le_inj.
Qed.

(** ** The receiving chain *)

Lemma cleanup_below_counter (now : Z) (this : ReceivingRatchet.t) :
  cache_below_counter this ->
  cache_below_counter (ReceivingRatchet.cleanupExpiredKeys now this).
Proof.
  intros Hinv c [key Hc]. rewrite (proj1 (cleanup_counter now this)).
  rewrite cleanup_messageKeys in Hc. case_decide; [done|]. apply Hinv. by exists key.
Qed.

(** X4. A receiving chain of sym_ratchet.ts hands out the key of a
    counter once: whatever [getKey] answers, the counter of the chain does
    not go back and the cached keys stay below it; and after it has
    answered with a key, every later request for the same counter is
    refused as too old. *)
Theorem getKey_serves_once {E : Engine} (this : ReceivingRatchet.t) (target now : Z)
    (stamp : Z -> Z) :
  cache_below_counter this ->
  let '(r, this') := ReceivingRatchet.getKey target now stamp this in
  ReceivingRatchet.counter this <= ReceivingRatchet.counter this'
  /\ cache_below_counter this'
  /\ (is_Ok r = true ->
      forall now' stamp',
        fst (ReceivingRatchet.getKey target now' stamp' this') = Err CounterTooOld).
Proof.
  intros Hinv.
  destruct (ReceivingRatchet.getKey target now stamp this) as [r this'] eqn:Hget.
  destruct r as [key|e].
  - destruct (getKey_ok_state this target now stamp key this' Hinv Hget)
      as (Hcnt & _ & Hnone & Hinv' & _).
    split; [lia|]. split; [done|]. intros _ now' stamp'.
    apply getKey_replay; [done|lia].
  - destruct (getKey_cases target now stamp this) as [(key & _ & H)|[(_ & _ & H)|(_ & _ & this1 & H & _)]];
      rewrite Hget in H; try discriminate.
    injection H as -> ->.
    rewrite (proj1 (cleanup_counter now this)).
    split; [lia|]. split; [by apply cleanup_below_counter|]. discriminate.
Qed.

Lemma getKey_serves_once_witness :
  let '(r, this') :=
    ReceivingRatchet.getKey (E := Toy.engine) 2 0 (fun _ => 0) (ReceivingRatchet.new [x01]) in
  ReceivingRatchet.counter (ReceivingRatchet.new [x01]) <= ReceivingRatchet.counter this'
  /\ cache_below_counter this'
  /\ (is_Ok r = true ->
      forall now' stamp',
        fst (ReceivingRatchet.getKey (E := Toy.engine) 2 now' stamp' this')
        = Err CounterTooOld).
Proof.
  apply (getKey_serves_once (E := Toy.engine) (ReceivingRatchet.new [x01]) 2 0 (fun _ => 0)).
  intros c [key Hc]. cbn in Hc. by rewrite lookup_empty in Hc.
Defined.

(** ** The store of skipped message keys *)

(** X5. The skipped-key store of ratchet/dh-step.ts gives a key
    out once: after [storeSkippedMessageKey(id, c, key)] the store has
    the key of [(id, c)], the first [consumeSkippedMessageKey(id, c)]
    returns it and removes it, and the second returns [undefined]. *)
Theorem skipped_key_consumed_once (ratchetKeyId : string) (messageCounter : Z)
    (messageKey : bytes) (now now' : Z) (this : DHRatchetStepStackEnhanced.t) :
  let stored :=
    DHRatchetStepStackEnhanced.storeSkippedMessageKey ratchetKeyId messageCounter
      messageKey now now' this in
  let first := DHRatchetStepStackEnhanced.consumeSkippedMessageKey ratchetKeyId
                 messageCounter stored in
  let second := DHRatchetStepStackEnhanced.consumeSkippedMessageKey ratchetKeyId
                  messageCounter (snd first) in
  DHRatchetStepStackEnhanced.hasSkippedMessageKey ratchetKeyId messageCounter stored = true
  /\ fst first = Some messageKey
  /\ DHRatchetStepStackEnhanced.hasSkippedMessageKey ratchetKeyId messageCounter (snd first)
     = false
  /\ fst second = None.
Proof.
  intros stored first second.
  assert (Hget : JsObject.get (DHRatchetStepStackEnhanced.globalSkippedKeys stored)
                   (DHRatchetStepStackEnhanced.compositeKey ratchetKeyId messageCounter)
                 = Some {| sk_ratchetKeyId := ratchetKeyId;
                           sk_messageCounter := messageCounter;
                           sk_messageKey := messageKey; sk_timestamp := now' |}).
  { unfold stored, DHRatchetStepStackEnhanced.storeSkippedMessageKey. cbn.
    apply JsObject_get_set_eq. }
  assert (Hfirst : first
                   = (Some messageKey,
                      DHRatchetStepStackEnhanced.set_globalSkippedKeys
                        (JsObject.delete
                           (DHRatchetStepStackEnhanced.compositeKey ratchetKeyId
                              messageCounter)
                           (DHRatchetStepStackEnhanced.globalSkippedKeys stored)) stored)).
  { unfold first, DHRatchetStepStackEnhanced.consumeSkippedMessageKey. by rewrite Hget. }
  assert (Hgone : JsObject.get (DHRatchetStepStackEnhanced.globalSkippedKeys (snd first))
                    (DHRatchetStepStackEnhanced.compositeKey ratchetKeyId messageCounter)
                  = None).
  { rewrite Hfirst. cbn. apply JsObject_get_delete_eq. }
  repeat split.
  - unfold DHRatchetStepStackEnhanced.hasSkippedMessageKey. rewrite Hget.
    by apply bool_decide_eq_true.
  - by rewrite Hfirst.
  - unfold DHRatchetStepStackEnhanced.hasSkippedMessageKey. rewrite Hgone.
    apply bool_decide_eq_false. by intros [? ?].
  - unfold second, DHRatchetStepStackEnhanced.consumeSkippedMessageKey. by rewrite Hgone.
Qed.

(** X6. [storeSkippedMessageKey] keeps the store within
    [limits.maxSkippedKeys]: a store that holds at most that many keys,
    the limit being at least 1, holds at most that many after a key is
    added, since a full store first drops its expired keys and then, if
    still full, its oldest key. *)
Theorem skipped_store_within_limit (ratchetKeyId : string) (messageCounter : Z)
    (messageKey : bytes) (now now' : Z) (this : DHRatchetStepStackEnhanced.t) :
  1 <= maxSkippedKeys (DHRatchetStepStackEnhanced.limits this) ->
  DHRatchetStepStackEnhanced.totalSkippedKeys
    (DHRatchetStepStackEnhanced.getSkippedKeyStats this)
  <= maxSkippedKeys (DHRatchetStepStackEnhanced.limits this) ->
  DHRatchetStepStackEnhanced.totalSkippedKeys
    (DHRatchetStepStackEnhanced.getSkippedKeyStats
       (DHRatchetStepStackEnhanced.storeSkippedMessageKey ratchetKeyId messageCounter
          messageKey now now' this))
  <= maxSkippedKeys (DHRatchetStepStackEnhanced.limits this).
Proof.
  intros Hmax Hsize.
  unfold DHRatchetStepStackEnhanced.getSkippedKeyStats in *.
  cbn [DHRatchetStepStackEnhanced.totalSkippedKeys] in *.
  unfold DHRatchetStepStackEnhanced.storeSkippedMessageKey. cbv zeta.
  set (cleaned := DHRatchetStepStackEnhanced.cleanupExpiredSkippedKeys now this).
  assert (Hc : (length (JsObject.keys (DHRatchetStepStackEnhanced.globalSkippedKeys cleaned))
                <= length (JsObject.keys (DHRatchetStepStackEnhanced.globalSkippedKeys this)))%nat).
  { unfold JsObject.keys. rewrite !length_fmap. apply List.filter_length_le. }
  change (DHRatchetStepStackEnhanced.limits cleaned)
    with (DHRatchetStepStackEnhanced.limits this).
  set (m := maxSkippedKeys (DHRatchetStepStackEnhanced.limits this)) in *.
  set (key := DHRatchetStepStackEnhanced.compositeKey ratchetKeyId messageCounter).
  set (entry := {| sk_ratchetKeyId := ratchetKeyId; sk_messageCounter := messageCounter;
                   sk_messageKey := messageKey; sk_timestamp := now' |}).
  assert (Hset : forall o : JsObject.t ISkippedMessageKey,
            Z.of_nat (length (JsObject.keys o)) <= m - 1 ->
            Z.of_nat (length (JsObject.keys (JsObject.set key entry o))) <= m).
  { intros o Ho. unfold JsObject.keys in *. rewrite length_fmap in *.
    pose proof (JsObject_set_length o key entry). lia. }
  destruct (Z.leb_spec m
              (Z.of_nat (length (JsObject.keys
                                   (DHRatchetStepStackEnhanced.globalSkippedKeys this)))))
    as [Hfull|Hroom]; [|apply Hset; lia].
  destruct (Z.leb_spec m
              (Z.of_nat (length (JsObject.keys
                                   (DHRatchetStepStackEnhanced.globalSkippedKeys cleaned)))))
    as [Hfull'|Hroom']; [|apply Hset; lia].
  destruct (oldestKey_nonempty (DHRatchetStepStackEnhanced.globalSkippedKeys cleaned))
    as [[k ts] Hk].
  { intros Heq. rewrite Heq in Hfull'. simpl in Hfull'. lia. }
  rewrite Hk. apply Hset.
  cbn [DHRatchetStepStackEnhanced.globalSkippedKeys
       DHRatchetStepStackEnhanced.set_globalSkippedKeys].
  pose proof (JsObject_delete_length _ k (oldestKey_elem _ _ _ Hk)) as Hdel.
  unfold JsObject.keys in *. rewrite !length_fmap in *. lia.
Qed.

Lemma skipped_store_within_limit_witness :
  DHRatchetStepStackEnhanced.totalSkippedKeys
    (DHRatchetStepStackEnhanced.getSkippedKeyStats
       (DHRatchetStepStackEnhanced.storeSkippedMessageKey "ab" 7 [x01] 0 0
          (DHRatchetStepStackEnhanced.new no_limits)))
  <= maxSkippedKeys (DHRatchetStepStackEnhanced.limits
                       (DHRatchetStepStackEnhanced.new no_limits)).
Proof.
  apply (skipped_store_within_limit "ab" 7 [x01] 0 0
           (DHRatchetStepStackEnhanced.new no_limits)); vm_compute; discriminate.
Defined.

(** ** Sessions and the store of skipped keys *)

Lemma filter_sublist {A} (f : A -> bool) (l : list A) : sublist (List.filter f l) l.
Proof.
  induction l as [|x l IH]; simpl; [constructor|].
  destruct (f x); by constructor.
Qed.

Lemma push_skipped_sublist (item : ref) (heap : Heap) (this : DHRatchetStepStackEnhanced.t) :
  sublist
    (DHRatchetStepStackEnhanced.globalSkippedKeys
       (snd (DHRatchetStepStackEnhanced.push item heap this)))
    (DHRatchetStepStackEnhanced.globalSkippedKeys this).
Proof.
  unfold DHRatchetStepStackEnhanced.push, DHRatchetStepStackEnhanced.Stack_push.
  repeat case_match; simplify_eq; cbn; try reflexivity;
    repeat case_match; simplify_eq; cbn; try reflexivity; apply filter_sublist.
Qed.

Lemma consume_skipped_sublist (ratchetKeyId : string) (messageCounter : Z)
    (this : DHRatchetStepStackEnhanced.t) :
  sublist
    (DHRatchetStepStackEnhanced.globalSkippedKeys
       (snd (DHRatchetStepStackEnhanced.consumeSkippedMessageKey ratchetKeyId
               messageCounter this)))
    (DHRatchetStepStackEnhanced.globalSkippedKeys this).
Proof.
  unfold DHRatchetStepStackEnhanced.consumeSkippedMessageKey.
  case_match; cbn; [apply filter_sublist|reflexivity].
Qed.

Lemma consume_undefined_sublist (ratchetKeyId : string)
    (this : DHRatchetStepStackEnhanced.t) :
  sublist
    (DHRatchetStepStackEnhanced.globalSkippedKeys
       (snd (DHRatchetStepStackEnhanced.consumeSkippedMessageKey_undefined ratchetKeyId
               this)))
    (DHRatchetStepStackEnhanced.globalSkippedKeys this).
Proof.
  unfold DHRatchetStepStackEnhanced.consumeSkippedMessageKey_undefined.
  case_match; cbn; [apply filter_sublist|reflexivity].
Qed.

Lemma createChain_steps {E : Engine} (ourRatchetKey : CryptoKey)
    (theirRatchetKey : ECPublicKey) (s : AsymmetricRatchet.t) :
  AsymmetricRatchet.steps (snd (AsymmetricRatchet.createChain ourRatchetKey theirRatchetKey s))
  = AsymmetricRatchet.steps s.
Proof.
  unfold AsymmetricRatchet.createChain, bindM, lift, get, put, ret, req.
  repeat case_match; simplify_eq; done.
Qed.

Lemma receivingChain_decrypt_steps {E : Engine} (step : ref) (cipherText : option bytes)
    (messageCounter : Z) (aad : bytes) (now : Z) (stamp : Z -> Z) (s : AsymmetricRatchet.t) :
  AsymmetricRatchet.steps
    (snd (AsymmetricRatchet.receivingChain_decrypt step cipherText messageCounter aad now
            stamp s))
  = AsymmetricRatchet.steps s.
Proof.
  unfold AsymmetricRatchet.receivingChain_decrypt, AsymmetricRatchet.read_step,
    AsymmetricRatchet.write_step, bindM, lift, req.
  repeat case_match; simplify_eq; done.
Qed.

Lemma decryptWithKey_state {E : Engine} (messageKey : bytes) (cipherText : option bytes)
    (protocol : MessageSignedProtocol.t) (s : AsymmetricRatchet.t) :
  snd (AsymmetricRatchet.decryptWithKey messageKey cipherText protocol s) = s.
Proof.
  unfold AsymmetricRatchet.decryptWithKey, bindM, lift, get, ret, throw, req.
  repeat case_match; simplify_eq; done.
Qed.

Local Ltac same := first [apply reflexivity | match goal with H : forall s s', _ -> ?R s s' |- _ => by apply H end].

(** X7. [decrypt] and [encrypt] of ratchet/asymmetric-ratchet.ts
    never store a skipped message key: [generateSkippedMessageKeys] only
    writes to the log.  After a [decrypt], whatever its outcome, the
    store of skipped keys holds a part of what it held, so the
    [totalSkippedKeys] of [getSkippedMessageStats()] has not grown; an
    [encrypt] leaves the ring and the store as they are.  A session whose
    store is empty keeps it empty. *)
Theorem session_never_stores_skipped_keys {E : Engine} (this : AsymmetricRatchet.t) :
  (forall protocol now stamp,
     let this' := snd (AsymmetricRatchet.decrypt protocol now stamp this) in
     sublist
       (DHRatchetStepStackEnhanced.globalSkippedKeys (AsymmetricRatchet.steps this'))
       (DHRatchetStepStackEnhanced.globalSkippedKeys (AsymmetricRatchet.steps this))
     /\ DHRatchetStepStackEnhanced.totalSkippedKeys
          (AsymmetricRatchet.getSkippedMessageStats this')
        <= DHRatchetStepStackEnhanced.totalSkippedKeys
             (AsymmetricRatchet.getSkippedMessageStats this))
  /\ (forall message freshRatchetKey,
        AsymmetricRatchet.steps
          (snd (AsymmetricRatchet.encrypt message freshRatchetKey this))
        = AsymmetricRatchet.steps this).
Proof.
  split.
  - intros protocol now stamp this'.
    set (R := fun s s' : AsymmetricRatchet.t =>
                sublist
                  (DHRatchetStepStackEnhanced.globalSkippedKeys (AsymmetricRatchet.steps s'))
                  (DHRatchetStepStackEnhanced.globalSkippedKeys (AsymmetricRatchet.steps s))).
    assert (HT : Transitive R).
    { intros x y z Hxy Hyz. unfold R in *. by etrans. }
    assert (Hrefl : Reflexive R) by (intros s; unfold R; reflexivity).
    assert (Heq : forall s s', AsymmetricRatchet.steps s' = AsymmetricRatchet.steps s -> R s s').
    { intros s s' H. unfold R. by rewrite H. }
    assert (Hsub : R this this').
    { subst this'. unfold AsymmetricRatchet.decrypt.
      apply bind_keeps; [done|same|]. intros message s1 _.
      apply bind_keeps; [done|same|]. intros this1 s2 _.
      case_match; [same|].
      apply bind_keeps; [done|same|]. intros remoteRatchetKey s3 _.
      apply bind_keeps; [done| |].
      { unfold AsymmetricRatchet.find_or_push_step.
        destruct (DHRatchetStepStackEnhanced.getStep _ _); [same|].
        pose proof (push_skipped_sublist (length (AsymmetricRatchet.heap s3))
                      (AsymmetricRatchet.heap s3
                       ++ [DHRatchetStepEnhanced.set_ratchetKeyId
                             (Some (pk_id remoteRatchetKey))
                             (DHRatchetStepEnhanced.set_remoteRatchetKey
                                (Some remoteRatchetKey) DHRatchetStepEnhanced.new)])
                      (AsymmetricRatchet.steps s3)) as Hpush.
        destruct (DHRatchetStepStackEnhanced.push _ _ _) as [heap' steps']. apply Hpush. }
      intros step s4 _.
      destruct (MessageProtocol.counter message) as [messageCounter|]; cycle 1.
      { unfold AsymmetricRatchet.decrypt_undefined_counter.
        apply bind_keeps; [done|same|]. intros st s6 _.
        apply bind_keeps; [done| |].
        { case_match; [|same].
          unfold AsymmetricRatchet.consumeSkippedMessageKey_undefined.
          pose proof (consume_undefined_sublist
                        (default "" (DHRatchetStepEnhanced.ratchetKeyId st))
                        (AsymmetricRatchet.steps s6)) as Hcons.
          destruct (DHRatchetStepStackEnhanced.consumeSkippedMessageKey_undefined _ _)
            as [key steps'].
          apply Hcons. }
        intros skippedKey s7 _.
        destruct skippedKey as [key|].
        { apply Heq. by rewrite decryptWithKey_state. }
        apply bind_keeps; [done| |].
        { destruct (DHRatchetStepEnhanced.receivingChain st); [same|].
          apply bind_keeps; [done|same|]. intros this2 s8 _.
          apply bind_keeps; [done| |].
          { apply Heq, createChain_steps. }
          intros chainKey s9 _. same. }
        intros _ s8 _.
        apply bind_keeps; [done|same|]. intros st' s9 _.
        apply bind_keeps; [done|same|]. intros chain s10 _.
        apply bind_keeps; [done|same|]. intros _ s11 _. same. }
      apply bind_keeps; [done|same|]. intros st s6 _.
      apply bind_keeps; [done| |].
      { case_match; [|same].
        unfold AsymmetricRatchet.consumeSkippedMessageKey.
        pose proof (consume_skipped_sublist (default "" (DHRatchetStepEnhanced.ratchetKeyId st))
                      messageCounter (AsymmetricRatchet.steps s6)) as Hcons.
        destruct (DHRatchetStepStackEnhanced.consumeSkippedMessageKey _ _ _) as [key steps'].
        apply Hcons. }
      intros skippedKey s7 _.
      destruct skippedKey as [key|].
      { apply Heq. by rewrite decryptWithKey_state. }
      apply bind_keeps; [done| |].
      { destruct (DHRatchetStepEnhanced.receivingChain st); [same|].
        apply bind_keeps; [done|same|]. intros this2 s8 _.
        apply bind_keeps; [done| |].
        { apply Heq, createChain_steps. }
        intros chainKey s9 _. same. }
      intros _ s8 _.
      apply bind_keeps; [done|same|]. intros st' s9 _.
      apply bind_keeps; [done| |].
      { case_match; same. }
      intros _ s10 _.
      apply bind_keeps; [done| |].
      { apply Heq, receivingChain_decrypt_steps. }
      intros decryptedMessage s11 _.
      apply bind_keeps; [done|same|]. intros st'' s12 _.
      apply bind_keeps; [done|same|]. intros _ s13 _.
      apply bind_keeps; [done|same|]. intros this3 s14 _.
      apply bind_keeps; [done|same|]. intros ok s15 _.
      destruct ok; same. }
    split; [exact Hsub|].
    unfold AsymmetricRatchet.getSkippedMessageStats,
      DHRatchetStepStackEnhanced.getSkippedKeyStats.
    cbn [DHRatchetStepStackEnhanced.totalSkippedKeys].
    unfold JsObject.keys. rewrite !length_fmap.
    apply sublist_length in Hsub. lia.
  - intros message freshRatchetKey.
    set (R := fun s s' : AsymmetricRatchet.t =>
                AsymmetricRatchet.steps s' = AsymmetricRatchet.steps s).
    assert (HT : Transitive R).
    { intros x y z Hxy Hyz. unfold R in *. congruence. }
    assert (Hrefl : forall s, R s s) by done.
    change (R this (snd (AsymmetricRatchet.encrypt message freshRatchetKey this))).
    unfold AsymmetricRatchet.encrypt.
    apply bind_keeps; [done|done|]. intros this0 s1 Hget.
    apply bind_keeps; [done|done|]. intros cur s2 Hread.
    apply bind_keeps; [done| |].
    { injection Hget as -> ->. unfold AsymmetricRatchet.read_step in Hread.
      injection Hread as _ ->. repeat case_match; done. }
    intros _ s3 _.
    apply bind_keeps; [done| |].
    { destruct (DHRatchetStepEnhanced.sendingChain cur); [done|].
      destruct (DHRatchetStepEnhanced.remoteRatchetKey cur); [|done].
      apply bind_keeps; [done|done|]. intros this1 s4 _.
      apply bind_keeps; [done|apply createChain_steps|]. intros chainKey s5 _. done. }
    intros _ s4 _.
    apply bind_keeps; [done|done|]. intros this2 s5 _.
    apply bind_keeps; [done|done|]. intros cur' s6 _.
    apply bind_keeps; [done|done|]. intros chain s7 _.
    destruct (SendingRatchet.encrypt _ _ _) as [r chain'].
    apply bind_keeps; [done|done|]. intros _ s8 _.
    apply bind_keeps; [done|done|]. intros encryptedMessage s9 _.
    apply bind_keeps; [done| |].
    { case_match; [|done].
      apply bind_keeps; [done|done|]. intros idp s10 _. done. }
    intros preKeyMessage s10 _.
    apply bind_keeps; [done|done|]. intros signedMessage s11 _.
    destruct preKeyMessage; done.
Qed.

(** ** The loop of importProto *)

(** One round of the loop on a header that is complete. *)
Lemma import_loop_header {T} (metadata : Serialization.Metadata T) (id len : Z)
    (body : bytes) (fuel : nat) (seen : list string) (this : T) :
  uint32 id -> uint32 len ->
  Serialization.import_loop (S fuel) metadata
    (Serialization.setUint32_le id ++ Serialization.setUint32_le len ++ body) seen this
  = if blen body <? len then Err (LengthExceedsData id len)
    else
      match Serialization.find_descriptor metadata id with
      | None =>
          Serialization.import_loop fuel metadata (drop (Z.to_nat len) body) seen this
      | Some (key, d) =>
          match Serialization.pd_deserialize d (take (Z.to_nat len) body) with
          | Err e => Err (FailedToDeserialize key e)
          | Ok assign =>
              Serialization.import_loop fuel metadata (drop (Z.to_nat len) body)
                (key :: seen) (assign this)
          end
      end.
Proof.
  intros Hid Hlen.
  assert (Hblen : blen (Serialization.setUint32_le id ++ Serialization.setUint32_le len ++ body)
                  = 8 + blen body).
  { unfold blen. rewrite !length_app, !setUint32_length. lia. }
  assert (Hpos : 0 <= blen body) by (unfold blen; lia).
  cbn [Serialization.import_loop].
  change (match Serialization.setUint32_le id ++ Serialization.setUint32_le len ++ body with
          | [] => Ok (this, seen)
          | _ :: _ => ?k
          end) with k.
  rewrite Hblen.
  destruct (Z.ltb_spec (8 + blen body) 8) as [?|_]; [lia|].
  assert (Hid' : Serialization.getUint32_le
                   (take 4 (Serialization.setUint32_le id
                            ++ Serialization.setUint32_le len ++ body)) = id).
  { rewrite take_app_length' by done.
    rewrite <- (app_nil_r (Serialization.setUint32_le id)).
    by apply getUint32_setUint32. }
  assert (Hlen' : Serialization.getUint32_le
                    (take 4 (drop 4 (Serialization.setUint32_le id
                                     ++ Serialization.setUint32_le len ++ body))) = len).
  { rewrite drop_app_length' by done. rewrite take_app_length' by done.
    rewrite <- (app_nil_r (Serialization.setUint32_le len)).
    by apply getUint32_setUint32. }
  rewrite Hid', Hlen'.
  replace (8 + blen body - 8) with (blen body) by lia.
  assert (Hdrop : drop 8 (Serialization.setUint32_le id
                          ++ Serialization.setUint32_le len ++ body) = body).
  { rewrite app_assoc. rewrite drop_app_length'; [done|].
    by rewrite length_app, !setUint32_length. }
  by rewrite Hdrop.
Qed.

Lemma import_loop_field {T} (metadata : Serialization.Metadata T) (id : Z) (v tail : bytes)
    (fuel : nat) (seen : list string) (this : T) :
  uint32 id -> uint32 (blen v) ->
  Serialization.import_loop (S fuel) metadata (wire_field id v ++ tail) seen this
  = match Serialization.find_descriptor metadata id with
    | None => Serialization.import_loop fuel metadata tail seen this
    | Some (key, d) =>
        match Serialization.pd_deserialize d v with
        | Err e => Err (FailedToDeserialize key e)
        | Ok assign => Serialization.import_loop fuel metadata tail (key :: seen) (assign this)
        end
    end.
Proof.
  intros Hid Hv. unfold wire_field. rewrite <- !app_assoc.
  rewrite import_loop_header by done.
  assert (Hb : blen (v ++ tail) = blen v + blen tail).
  { unfold blen. rewrite length_app. lia. }
  assert (0 <= blen tail) by (unfold blen; lia).
  rewrite Hb. destruct (Z.ltb_spec (blen v + blen tail) (blen v)) as [?|_]; [lia|].
  rewrite take_app_length' by (unfold blen; lia).
  by rewrite drop_app_length' by (unfold blen; lia).
Qed.

(** The loop with enough fuel: every round consumes at least 8 bytes. *)
Lemma import_loop_fuel {T} (metadata : Serialization.Metadata T) (fuel1 : nat) :
  forall (fuel2 : nat) (rest : bytes) (seen : list string) (this : T),
    (length rest <= 8 * fuel1)%nat -> (length rest <= 8 * fuel2)%nat ->
    Serialization.import_loop fuel1 metadata rest seen this
    = Serialization.import_loop fuel2 metadata rest seen this
    /\ Serialization.import_loop fuel1 metadata rest seen this <> Err LoopBound.
Proof.
  induction fuel1 as [|fuel1 IH]; intros fuel2 rest seen this H1 H2.
  { destruct rest; [|simpl in H1; lia]. by destruct fuel2. }
  destruct rest as [|b rest']; [by destruct fuel2|].
  destruct fuel2 as [|fuel2]; [simpl in H2; lia|].
  set (rest := b :: rest') in *.
  cbn [Serialization.import_loop].
  change (match rest with [] => ?a | _ :: _ => ?k end) with k.
  change (match rest with [] => ?a | _ :: _ => ?k end) with k.
  destruct (Z.ltb_spec (blen rest) 8) as [?|H8]; [done|].
  match goal with |- context [if ?c then _ else _] => destruct c; [done|] end.
  match goal with
  | |- context [Serialization.import_loop fuel1 metadata ?r _ _] =>
      assert (Hr1 : (length r <= 8 * fuel1)%nat);
      [rewrite !length_drop; unfold blen in H8; lia|];
      assert (Hr2 : (length r <= 8 * fuel2)%nat);
      [rewrite !length_drop; unfold blen in H8; lia|]
  end.
  destruct (Serialization.find_descriptor metadata _) as [[key d]|]; [|by apply IH].
  destruct (Serialization.pd_deserialize d _) as [assign|e]; [by apply IH|done].
Qed.

(** X8. The loop of [importProto] of
    protocol/serialization.ts ends on every input: each round reads at
    least the 8 bytes of a header, so the bound the model gives the loop
    is never reached, and a larger bound gives the same result. *)
Theorem importProto_terminates {T} (metadata : Serialization.Metadata T) (this : T)
    (data : bytes) :
  Serialization.importProto metadata this data <> Err LoopBound
  /\ forall fuel : nat,
       (length data <= fuel)%nat ->
       Serialization.import_loop (S fuel) metadata data [] this
       = Serialization.import_loop (S (length data)) metadata data [] this.
Proof.
  split.
  - unfold Serialization.importProto. destruct (length metadata =? 0)%nat; [done|].
    destruct (import_loop_fuel metadata (S (length data)) (S (length data)) data [] this)
      as [_ Hne]; [lia|lia|].
    destruct (Serialization.import_loop _ _ _ _ _) as [[this' seen]|e] eqn:Hloop; cbn.
    + clear. revert this'. induction metadata as [|[key d] rest IH]; intros this'; cbn; [done|].
      destruct (Serialization.pd_required d && _); [|apply IH].
      destruct (Serialization.pd_defaultValue d); [apply IH|done].
    + congruence.
  - intros fuel Hfuel. apply import_loop_fuel; lia.
Qed.

(** The fields whose id the class declares. *)
Lemma assign_fields_known {T} (metadata : Serialization.Metadata T)
    (fields : list (Z * bytes)) :
  forall (seen : list string) (this : T),
    assign_fields metadata fields seen this
    = assign_fields metadata
        (List.filter
           (fun f => bool_decide (is_Some (Serialization.find_descriptor metadata (fst f))))
           fields)
        seen this.
Proof.
  induction fields as [|[id v] rest IH]; intros seen this; [done|].
  cbn [assign_fields List.filter fst].
  destruct (Serialization.find_descriptor metadata id) as [[key d]|] eqn:Hfind.
  - rewrite bool_decide_eq_true_2 by done. cbn [assign_fields]. rewrite Hfind.
    destruct (Serialization.pd_deserialize d v); [apply IH|done].
  - rewrite bool_decide_eq_false_2 by (by intros [? ?]). apply IH.
Qed.

(** X9. [importProto] skips the fields whose id the class does
    not declare, wherever they stand in the record: the import of a
    record is the import of the record without them. *)
Theorem unknown_fields_ignored {T} (metadata : Serialization.Metadata T) (empty : T)
    (fields : list (Z * bytes)) :
  metadata <> [] ->
  Forall (fun f => uint32 (fst f) /\ uint32 (blen (snd f))) fields ->
  Serialization.importProto metadata empty (wire_record fields)
  = Serialization.importProto metadata empty
      (wire_record
         (List.filter
            (fun f => bool_decide (is_Some (Serialization.find_descriptor metadata (fst f))))
            fields)).
Proof.
  intros Hne Hfields.
  rewrite !importProto_wire; [|done| |done|done].
  - by rewrite <- assign_fields_known.
  - apply Forall_forall. intros f Hf.
    apply list_elem_of_In, filter_In in Hf as [Hf _]. apply list_elem_of_In in Hf.
    by eapply (proj1 (Forall_forall _ _) Hfields).
Qed.

Lemma unknown_fields_ignored_witness :
  Serialization.importProto BaseProtocol.metadata BaseProtocol.empty
    (wire_record [(7, [x01; x02]); (0, Serialization.setUint32_le 3); (9, [])])
  = Serialization.importProto BaseProtocol.metadata BaseProtocol.empty
      (wire_record
         (List.filter
            (fun f => bool_decide (is_Some (Serialization.find_descriptor
                                              BaseProtocol.metadata (fst f))))
            [(7, [x01; x02]); (0, Serialization.setUint32_le 3); (9, [])])).
Proof.
  apply (unknown_fields_ignored BaseProtocol.metadata BaseProtocol.empty
           [(7, [x01; x02]); (0, Serialization.setUint32_le 3); (9, [])]).
  - discriminate.
  - repeat (apply Forall_cons_2; [vm_compute; repeat split; discriminate|]).
    apply Forall_nil_2.
Defined.

Lemma wire_field_length (id : Z) (v : bytes) :
  length (wire_field id v) = (8 + length v)%nat.
Proof. unfold wire_field. rewrite !length_app, !setUint32_length. lia. Qed.

(** The loop on a record that is cut inside a field. *)
Lemma truncated_loop {T} (metadata : Serialization.Metadata T) (fields : list (Z * bytes)) :
  Forall (fun f => uint32 (fst f) /\ uint32 (blen (snd f))) fields ->
  forall (n fuel : nat) (seen : list string) (this : T),
    (n < length (wire_record fields))%nat ->
    (forall k, n <> length (wire_record (take k fields))) ->
    (n < 8 * S fuel)%nat ->
    exists e,
      Serialization.import_loop (S fuel) metadata (take n (wire_record fields)) seen this
      = Err e.
Proof.
  induction 1 as [|[id v] rest [Hid Hv] Hrest IH]; intros n fuel seen this Hn Hcut Hfuel.
  { cbn in Hn. lia. }
  cbn [fst snd] in *.
  assert (Hn0 : n <> 0%nat) by (specialize (Hcut 0%nat); done).
  rewrite wire_record_cons in *. rewrite length_app, wire_field_length in Hn.
  destruct (Nat.lt_ge_cases n 8) as [Hlt8|Hge8].
  - (* the header is cut *)
    assert (Hlen : length (take n (wire_field id v ++ wire_record rest)) = n).
    { rewrite length_take, length_app, wire_field_length. lia. }
    destruct (take n (wire_field id v ++ wire_record rest)) as [|b data] eqn:Hdata;
      [simpl in Hlen; lia|].
    cbn [Serialization.import_loop]. unfold blen. rewrite Hlen.
    destruct (Z.ltb_spec (Z.of_nat n) 8) as [_|?]; [by eexists|lia].
  - destruct (Nat.lt_ge_cases n (8 + length v)) as [Hltv|Hgev].
    + (* the value is cut *)
      assert (Hdata : take n (wire_field id v ++ wire_record rest)
                      = Serialization.setUint32_le id
                        ++ Serialization.setUint32_le (blen v) ++ take (n - 8) v).
      { unfold wire_field. rewrite <- !app_assoc.
        rewrite take_app_ge by (rewrite setUint32_length; lia).
        rewrite take_app_ge by (rewrite !setUint32_length; lia).
        rewrite !setUint32_length.
        rewrite take_app_le by lia. do 3 f_equal. lia. }
      rewrite Hdata, import_loop_header by done.
      unfold blen. rewrite length_take.
      destruct (Z.ltb_spec (Z.of_nat ((n - 8) `min` length v)) (Z.of_nat (length v)))
        as [_|?]; [by eexists|lia].
    + (* the first field is whole *)
      assert (Hne : n <> (8 + length v)%nat).
      { specialize (Hcut 1%nat). cbn [take] in Hcut.
        rewrite take_0, wire_record_cons, length_app, wire_field_length in Hcut.
        cbn in Hcut. lia. }
      assert (Hdata : take n (wire_field id v ++ wire_record rest)
                      = wire_field id v ++ take (n - (8 + length v)) (wire_record rest)).
      { rewrite take_app_ge by (rewrite wire_field_length; lia).
        by rewrite wire_field_length. }
      rewrite Hdata, import_loop_field by done.
      destruct fuel as [|fuel]; [lia|].
      assert (Hex : forall seen' this',
                exists e,
                  Serialization.import_loop (S fuel) metadata
                    (take (n - (8 + length v)) (wire_record rest)) seen' this' = Err e).
      { intros seen' this'. apply IH; [lia| |lia].
        intros k Hk. apply (Hcut (S k)). cbn [take].
        rewrite wire_record_cons, length_app, wire_field_length. lia. }
      destruct (Serialization.find_descriptor metadata id) as [[key d]|]; [|apply Hex].
      destruct (Serialization.pd_deserialize d v) as [assign|e]; [apply Hex|by eexists].
Qed.

(** X10. [importProto] does not accept a record that is cut
    inside a field: the first [n] bytes of a record, [n] falling inside
    the header or the value of one of its fields, are refused with an
    error, whatever the class. *)
Theorem truncated_record_rejected {T} (metadata : Serialization.Metadata T) (empty : T)
    (fields : list (Z * bytes)) (n : nat) :
  metadata <> [] ->
  Forall (fun f => uint32 (fst f) /\ uint32 (blen (snd f))) fields ->
  (n < length (wire_record fields))%nat ->
  (forall k, n <> length (wire_record (take k fields))) ->
  exists e, Serialization.importProto metadata empty (take n (wire_record fields)) = Err e.
Proof.
  intros Hne Hfields Hn Hcut. unfold Serialization.importProto.
  destruct metadata as [|m metadata]; [done|]. cbn [length Nat.eqb].
  destruct (truncated_loop (m :: metadata) fields Hfields n
              (length (take n (wire_record fields))) [] empty Hn Hcut) as [e He].
  { rewrite length_take. lia. }
  rewrite He. by eexists.
Qed.

Lemma truncated_record_rejected_witness :
  exists e,
    Serialization.importProto BaseProtocol.metadata BaseProtocol.empty
      (take 9 (wire_record [(0, Serialization.setUint32_le 1)])) = Err e.
Proof.
  apply (truncated_record_rejected BaseProtocol.metadata BaseProtocol.empty
           [(0, Serialization.setUint32_le 1)] 9).
  - discriminate.
  - apply Forall_cons_2; [vm_compute; repeat split; discriminate|apply Forall_nil_2].
  - vm_compute. lia.
  - intros [|[|k]]; vm_compute; discriminate.
Defined.

(** ** Hexadecimal strings *)

Lemma hex_pair (b : byte) :
  let hi := Convert.hex_digit (Byte.to_N b / 16) in
  let lo := Convert.hex_digit (Byte.to_N b mod 16) in
  Convert.is_space hi = false
  /\ Convert.is_space lo = false
  /\ Convert.ToUint8 (Convert.parseInt16 (String hi (String lo EmptyString))) = b.
Proof. destruct b; vm_compute; done. Qed.

Lemma ToHex_length (data : bytes) : String.length (Convert.ToHex data) = (2 * length data)%nat.
Proof. induction data as [|b data IH]; simpl; lia. Qed.

(** X11. [FromHex] of utils/convert.ts reads back what [ToHex]
    writes: the hexadecimal string of a byte string has two characters
    for each byte, and [FromHex(ToHex(data))] is [data]; so two byte
    strings with the same hexadecimal string, as two digests with the
    same thumbprint, are equal. *)
Theorem FromHex_ToHex (data : bytes) :
  Convert.FromHex (Convert.ToHex data) = Done data
  /\ String.length (Convert.ToHex data) = (2 * length data)%nat
  /\ forall data' : bytes, Convert.ToHex data = Convert.ToHex data' -> data = data'.
Proof.
  assert (Hround : forall d, Convert.FromHex (Convert.ToHex d) = Done d).
  { intros d. unfold Convert.FromHex.
    assert (Hsp : Convert.remove_spaces (Convert.ToHex d) = Convert.ToHex d).
    { induction d as [|b d IH]; [done|].
      destruct (hex_pair b) as (Hhi & Hlo & _).
      cbn [Convert.ToHex Convert.remove_spaces]. rewrite Hhi, Hlo, IH. reflexivity. }
    rewrite Hsp, ToHex_length.
    rewrite Nat.even_mul. cbn [Nat.even orb negb]. f_equal. clear Hsp.
    induction d as [|b d IH]; [done|].
    destruct (hex_pair b) as (_ & _ & Hb).
    cbn [Convert.ToHex Convert.FromHex_loop]. rewrite Hb, IH. reflexivity. }
  split; [apply Hround|]. split; [apply ToHex_length|].
  intros data' Heq.
  assert (H := Hround data). rewrite Heq, Hround in H. congruence.
Qed.

(** ** Key pairs *)

Lemma toy_platform_laws : PlatformLaws Toy.engine Toy.platform.
Proof.
  split.
  - done.
  - intros msg sk _. cbn. by rewrite length_app, !toy_pad32_length.
  - intros msg sk _. cbn. by rewrite isEqual_refl.
Qed.

Lemma ToUint8_byteZ (b : byte) : Convert.ToUint8 (Some (Buffer.byteZ b)) = b.
Proof. destruct b; reflexivity. Qed.

Lemma Uint8Array_from_bytes (data : bytes) :
  Curve.Uint8Array_from (Buffer.byteZ <$> data) = data.
Proof.
  unfold Curve.Uint8Array_from. rewrite <- list_fmap_compose.
  induction data as [|b data IH]; [done|]. cbn. by rewrite ToUint8_byteZ, IH.
Qed.

Lemma createFromBytes_valid {E : Engine} (k : ECPublicKey) (type : CurveType) :
  valid_key type k -> PublicKey.createFromBytes (serialized k) type = Ok k.
Proof.
  intros (Htype & Hid & Hlen). unfold PublicKey.createFromBytes, blen. rewrite Hlen.
  cbn. destruct k. cbn in *. by subst.
Qed.

Lemma ecKeyPairToJson_FromJson {E : Engine} (kp : IECKeyPair) :
  storable_pair kp ->
  exists json,
    Curve.ecKeyPairToJson (Some kp) = Ok json
    /\ Curve.ecKeyPairFromJson (Curve.keyData json) = Done (extractable_pair kp).
Proof.
  intros [[sk Hsk] Hvalid]. unfold Curve.ecKeyPairToJson. cbn [req bind]. rewrite Hsk.
  eexists. split; [reflexivity|].
  unfold Curve.ecKeyPairFromJson, Curve.keyData.
  cbn [Curve.data_privateKey Curve.data_publicKey Curve.data_algorithm
       Curve.json_privateKey Curve.json_publicKey Curve.json_algorithm
       Curve.alg_name Curve.alg_namedCurve mbind option_bind].
  rewrite !Uint8Array_from_bytes.
  assert (Halg : Curve.curve_of_algorithmName
                   (Curve.or_string
                      (Some (PublicKey.curveName (algorithm (privateKey kp))))
                      (Some (PublicKey.curveName (algorithm (privateKey kp)))))
                 = Some (algorithm (privateKey kp))).
  { by destruct (algorithm (privateKey kp)). }
  rewrite Halg, (createFromBytes_valid _ _ Hvalid). cbn.
  destruct kp as [[alg ext raw] pub]. unfold extractable_pair, Curve.createPrivateKey.
  cbn in *. by subst.
Qed.

Lemma extractable_pair_id (kp : IECKeyPair) :
  extractable_pair kp = kp <-> extractable (privateKey kp) = true.
Proof.
  destruct kp as [[alg ext raw] pub]. unfold extractable_pair. cbn. split.
  - by intros [= <-].
  - by intros ->.
Qed.

(** X12. [Curve.ecKeyPairFromJson] reads back what
    [Curve.ecKeyPairToJson] of crypto/curve.ts writes, up to the
    [extractable] flag: a key pair whose private key carries its raw bytes
    and whose public key is a 32-byte key of the same curve comes back with
    the same curve, the same raw bytes and the same public key, and with
    [extractable] set, whatever the flag was.  So the pair comes back as
    it was exactly when its private key was extractable; a pair of
    [generateKeyPair(type, false)] does not.  A private key without raw
    bytes cannot be written. *)
Theorem keyPair_json_round_trip {E : Engine} (kp : IECKeyPair) :
  (storable_pair kp ->
   exists json,
     Curve.ecKeyPairToJson (Some kp) = Ok json
     /\ Curve.ecKeyPairFromJson (Curve.keyData json) = Done (extractable_pair kp)
     /\ (Curve.ecKeyPairFromJson (Curve.keyData json) = Done kp
         <-> extractable (privateKey kp) = true))
  /\ (rawBytes (privateKey kp) = None ->
      Curve.ecKeyPairToJson (Some kp) = Err CannotSerializeKey).
Proof.
  split.
  - intros Hkp. destruct (ecKeyPairToJson_FromJson kp Hkp) as (json & Hto & Hfrom).
    exists json. split; [done|]. split; [done|]. rewrite Hfrom.
    rewrite <- extractable_pair_id. split; [by intros [= ->]|by intros ->].
  - intros Hnone. unfold Curve.ecKeyPairToJson. cbn [req bind]. by rewrite Hnone.
Qed.

Lemma generateKeyPair_spec {E : Engine} {L : EngineLaws E} {P : Platform}
    {PL : PlatformLaws E P} (type : CurveType) (extractable : bool)
    (privateKeyBytes : bytes) :
  length privateKeyBytes = 32%nat ->
  exists kp,
    Curve.generateKeyPair type extractable privateKeyBytes = Ok kp
    /\ privateKey kp = {| algorithm := type; extractable := extractable;
                          rawBytes := Some privateKeyBytes |}
    /\ valid_key type (publicKey kp)
    /\ serialized (publicKey kp)
       = match type with
         | X25519 => x25519_getPublicKey privateKeyBytes
         | Ed25519 => ed25519_getPublicKey privateKeyBytes
         end
    /\ storable_pair kp
    /\ match type with
       | X25519 => wf_x25519 kp
       | Ed25519 => wf_ed25519 kp
       end.
Proof.
  intros Hlen. unfold Curve.generateKeyPair, PublicKey.createFromBytes, blen.
  destruct type.
  - rewrite (ed25519_public_length _ Hlen). cbn. eexists. split; [reflexivity|].
    assert (Hv : valid_key (E := E) Ed25519
                   {| pk_id := PublicKey.thumbprint (ed25519_getPublicKey privateKeyBytes);
                      pk_type := Ed25519;
                      serialized := ed25519_getPublicKey privateKeyBytes |}).
    { repeat split. cbn. by apply ed25519_public_length. }
    split; [done|]. split; [exact Hv|]. split; [done|].
    split; [split; [by eexists|exact Hv]|]. by exists privateKeyBytes.
  - rewrite (x25519_public_length _ Hlen). cbn. eexists. split; [reflexivity|].
    assert (Hv : valid_key (E := E) X25519
                   {| pk_id := PublicKey.thumbprint (x25519_getPublicKey privateKeyBytes);
                      pk_type := X25519;
                      serialized := x25519_getPublicKey privateKeyBytes |}).
    { repeat split. cbn. by apply x25519_public_length. }
    split; [done|]. split; [exact Hv|]. split; [done|].
    split; [split; [by eexists|exact Hv]|]. by exists privateKeyBytes.
Qed.

(** X13. [Curve.generateKeyPair] of crypto/curve.ts, given the 32
    bytes that [randomPrivateKey()] returns, builds a pair whose private
    key holds those bytes and the given [extractable] flag, and whose
    public key is the 32-byte key that the curve derives from them, with
    its thumbprint as id; the pair can be written to JSON. *)
Theorem generateKeyPair_well_formed {E : Engine} {L : EngineLaws E} {P : Platform}
    {PL : PlatformLaws E P} (type : CurveType) (extractable : bool)
    (privateKeyBytes : bytes) :
  length privateKeyBytes = 32%nat ->
  exists kp,
    Curve.generateKeyPair type extractable privateKeyBytes = Ok kp
    /\ privateKey kp = {| algorithm := type; extractable := extractable;
                          rawBytes := Some privateKeyBytes |}
    /\ valid_key type (publicKey kp)
    /\ serialized (publicKey kp)
       = match type with
         | X25519 => x25519_getPublicKey privateKeyBytes
         | Ed25519 => ed25519_getPublicKey privateKeyBytes
         end
    /\ storable_pair kp
    /\ match type with
       | X25519 => wf_x25519 kp
       | Ed25519 => wf_ed25519 kp
       end.
Proof. apply generateKeyPair_spec. Qed.

Lemma generateKeyPair_well_formed_witness :
  exists kp,
    Curve.generateKeyPair (E := Toy.engine) (P := Toy.platform) Ed25519 false
      (repeat x0a 32) = Ok kp
    /\ privateKey kp = {| algorithm := Ed25519; extractable := false;
                          rawBytes := Some (repeat x0a 32) |}
    /\ valid_key (E := Toy.engine) Ed25519 (publicKey kp)
    /\ serialized (publicKey kp) = ed25519_getPublicKey (Platform := Toy.platform) (repeat x0a 32)
    /\ storable_pair (E := Toy.engine) kp
    /\ wf_ed25519 (E := Toy.engine) (P := Toy.platform) kp.
Proof.
  apply (generateKeyPair_well_formed (E := Toy.engine) (L := toy_laws) (P := Toy.platform)
           (PL := toy_platform_laws) Ed25519 false (repeat x0a 32)).
  reflexivity.
Defined.

(** ** Identities *)

Lemma generateKeys_spec {E : Engine} {L : EngineLaws E} {P : Platform}
    {PL : PlatformLaws E P} (ext : bool) (random : nat -> bytes) :
  (forall n, length (random n) = 32%nat) ->
  forall (amount first : nat),
    exists keys,
      Identity.generateKeys amount ext random first = Ok keys
      /\ length keys = amount
      /\ Forall (fun k => exists kp, k = Some kp /\ storable_pair kp /\ wf_x25519 kp
                                    /\ extractable (privateKey kp) = ext) keys
      /\ forall i, (i < amount)%nat ->
           exists kp, keys !! i = Some (Some kp)
                      /\ rawBytes (privateKey kp) = Some (random (first + i)%nat).
Proof.
  intros Hrandom. induction amount as [|amount IH]; intros first.
  - exists []. repeat split; [constructor|]. intros i Hi. lia.
  - cbn [Identity.generateKeys].
    destruct (generateKeyPair_spec X25519 ext (random first) (Hrandom first))
      as (kp & -> & Hpriv & _ & _ & Hst & Hwf).
    destruct (IH (S first)) as (keys & -> & Hlen & Hall & Hget).
    cbn. eexists. split; [reflexivity|]. split; [cbn; lia|].
    split; [constructor; [exists kp; by rewrite Hpriv|done]|].
    intros [|i] Hi.
    + exists kp. split; [done|]. rewrite Hpriv. cbn. do 2 f_equal. lia.
    + destruct (Hget i) as (kp' & Hk & Hraw); [lia|]. exists kp'. split; [done|].
      rewrite Hraw. do 2 f_equal. lia.
Qed.

Lemma JsArray_get_Some {A} (arr : list (option A)) (i : nat) (a : A) :
  arr !! i = Some (Some a) -> JsArray.get arr (Z.of_nat i) = Some a.
Proof.
  intros H. unfold JsArray.get. destruct (Z.ltb_spec (Z.of_nat i) 0); [lia|].
  by rewrite Nat2Z.id, H.
Qed.

(** X14. [Identity.create(id, signedPreKeyAmount, preKeyAmount,
    extractable)] of data/identity.ts, when [randomPrivateKey()] returns 32
    bytes each time, returns an identity with a well-formed Ed25519 signing
    pair, a well-formed X25519 exchange pair, exactly [preKeyAmount]
    one-time pre-keys and [signedPreKeyAmount] signed pre-keys (none for a
    negative amount), every one a well-formed X25519 pair at its index;
    every private key carries the given [extractable] flag; the identity
    can be written to JSON when its date can. *)
Theorem Identity_create_spec {E : Engine} {L : EngineLaws E} {P : Platform}
    {PL : PlatformLaws E P} (id signedPreKeyAmount preKeyAmount : Z) (ext : bool) (now : Z)
    (random : nat -> bytes) :
  (forall n, length (random n) = 32%nat) ->
  exists identity,
    Identity.create id signedPreKeyAmount preKeyAmount ext now random = Ok identity
    /\ Identity.id identity = id
    /\ Identity.createdAt identity = DateAt now
    /\ wf_ed25519 (Identity.signingKey identity)
    /\ wf_x25519 (Identity.exchangeKey identity)
    /\ JsArray.length (Identity.preKeys identity) = Z.max 0 preKeyAmount
    /\ JsArray.length (Identity.signedPreKeys identity) = Z.max 0 signedPreKeyAmount
    /\ (forall i, 0 <= i < preKeyAmount ->
          exists kp, JsArray.get (Identity.preKeys identity) i = Some kp /\ wf_x25519 kp
                     /\ extractable (privateKey kp) = ext)
    /\ (forall i, 0 <= i < signedPreKeyAmount ->
          exists kp, JsArray.get (Identity.signedPreKeys identity) i = Some kp
                     /\ wf_x25519 kp /\ extractable (privateKey kp) = ext)
    /\ extractable (privateKey (Identity.signingKey identity)) = ext
    /\ extractable (privateKey (Identity.exchangeKey identity)) = ext
    /\ (Date_parse (toISOString now) = Some now -> storable_identity identity).
Proof.
  intros Hrandom. unfold Identity.create.
  destruct (generateKeyPair_spec Ed25519 ext (random 0%nat) (Hrandom 0%nat))
    as (sk & -> & Hpriv_sk & _ & _ & Hst_sk & Hwf_sk).
  destruct (generateKeyPair_spec X25519 ext (random 1%nat) (Hrandom 1%nat))
    as (ek & -> & Hpriv_ek & _ & _ & Hst_ek & Hwf_ek).
  destruct (generateKeys_spec ext random Hrandom (Z.to_nat preKeyAmount) 2)
    as (pks & -> & Hlen_p & Hall_p & Hget_p).
  destruct (generateKeys_spec ext random Hrandom (Z.to_nat signedPreKeyAmount)
              (2 + Z.to_nat preKeyAmount))
    as (spks & -> & Hlen_s & Hall_s & Hget_s).
  cbn. eexists. split; [reflexivity|]. cbn.
  assert (Hget : forall (keys : list (option IECKeyPair)) (amount : Z),
            length keys = Z.to_nat amount ->
            Forall (fun k => exists kp, k = Some kp /\ storable_pair kp /\ wf_x25519 kp
                                        /\ extractable (privateKey kp) = ext) keys ->
            forall i, 0 <= i < amount ->
              exists kp, JsArray.get keys i = Some kp /\ wf_x25519 kp
                         /\ extractable (privateKey kp) = ext).
  { intros keys amount Hlen Hall i Hi.
    destruct (lookup_lt_is_Some_2 keys (Z.to_nat i)) as [k Hk]; [lia|].
    destruct (proj1 (Forall_lookup _ _) Hall _ _ Hk) as (kp & -> & _ & Hwf).
    exists kp. split; [|done]. rewrite <- (Z2Nat.id i) by lia. by apply JsArray_get_Some. }
  split; [done|]. split; [done|]. split; [done|]. split; [done|].
  split; [unfold JsArray.length; lia|]. split; [unfold JsArray.length; lia|].
  split; [by apply Hget|]. split; [by apply Hget|].
  split; [by rewrite Hpriv_sk|]. split; [by rewrite Hpriv_ek|].
  intros Hdate. split; [done|]. split; [done|].
  split; [eapply Forall_impl; [exact Hall_p|]; intros k (kp & -> & ? & _); by exists kp|].
  split; [eapply Forall_impl; [exact Hall_s|]; intros k (kp & -> & ? & _); by exists kp|].
  by exists now.
Qed.

Lemma keysToJson_FromJson {E : Engine} (keys : list (option IECKeyPair)) :
  Forall (fun k => exists kp, k = Some kp /\ storable_pair kp) keys ->
  exists jsons,
    Identity.keysToJson keys = Ok jsons
    /\ Identity.keysFromJson jsons = Done (option_map extractable_pair <$> keys).
Proof.
  induction 1 as [|k keys (kp & -> & Hst) _ (jsons & Hto & Hfrom)].
  - by exists [].
  - destruct (ecKeyPairToJson_FromJson kp Hst) as (json & Hj & Hback).
    exists (json :: jsons). cbn [Identity.keysToJson Identity.keysFromJson].
    by rewrite Hj, Hto, Hback, Hfrom.
Qed.

(** X15. [Identity.fromJSON] reads back what [toJSON] of
    data/identity.ts writes, up to the [extractable] flags: an identity
    whose key pairs carry their raw bytes, whose pre-key arrays have no
    hole and whose date is valid comes back with its id, its date and every
    key pair at its place, each with the same curve, raw bytes and public
    key, and with [extractable] set on every private key.  An identity
    whose signing key is not extractable, as [Identity.create] makes it by
    default, does therefore not come back as it was. *)
Theorem Identity_json_round_trip {E : Engine} (identity : Identity.t) :
  storable_identity identity ->
  exists json,
    Identity.toJSON identity = Ok json
    /\ Identity.fromJSON json = Done (extractable_identity identity)
    /\ (extractable (privateKey (Identity.signingKey identity)) = false ->
        Identity.fromJSON json <> Done identity).
Proof.
  intros (Hsk & Hek & Hp & Hs & ms & Hdate & Hparse).
  destruct (ecKeyPairToJson_FromJson _ Hsk) as (jsk & Hjsk & Hbsk).
  destruct (ecKeyPairToJson_FromJson _ Hek) as (jek & Hjek & Hbek).
  destruct (keysToJson_FromJson _ Hp) as (jp & Hjp & Hbp).
  destruct (keysToJson_FromJson _ Hs) as (js & Hjs & Hbs).
  unfold Identity.toJSON, Identity.toJSON_preKeys.
  rewrite Hjp, Hjs, Hdate, Hjek, Hjsk. cbn. eexists. split; [reflexivity|].
  unfold Identity.fromJSON.
  cbn [Identity.json_id Identity.json_signingKey Identity.json_exchangeKey
       Identity.json_preKeys Identity.json_signedPreKeys Identity.json_createdAt].
  rewrite Hbsk, Hbek, Hbp, Hbs, Hparse. cbn.
  assert (Hback : Done {| Identity.id := Identity.id identity;
                          Identity.signingKey := extractable_pair (Identity.signingKey identity);
                          Identity.exchangeKey :=
                            extractable_pair (Identity.exchangeKey identity);
                          Identity.createdAt := DateAt ms;
                          Identity.preKeys :=
                            option_map extractable_pair <$> Identity.preKeys identity;
                          Identity.signedPreKeys :=
                            option_map extractable_pair <$> Identity.signedPreKeys identity |}
                  = Done (extractable_identity identity)).
  { unfold extractable_identity. by rewrite Hdate. }
  rewrite Hback. split; [done|].
  intros Hext [= Heq]. apply (f_equal Identity.signingKey) in Heq.
  apply (f_equal (fun kp => extractable (privateKey kp))) in Heq.
  cbn in Heq. congruence.
Qed.

Lemma toy_storable_pair (type : CurveType) (raw : bytes) :
  length raw = 32%nat -> storable_pair (E := Toy.engine) (Toy.keyPair type raw).
Proof. intros Hlen. split; [by eexists|]. by repeat split. Qed.

Lemma Identity_create_spec_witness :
  exists identity,
    Identity.create (E := Toy.engine) (P := Toy.platform) 7 1 2 false 0
      (fun n => repeat x0a 32) = Ok identity
    /\ Identity.id identity = 7
    /\ Identity.createdAt identity = DateAt 0
    /\ wf_ed25519 (E := Toy.engine) (P := Toy.platform) (Identity.signingKey identity)
    /\ wf_x25519 (E := Toy.engine) (Identity.exchangeKey identity)
    /\ JsArray.length (Identity.preKeys identity) = Z.max 0 2
    /\ JsArray.length (Identity.signedPreKeys identity) = Z.max 0 1
    /\ (forall i, 0 <= i < 2 ->
          exists kp, JsArray.get (Identity.preKeys identity) i = Some kp
                     /\ wf_x25519 (E := Toy.engine) kp
                     /\ extractable (privateKey kp) = false)
    /\ (forall i, 0 <= i < 1 ->
          exists kp, JsArray.get (Identity.signedPreKeys identity) i = Some kp
                     /\ wf_x25519 (E := Toy.engine) kp
                     /\ extractable (privateKey kp) = false)
    /\ extractable (privateKey (Identity.signingKey identity)) = false
    /\ extractable (privateKey (Identity.exchangeKey identity)) = false
    /\ (Date_parse (Engine := Toy.engine) (toISOString (Engine := Toy.engine) 0) = Some 0 ->
        storable_identity (E := Toy.engine) identity).
Proof.
  apply (Identity_create_spec (E := Toy.engine) (L := toy_laws) (P := Toy.platform)
           (PL := toy_platform_laws) 7 1 2 false 0 (fun n => repeat x0a 32)).
  reflexivity.
Defined.

Lemma Identity_json_round_trip_witness :
  exists json,
    Identity.toJSON (E := Toy.engine) Fixtures.alice = Ok json
    /\ Identity.fromJSON (E := Toy.engine) json = Done (extractable_identity Fixtures.alice)
    /\ (extractable (privateKey (Identity.signingKey Fixtures.alice)) = false ->
        Identity.fromJSON (E := Toy.engine) json <> Done Fixtures.alice).
Proof.
  apply (Identity_json_round_trip (E := Toy.engine) Fixtures.alice).
  split; [by apply toy_storable_pair|]. split; [by apply toy_storable_pair|].
  split; [apply Forall_cons_2; [|apply Forall_nil_2]; eexists; split; [reflexivity|];
          by apply toy_storable_pair|].
  split; [apply Forall_cons_2; [|apply Forall_nil_2]; eexists; split; [reflexivity|];
          by apply toy_storable_pair|].
  exists 0. split; reflexivity.
Defined.

(** ** Chains, steps and sessions written to JSON *)

Lemma foldr_set_creationTime (stamp : Z -> Z) (l : list Z) (this : ReceivingRatchet.t) :
  let r := foldr (fun c this => ReceivingRatchet.set_creationTime c (stamp c) this) this l in
  ReceivingRatchet.counter r = ReceivingRatchet.counter this
  /\ ReceivingRatchet.rootKey r = ReceivingRatchet.rootKey this
  /\ ReceivingRatchet.messageKeys r = ReceivingRatchet.messageKeys this
  /\ forall c, ReceivingRatchet.messageKeysCreationTime r !! c
               = if decide (c ∈ l) then Some (stamp c)
                 else ReceivingRatchet.messageKeysCreationTime this !! c.
Proof.
  induction l as [|x l (Hc & Hr & Hk & Ht)]; cbn.
  - split; [done|]. split; [done|]. split; [done|].
    intros c. case_decide as H; [by apply elem_of_nil in H|done].
  - split; [done|]. split; [done|]. split; [done|]. intros c.
    destruct (decide (c = x)) as [->|Hne].
    + rewrite lookup_insert_eq. case_decide as H; [done|]. exfalso. apply H. by left.
    + rewrite lookup_insert_ne by done. rewrite Ht.
      repeat case_decide; try done.
      * exfalso. match goal with H : _ ∉ _ :: _ |- _ => apply H end. by right.
      * match goal with H : _ ∈ _ :: _ |- _ => apply elem_of_cons in H as [?|?] end; done.
Qed.

Lemma ReceivingRatchet_restored (chain : ReceivingRatchet.t) (stamp : Z -> Z) :
  let restored := ReceivingRatchet.fromJSON (ReceivingRatchet.toJSON chain) stamp in
  ReceivingRatchet.counter restored = ReceivingRatchet.counter chain
  /\ ReceivingRatchet.rootKey restored = ReceivingRatchet.rootKey chain
  /\ ReceivingRatchet.messageKeys restored = ReceivingRatchet.messageKeys chain
  /\ forall c, ReceivingRatchet.messageKeysCreationTime restored !! c
               = (fun _ => stamp c) <$> ReceivingRatchet.messageKeys chain !! c.
Proof.
  unfold ReceivingRatchet.fromJSON, ReceivingRatchet.toJSON.
  cbn [ReceivingRatchet.json_counter ReceivingRatchet.json_rootKey
       ReceivingRatchet.json_messageKeys].
  match goal with
  | |- context [foldr _ ?init ?l] =>
      destruct (foldr_set_creationTime stamp l init) as (Hc & Hr & Hk & Ht)
  end.
  cbv zeta. split; [done|]. split; [done|]. split; [done|].
  intros c. rewrite Ht. cbn.
  destruct (keyCounters_spec (ReceivingRatchet.messageKeys chain)) as (_ & _ & Hin).
  case_decide as H.
  - apply Hin in H as [key ->]. done.
  - destruct (ReceivingRatchet.messageKeys chain !! c) as [key|] eqn:Hl; [|done].
    exfalso. apply H, Hin. by eexists.
Qed.

(** X16. A receiving chain of sym_ratchet.ts keeps its counter,
    its chain key and its cached message keys through [toJSON] and
    [fromJSON], but not their age: every cached key is stamped with the
    time of the restoration.  So a key that was cached before, even one
    that had expired, is served by the restored chain as long as the
    restoration is not older than [MAX_CACHED_KEY_AGE]. *)
Theorem ReceivingRatchet_json_restamps {E : Engine} (chain : ReceivingRatchet.t)
    (stamp : Z -> Z) :
  let restored := ReceivingRatchet.fromJSON (ReceivingRatchet.toJSON chain) stamp in
  ReceivingRatchet.counter restored = ReceivingRatchet.counter chain
  /\ ReceivingRatchet.rootKey restored = ReceivingRatchet.rootKey chain
  /\ ReceivingRatchet.messageKeys restored = ReceivingRatchet.messageKeys chain
  /\ (forall c, ReceivingRatchet.messageKeysCreationTime restored !! c
                = (fun _ => stamp c) <$> ReceivingRatchet.messageKeys chain !! c)
  /\ (forall c key now stamp',
        ReceivingRatchet.messageKeys chain !! c = Some key ->
        now - stamp c <= ReceivingRatchet.MAX_CACHED_KEY_AGE ->
        fst (ReceivingRatchet.getKey c now stamp' restored) = Ok key).
Proof.
  intros restored.
  destruct (ReceivingRatchet_restored chain stamp) as (Hc & Hr & Hk & Ht).
  fold restored in Hc, Hr, Hk, Ht.
  split; [done|]. split; [done|]. split; [done|]. split; [done|].
  intros c key now stamp' Hkey Hage.
  unfold ReceivingRatchet.getKey. rewrite cleanup_messageKeys.
  case_decide as Hexp.
  - apply elem_of_expired in Hexp as (t & Hti & Hold).
    rewrite Ht, Hkey in Hti. cbn in Hti. injection Hti as <-. lia.
  - by rewrite Hk, Hkey.
Qed.

Lemma create_key {E : Engine} {P : Platform} (k : ECPublicKey) :
  pk_id k = PublicKey.thumbprint (serialized k) ->
  PublicKey.create (PublicKey.key k) = Done k.
Proof.
  intros Hid. unfold PublicKey.create, PublicKey.key.
  cbn [ck_name ck_type ck_rawBytes].
  destruct k as [id type raw]. cbn in *. subst. by destruct type.
Qed.

(** X17. A step of ratchet/dh-step.ts comes back from
    [toJSON] and [fromJSON] with its remote ratchet key, its sending chain
    and its skipped keys; its receiving chain is restamped, its key id is
    the id of the remote ratchet key, and its [lastDecryptedCounter] comes
    back as -1 when it was 0, for [obj.lastDecryptedCounter || -1] takes 0
    for a missing value. *)
Theorem DHRatchetStep_json_round_trip {E : Engine} {P : Platform}
    (step : DHRatchetStepEnhanced.t) (stamp : Z -> Z) :
  (forall k, DHRatchetStepEnhanced.remoteRatchetKey step = Some k ->
             pk_id k = PublicKey.thumbprint (serialized k)) ->
  DHRatchetStepEnhanced.fromJSON (DHRatchetStepEnhanced.toJSON step) stamp
  = Done {| DHRatchetStepEnhanced.remoteRatchetKey :=
              DHRatchetStepEnhanced.remoteRatchetKey step;
            DHRatchetStepEnhanced.sendingChain := DHRatchetStepEnhanced.sendingChain step;
            DHRatchetStepEnhanced.receivingChain :=
              (fun chain => ReceivingRatchet.fromJSON (ReceivingRatchet.toJSON chain) stamp)
              <$> DHRatchetStepEnhanced.receivingChain step;
            DHRatchetStepEnhanced.ratchetKeyId :=
              pk_id <$> DHRatchetStepEnhanced.remoteRatchetKey step;
            DHRatchetStepEnhanced.lastDecryptedCounter :=
              if DHRatchetStepEnhanced.lastDecryptedCounter step =? 0 then -1
              else DHRatchetStepEnhanced.lastDecryptedCounter step;
            DHRatchetStepEnhanced.skippedMessageKeys :=
              DHRatchetStepEnhanced.skippedMessageKeys step |}.
Proof.
  intros Hid. unfold DHRatchetStepEnhanced.fromJSON, DHRatchetStepEnhanced.toJSON.
  cbn [DHRatchetStepEnhanced.json_remoteRatchetKey DHRatchetStepEnhanced.json_sendingChain
       DHRatchetStepEnhanced.json_receivingChain DHRatchetStepEnhanced.json_ratchetKeyId
       DHRatchetStepEnhanced.json_lastDecryptedCounter
       DHRatchetStepEnhanced.json_skippedMessageKeys].
  assert (Hsend : SendingRatchet.fromJSON
                  <$> (SendingRatchet.toJSON <$> DHRatchetStepEnhanced.sendingChain step)
                  = DHRatchetStepEnhanced.sendingChain step).
  { destruct (DHRatchetStepEnhanced.sendingChain step) as [[c r]|]; done. }
  rewrite Hsend.
  destruct (DHRatchetStepEnhanced.remoteRatchetKey step) as [k|] eqn:Hk; cbn.
  - rewrite (create_key k (Hid k eq_refl)). cbn.
    rewrite (Hid k eq_refl).
    destruct (negb _); by destruct (DHRatchetStepEnhanced.receivingChain step).
  - by destruct (DHRatchetStepEnhanced.receivingChain step).
Qed.

Lemma DHRatchetStep_json_round_trip_witness :
  DHRatchetStepEnhanced.fromJSON (E := Toy.engine) (P := Toy.platform)
    (DHRatchetStepEnhanced.toJSON Tampered.step) (fun _ => 5)
  = Done {| DHRatchetStepEnhanced.remoteRatchetKey :=
              DHRatchetStepEnhanced.remoteRatchetKey Tampered.step;
            DHRatchetStepEnhanced.sendingChain :=
              DHRatchetStepEnhanced.sendingChain Tampered.step;
            DHRatchetStepEnhanced.receivingChain :=
              (fun chain => ReceivingRatchet.fromJSON (ReceivingRatchet.toJSON chain)
                              (fun _ => 5))
              <$> DHRatchetStepEnhanced.receivingChain Tampered.step;
            DHRatchetStepEnhanced.ratchetKeyId :=
              pk_id <$> DHRatchetStepEnhanced.remoteRatchetKey Tampered.step;
            DHRatchetStepEnhanced.lastDecryptedCounter :=
              if DHRatchetStepEnhanced.lastDecryptedCounter Tampered.step =? 0 then -1
              else DHRatchetStepEnhanced.lastDecryptedCounter Tampered.step;
            DHRatchetStepEnhanced.skippedMessageKeys :=
              DHRatchetStepEnhanced.skippedMessageKeys Tampered.step |}.
Proof.
  apply (DHRatchetStep_json_round_trip (E := Toy.engine) (P := Toy.platform)
           Tampered.step (fun _ => 5)).
  intros k Hk. vm_compute in Hk. injection Hk as <-. vm_compute. reflexivity.
Defined.

(** X18. A session of ratchet/asymmetric-ratchet.ts whose
    ring holds no step, as every session created from a pre-key bundle
    before it has received a message, loses its current step in [toJSON]
    and [fromJSON]: the JSON holds the steps of the ring only.  The
    restored session has the root key, the counter and the ratchet key
    pair (its private key now extractable, as [ecKeyPairFromJson] makes
    it), a ring with the default limits and a new, empty current step; its
    [encrypt] fails, since that step has no remote ratchet key. *)
Theorem restored_session_cannot_encrypt {E : Engine} {P : Platform}
    (this : AsymmetricRatchet.t) (stamp : nat -> Z -> Z) (unassigned : Z) :
  DHRatchetStepStackEnhanced.items (AsymmetricRatchet.steps this) = [] ->
  storable_pair (AsymmetricRatchet.currentRatchetKey this) ->
  is_Some (RemoteIdentity.signingKey (AsymmetricRatchet.remoteIdentity this)) ->
  exists json restored,
    AsymmetricRatchet.toJSON this = Ok json
    /\ AsymmetricRatchet.fromJSON (AsymmetricRatchet.identity this)
         (AsymmetricRatchet.remoteIdentity this) json stamp unassigned = Done restored
    /\ AsymmetricRatchet.rootKey restored = AsymmetricRatchet.rootKey this
    /\ AsymmetricRatchet.counter restored = AsymmetricRatchet.counter this
    /\ AsymmetricRatchet.currentRatchetKey restored
       = extractable_pair (AsymmetricRatchet.currentRatchetKey this)
    /\ AsymmetricRatchet.steps restored = DHRatchetStepStackEnhanced.new no_limits
    /\ AsymmetricRatchet.heap restored !! AsymmetricRatchet.currentStep restored
       = Some DHRatchetStepEnhanced.new
    /\ forall message freshRatchetKey,
         AsymmetricRatchet.encrypt message freshRatchetKey restored
         = (Err EmptyRemoteRatchetKey, restored).
Proof.
  intros Hitems Hst [sk Hsk].
  destruct (ecKeyPairToJson_FromJson _ Hst) as (jkey & Hjkey & Hback).
  unfold AsymmetricRatchet.toJSON, DHRatchetStepStackEnhanced.toJSON.
  rewrite Hjkey, Hsk, Hitems. cbn [bind req DHRatchetStepStackEnhanced.items_toJSON].
  eexists. eexists. split; [reflexivity|].
  unfold AsymmetricRatchet.fromJSON.
  cbn [AsymmetricRatchet.json_ratchetKey AsymmetricRatchet.json_steps
       AsymmetricRatchet.json_rootKey AsymmetricRatchet.json_counter].
  rewrite Hback. cbn [bindO AsymmetricRatchet.fromJSON_steps].
  split; [reflexivity|]. repeat (split; [reflexivity|]).
  intros message freshRatchetKey. reflexivity.
Qed.

Lemma restored_session_cannot_encrypt_witness :
  exists json restored,
    AsymmetricRatchet.toJSON (E := Toy.engine) Shuffled.bob = Ok json
    /\ AsymmetricRatchet.fromJSON (E := Toy.engine) (P := Toy.platform)
         (AsymmetricRatchet.identity Shuffled.bob)
         (AsymmetricRatchet.remoteIdentity Shuffled.bob) json (fun _ _ => 0) 0
       = Done restored
    /\ AsymmetricRatchet.rootKey restored = AsymmetricRatchet.rootKey Shuffled.bob
    /\ AsymmetricRatchet.counter restored = AsymmetricRatchet.counter Shuffled.bob
    /\ AsymmetricRatchet.currentRatchetKey restored
       = extractable_pair (AsymmetricRatchet.currentRatchetKey Shuffled.bob)
    /\ AsymmetricRatchet.steps restored = DHRatchetStepStackEnhanced.new no_limits
    /\ AsymmetricRatchet.heap restored !! AsymmetricRatchet.currentStep restored
       = Some DHRatchetStepEnhanced.new
    /\ forall message freshRatchetKey,
         AsymmetricRatchet.encrypt (E := Toy.engine) message freshRatchetKey restored
         = (Err EmptyRemoteRatchetKey, restored).
Proof.
  apply (restored_session_cannot_encrypt (E := Toy.engine) (P := Toy.platform)
           Shuffled.bob (fun _ _ => 0) 0).
  - reflexivity.
  - by apply toy_storable_pair.
  - by eexists.
Defined.

(** ** Remote identities *)

(** X19. A remote identity of data/remote_identity.ts that
    holds its two keys, with their thumbprints as ids, and a valid date
    can be written to JSON; [RemoteIdentity.fromJSON] reads it back as it
    was when its signature verifies, and refuses it when it does not. *)
Theorem RemoteIdentity_json_round_trip {E : Engine} {P : Platform}
    (this : RemoteIdentity.t) (sk ek : ECPublicKey) (date : JsDate) :
  RemoteIdentity.signingKey this = Some sk ->
  RemoteIdentity.exchangeKey this = Some ek ->
  RemoteIdentity.createdAt this = Some date ->
  pk_id sk = PublicKey.thumbprint (serialized sk) ->
  pk_id ek = PublicKey.thumbprint (serialized ek) ->
  storable_date date ->
  exists json,
    RemoteIdentity.toJSON this = Ok json
    /\ ((RemoteIdentity.verify this = Ok true /\ RemoteIdentity.fromJSON json = Done this)
        \/ (RemoteIdentity.verify this = Ok false
            /\ RemoteIdentity.fromJSON json = Failed WrongRemoteSignature)).
Proof.
  intros Hsk Hek Hdate Hidsk Hidek (ms & -> & Hparse).
  unfold RemoteIdentity.toJSON. rewrite Hdate, Hek, Hsk. cbn [req bind].
  eexists. split; [reflexivity|].
  unfold RemoteIdentity.fromJSON.
  cbn [RemoteIdentity.json_id RemoteIdentity.json_signingKey RemoteIdentity.json_exchangeKey
       RemoteIdentity.json_signature RemoteIdentity.json_createdAt].
  rewrite !create_key by done. cbn [bindO]. rewrite Hparse.
  assert (Hthis : {| RemoteIdentity.id := RemoteIdentity.id this;
                     RemoteIdentity.signingKey := Some sk;
                     RemoteIdentity.exchangeKey := Some ek;
                     RemoteIdentity.signature := RemoteIdentity.signature this;
                     RemoteIdentity.createdAt := Some (DateAt ms) |} = this).
  { destruct this. cbn in *. by subst. }
  rewrite Hthis.
  assert (Hv : exists b, RemoteIdentity.verify this = Ok b).
  { unfold RemoteIdentity.verify. rewrite Hek, Hsk. cbn [req bind].
    unfold Curve.verify, Curve.try_catch.
    destruct (Curve.verify_body _ _ _) as [b|e]; by eexists. }
  destruct Hv as [b Hv]. rewrite Hv. cbn [raise bindO].
  destruct b; [left|right]; done.
Qed.

Lemma RemoteIdentity_json_round_trip_witness :
  exists json,
    RemoteIdentity.toJSON (E := Toy.engine) (AsymmetricRatchet.remoteIdentity Shuffled.alice)
    = Ok json
    /\ ((RemoteIdentity.verify (E := Toy.engine)
           (AsymmetricRatchet.remoteIdentity Shuffled.alice) = Ok true
         /\ RemoteIdentity.fromJSON (E := Toy.engine) (P := Toy.platform) json
            = Done (AsymmetricRatchet.remoteIdentity Shuffled.alice))
        \/ (RemoteIdentity.verify (E := Toy.engine)
              (AsymmetricRatchet.remoteIdentity Shuffled.alice) = Ok false
            /\ RemoteIdentity.fromJSON (E := Toy.engine) (P := Toy.platform) json
               = Failed WrongRemoteSignature)).
Proof.
  apply (RemoteIdentity_json_round_trip (E := Toy.engine) (P := Toy.platform)
           (AsymmetricRatchet.remoteIdentity Shuffled.alice)
           (publicKey (Identity.signingKey Fixtures.bob))
           (publicKey (Identity.exchangeKey Fixtures.bob)) (DateAt 0));
    try reflexivity.
  exists 0. split; reflexivity.
Defined.

(** ** Signatures *)

Lemma sign_verify {E : Engine} {P : Platform} {PL : PlatformLaws E P}
    (kp : IECKeyPair) (msg : bytes) :
  wf_ed25519 kp ->
  exists sig,
    Curve.sign (privateKey kp) msg = Ok sig
    /\ Curve.verify (publicKey kp) msg sig = Ok true.
Proof.
  intros (sk & Hraw & Hlen & Hpub).
  exists (ed25519_sign msg sk). split.
  - unfold Curve.sign, blen. by rewrite Hraw, Hlen.
  - unfold Curve.verify, Curve.verify_body, blen.
    rewrite Hpub, (ed25519_public_length _ Hlen), (ed25519_signature_length msg _ Hlen).
    cbn [Z.eqb Z.of_nat Pos.of_succ_nat Pos.succ Pos.eqb negb].
    by rewrite (ed25519_correct _ _ Hlen).
Qed.

Lemma fill_verifies {E : Engine} {P : Platform} {PL : PlatformLaws E P}
    (identity : Identity.t) :
  wf_ed25519 (Identity.signingKey identity) ->
  exists idp,
    IdentityProtocol.fill IdentityProtocol.empty identity = Ok idp
    /\ IdentityProtocol.verify idp = Ok true
    /\ IdentityProtocol.signingKey idp = Some (publicKey (Identity.signingKey identity))
    /\ IdentityProtocol.exchangeKey idp = Some (publicKey (Identity.exchangeKey identity))
    /\ IdentityProtocol.createdAt idp = Some (Identity.createdAt identity).
Proof.
  intros Hwf.
  destruct (sign_verify (Identity.signingKey identity)
              (serialized (publicKey (Identity.exchangeKey identity))) Hwf)
    as (sig & Hsign & Hverify).
  unfold IdentityProtocol.fill. rewrite Hsign. cbn [bind].
  eexists. split; [reflexivity|].
  unfold IdentityProtocol.verify. cbn. by rewrite Hverify.
Qed.

(** X20. The signatures of a bundle verify: for an identity
    whose signing pair is a well-formed Ed25519 pair,
    [IdentityProtocol.fill(identity)] of protocol/identity.ts succeeds and
    the result passes [verify()], and a [PreKeySignedProtocol] signed with
    the private signing key passes [verify] under the public signing key,
    and keeps its id and its key. *)
Theorem bundle_signatures_verify {E : Engine} {P : Platform} {PL : PlatformLaws E P}
    (identity : Identity.t) (preKeySigned : PreKeySignedProtocol.t) (k : ECPublicKey) :
  wf_ed25519 (Identity.signingKey identity) ->
  PreKeySignedProtocol.key preKeySigned = Some k ->
  (exists idp,
     IdentityProtocol.fill IdentityProtocol.empty identity = Ok idp
     /\ IdentityProtocol.verify idp = Ok true)
  /\ (exists signed,
        PreKeySignedProtocol.sign preKeySigned (privateKey (Identity.signingKey identity))
        = Ok signed
        /\ PreKeySignedProtocol.verify signed (Some (publicKey (Identity.signingKey identity)))
           = Ok true
        /\ PreKeySignedProtocol.id signed = PreKeySignedProtocol.id preKeySigned
        /\ PreKeySignedProtocol.key signed = Some k).
Proof.
  intros Hwf Hk. split.
  - destruct (fill_verifies identity Hwf) as (idp & Hfill & Hv & _). by exists idp.
  - destruct (sign_verify (Identity.signingKey identity) (serialized k) Hwf)
      as (sig & Hsign & Hverify).
    unfold PreKeySignedProtocol.sign. rewrite Hk. cbn [req bind]. rewrite Hsign. cbn [bind].
    eexists. split; [reflexivity|].
    unfold PreKeySignedProtocol.verify. cbn. rewrite Hk. cbn. by rewrite Hverify.
Qed.

Lemma toy_keyPair_wf_ed25519 (raw : bytes) :
  length raw = 32%nat ->
  wf_ed25519 (E := Toy.engine) (P := Toy.platform) (Toy.keyPair Ed25519 raw).
Proof. intros Hlen. by exists raw. Qed.

Lemma bundle_signatures_verify_witness :
  (exists idp,
     IdentityProtocol.fill (E := Toy.engine) IdentityProtocol.empty Fixtures.alice = Ok idp
     /\ IdentityProtocol.verify (E := Toy.engine) idp = Ok true)
  /\ (exists signed,
        PreKeySignedProtocol.sign (E := Toy.engine)
          {| PreKeySignedProtocol.version := None; PreKeySignedProtocol.id := Some 0;
             PreKeySignedProtocol.key := Some (publicKey Fixtures.alice_signedPreKey);
             PreKeySignedProtocol.signature := None |}
          (privateKey (Identity.signingKey Fixtures.alice)) = Ok signed
        /\ PreKeySignedProtocol.verify (E := Toy.engine) signed
             (Some (publicKey (Identity.signingKey Fixtures.alice))) = Ok true
        /\ PreKeySignedProtocol.id signed = Some 0
        /\ PreKeySignedProtocol.key signed = Some (publicKey Fixtures.alice_signedPreKey)).
Proof.
  apply (bundle_signatures_verify (E := Toy.engine) (P := Toy.platform)
           (PL := toy_platform_laws) Fixtures.alice
           {| PreKeySignedProtocol.version := None; PreKeySignedProtocol.id := Some 0;
              PreKeySignedProtocol.key := Some (publicKey Fixtures.alice_signedPreKey);
              PreKeySignedProtocol.signature := None |}
           (publicKey Fixtures.alice_signedPreKey)).
  - by apply toy_keyPair_wf_ed25519.
  - reflexivity.
Defined.

(** ** The first message of a session *)

(** The first encrypt of a session made from a bundle: the chain key comes
    from the root key and the Diffie-Hellman output of the ratchet key and
    the signed pre-key, and the sealed message is wrapped into a
    [PreKeyMessageProtocol]. *)
Lemma encrypt_first_spec {E : Engine} (a a' : AsymmetricRatchet.t)
    (cur : DHRatchetStepEnhanced.t) (remote : ECPublicKey) (fresh : IECKeyPair)
    (p : bytes) (m : PreKeyMessageProtocol.t + MessageSignedProtocol.t) :
  AsymmetricRatchet.heap a !! AsymmetricRatchet.currentStep a = Some cur ->
  DHRatchetStepEnhanced.sendingChain cur = None ->
  DHRatchetStepEnhanced.receivingChain cur = None ->
  DHRatchetStepEnhanced.remoteRatchetKey cur = Some remote ->
  DHRatchetStepStackEnhanced.length (AsymmetricRatchet.steps a) = 0 ->
  AsymmetricRatchet.encrypt p fresh a = (Ok m, a') ->
  exists d k0 ck idp sm rkey,
    Curve.deriveBytes (privateKey (AsymmetricRatchet.currentRatchetKey a)) remote = Ok d
    /\ Secret.HKDF d 2 (Some (AsymmetricRatchet.rootKey a)) INFO_RATCHET !! 0%nat = Some k0
    /\ Secret.HKDF d 2 (Some (AsymmetricRatchet.rootKey a)) INFO_RATCHET !! 1%nat = Some ck
    /\ IdentityProtocol.fill IdentityProtocol.empty (AsymmetricRatchet.identity a) = Ok idp
    /\ RemoteIdentity.signingKey (AsymmetricRatchet.remoteIdentity a) = Some rkey
    /\ sealed_message ck (publicKey (AsymmetricRatchet.currentRatchetKey a))
         (AsymmetricRatchet.counter a) (serialized rkey)
         (serialized (publicKey (Identity.signingKey (AsymmetricRatchet.identity a))))
         0 p sm
    /\ m = inl {| PreKeyMessageProtocol.version := None;
                  PreKeyMessageProtocol.registrationId :=
                    Some (Identity.id (AsymmetricRatchet.identity a));
                  PreKeyMessageProtocol.preKeyId := AsymmetricRatchet.remotePreKeyId a;
                  PreKeyMessageProtocol.preKeySignedId :=
                    AsymmetricRatchet.remotePreKeySignedId a;
                  PreKeyMessageProtocol.baseKey :=
                    Some (publicKey (AsymmetricRatchet.currentRatchetKey a));
                  PreKeyMessageProtocol.identity := Some idp;
                  PreKeyMessageProtocol.signedMessage := Some sm |}.
Proof.
  intros Hcur Hchain Hrc Hremote Hlen Henc.
  assert (Hlt : (AsymmetricRatchet.currentStep a < length (AsymmetricRatchet.heap a))%nat)
    by (by eapply lookup_lt_Some).
  unfold AsymmetricRatchet.encrypt in Henc.
  unfold bindM at 1 in Henc. unfold get at 1 in Henc.
  unfold bindM at 1 in Henc. unfold AsymmetricRatchet.read_step at 1 in Henc.
  rewrite Hcur in Henc. cbn [req] in Henc.
  rewrite Hchain, Hremote, Hrc in Henc.
  unfold bindM at 1 in Henc. unfold ret at 1 in Henc.
  unfold bindM at 1 in Henc. unfold bindM at 1 in Henc. unfold get at 1 in Henc.
  unfold bindM at 1 in Henc. unfold AsymmetricRatchet.createChain at 1 in Henc.
  unfold bindM at 1 in Henc. unfold lift at 1 in Henc.
  destruct (Curve.deriveBytes (privateKey (AsymmetricRatchet.currentRatchetKey a)) remote)
    as [d|e] eqn:Hd; [|discriminate].
  unfold bindM at 1 in Henc. unfold get at 1 in Henc.
  unfold bindM at 1 in Henc. unfold lift at 1 in Henc.
  destruct (Secret.HKDF d 2 (Some (AsymmetricRatchet.rootKey a)) INFO_RATCHET !! 0%nat)
    as [k0|] eqn:Hk0; [|discriminate].
  cbn [req] in Henc.
  unfold bindM at 1 in Henc. unfold lift at 1 in Henc.
  destruct (Secret.HKDF d 2 (Some (AsymmetricRatchet.rootKey a)) INFO_RATCHET !! 1%nat)
    as [ck|] eqn:Hk1; [|discriminate].
  cbn [req] in Henc.
  unfold bindM at 1 in Henc. unfold put at 1 in Henc. unfold ret at 1 in Henc.
  unfold AsymmetricRatchet.write_step at 1 in Henc.
  match type of Henc with _ ?s = _ => set (a1 := s) in Henc end.
  assert (Hcur1 : AsymmetricRatchet.heap a1 !! AsymmetricRatchet.currentStep a1
                  = Some (DHRatchetStepEnhanced.set_sendingChain
                            (Some (SendingRatchet.new ck)) cur)).
  { subst a1. cbn. by apply list_lookup_insert_eq. }
  change (encrypt_tail p a1 = (Ok m, a')) in Henc.
  destruct (encrypt_tail_spec ck (AsymmetricRatchet.currentRatchetKey a)
              (AsymmetricRatchet.counter a) (AsymmetricRatchet.identity a)
              (AsymmetricRatchet.remoteIdentity a) 0 a1 a' p m)
    as (sm & rkey & Hsm & Hrkey & Hsealed & _); [|done|].
  { eexists. split; [exact Hcur1|]. done. }
  unfold encrypt_tail in Henc.
  unfold bindM at 1 in Henc. unfold get at 1 in Henc.
  unfold bindM at 1 in Henc. unfold AsymmetricRatchet.read_step at 1 in Henc.
  rewrite Hcur1 in Henc. cbn [req] in Henc.
  unfold bindM at 1 in Henc. unfold lift at 1 in Henc.
  cbn [DHRatchetStepEnhanced.sendingChain DHRatchetStepEnhanced.set_sendingChain req]
    in Henc.
  change (SendingRatchet.new ck)
    with {| SendingRatchet.counter := Z.of_nat 0;
            SendingRatchet.rootKey := chainKey ck 0 |} in Henc.
  cbn [SendingRatchet.counter] in Henc.
  rewrite sending_encrypt_spec in Henc.
  unfold bindM at 1 in Henc. unfold AsymmetricRatchet.write_step at 1 in Henc.
  unfold bindM at 1 in Henc. unfold lift at 1 in Henc.
  destruct (MessageKeys.derive (messageKey ck 0)) as [keys|e] eqn:Hkeys; [|discriminate].
  cbn [cm_cipherText cm_hmacKey SendingRatchet.counter] in Henc.
  change (DHRatchetStepStackEnhanced.length (AsymmetricRatchet.steps a1))
    with (DHRatchetStepStackEnhanced.length (AsymmetricRatchet.steps a)) in Henc.
  change (DHRatchetStepEnhanced.receivingChain
            (DHRatchetStepEnhanced.set_sendingChain
               (Some {| SendingRatchet.counter := Z.of_nat 0;
                        SendingRatchet.rootKey := chainKey ck 0 |}) cur))
    with (DHRatchetStepEnhanced.receivingChain cur) in Henc.
  rewrite Hlen, Hrc in Henc.
  change ((0 =? 0) && negb (bool_decide (is_Some (@None ReceivingRatchet.t)))
          && (Z.of_nat 1 =? 1)) with true in Henc.
  cbv iota in Henc.
  unfold bindM at 1 in Henc. unfold bindM at 1 in Henc. unfold lift at 1 in Henc.
  change (AsymmetricRatchet.identity a1) with (AsymmetricRatchet.identity a) in Henc.
  destruct (IdentityProtocol.fill IdentityProtocol.empty (AsymmetricRatchet.identity a))
    as [idp|e] eqn:Hfill; [|discriminate].
  unfold ret at 1 in Henc.
  unfold bindM at 1 in Henc. unfold lift at 1 in Henc.
  match type of Henc with
  | context [MessageSignedProtocol.sign ?body ?key] =>
      destruct (MessageSignedProtocol.sign body key) as [signed|e]; [|discriminate]
  end.
  unfold ret in Henc. injection Henc as <- _.
  cbn in Hsm. injection Hsm as ->.
  exists d, k0, ck, idp, sm, rkey.
  repeat (split; [done|]). reflexivity.
Qed.

(** A new receiving chain opens the message of counter 0. *)
Lemma receiving_first {E : Engine} {L : EngineLaws E} (ck : bytes) (pc : Z) (p : bytes)
    (keys : MessageKeys.t) (now : Z) (stamp : Z -> Z) :
  MessageKeys.derive (messageKey ck 0) = Ok keys ->
  exists chain',
    ReceivingRatchet.decrypt
      (Some (Secret.encrypt (MessageKeys.aesKey keys) p (MessageKeys.iv keys)
               (Some (AsymmetricRatchet.createMinimalAAD 0 pc))))
      0 (Some (AsymmetricRatchet.createMinimalAAD 0 pc)) now stamp (ReceivingRatchet.new ck)
    = (Ok {| cm_cipherText := p; cm_hmacKey := MessageKeys.hmacKey keys |}, chain').
Proof.
  intros Hkeys.
  destruct (getKey_cases 0 now stamp (ReceivingRatchet.new ck))
    as [(key & Hkey & _)|[(_ & Hlt & _)|(_ & _ & this1 & Hget & _)]].
  - exfalso. revert Hkey. unfold ReceivingRatchet.cleanupExpiredKeys, ReceivingRatchet.expired.
    cbn. by rewrite map_filter_empty, map_to_list_empty.
  - cbn in Hlt. lia.
  - eexists. unfold ReceivingRatchet.decrypt, bindM, lift, ret. rewrite Hget.
    cbn [ReceivingRatchet.new ReceivingRatchet.rootKey ReceivingRatchet.counter].
    change (Z.to_nat (0 - 0)) with 0%nat. rewrite Hkeys.
    cbn [req]. unfold Secret.decrypt, Secret.encrypt. cbn [default from_option id].
    by rewrite aes_gcm_correct.
Qed.

(** The root keys of the two sides of X3DH, as the sessions compute them. *)
Lemma x3dh_roots_agree {E : Engine} {L : EngineLaws E}
    (IKa IKb : Identity.t) (EKa SPKb : IECKeyPair) (OPKb : option IECKeyPair) :
  wf_x25519 (Identity.exchangeKey IKa) ->
  wf_x25519 (Identity.exchangeKey IKb) ->
  wf_x25519 EKa ->
  wf_x25519 SPKb ->
  (forall k, OPKb = Some k -> wf_x25519 k) ->
  X3DH.authenticateB IKb SPKb (publicKey (Identity.exchangeKey IKa))
    (publicKey EKa) (privateKey <$> OPKb)
  = X3DH.authenticateA IKa EKa (publicKey (Identity.exchangeKey IKb))
      (publicKey SPKb) (publicKey <$> OPKb).
Proof.
  intros HIKa HIKb HEKa HSPKb HOPKb.
  unfold X3DH.authenticateA, X3DH.authenticateB.
  rewrite (deriveBytes_agree _ _ HIKa HSPKb), (deriveBytes_agree _ _ HEKa HIKb),
    (deriveBytes_agree _ _ HEKa HSPKb).
  destruct OPKb as [k|]; simpl; [|done].
  by rewrite (deriveBytes_agree _ _ HEKa (HOPKb k eq_refl)).
Qed.

(** X21. The first message of a session opens at the other
    side.  An identity publishes a bundle with one of its signed pre-keys
    and, possibly, one of its one-time pre-keys; an initiator creates a
    session from the bundle with [AsymmetricRatchet.create] and encrypts
    a plaintext.  Whenever these two calls succeed, the result of
    [encrypt] is a [PreKeyMessageProtocol]; [AsymmetricRatchet.create] on
    it succeeds for the publisher, with the root key of the initiator's
    session before its first encrypt, and [decrypt] of its signed message
    returns the plaintext, provided the publisher's ring holds at least one
    step. *)
Theorem first_message_opens {E : Engine} {P : Platform}
    {L : EngineLaws E} {PL : PlatformLaws E P}
    (initiator responder : Identity.t) (signedPreKeyId : Z) (signedPreKey : IECKeyPair)
    (preKey : option (Z * IECKeyPair)) (limits limits' : IRatchetLimitsOpt)
    (ratchetKey fresh : IECKeyPair) (bundle : PreKeyBundleProtocol.t)
    (sb sb' : AsymmetricRatchet.t) (m : PreKeyMessageProtocol.t + MessageSignedProtocol.t)
    (p : bytes) (now : Z) (stamp : Z -> Z) :
  wf_ed25519 (Identity.signingKey initiator) ->
  wf_ed25519 (Identity.signingKey responder) ->
  wf_x25519 (Identity.exchangeKey initiator) ->
  wf_x25519 (Identity.exchangeKey responder) ->
  wf_x25519 ratchetKey ->
  wf_x25519 signedPreKey ->
  JsArray.get (Identity.signedPreKeys responder) signedPreKeyId = Some signedPreKey ->
  (forall j k, preKey = Some (j, k) ->
     wf_x25519 k /\ JsArray.get (Identity.preKeys responder) j = Some k) ->
  1 <= DHRatchetStepStackEnhanced.maxSize (DHRatchetStepStackEnhanced.new limits') ->
  publish_bundle responder signedPreKeyId signedPreKey preKey = Ok bundle ->
  AsymmetricRatchet.create_from_bundle initiator bundle limits ratchetKey = Ok sb ->
  AsymmetricRatchet.encrypt p fresh sb = (Ok m, sb') ->
  exists pkm sm sa responder',
    m = inl pkm
    /\ PreKeyMessageProtocol.signedMessage pkm = Some sm
    /\ AsymmetricRatchet.create_from_message pkm limits' responder = (Ok sa, responder')
    /\ AsymmetricRatchet.rootKey sa = AsymmetricRatchet.rootKey sb
    /\ fst (AsymmetricRatchet.decrypt sm now stamp sa) = Ok p.
Proof.
  intros Hsi Hsr Hxi Hxr Hrk Hspk Hget Hpre Hmax Hpub Hcb Henc.
  destruct (fill_verifies responder Hsr) as (idr & Hfillr & Hvr & Hskr & Hekr & _).
  destruct (fill_verifies initiator Hsi) as (idi & Hfilli & Hvi & Hski & Heki & _).
  destruct (sign_verify (Identity.signingKey responder) (serialized (publicKey signedPreKey))
              Hsr) as (sig & Hsign & Hverify).
  (* the bundle *)
  unfold publish_bundle in Hpub. rewrite Hfillr in Hpub. cbn [bind] in Hpub.
  unfold PreKeySignedProtocol.sign in Hpub.
  cbn [PreKeySignedProtocol.key req bind] in Hpub. rewrite Hsign in Hpub.
  cbn [bind] in Hpub. injection Hpub as <-.
  (* the initiator's session *)
  unfold AsymmetricRatchet.create_from_bundle in Hcb.
  cbn [PreKeyBundleProtocol.identity PreKeyBundleProtocol.preKeySigned
       PreKeyBundleProtocol.preKey PreKeyBundleProtocol.registrationId req bind] in Hcb.
  rewrite Hvr in Hcb. cbn [bind negb] in Hcb.
  unfold PreKeySignedProtocol.verify in Hcb.
  cbn [PreKeySignedProtocol.set_signature PreKeySignedProtocol.key
       PreKeySignedProtocol.signature PreKeySignedProtocol.id req bind] in Hcb.
  rewrite Hskr, Hekr in Hcb. cbn [default from_option id req bind] in Hcb.
  rewrite Hverify in Hcb. cbn [bind negb req] in Hcb.
  assert (Hopk : ((fun jk : Z * IECKeyPair =>
                     {| PreKeyProtocol.version := None;
                        PreKeyProtocol.id := Some (fst jk);
                        PreKeyProtocol.key := Some (publicKey (snd jk)) |}) <$> preKey)
                 ≫= PreKeyProtocol.key = publicKey <$> (snd <$> preKey))
    by (by destruct preKey).
  assert (Hoid : ((fun jk : Z * IECKeyPair =>
                     {| PreKeyProtocol.version := None;
                        PreKeyProtocol.id := Some (fst jk);
                        PreKeyProtocol.key := Some (publicKey (snd jk)) |}) <$> preKey)
                 ≫= PreKeyProtocol.id = fst <$> preKey)
    by (by destruct preKey).
  rewrite Hopk, Hoid in Hcb.
  destruct (X3DH.authenticateA initiator ratchetKey (publicKey (Identity.exchangeKey responder))
              (publicKey signedPreKey) (publicKey <$> (snd <$> preKey)))
    as [root|e] eqn:Hroot; [|discriminate].
  cbn [bind] in Hcb. injection Hcb as <-.
  (* the first message *)
  eapply (encrypt_first_spec _ _ _ (publicKey signedPreKey)) in Henc; [|reflexivity..].
  destruct Henc
    as (d & k0 & ck & idi' & sm & rkey & Hd & Hk0 & Hk1 & Hfill' & Hrkey & Hsealed & ->).
  cbn [AsymmetricRatchet.currentRatchetKey AsymmetricRatchet.rootKey
       AsymmetricRatchet.identity AsymmetricRatchet.remoteIdentity
       AsymmetricRatchet.counter AsymmetricRatchet.remotePreKeyId
       AsymmetricRatchet.remotePreKeySignedId] in *.
  rewrite Hfilli in Hfill'. injection Hfill' as <-.
  cbn [RemoteIdentity.signingKey RemoteIdentity.set_id RemoteIdentity.fill] in Hrkey.
  rewrite Hskr in Hrkey. injection Hrkey as <-.
  (* the responder's session *)
  assert (Htake : exists responder',
             AsymmetricRatchet.take_preKey responder (fst <$> preKey)
             = (snd <$> preKey, responder')
             /\ Identity.exchangeKey responder' = Identity.exchangeKey responder
             /\ Identity.signingKey responder' = Identity.signingKey responder
             /\ Identity.id responder' = Identity.id responder).
  { destruct preKey as [[j k]|]; cbn.
    - destruct (Hpre j k eq_refl) as [_ ->]. by eexists.
    - by eexists. }
  destruct Htake as (responder' & Htake & Hxr' & Hsr' & Hid').
  destruct Hsealed as (keys & msg & raw & Hkeys & Hmsg & Hsrk & Hc & Hpc & Hct & Hraw & Hsig).
  assert (Hrootb : X3DH.authenticateB responder' signedPreKey
                     (publicKey (Identity.exchangeKey initiator)) (publicKey ratchetKey)
                     (privateKey <$> (snd <$> preKey)) = Ok root).
  { rewrite <- Hroot. rewrite <- Hxr'. apply x3dh_roots_agree; try done.
    - by rewrite Hxr'.
    - intros k Hk. destruct preKey as [[j k']|]; [|done].
      injection Hk as <-. by destruct (Hpre j k' eq_refl). }
  eexists _, sm, _, responder'.
  split; [reflexivity|]. split; [reflexivity|].
  unfold AsymmetricRatchet.create_from_message.
  cbn [PreKeyMessageProtocol.identity PreKeyMessageProtocol.preKeySignedId
       PreKeyMessageProtocol.preKeyId PreKeyMessageProtocol.signedMessage req bind].
  rewrite Hvi. cbn [bind negb mbind option_bind]. rewrite Hget, Htake.
  rewrite Heki. cbn [req bind]. rewrite Hmsg. cbn [req bind]. rewrite Hsrk, Hrootb.
  cbn [bind].
  split; [reflexivity|]. split; [reflexivity|].
  (* the responder's decrypt *)
  match goal with |- fst (AsymmetricRatchet.decrypt _ _ _ ?s) = _ => set (sa := s) end.
  rewrite (deriveBytes_agree _ _ Hrk Hspk) in Hd.
  destruct (receiving_first ck 0 p keys now stamp Hkeys) as (chain' & Hdec).
  destruct (decrypt_new_step sa sm msg (publicKey ratchetKey) 0 d k0 ck now stamp)
    as (b' & r & st' & Heq & _); try done.
  { rewrite Hpc. subst sa.
    cbn [AsymmetricRatchet.lt_number AsymmetricRatchet.counter AsymmetricRatchet.steps].
    apply Z.ltb_ge. lia. }
  { subst sa. cbn [AsymmetricRatchet.steps].
    change (0 <= DHRatchetStepStackEnhanced.maxSize (DHRatchetStepStackEnhanced.new limits')).
    lia. }
  cbv zeta in Heq. rewrite Heq. cbn [fst].
  rewrite Hct. unfold AsymmetricRatchet.header_aad. rewrite Hc, Hpc.
  cbn [default from_option id]. change (Z.of_nat 0) with 0. rewrite Hdec.
  cbn [fst decrypt_outcome cm_hmacKey cm_cipherText].
  rewrite (verify_sealed sa sm msg raw (MessageKeys.hmacKey keys)
             (publicKey (Identity.signingKey initiator))); try done.
  subst sa. cbn [AsymmetricRatchet.identity]. by rewrite Hsr'.
Qed.

Lemma toy_keyPair_wf_x25519 (raw : bytes) :
  length raw = 32%nat -> wf_x25519 (E := Toy.engine) (Toy.keyPair X25519 raw).
Proof. intros Hlen. by exists raw. Qed.

Lemma first_message_opens_witness :
  exists pkm sm sa responder',
    fst (AsymmetricRatchet.encrypt (E := Toy.engine) Fixtures.hello_alice
           Fixtures.bob_ephemeral Shuffled.bob) = Ok (inl pkm)
    /\ PreKeyMessageProtocol.signedMessage pkm = Some sm
    /\ AsymmetricRatchet.create_from_message (E := Toy.engine) pkm no_limits Fixtures.alice
       = (Ok sa, responder')
    /\ fst (AsymmetricRatchet.decrypt (E := Toy.engine) sm 0 (fun _ => 0) sa)
       = Ok Fixtures.hello_alice.
Proof.
  edestruct (first_message_opens (E := Toy.engine) (P := Toy.platform)
               (L := toy_laws) (PL := toy_platform_laws)
               Fixtures.bob Fixtures.alice 0 Fixtures.alice_signedPreKey
               (Some (0, Fixtures.alice_preKey)) no_limits no_limits
               Fixtures.bob_ephemeral Fixtures.bob_ephemeral)
    as (pkm & sm & sa & responder' & Hm & Hsm & Hsa & _ & Hp).
  - by apply toy_keyPair_wf_ed25519.
  - by apply toy_keyPair_wf_ed25519.
  - by apply toy_keyPair_wf_x25519.
  - by apply toy_keyPair_wf_x25519.
  - by apply toy_keyPair_wf_x25519.
  - by apply toy_keyPair_wf_x25519.
  - reflexivity.
  - intros j k [= <- <-]. split; [by apply toy_keyPair_wf_x25519|reflexivity].
  - vm_compute. discriminate.
  - vm_compute. reflexivity.
  - vm_compute. reflexivity.
  - vm_compute. reflexivity.
  - exists pkm, sm, sa, responder'. split; [|split; [done|split; [exact Hsa|exact Hp]]].
    rewrite <- Hm. vm_compute. reflexivity.
Defined.
